(** * neurokernel.tools.graph: connectivity object <-> NetworkX multigraph

    A shallow embedding of [conn_to_graph] and [graph_to_conn] of
    neurokernel/tools/graph.py, together with the small part of Python and
    of NetworkX's [MultiDiGraph] that the two functions rely on, and of
    [gen_sels] of examples/timing/timing_demo.py.

    Python dictionaries are association lists in insertion order; an
    exception is a value of [exn] carried in the left summand of [result]. *)

From Stdlib Require Import String Ascii List ZArith Bool Lia Arith.
From Stdlib Require Import Decimal DecimalString DecimalPos DecimalZ.
From Stdlib Require Import Permutation.
From Stdlib Require SpecFloat.

#[local] Set Warnings "-notation-for-abbreviation".
Import ListNotations.

#[local] Open Scope string_scope.
#[local] Open Scope list_scope.
#[local] Open Scope nat_scope.

(* ===================================================================== *)
(** ** Python: exceptions and the error monad *)

(** The exception classes that can leave the two functions, with the text
    they carry ([KeyError] carries the text of the missing key). *)
Inductive exn : Type :=
| ValueError (msg : string)
| KeyError (key : string)
| OverflowError (msg : string).

Definition result (A : Type) : Type := (exn + A)%type.

Definition ret {A} (a : A) : result A := inr a.
Definition raise {A} (e : exn) : result A := inl e.

Definition bind {A B} (m : result A) (k : A -> result B) : result B :=
  match m with
  | inl e => inl e
  | inr a => k a
  end.

Notation "x <- m ;; k" := (bind m (fun x => k))
  (at level 61, m at next level, right associativity).
Notation "' p <- m ;; k" := (bind m (fun x => match x with p => k end))
  (at level 61, p pattern, m at next level, right associativity).

(** [for x in xs: s = body x s], leaving at the first exception. *)
Fixpoint foreach {A S} (xs : list A) (body : A -> S -> result S) (s : S)
  : result S :=
  match xs with
  | [] => ret s
  | x :: xs' => s' <- body x s ;; foreach xs' body s'
  end.

Definition of_option {A} (o : option A) (e : exn) : result A :=
  match o with
  | Some a => ret a
  | None => raise e
  end.

(* ===================================================================== *)
(** ** Python: decidable equality of keys *)

Class EqDec (K : Type) := eq_dec : forall x y : K, {x = y} + {x <> y}.

#[export] Instance string_EqDec : EqDec string := string_dec.
#[export] Instance Z_EqDec : EqDec Z := Z.eq_dec.
#[export] Instance nat_EqDec : EqDec nat := Nat.eq_dec.

#[export] Instance prod_EqDec {A B} `{EqDec A} `{EqDec B} : EqDec (A * B).
Proof.
  intros [a b] [a' b'].
  destruct (eq_dec a a') as [Ha | Ha]; [ | right; congruence ].
  destruct (eq_dec b b') as [Hb | Hb]; [ left | right ]; congruence.
Defined.

Definition eqb_of {K} `{EqDec K} (x y : K) : bool :=
  if eq_dec x y then true else false.

(* ===================================================================== *)
(** ** Python: dictionaries and sets *)

(** A dictionary: its items in insertion order, every key once. *)
Notation dict K V := (list (K * V)%type) (only parsing).

Section Dict.
Context {K V : Type} `{EqDec K}.

(** [d.get(k)] *)
Fixpoint dict_get (k : K) (d : dict K V) : option V :=
  match d with
  | [] => None
  | (k', v) :: d' => if eq_dec k k' then Some v else dict_get k d'
  end.

(** [d[k] = v]: an existing key keeps its place, a new key goes last. *)
Fixpoint dict_set (k : K) (v : V) (d : dict K V) : dict K V :=
  match d with
  | [] => [(k, v)]
  | (k', v') :: d' =>
      if eq_dec k k' then (k, v) :: d' else (k', v') :: dict_set k v d'
  end.

Definition dict_keys (d : dict K V) : list K := map fst d.

Definition dict_has (k : K) (d : dict K V) : bool :=
  match dict_get k d with Some _ => true | None => false end.
End Dict.


Section PySet.
Context {K : Type} `{EqDec K}.

Fixpoint mem (x : K) (s : list K) : bool :=
  match s with
  | [] => false
  | y :: s' => if eq_dec x y then true else mem x s'
  end.

(** [s.add(x)] on a set kept as a list without repetition. *)
Definition set_add (x : K) (s : list K) : list K :=
  if mem x s then s else s ++ [x].

(** [set(xs)] *)
Definition set_of (xs : list K) : list K :=
  fold_left (fun s x => set_add x s) xs [].

Definition subset (s t : list K) : bool := forallb (fun x => mem x t) s.

(** [s == t] on sets *)
Definition set_eqb (s t : list K) : bool := subset s t && subset t s.
End PySet.

(** [for n in s] on a set of ints. The hash of a small int is the int, and
    CPython keeps the table of a set larger than the set: the members
    0, ..., N-1, which is what line 185 leaves to lines 196-209, sit each in
    the slot of its own value, and the loop meets them in ascending order,
    in whatever order they were added. *)
Fixpoint insert_sorted (x : Z) (s : list Z) : list Z :=
  match s with
  | [] => [x]
  | y :: s' => if (x <=? y)%Z then x :: s else y :: insert_sorted x s'
  end.

Definition hash_order (s : list Z) : list Z := fold_right insert_sorted [] s.

(* ===================================================================== *)
(** ** Python: text *)

Definition no_char (c : ascii) (s : string) : bool :=
  forallb (fun x => negb (Ascii.eqb x c)) (list_ascii_of_string s).

(** [s.split(c)] for a one-character separator. *)
Fixpoint split_on (c : ascii) (s : string) : list string :=
  match s with
  | EmptyString => [EmptyString]
  | String x r =>
      if Ascii.eqb x c then EmptyString :: split_on c r
      else match split_on c r with
           | h :: t => String x h :: t
           | [] => [String x EmptyString]
           end
  end.

Fixpoint ends_with (suffix s : string) : bool :=
  String.eqb s suffix ||
  match s with
  | EmptyString => false
  | String _ r => ends_with suffix r
  end.

Definition newline : ascii := "010"%char.

(** [re.match('.*\/conn$', k)]: [.] stops at a line break and [$] stands at
    the end of the text or before a line break that ends it. *)
Definition re_match_conn (k : string) : bool :=
  match split_on newline k with
  | [l] => ends_with "/conn" l
  | [l; EmptyString] => ends_with "/conn" l
  | _ => false
  end.

(** The last colon of [r] that has text after it. *)
Fixpoint rcolon (r : string) : option (string * string) :=
  match r with
  | EmptyString => None
  | String x r' =>
      match rcolon r' with
      | Some (a, b) => Some (String x a, b)
      | None =>
          if Ascii.eqb x ":" && negb (String.eqb r' EmptyString)
          then Some (EmptyString, r') else None
      end
  end.

(** ['(.+):(.+)'] on one line: the greedy first group runs to the last
    colon that leaves text on both sides. *)
Definition line_groups (l : string) : option (string * string) :=
  match l with
  | EmptyString => None
  | String x r =>
      match rcolon r with
      | Some (a, b) => Some (String x a, b)
      | None => None
      end
  end.

Fixpoint first_some {A B} (f : A -> option B) (xs : list A) : option B :=
  match xs with
  | [] => None
  | x :: xs' => match f x with Some b => Some b | None => first_some f xs' end
  end.

(** [re.search('(.+):(.+)', label).groups()]; [None] when there is no match
    (the source then fails on [.groups()], inside its [try]). *)
Definition re_search_label (label : string) : option (string * string) :=
  first_some line_groups (split_on newline label).

(** [str(n)] for an integer. *)
Definition py_str (n : Z) : string := NilZero.string_of_int (Z.to_int n).

Definition is_space (c : ascii) : bool :=
  match c with
  | " "%char | "009"%char | "010"%char | "011"%char | "012"%char
  | "013"%char => true
  | _ => false
  end.

Fixpoint lstrip (s : string) : string :=
  match s with
  | String c r => if is_space c then lstrip r else s
  | EmptyString => EmptyString
  end.

Fixpoint rstrip (s : string) : string :=
  match s with
  | EmptyString => EmptyString
  | String c r =>
      match rstrip r with
      | EmptyString => if is_space c then EmptyString else String c EmptyString
      | r' => String c r'
      end
  end.

(** [int(s)] for text in base ten: blanks around it are dropped, one sign is
    allowed; [None] stands for the [ValueError] of [int]. *)
Definition py_int_of_string (s : string) : option Z :=
  let t := rstrip (lstrip s) in
  let digits :=
    match t with
    | String "+" (String "-" _) => EmptyString
    | String "+" (String "+" _) => EmptyString
    | String "+" r => r
    | _ => t
    end in
  option_map Z.of_int (NilZero.int_of_string digits).

Definition int_error (s : string) : exn :=
  ValueError ("invalid literal for int() with base 10: '" ++ s ++ "'").

(** [[f(x, y) for x, y in itertools.product(xs, ys)]] *)
Definition product {A B} (xs : list A) (ys : list B) : list (A * B) :=
  flat_map (fun x => map (fun y => (x, y)) ys) xs.

(** [xrange(n)] *)
Definition xrange (n : nat) : list Z := map Z.of_nat (seq 0 n).

(** [range(n)] for an integer that may be negative. *)
Definition py_range (n : Z) : list Z := xrange (Z.to_nat n).

(** [enumerate(xs)] *)
Definition enumerate {A} (xs : list A) : list (Z * A) :=
  combine (xrange (length xs)) xs.

(** [max(xs)]; the built-in raises on an empty sequence. *)
Definition py_max (xs : list Z) : result Z :=
  match xs with
  | [] => raise (ValueError "max() arg is an empty sequence")
  | x :: xs' => ret (fold_left Z.max xs' x)
  end.


(** The text Python 2 gives when a sequence of [n] parts is unpacked into
    [want] names. *)
Definition unpack_error (want n : nat) : exn :=
  if Nat.ltb want n then ValueError "too many values to unpack"
  else ValueError ("need more than " ++ py_str (Z.of_nat n) ++
                   (if Nat.eqb n 1 then " value" else " values") ++ " to unpack").

Definition unpack2 {A} (xs : list A) : result (A * A) :=
  match xs with
  | [a; b] => ret (a, b)
  | _ => raise (unpack_error 2 (length xs))
  end.

Definition unpack4 {A} (xs : list A) : result (A * A * A * A) :=
  match xs with
  | [a; b; c; d] => ret (a, b, c, d)
  | _ => raise (unpack_error 4 (length xs))
  end.

Fixpoint mapM {A B} (f : A -> result B) (xs : list A) : result (list B) :=
  match xs with
  | [] => ret []
  | x :: xs' => y <- f x ;; ys <- mapM f xs' ;; ret (y :: ys)
  end.

(* ===================================================================== *)
(** ** Python: numbers and values *)

(** What the two functions ask of Python's [float]: conversion from an
    integer and from text, truncation to an integer, and comparison with an
    integer. *)
Class PyFloatOps : Type := {
  float : Type;
  float_of_Z : Z -> result float;
  float_of_string : string -> result float;
  float_to_Z : float -> result Z;
  float_eqb_Z : float -> Z -> bool
}.

(** Modelled from the spec: a key of the parameter store of a connectivity
    object, (source id, destination id, parallel-slot index, parameter
    name). *)
Notation conn_key := (string * string * Z * string)%type (only parsing).

Section Values.
Context {F : PyFloatOps}.

Inductive pyval : Type :=
| PyInt (n : Z)
| PyFloat (x : float)
| PyStr (s : string).

(** [int(v)] *)
Definition py_int (v : pyval) : result Z :=
  match v with
  | PyInt n => ret n
  | PyFloat x => float_to_Z x
  | PyStr s => of_option (py_int_of_string s) (int_error s)
  end.

(** [float(v)] *)
Definition py_float (v : pyval) : result float :=
  match v with
  | PyInt n => float_of_Z n
  | PyFloat x => ret x
  | PyStr s => float_of_string s
  end.

(** [v == n] for an integer [n] *)
Definition py_eqb_int (v : pyval) (n : Z) : bool :=
  match v with
  | PyInt m => Z.eqb m n
  | PyFloat x => float_eqb_Z x n
  | PyStr _ => false
  end.

(** [v == s] for a text [s] *)
Definition py_eqb_str (v : pyval) (s : string) : bool :=
  match v with
  | PyStr t => String.eqb t s
  | _ => false
  end.

(** The truth value of [v] in [if v:]. *)
Definition truthy (v : pyval) : bool :=
  match v with
  | PyInt m => negb (Z.eqb m 0)
  | PyFloat x => negb (float_eqb_Z x 0)
  | PyStr t => negb (String.eqb t EmptyString)
  end.

End Values.

(* ===================================================================== *)
(** ** NetworkX: [MultiDiGraph] *)

(** The attributes of a node or of an edge. *)
Notation attrs := (dict string pyval) (only parsing).

Section Graph.
Context {F : PyFloatOps}.

(** [g.node] maps a node to its attributes; [g.adj] maps a node to its
    successors, each with the dictionary of its parallel edges (edge key to
    edge attributes). *)
Record MultiDiGraph : Type := {
  node : dict string attrs;
  adj : dict string (dict string (dict Z attrs))
}.

(** [nx.MultiDiGraph()] *)
Definition empty_graph : MultiDiGraph := {| node := []; adj := [] |}.

(** [g.nodes()] *)
Definition nodes (g : MultiDiGraph) : list string := dict_keys (node g).

(** One step of [g.add_nodes_from(ns)]. *)
Definition add_node (g : MultiDiGraph) (n : string) : MultiDiGraph :=
  if dict_has n (adj g) then g
  else {| node := dict_set n [] (node g); adj := dict_set n [] (adj g) |}.

Definition add_nodes_from (g : MultiDiGraph) (ns : list string)
  : MultiDiGraph := fold_left add_node ns g.

(** [key = len(keydict); while key in keydict: key += 1]. At most
    [len(keydict)] keys are taken, so the loop ends within the fuel. *)
Fixpoint free_key (fuel : nat) (key : Z) (keydict : dict Z attrs) : Z :=
  match fuel with
  | O => key
  | S fuel' =>
      if dict_has key keydict then free_key fuel' (key + 1)%Z keydict
      else key
  end.

Definition new_key (keydict : dict Z attrs) : Z :=
  free_key (S (length keydict)) (Z.of_nat (length keydict)) keydict.

(** [g.add_edge(u, v)]: no key and no attribute is given. *)
Definition add_edge (g : MultiDiGraph) (u v : string) : MultiDiGraph :=
  let g := add_node (add_node g u) v in
  let nbrs := match dict_get u (adj g) with Some n => n | None => [] end in
  let keydict :=
    match dict_get v nbrs with
    | Some kd => dict_set (new_key kd) [] kd
    | None => [(0%Z, [])]
    end in
  {| node := node g; adj := dict_set u (dict_set v keydict nbrs) (adj g) |}.

(** [g.edges()]: one pair for every parallel edge. *)
Definition edges (g : MultiDiGraph) : list (string * string) :=
  flat_map (fun '(u, nbrs) =>
    flat_map (fun '(v, keydict) => map (fun _ => (u, v)) keydict) nbrs)
    (adj g).

(** [g[u][v]] *)
Definition getitem2 (g : MultiDiGraph) (u v : string)
  : result (dict Z attrs) :=
  nbrs <- of_option (dict_get u (adj g)) (KeyError u) ;;
  of_option (dict_get v nbrs) (KeyError v).

(** [g[u][v][key][name] = val] *)
Definition set_edge_attr (g : MultiDiGraph) (u v : string) (key : Z)
  (name : string) (val : pyval) : result MultiDiGraph :=
  nbrs <- of_option (dict_get u (adj g)) (KeyError u) ;;
  keydict <- of_option (dict_get v nbrs) (KeyError v) ;;
  a <- of_option (dict_get key keydict) (KeyError (py_str key)) ;;
  ret {| node := node g;
         adj := dict_set u
                  (dict_set v (dict_set key (dict_set name val a) keydict) nbrs)
                  (adj g) |}.

(** [g.node[n][name] = val] *)
Definition set_node_attr (g : MultiDiGraph) (n name : string) (val : pyval)
  : result MultiDiGraph :=
  a <- of_option (dict_get n (node g)) (KeyError n) ;;
  ret {| node := dict_set n (dict_set name val a) (node g); adj := adj g |}.

(** Every way of putting some of [ns] on one side. *)
Fixpoint colourings (ns : list string) : list (list string) :=
  match ns with
  | [] => [[]]
  | n :: ns' => let r := colourings ns' in r ++ map (cons n) r
  end.

Definition proper (g : MultiDiGraph) (side : list string) : bool :=
  forallb (fun '(u, v) => negb (Bool.eqb (mem u side) (mem v side))) (edges g).

(** [nx.is_bipartite(g)]: whether the nodes can be put on two sides so that
    no edge, read without its direction, stays on one side. NetworkX finds
    out by colouring along the edges; here every colouring is tried. *)
Definition nx_is_bipartite (g : MultiDiGraph) : bool :=
  existsb (proper g) (colourings (nodes g)).

(* ===================================================================== *)
(** ** The connectivity classes *)

(** Modelled from the spec: the classes base.BaseConnectivity and
    core.Connectivity are not among the sources. The store is keyed by
    [conn_key]; every key holds a matrix of values over (source index,
    destination index), and a place nothing was written to reads as the
    integer 0. *)

(** Modelled from the spec: one matrix of the sparse store. *)
Definition matrix : Type := Z -> Z -> pyval.

(** Modelled from the spec: the per-type counts of a typed model and its
    index-translation table, [idx_translate[id][type, k]] being the global
    index of the [k]-th unit of that type in population [id]. *)
Record TypeInfo : Type := {
  N_A_gpot : nat;
  N_A_spike : nat;
  N_B_gpot : nat;
  N_B_spike : nat;
  idx_translate : dict string (dict (string * Z) Z)
}.

(** Modelled from the spec: a connectivity object; [types] is [None] for a
    base.BaseConnectivity and holds the type data of a core.Connectivity. *)
Record Connectivity : Type := {
  A_id : string;
  B_id : string;
  N_A : nat;
  N_B : nat;
  N_mult : nat;
  types : option TypeInfo;
  _data : dict conn_key matrix
}.

(** Modelled from the spec: the text of a key as [c._data.keys()] shows it,
    the shape [conn_to_graph] takes apart with [split('/')]. *)
Definition make_key (k : conn_key) : string :=
  let '(src, dst, conn, name) := k in
  src ++ "/" ++ dst ++ "/" ++ py_str conn ++ "/" ++ name.

(** Modelled from the spec: [c._data.keys()]. *)
Definition _data_keys (c : Connectivity) : list string :=
  map make_key (dict_keys (_data c)).

(** Modelled from the spec: [c.N(id)], the size of a population. *)
Definition conn_N (c : Connectivity) (id : string) : result nat :=
  if eq_dec id (A_id c) then ret (N_A c)
  else if eq_dec id (B_id c) then ret (N_B c)
  else raise (ValueError "invalid module ID").

(** Modelled from the spec: the keyed read [c[src, i, dst, j, conn, name]]. *)
Definition conn_getitem (c : Connectivity) (src : string) (i : Z)
  (dst : string) (j : Z) (conn : Z) (name : string) : result pyval :=
  match dict_get (src, dst, conn, name) (_data c) with
  | Some m => ret (m i j)
  | None => raise (KeyError (make_key (src, dst, conn, name)))
  end.

(** Modelled from the spec: the read of a typed model through the type
    selector 'all', [c[src, 'all', i, dst, 'all', j, conn, name]], which
    addresses the units by their global index. *)
Definition conn_getitem_all (c : Connectivity) (src : string) (i : Z)
  (dst : string) (j : Z) (conn : Z) (name : string) : result pyval :=
  conn_getitem c src i dst j conn name.

Definition in_range (i : Z) (n : nat) : bool :=
  (Z.leb 0 i && Z.ltb i (Z.of_nat n))%bool.

Definition matrix_zero : matrix := fun _ _ => PyInt 0.

Definition matrix_set (m : matrix) (i j : Z) (v : pyval) : matrix :=
  fun i' j' => if (Z.eqb i' i && Z.eqb j' j)%bool then v else m i' j'.

(** Modelled from the spec: the keyed write
    [c[src, i, dst, j, conn, name] = v]. The two ids must be the two
    populations, one each, and the indices must lie in their sizes; a key
    written for the first time gets a fresh matrix, and [N_mult] grows to
    hold the slot. *)
Definition conn_setitem (c : Connectivity) (src : string) (i : Z)
  (dst : string) (j : Z) (conn : Z) (name : string) (v : pyval)
  : result Connectivity :=
  if negb (eqb_of src dst) then
    ns <- conn_N c src ;;
    nd <- conn_N c dst ;;
    if (in_range i ns && in_range j nd && Z.leb 0 conn)%bool then
      let k := (src, dst, conn, name) in
      let m := match dict_get k (_data c) with
               | Some m => m
               | None => matrix_zero
               end in
      ret {| A_id := A_id c; B_id := B_id c; N_A := N_A c; N_B := N_B c;
             N_mult := Nat.max (N_mult c) (S (Z.to_nat conn));
             types := types c;
             _data := dict_set k (matrix_set m i j v) (_data c) |}
    else raise (ValueError "invalid index")
  else raise (ValueError "invalid direction").

(** Modelled from the spec: the write of a typed model through the type
    selector 'all'. *)
Definition conn_setitem_all (c : Connectivity) (src : string) (i : Z)
  (dst : string) (j : Z) (conn : Z) (name : string) (v : pyval)
  : result Connectivity :=
  conn_setitem c src i dst j conn name v.

(** Modelled from the spec: [base.BaseConnectivity(N_A, N_B, N_mult, A_id,
    B_id)], a model of fixed sizes with nothing written yet. *)
Definition new_BaseConnectivity (n_a n_b n_mult : nat) (a_id b_id : string)
  : Connectivity :=
  {| A_id := a_id; B_id := b_id; N_A := n_a; N_B := n_b; N_mult := n_mult;
     types := None; _data := [] |}.

Definition default_translate (n_gpot n_spike : nat) : dict (string * Z) Z :=
  map (fun i => (("gpot", i), i)) (xrange n_gpot) ++
  map (fun i => (("spike", i), (Z.of_nat n_gpot + i)%Z)) (xrange n_spike).

(** Modelled from the spec: [core.Connectivity(N_A_gpot, N_A_spike,
    N_B_gpot, N_B_spike, N_mult, A_id, B_id)]; the population sizes are the
    sums of the per-type counts, and the fresh translation table puts the
    graded-potential units first. *)
Definition new_Connectivity (n_a_gpot n_a_spike n_b_gpot n_b_spike
  n_mult : nat) (a_id b_id : string) : Connectivity :=
  {| A_id := a_id; B_id := b_id;
     N_A := n_a_gpot + n_a_spike; N_B := n_b_gpot + n_b_spike;
     N_mult := n_mult;
     types := Some {| N_A_gpot := n_a_gpot; N_A_spike := n_a_spike;
                      N_B_gpot := n_b_gpot; N_B_spike := n_b_spike;
                      idx_translate :=
                        [(a_id, default_translate n_a_gpot n_a_spike);
                         (b_id, default_translate n_b_gpot n_b_spike)] |};
     _data := [] |}.

(* ===================================================================== *)
(** ** [conn_to_graph] *)

(** The label of unit [i] of population [id]: [id+':'+str(i)]. *)
Definition label (id : string) (i : Z) : string := id ++ ":" ++ py_str i.

(** [for i in xrange(count):
       g.node[id+':'+str(c.idx_translate[id][ty, i])]['neuron_type'] = ty] *)
Definition tag_nodes (t : TypeInfo) (id ty : string) (count : nat)
  (g : MultiDiGraph) : result MultiDiGraph :=
  foreach (xrange count) (fun i g =>
    tbl <- of_option (dict_get id (idx_translate t)) (KeyError id) ;;
    n <- of_option (dict_get (ty, i) tbl)
           (KeyError ("('" ++ ty ++ "', " ++ py_str i ++ ")")) ;;
    set_node_attr g (label id n) "neuron_type" (PyStr ty)) g.

(** The read of lines 110, 113, 126 and 130: through 'all' for a
    core.Connectivity, plain otherwise. *)
Definition read (c : Connectivity) (src : string) (i : Z) (dst : string)
  (j : Z) (conn : Z) (name : string) : result pyval :=
  match types c with
  | Some _ => conn_getitem_all c src i dst j conn name
  | None => conn_getitem c src i dst j conn name
  end.

(** [A_id, B_id, conn, name = key.split('/'); conn = int(conn)] *)
Definition parse_key (key : string) : result conn_key :=
  '(a, b, conn, name) <- unpack4 (split_on "/" key) ;;
  conn <- of_option (py_int_of_string conn) (int_error conn) ;;
  ret (a, b, conn, name).

(** The body of the loop of lines 105-114 for one key. *)
Definition add_edges_of (c : Connectivity) (key : string) (g : MultiDiGraph)
  : result MultiDiGraph :=
  '(a, b, conn, name) <- parse_key key ;;
  na <- conn_N c a ;;
  nb <- conn_N c b ;;
  foreach (product (xrange na) (xrange nb)) (fun '(i, j) g =>
    v <- read c a i b j conn name ;;
    if py_eqb_int v 1 then ret (add_edge g (label a i) (label b j))
    else ret g) g.

(** The body of the loop of lines 118-132 for one key. *)
Definition set_attrs_of (c : Connectivity) (key : string) (g : MultiDiGraph)
  : result MultiDiGraph :=
  '(a, b, conn, name) <- parse_key key ;;
  na <- conn_N c a ;;
  nb <- conn_N c b ;;
  foreach (product (xrange na) (xrange nb)) (fun '(i, j) g =>
    v <- read c a i b j conn name ;;
    if truthy v then
      v' <- read c a i b j conn name ;;
      set_edge_attr g (label a i) (label b j) conn name v'
    else ret g) g.

(** Lines 82-86: the nodes of both populations. *)
Definition graph_nodes (c : Connectivity) : MultiDiGraph :=
  let A_nodes := map (label (A_id c)) (xrange (N_A c)) in
  let B_nodes := map (label (B_id c)) (xrange (N_B c)) in
  add_nodes_from (add_nodes_from empty_graph A_nodes) B_nodes.

(** Lines 88-102: the [neuron_type] of the nodes of a core.Connectivity. *)
Definition graph_types (c : Connectivity) (g : MultiDiGraph)
  : result MultiDiGraph :=
  match types c with
  | Some t =>
      g <- tag_nodes t (A_id c) "gpot" (N_A_gpot t) g ;;
      g <- tag_nodes t (B_id c) "gpot" (N_B_gpot t) g ;;
      g <- tag_nodes t (A_id c) "spike" (N_A_spike t) g ;;
      tag_nodes t (B_id c) "spike" (N_B_spike t) g
  | None => ret g
  end.

(** Lines 104-114: the edges. *)
Definition graph_edges (c : Connectivity) (g : MultiDiGraph)
  : result MultiDiGraph :=
  foreach (filter re_match_conn (_data_keys c)) (add_edges_of c) g.

(** Lines 117-132: the attributes of the edges. *)
Definition graph_attrs (c : Connectivity) (g : MultiDiGraph)
  : result MultiDiGraph :=
  foreach (filter (fun k => negb (re_match_conn k)) (_data_keys c))
    (set_attrs_of c) g.

Definition conn_to_graph (c : Connectivity) : result MultiDiGraph :=
  g <- graph_types c (graph_nodes c) ;;
  g <- graph_edges c g ;;
  graph_attrs c g.

(* ===================================================================== *)
(** ** [graph_to_conn] *)

(** The [conn_type] argument. *)
Inductive conn_type : Type :=
| base_BaseConnectivity
| core_Connectivity.

Definition label_error (l : string) : exn :=
  ValueError ("incorrectly formatted node label: " ++ l).

(** Lines 168-175 for one label: [node_dict[id].add(int(n))]. *)
Definition add_label (l : string) (node_dict : dict string (list Z))
  : result (dict string (list Z)) :=
  match re_search_label l with
  | None => raise (label_error l)
  | Some (id, n) =>
      let s := match dict_get id node_dict with
               | Some s => s
               | None => []
               end in
      z <- of_option (py_int_of_string n) (int_error n) ;;
      ret (dict_set id (set_add z s) node_dict)
  end.

(** [set(range(max(s)+1)) != s] *)
Definition not_consecutive (s : list Z) : result bool :=
  m <- py_max s ;;
  ret (negb (set_eqb (set_of (py_range (m + 1))) s)).

(** Lines 196-202 (and 203-209): the count of the two neuron types. *)
Definition count_types (g : MultiDiGraph) (id : string) (s : list Z)
  : result (nat * nat) :=
  foreach (hash_order s) (fun n '(n_gpot, n_spike) =>
    a <- of_option (dict_get (label id n) (node g)) (KeyError (label id n)) ;;
    t <- of_option (dict_get "neuron_type" a) (KeyError "neuron_type") ;;
    if py_eqb_str t "gpot" then ret (S n_gpot, n_spike)
    else if py_eqb_str t "spike" then ret (n_gpot, S n_spike)
    else raise (ValueError "invalid neuron type")) (0, 0).

(** What lines 156-212 hand to the rest of the function. *)
Record Sizes : Type := {
  s_A_id : string;
  s_B_id : string;
  s_N_A : nat;
  s_N_B : nat;
  s_gpot_spike : option (nat * nat * nat * nat);
  s_N_mult : Z
}.

(** Lines 156-212: everything before a connectivity object is created. The
    tests of lines 156 and 160 hold by the types of [g] and [ct]. *)
Definition validate (g : MultiDiGraph) (ct : conn_type) : result Sizes :=
  if negb (nx_is_bipartite g) then raise (ValueError "graph must be bipartite")
  else
    node_dict <- foreach (nodes g) add_label [] ;;
    match node_dict with
    | [(a_id, sa); (b_id, sb)] =>
        bad_a <- not_consecutive sa ;;
        bad_b <- (if bad_a then ret true else not_consecutive sb) ;;
        if bad_b then
          raise (ValueError "nodes must be numbered consecutively from 0..N")
        else
          counts <-
            match ct with
            | core_Connectivity =>
                '(a_gpot, a_spike) <- count_types g a_id sa ;;
                '(b_gpot, b_spike) <- count_types g b_id sb ;;
                ret (Some (a_gpot, a_spike, b_gpot, b_spike))
            | base_BaseConnectivity => ret None
            end ;;
          lens <- mapM (fun '(u, v) =>
                    kd <- getitem2 g u v ;; ret (Z.of_nat (length kd)))
                  (set_of (edges g)) ;;
          n_mult <- py_max lens ;;
          ret {| s_A_id := a_id; s_B_id := b_id;
                 s_N_A := length sa; s_N_B := length sb;
                 s_gpot_spike := counts; s_N_mult := n_mult |}
    | _ => raise (ValueError "incorrectly formatted graph")
    end.

(** Lines 214-219: the empty connectivity structure. *)
Definition allocate (ct : conn_type) (z : Sizes) : Connectivity :=
  match ct, s_gpot_spike z with
  | core_Connectivity, Some (a_gpot, a_spike, b_gpot, b_spike) =>
      new_Connectivity a_gpot a_spike b_gpot b_spike
        (Z.to_nat (s_N_mult z)) (s_A_id z) (s_B_id z)
  | _, _ =>
      new_BaseConnectivity (s_N_A z) (s_N_B z) (Z.to_nat (s_N_mult z))
        (s_A_id z) (s_B_id z)
  end.

(** The write of lines 230-250: through 'all' for a core.Connectivity. *)
Definition write (ct : conn_type) (c : Connectivity) (src : string) (i : Z)
  (dst : string) (j : Z) (conn : Z) (name : string) (v : pyval)
  : result Connectivity :=
  match ct with
  | base_BaseConnectivity => conn_setitem c src i dst j conn name v
  | core_Connectivity => conn_setitem_all c src i dst j conn name v
  end.

(** Lines 232-239 (and 243-250): one parameter of one edge. *)
Definition set_param (ct : conn_type) (a_id : string) (i : Z)
  (b_id : string) (j : Z) (conn : Z) (a : attrs) (param : string)
  (c : Connectivity) : result Connectivity :=
  val <- of_option (dict_get param a) (KeyError param) ;;
  if eqb_of param "id" then
    n <- py_int val ;; write ct c a_id i b_id j conn param (PyInt n)
  else
    x <- py_float val ;; write ct c a_id i b_id j conn param (PyFloat x).

(** Lines 223-250: the body of the loop over [g.edges()]. *)
Definition set_edge (g : MultiDiGraph) (ct : conn_type)
  (edge : string * string) (c : Connectivity) : result Connectivity :=
  '(a_id, i) <- unpack2 (split_on ":" (fst edge)) ;;
  i <- of_option (py_int_of_string i) (int_error i) ;;
  '(b_id, j) <- unpack2 (split_on ":" (snd edge)) ;;
  j <- of_option (py_int_of_string j) (int_error j) ;;
  edge_dict <- getitem2 g (fst edge) (snd edge) ;;
  foreach (enumerate (dict_keys edge_dict)) (fun '(conn, k) c =>
    c <- write ct c a_id i b_id j conn "conn" (PyInt 1) ;;
    a <- of_option (dict_get k edge_dict) (KeyError (py_str k)) ;;
    foreach (dict_keys a) (set_param ct a_id i b_id j conn a) c) c.

(** Lines 221-250: the parameters of the connectivity object. *)
Definition populate (g : MultiDiGraph) (ct : conn_type) (c : Connectivity)
  : result Connectivity :=
  foreach (edges g) (set_edge g ct) c.

(** How a call ends: with the object it returns, or with an exception,
    [allocated] telling whether the connectivity object of line 216 or 218
    had been created by then. *)
Inductive outcome : Type :=
| Returned (c : Connectivity)
| Raised (e : exn) (allocated : bool).

Definition graph_to_conn_run (g : MultiDiGraph) (ct : conn_type) : outcome :=
  match validate g ct with
  | inl e => Raised e false
  | inr z =>
      match populate g ct (allocate ct z) with
      | inl e => Raised e true
      | inr c => Returned c
      end
  end.

(** [graph_to_conn(g, conn_type)] as its caller sees it. *)
Definition graph_to_conn (g : MultiDiGraph) (ct : conn_type)
  : result Connectivity :=
  match graph_to_conn_run g ct with
  | Returned c => ret c
  | Raised e _ => raise e
  end.

End Graph.

(* ===================================================================== *)
(** ** Python's [float] as IEEE 754 binary64 *)

Module Binary64.
Import SpecFloat.

Definition prec : Z := 53.
Definition emax : Z := 1024.

(** The binary64 number nearest to [num / den], ties to even. *)
Definition round_ratio (neg : bool) (num den : Z) : spec_float :=
  if Z.eqb num 0 then S754_zero neg
  else
    let s := Z.max 0 (64 + Z.log2 den - Z.log2 num) in
    let n := (num * 2 ^ s)%Z in
    let q := (n / den)%Z in
    let r := (n mod den)%Z in
    let loc := if Z.eqb r 0 then loc_Exact
               else loc_Inexact (Z.compare (2 * r) den) in
    binary_round_aux prec emax neg q (- s) loc.

Definition is_digit (c : ascii) : bool :=
  (Nat.leb 48 (nat_of_ascii c) && Nat.leb (nat_of_ascii c) 57)%bool.

Fixpoint take_digits (s : string) : string * string :=
  match s with
  | String c r =>
      if is_digit c then let '(d, rest) := take_digits r in (String c d, rest)
      else (EmptyString, s)
  | EmptyString => (EmptyString, EmptyString)
  end.

Definition digits_value (d : string) : Z :=
  match NilEmpty.uint_of_string d with
  | Some u => Z.of_uint u
  | None => 0
  end.

Definition lower (c : ascii) : ascii :=
  let n := nat_of_ascii c in
  if (Nat.leb 65 n && Nat.leb n 90)%bool then ascii_of_nat (n + 32) else c.

Fixpoint lower_string (s : string) : string :=
  match s with
  | String c r => String (lower c) (lower_string r)
  | EmptyString => EmptyString
  end.

Definition split_sign (s : string) : bool * string :=
  match s with
  | String "-" r => (true, r)
  | String "+" r => (false, r)
  | _ => (false, s)
  end.

(** The exponent part: nothing, or [e] with an optional sign and digits. *)
Definition exponent (s : string) : option Z :=
  match s with
  | EmptyString => Some 0%Z
  | String "e" r =>
      let '(neg, r) := split_sign r in
      match take_digits r with
      | (String c d, EmptyString) =>
          let n := digits_value (String c d) in
          Some (if neg then (- n)%Z else n)
      | _ => None
      end
  | _ => None
  end.

(** [float(s)] for text: a decimal number with an optional fraction and
    exponent, or an infinity or a NaN by name. *)
Definition of_string (s : string) : result spec_float :=
  let bad := ValueError ("could not convert string to float: " ++ s) in
  let '(neg, t) := split_sign (lower_string (rstrip (lstrip s))) in
  if (String.eqb t "inf" || String.eqb t "infinity")%bool
  then ret (S754_infinity neg)
  else if String.eqb t "nan" then ret S754_nan
  else
    let '(ip, r1) := take_digits t in
    let '(fp, r2) :=
      match r1 with
      | String "." r => take_digits r
      | _ => (EmptyString, r1)
      end in
    match (ip ++ fp)%string, exponent r2 with
    | String c d, Some e =>
        let m := digits_value (String c d) in
        let e10 := (e - Z.of_nat (String.length fp))%Z in
        ret (round_ratio neg (m * 10 ^ Z.max e10 0) (10 ^ Z.max (- e10) 0))
    | _, _ => raise bad
    end.

(** [float(n)] for an integer. *)
Definition of_Z (n : Z) : result spec_float :=
  match binary_normalize prec emax n 0 false with
  | S754_infinity _ => raise (OverflowError "long int too large to convert to float")
  | x => ret x
  end.

(** [int(x)]: towards zero. *)
Definition to_Z (x : spec_float) : result Z :=
  match x with
  | S754_zero _ => ret 0%Z
  | S754_finite s m e =>
      let a := if Z.leb 0 e then (Zpos m * 2 ^ e)%Z
               else (Zpos m / 2 ^ (- e))%Z in
      ret (if s then (- a)%Z else a)
  | S754_infinity _ =>
      raise (OverflowError "cannot convert float infinity to integer")
  | S754_nan => raise (ValueError "cannot convert float NaN to integer")
  end.

(** [x == n] for an integer [n], exactly. *)
Definition eqb_Z (x : spec_float) (n : Z) : bool :=
  match x with
  | S754_zero _ => Z.eqb n 0
  | S754_finite s m e =>
      let a := if s then Zneg m else Zpos m in
      if Z.leb 0 e then Z.eqb (a * 2 ^ e) n else Z.eqb a (n * 2 ^ (- e))
  | _ => false
  end.

End Binary64.

Definition binary64 : PyFloatOps := {|
  float := SpecFloat.spec_float;
  float_of_Z := Binary64.of_Z;
  float_of_string := Binary64.of_string;
  float_to_Z := Binary64.to_Z;
  float_eqb_Z := Binary64.eqb_Z
|}.


(* ===================================================================== *)
(** ** What the claims speak of *)

Section Notions.
Context {F : PyFloatOps}.

(** The value a model holds for a key at a pair of indices; a key that was
    never written reads as 0, like a place of a sparse matrix. *)
Definition value_at (c : Connectivity) (k : conn_key) (i j : Z) : pyval :=
  match dict_get k (_data c) with
  | Some m => m i j
  | None => PyInt 0
  end.

(** The presence flag of the connection from unit [i] of [src] to unit [j]
    of [dst] in parallel slot [conn]. *)
Definition conn_flag (c : Connectivity) (src : string) (i : Z)
  (dst : string) (j : Z) (conn : Z) : bool :=
  py_eqb_int (value_at c (src, dst, conn, "conn") i j) 1.

(** A label as line 170 and line 175 read it: the two groups of the
    pattern, the second as an integer. *)
Definition parse_label (l : string) : option (string * Z) :=
  match re_search_label l with
  | Some (id, n) =>
      match py_int_of_string n with
      | Some z => Some (id, z)
      | None => None
      end
  | None => None
  end.

(** The exception the loop of lines 168-175 leaves with at a label that
    [parse_label] refuses. *)
Definition parse_error (l : string) : exn :=
  match re_search_label l with
  | Some (_, n) => int_error n
  | None => label_error l
  end.

(** The population ids among the labels [ls], with repetition. *)
Definition prefixes_of (ls : list string) : list string :=
  flat_map (fun l => match parse_label l with
                     | Some (id, _) => [id]
                     | None => []
                     end) ls.

(** The local indices that the labels [ls] give to population [p]. *)
Definition indices_of (ls : list string) (p : string) : list Z :=
  flat_map (fun l => match parse_label l with
                     | Some (id, z) => if eq_dec id p then [z] else []
                     | None => []
                     end) ls.

Definition label_prefixes (g : MultiDiGraph) : list string :=
  prefixes_of (nodes g).

Definition indices (g : MultiDiGraph) (p : string) : list Z :=
  indices_of (nodes g) p.

Definition parses (l : string) : Prop := parse_label l <> None.

Definition distinct (xs : list string) : nat :=
  length (nodup string_dec xs).

(** The indices are 0, 1, ..., n-1 for some [n]. *)
Definition consecutive (s : list Z) : Prop :=
  exists n : Z, forall k : Z, In k s <-> (0 <= k < n)%Z.

(** Node [l] carries a [neuron_type] that is 'gpot' or 'spike'. *)
Definition has_neuron_type (g : MultiDiGraph) (l : string) : bool :=
  match dict_get l (node g) with
  | Some a =>
      match dict_get "neuron_type" a with
      | Some t => (py_eqb_str t "gpot" || py_eqb_str t "spike")%bool
      | None => false
      end
  | None => false
  end.

(** The parallel edges from [u] to [v], if there is any. *)
Definition keydict (g : MultiDiGraph) (u v : string)
  : option (dict Z attrs) :=
  match dict_get u (adj g) with
  | Some nbrs => dict_get v nbrs
  | None => None
  end.

(** There is an edge from [u] to [v] with the key [key]. *)
Definition has_edge (g : MultiDiGraph) (u v : string) (key : Z) : bool :=
  match keydict g u v with
  | Some kd => dict_has key kd
  | None => false
  end.

(** The attribute [name] of the edge from [u] to [v] with the key [key]. *)
Definition edge_attr (g : MultiDiGraph) (u v : string) (key : Z)
  (name : string) : option pyval :=
  match keydict g u v with
  | Some kd =>
      match dict_get key kd with
      | Some a => dict_get name a
      | None => None
      end
  | None => None
  end.

(** The attribute [name] of node [l]. *)
Definition node_attr (g : MultiDiGraph) (l name : string) : option pyval :=
  match dict_get l (node g) with
  | Some a => dict_get name a
  | None => None
  end.

(** The size of population [id], 0 for any other id. *)
Definition size (c : Connectivity) (id : string) : nat :=
  if eq_dec id (A_id c) then N_A c
  else if eq_dec id (B_id c) then N_B c
  else 0.

(** From one population to the other. *)
Definition direction (c : Connectivity) (src dst : string) : bool :=
  ((eqb_of src (A_id c) && eqb_of dst (B_id c))
   || (eqb_of src (B_id c) && eqb_of dst (A_id c)))%bool.

(** The index pairs of the units of [src] and [dst]. *)
Definition cells (c : Connectivity) (src dst : string) : list (Z * Z) :=
  product (xrange (size c src)) (xrange (size c dst)).

(** The ids and the name of a key hold no separator and no line break. *)
Definition clean_key (k : conn_key) : bool :=
  let '(src, dst, conn, name) := k in
  (no_char "/" src && no_char "/" dst && no_char "/" name
   && no_char newline src && no_char newline dst && no_char newline name)%bool.

Fixpoint nodupb {K} `{EqDec K} (xs : list K) : bool :=
  match xs with
  | [] => true
  | x :: xs' => (negb (mem x xs') && nodupb xs')%bool
  end.

(** What the store of a model is to hold at one key: a parameter is set
    only where the connection of its slot is, and the connections of an
    index pair fill the slots from 0 upwards. *)
Definition sound_key (c : Connectivity) (k : conn_key) : bool :=
  let '(src, dst, conn, name) := k in
  (direction c src dst && clean_key k && Z.leb 0 conn
   && forallb (fun '(i, j) =>
        if String.eqb name "conn"
        then implb (conn_flag c src i dst j conn && negb (Z.eqb conn 0))
                   (conn_flag c src i dst j (conn - 1))
        else implb (truthy (value_at c k i j)) (conn_flag c src i dst j conn))
        (cells c src dst))%bool.

(** The global index of the [k]-th unit of type [ty] of population [id],
    a lookup in the translation table. *)
Definition translate (t : TypeInfo) (id ty : string) (k : Z) : option Z :=
  match dict_get id (idx_translate t) with
  | Some tbl => dict_get (ty, k) tbl
  | None => None
  end.

(** The global indices of the first [count] units of type [ty]. *)
Definition images (t : TypeInfo) (id ty : string) (count : nat) : list Z :=
  flat_map (fun k => match translate t id ty k with
                     | Some n => [n]
                     | None => []
                     end) (xrange count).

(** The translation table of one population: defined on every unit of
    both types, one to one, onto the indices of the population. *)
Definition sound_table (t : TypeInfo) (id : string) (n_gpot n_spike n : nat)
  : bool :=
  (Nat.eqb n (n_gpot + n_spike)
   && forallb (fun k => match translate t id "gpot" k with
                        | Some _ => true | None => false end) (xrange n_gpot)
   && forallb (fun k => match translate t id "spike" k with
                        | Some _ => true | None => false end) (xrange n_spike)
   && nodupb (images t id "gpot" n_gpot ++ images t id "spike" n_spike)
   && forallb (fun z => in_range z n)
        (images t id "gpot" n_gpot ++ images t id "spike" n_spike))%bool.

Definition sound_types (c : Connectivity) : bool :=
  match types c with
  | Some t =>
      (sound_table t (A_id c) (N_A_gpot t) (N_A_spike t) (N_A c)
       && sound_table t (B_id c) (N_B_gpot t) (N_B_spike t) (N_B c))%bool
  | None => true
  end.

(** A well-formed connectivity model. *)
Definition well_formed (c : Connectivity) : bool :=
  (negb (String.eqb (A_id c) (B_id c))
   && no_char ":" (A_id c) && no_char ":" (B_id c)
   && nodupb (dict_keys (_data c))
   && forallb (sound_key c) (dict_keys (_data c))
   && sound_types c)%bool.

(** The end of an edge as lines 223-226 read it: [id, i = l.split(':')]
    and [i = int(i)]. *)
Definition edge_end (l : string) : option (string * Z) :=
  match split_on ":" l with
  | [id; n] =>
      match py_int_of_string n with
      | Some z => Some (id, z)
      | None => None
      end
  | _ => None
  end.

(** The label is the text [id:index] that [conn_to_graph] writes: one
    colon, and an index in the form [str] gives it. *)
Definition canonical (l : string) : bool :=
  match edge_end l with
  | Some (id, z) => String.eqb (label id z) l
  | None => false
  end.

(** No edge of [g] has an attribute called 'conn', the name of the
    presence flag. *)
Definition no_conn_attr (g : MultiDiGraph) : bool :=
  forallb (fun '(_, nbrs) =>
    forallb (fun '(_, keydict) =>
      forallb (fun '(_, a) => negb (mem "conn" (dict_keys a)))
        (keydict : dict Z attrs))
      (nbrs : dict string (dict Z attrs))) (adj g).

(** The shape of graph that [graph_to_conn] is written for: its edges join
    nodes labelled as [conn_to_graph] labels them, and carry parameters
    other than the presence flag. *)
Definition edges_well_labelled (g : MultiDiGraph) : bool :=
  (forallb (fun '(u, v) => canonical u && canonical v) (edges g)
   && no_conn_attr g)%bool.

(** The exceptions of lines 197-202 at a node without a proper type. *)
Definition neuron_type_error (e : exn) : Prop :=
  e = ValueError "invalid neuron type" \/ exists k, e = KeyError k.

(** The integer and the float that lines 237 and 239 store for [val]. *)
Definition coerced (name : string) (val stored : pyval) : Prop :=
  if eqb_of name "id" then exists n, py_int val = inr n /\ stored = PyInt n
  else exists x, py_float val = inr x /\ stored = PyFloat x.

(** The writes that the loop of lines 222-250 makes: the flag of every
    parallel edge, numbered as [enumerate] numbers the edge keys, and every
    attribute of every parallel edge. *)
Inductive written (g : MultiDiGraph)
  : string -> Z -> string -> Z -> Z -> string -> pyval -> Prop :=
| written_conn u v a i b j kd conn k :
    In (u, v) (edges g) ->
    edge_end u = Some (a, i) -> edge_end v = Some (b, j) ->
    getitem2 g u v = inr kd ->
    In (conn, k) (enumerate (dict_keys kd)) ->
    written g a i b j conn "conn" (PyInt 1)
| written_param u v a i b j kd conn k (a' : attrs) name val x :
    In (u, v) (edges g) ->
    edge_end u = Some (a, i) -> edge_end v = Some (b, j) ->
    getitem2 g u v = inr kd ->
    In (conn, k) (enumerate (dict_keys kd)) ->
    dict_get k kd = Some a' ->
    dict_get name a' = Some val ->
    coerced name val x ->
    written g a i b j conn name x.

End Notions.

(* ===================================================================== *)
(** ** Loops and dictionaries *)

Section Loops.
Context {A S : Type}.
Implicit Types (xs : list A) (body : A -> S -> result S).

Lemma foreach_app xs ys body s :
  foreach (xs ++ ys) body s = (s' <- foreach xs body s ;; foreach ys body s').
Proof.
  revert s; induction xs as [ | x xs IH ]; intros s; simpl; [ reflexivity | ].
  destruct (body x s) as [ e | s1 ]; simpl; [ reflexivity | apply IH ].
Qed.

(** A property that every round keeps holds after the loop. *)
Lemma foreach_stable (Q : S -> Prop) xs body s0 s :
  foreach xs body s0 = inr s ->
  (forall x s1 s2, In x xs -> body x s1 = inr s2 -> Q s1 -> Q s2) ->
  Q s0 -> Q s.
Proof.
  revert s0; induction xs as [ | x xs IH ]; simpl; intros s0 Hrun Hstep H0.
  - injection Hrun as <-. exact H0.
  - destruct (body x s0) as [ e | s1 ] eqn:Hx; simpl in Hrun; [ discriminate | ].
    apply (IH s1 Hrun); [ | eapply Hstep; eauto ].
    intros y t1 t2 Hy; apply Hstep; right; exact Hy.
Qed.

(** A property that one round brings about, and every round keeps, holds
    after the loop. *)
Lemma foreach_establish (Q : S -> Prop) xs body s0 s x :
  foreach xs body s0 = inr s ->
  In x xs ->
  (forall s1 s2, body x s1 = inr s2 -> Q s2) ->
  (forall y s1 s2, In y xs -> body y s1 = inr s2 -> Q s1 -> Q s2) ->
  Q s.
Proof.
  revert s0; induction xs as [ | y xs IH ]; simpl; intros s0 Hrun Hin Hx Hstep.
  - contradiction.
  - destruct (body y s0) as [ e | s1 ] eqn:Hy; simpl in Hrun; [ discriminate | ].
    destruct Hin as [ -> | Hin ].
    + apply (foreach_stable Q xs body s1 s Hrun).
      * intros z t1 t2 Hz; apply Hstep; right; exact Hz.
      * eapply Hx; eauto.
    + apply (IH s1 Hrun Hin Hx).
      intros z t1 t2 Hz; apply Hstep; right; exact Hz.
Qed.

(** The loop leaves with the exception of the first round that raises. *)
Lemma foreach_raises xs x ys body s0 s1 e :
  foreach xs body s0 = inr s1 ->
  body x s1 = inl e ->
  foreach (xs ++ x :: ys) body s0 = inl e.
Proof.
  intros Hxs Hx. rewrite foreach_app, Hxs. simpl. rewrite Hx. reflexivity.
Qed.
End Loops.

Section DictFacts.
Context {K V : Type} `{EqDec K}.
Implicit Types (d : dict K V) (k : K) (v : V).

Lemma dict_get_set_same k v d : dict_get k (dict_set k v d) = Some v.
Proof.
  induction d as [ | [k' v'] d IH ]; simpl.
  - destruct (eq_dec k k); congruence.
  - destruct (eq_dec k k') as [ -> | Hne ]; simpl.
    + destruct (eq_dec k' k'); congruence.
    + destruct (eq_dec k k'); [ contradiction | exact IH ].
Qed.

Lemma dict_get_set_other k k' v d :
  k' <> k -> dict_get k' (dict_set k v d) = dict_get k' d.
Proof.
  intros Hne. induction d as [ | [k0 v0] d IH ]; simpl.
  - destruct (eq_dec k' k); [ contradiction | reflexivity ].
  - destruct (eq_dec k k0) as [ -> | Hk ]; simpl.
    + destruct (eq_dec k' k0); [ contradiction | reflexivity ].
    + destruct (eq_dec k' k0); [ reflexivity | exact IH ].
Qed.

Lemma dict_get_set k k' v d :
  dict_get k' (dict_set k v d) = if eq_dec k' k then Some v else dict_get k' d.
Proof.
  destruct (eq_dec k' k) as [ -> | Hne ].
  - apply dict_get_set_same.
  - apply dict_get_set_other; exact Hne.
Qed.

Lemma dict_get_In k d : In k (dict_keys d) <-> dict_get k d <> None.
Proof.
  induction d as [ | [k' v'] d IH ]; simpl.
  - split; [ contradiction | congruence ].
  - destruct (eq_dec k k') as [ -> | Hne ].
    + split; [ congruence | auto ].
    + rewrite <- IH. split; [ intros [ ? | ? ]; congruence | auto ].
Qed.

Lemma dict_get_Some_In k v d : dict_get k d = Some v -> In (k, v) d.
Proof.
  induction d as [ | [k' v'] d IH ]; simpl; [ discriminate | ].
  destruct (eq_dec k k') as [ -> | Hne ].
  - intros [= ->]; left; reflexivity.
  - intros Hg; right; apply IH; exact Hg.
Qed.

Lemma dict_keys_set k v d :
  dict_keys (dict_set k v d) =
  if dict_has k d then dict_keys d else dict_keys d ++ [k].
Proof.
  unfold dict_has.
  induction d as [ | [k' v'] d IH ]; simpl; [ reflexivity | ].
  destruct (eq_dec k k') as [ -> | Hne ]; simpl; [ reflexivity | ].
  rewrite IH. destruct (dict_get k d); reflexivity.
Qed.

Lemma dict_keys_set_NoDup k v d :
  NoDup (dict_keys d) -> NoDup (dict_keys (dict_set k v d)).
Proof.
  intros Hnd. rewrite dict_keys_set. unfold dict_has.
  destruct (dict_get k d) eqn:Hg; [ exact Hnd | ].
  apply NoDup_app; [ exact Hnd | constructor; [ intros [] | constructor ] | ].
  intros x Hx [ <- | [] ]. apply dict_get_In in Hx. congruence.
Qed.

Lemma mem_In (x : K) (s : list K) : mem x s = true <-> In x s.
Proof.
  induction s as [ | y s IH ]; simpl.
  - split; [ discriminate | contradiction ].
  - destruct (eq_dec x y) as [ -> | Hne ].
    + split; auto.
    + rewrite IH. split; [ auto | intros [ ? | ? ]; congruence ].
Qed.

Lemma set_add_In (x y : K) (s : list K) :
  In y (set_add x s) <-> y = x \/ In y s.
Proof.
  unfold set_add. destruct (mem x s) eqn:Hm.
  - apply mem_In in Hm. split; [ auto | intros [ -> | ? ]; assumption ].
  - rewrite in_app_iff. simpl. split; intros [ ? | ? ]; auto.
    + destruct H0 as [ <- | [] ]; auto.
Qed.

Lemma set_of_In (x : K) (xs : list K) : In x (set_of xs) <-> In x xs.
Proof.
  unfold set_of.
  assert (G : forall acc, In x (fold_left (fun s y => set_add y s) xs acc)
                          <-> In x acc \/ In x xs).
  { induction xs as [ | y xs IH ]; intros acc; simpl.
    - split; [ auto | intros [ ? | [] ]; assumption ].
    - rewrite IH, set_add_In. split; intros Hx; intuition auto. }
  rewrite G. simpl. split; [ intros [ [] | ? ]; assumption | auto ].
Qed.

Lemma subset_spec (s t : list K) :
  subset s t = true <-> (forall x, In x s -> In x t).
Proof.
  unfold subset. rewrite forallb_forall.
  split; intros Hs x Hx; [ apply mem_In | apply mem_In ]; auto.
Qed.

Lemma set_eqb_spec (s t : list K) :
  set_eqb s t = true <-> (forall x, In x s <-> In x t).
Proof.
  unfold set_eqb. rewrite andb_true_iff, !subset_spec.
  split; [ intros [H1 H2] x; split; auto | intros Hx; split; intros x; apply Hx ].
Qed.
End DictFacts.

(* ===================================================================== *)
(** ** The checks of [graph_to_conn] *)

Section Validation.
Context {F : PyFloatOps}.

Definition members (nd : dict string (list Z)) (p : string) : list Z :=
  match dict_get p nd with
  | Some s => s
  | None => []
  end.

Lemma add_label_parses l id z nd :
  parse_label l = Some (id, z) ->
  add_label l nd = inr (dict_set id (set_add z (members nd id)) nd).
Proof.
  unfold parse_label, add_label, members.
  destruct (re_search_label l) as [ [id' n] | ]; [ | discriminate ].
  destruct (py_int_of_string n) as [ z' | ]; [ | discriminate ].
  intros [= -> ->]. reflexivity.
Qed.

Lemma add_label_refuses l nd :
  parse_label l = None -> add_label l nd = inl (parse_error l).
Proof.
  unfold parse_label, add_label, parse_error.
  destruct (re_search_label l) as [ [id' n] | ]; [ | reflexivity ].
  destruct (py_int_of_string n) as [ z' | ]; [ discriminate | reflexivity ].
Qed.

(** What the dictionary of lines 167-175 holds once the labels [ls] went
    through the loop. *)
Record node_dict_of (ls : list string) (nd : dict string (list Z)) : Prop := {
  nd_nodup : NoDup (dict_keys nd);
  nd_keys : forall p, In p (dict_keys nd) <-> In p (prefixes_of ls);
  nd_members : forall p k, In k (members nd p) <-> In k (indices_of ls p)
}.

Lemma prefixes_of_app ls ls' :
  prefixes_of (ls ++ ls') = prefixes_of ls ++ prefixes_of ls'.
Proof. unfold prefixes_of. apply flat_map_app. Qed.

Lemma indices_of_app ls ls' p :
  indices_of (ls ++ ls') p = indices_of ls p ++ indices_of ls' p.
Proof. unfold indices_of. apply flat_map_app. Qed.

Lemma node_dict_step ls l id z nd :
  node_dict_of ls nd ->
  parse_label l = Some (id, z) ->
  node_dict_of (ls ++ [l]) (dict_set id (set_add z (members nd id)) nd).
Proof.
  intros [Hnd Hkeys Hmem] Hl. split.
  - apply dict_keys_set_NoDup; exact Hnd.
  - intros p. rewrite prefixes_of_app, in_app_iff, <- Hkeys.
    unfold prefixes_of at 1; simpl. rewrite Hl; simpl.
    rewrite !dict_get_In, dict_get_set.
    destruct (eq_dec p id) as [ -> | Hne ].
    + split; [ auto | congruence ].
    + split; [ auto | intros [ ? | [ ? | [] ] ]; congruence ].
  - intros p k. rewrite indices_of_app, in_app_iff, <- Hmem.
    unfold indices_of at 1; simpl. rewrite Hl.
    unfold members at 1. rewrite dict_get_set.
    destruct (eq_dec p id) as [ -> | Hne ].
    + destruct (eq_dec id id); [ | congruence ]. simpl.
      rewrite set_add_In. split; intros [ ? | ? ]; auto.
      * destruct H as [ <- | [] ]; auto.
    + destruct (eq_dec id p); [ congruence | ]. simpl.
      unfold members. split; [ auto | intros [ ? | [] ]; auto ].
Qed.

Lemma node_dict_built ls :
  Forall parses ls ->
  exists nd, foreach ls add_label [] = inr nd /\ node_dict_of ls nd.
Proof.
  induction ls as [ | l ls IH ] using rev_ind; intros Hall.
  - exists []. split; [ reflexivity | ]. split.
    + constructor.
    + intros p; simpl; tauto.
    + intros p k; simpl; tauto.
  - apply Forall_app in Hall as [Hls Hl]. inversion Hl as [ | ? ? Hp _ ]; subst.
    destruct (IH Hls) as (nd & Hrun & Hnd).
    unfold parses in Hp. destruct (parse_label l) as [ [id z] | ] eqn:Hpl;
      [ | congruence ].
    exists (dict_set id (set_add z (members nd id)) nd). split.
    + rewrite foreach_app, Hrun. simpl.
      rewrite (add_label_parses l id z nd Hpl). reflexivity.
    + apply node_dict_step; assumption.
Qed.

Lemma node_dict_length ls nd :
  node_dict_of ls nd -> length nd = distinct (prefixes_of ls).
Proof.
  intros [Hnd Hkeys _]. unfold distinct.
  replace (length nd) with (length (dict_keys nd))
    by (unfold dict_keys; apply length_map).
  apply Nat.le_antisymm; apply NoDup_incl_length.
  - exact Hnd.
  - intros p Hp. apply nodup_In, Hkeys, Hp.
  - apply NoDup_nodup.
  - intros p Hp. apply Hkeys. eapply nodup_In, Hp.
Qed.

Lemma members_nonempty ls nd p :
  node_dict_of ls nd -> In p (dict_keys nd) -> members nd p <> [].
Proof.
  intros [_ Hkeys Hmem] Hp. apply Hkeys in Hp.
  unfold prefixes_of in Hp. apply in_flat_map in Hp as (l & Hl & Hid).
  destruct (parse_label l) as [ [id z] | ] eqn:Hpl; [ | contradiction ].
  destruct Hid as [ -> | [] ].
  assert (Hz : In z (members nd p)).
  { apply Hmem. unfold indices_of. apply in_flat_map. exists l. split; [ exact Hl | ].
    rewrite Hpl. destruct (eq_dec p p); [ left; reflexivity | congruence ]. }
  intros Hnil. rewrite Hnil in Hz. exact Hz.
Qed.

Lemma py_range_In (n k : Z) : In k (py_range n) <-> (0 <= k < n)%Z.
Proof.
  unfold py_range, xrange. rewrite in_map_iff. split.
  - intros (x & <- & Hx). apply in_seq in Hx. lia.
  - intros Hk. exists (Z.to_nat k). split; [ lia | apply in_seq; lia ].
Qed.

Lemma not_consecutive_spec (s : list Z) :
  s <> [] ->
  exists b, not_consecutive s = inr b /\ (b = false -> consecutive s).
Proof.
  intros Hs. unfold not_consecutive.
  destruct s as [ | x s ]; [ congruence | ]. simpl.
  eexists; split; [ reflexivity | ].
  intros Hb. apply negb_false_iff in Hb.
  rewrite (set_eqb_spec (K := Z)) in Hb.
  exists (fold_left Z.max s x + 1)%Z. intros k.
  rewrite <- Hb, set_of_In, py_range_In. reflexivity.
Qed.

Lemma consecutive_same (s t : list Z) :
  (forall k, In k s <-> In k t) -> consecutive s -> consecutive t.
Proof.
  intros Hst [n Hn]. exists n. intros k. rewrite <- Hst. apply Hn.
Qed.

Lemma not_consecutive_gap (s : list Z) :
  s <> [] -> ~ consecutive s -> not_consecutive s = inr true.
Proof.
  intros Hs Hgap. destruct (not_consecutive_spec s Hs) as (b & Hrun & Hb).
  destruct b; [ exact Hrun | ]. exfalso; apply Hgap, Hb; reflexivity.
Qed.

Lemma insert_sorted_perm x s : Permutation (insert_sorted x s) (x :: s).
Proof.
  induction s as [ | y s IH ]; simpl; [ apply Permutation_refl | ].
  destruct (x <=? y)%Z; [ apply Permutation_refl | ].
  apply perm_trans with (y :: x :: s); [ apply perm_skip, IH | apply perm_swap ].
Qed.

Lemma hash_order_perm s : Permutation (hash_order s) s.
Proof.
  induction s as [ | x s IH ]; simpl; [ apply perm_nil | ].
  apply perm_trans with (x :: hash_order s);
    [ apply insert_sorted_perm | apply perm_skip, IH ].
Qed.

Lemma hash_order_In s n : In n (hash_order s) <-> In n s.
Proof.
  split; apply Permutation_in;
    [ apply hash_order_perm | apply Permutation_sym, hash_order_perm ].
Qed.

Lemma hash_order_length s : length (hash_order s) = length s.
Proof. apply Permutation_length, hash_order_perm. Qed.

Lemma count_types_raises g id s :
  (exists n, In n s /\ has_neuron_type g (label id n) = false) ->
  forall acc, exists e,
    foreach s (fun n '(n_gpot, n_spike) =>
      a <- of_option (dict_get (label id n) (node g)) (KeyError (label id n)) ;;
      t <- of_option (dict_get "neuron_type" a) (KeyError "neuron_type") ;;
      if py_eqb_str t "gpot" then ret (S n_gpot, n_spike)
      else if py_eqb_str t "spike" then ret (n_gpot, S n_spike)
      else raise (ValueError "invalid neuron type")) acc = inl e
    /\ neuron_type_error e.
Proof.
  induction s as [ | m s IH ]; intros (n & Hn & Hty) [gp sp].
  - contradiction.
  - simpl. unfold has_neuron_type in Hty.
    destruct (dict_get (label id m) (node g)) as [ a | ] eqn:Ha; simpl.
    + destruct (dict_get "neuron_type" a) as [ t | ] eqn:Ht; simpl.
      * destruct (py_eqb_str t "gpot") eqn:Hg; simpl.
        { destruct Hn as [ <- | Hn ].
          - rewrite Ha, Ht, Hg in Hty. discriminate.
          - apply IH. exists n; auto. }
        destruct (py_eqb_str t "spike") eqn:Hs; simpl.
        { destruct Hn as [ <- | Hn ].
          - rewrite Ha, Ht, Hg, Hs in Hty. discriminate.
          - apply IH. exists n; auto. }
        eexists; split; [ reflexivity | left; reflexivity ].
      * eexists; split; [ reflexivity | right; eexists; reflexivity ].
    + eexists; split; [ reflexivity | right; eexists; reflexivity ].
Qed.

(** The checks in the order the source makes them. *)

Lemma run_not_bipartite g ct :
  nx_is_bipartite g = false ->
  graph_to_conn_run g ct = Raised (ValueError "graph must be bipartite") false.
Proof.
  intros Hb. unfold graph_to_conn_run, validate. rewrite Hb. reflexivity.
Qed.

Lemma run_label_refused g ct pre l post :
  nx_is_bipartite g = true ->
  nodes g = pre ++ l :: post ->
  Forall parses pre ->
  parse_label l = None ->
  graph_to_conn_run g ct = Raised (parse_error l) false.
Proof.
  intros Hb Hnodes Hpre Hl.
  destruct (node_dict_built pre Hpre) as (nd & Hrun & _).
  unfold graph_to_conn_run, validate. rewrite Hb, Hnodes. simpl.
  rewrite (foreach_raises pre l post add_label [] nd (parse_error l) Hrun
             (add_label_refuses l nd Hl)).
  reflexivity.
Qed.

Lemma run_prefix_count g ct :
  nx_is_bipartite g = true ->
  Forall parses (nodes g) ->
  distinct (label_prefixes g) <> 2 ->
  graph_to_conn_run g ct = Raised (ValueError "incorrectly formatted graph") false.
Proof.
  intros Hb Hall Hcount.
  destruct (node_dict_built (nodes g) Hall) as (nd & Hrun & Hnd).
  apply node_dict_length in Hnd. fold (label_prefixes g) in Hnd.
  unfold graph_to_conn_run, validate. rewrite Hb, Hrun. simpl.
  destruct nd as [ | [a sa] [ | [b sb] [ | x nd ] ] ]; try reflexivity.
  simpl in Hnd. congruence.
Qed.

Lemma two_populations g :
  Forall parses (nodes g) ->
  distinct (label_prefixes g) = 2 ->
  exists a sa b sb,
    foreach (nodes g) add_label [] = inr [(a, sa); (b, sb)]
    /\ a <> b /\ sa <> [] /\ sb <> []
    /\ (forall p, In p (label_prefixes g) <-> p = a \/ p = b)
    /\ (forall k, In k sa <-> In k (indices g a))
    /\ (forall k, In k sb <-> In k (indices g b)).
Proof.
  intros Hall Hcount.
  destruct (node_dict_built (nodes g) Hall) as (nd & Hrun & Hnd).
  pose proof (node_dict_length _ _ Hnd) as Hlen.
  fold (label_prefixes g) in Hlen. rewrite Hcount in Hlen.
  destruct nd as [ | [a sa] [ | [b sb] [ | x nd ] ] ]; try discriminate.
  pose proof (nd_nodup _ _ Hnd) as Hnodup. simpl in Hnodup.
  assert (Hab : a <> b).
  { inversion Hnodup as [ | ? ? Hnot _ ]; subst. intros ->. apply Hnot. left; reflexivity. }
  assert (Hma : members [(a, sa); (b, sb)] a = sa).
  { unfold members; simpl. destruct (eq_dec a a); congruence. }
  assert (Hmb : members [(a, sa); (b, sb)] b = sb).
  { unfold members; simpl. destruct (eq_dec b a); [ congruence | ].
    destruct (eq_dec b b); congruence. }
  exists a, sa, b, sb. repeat split.
  - exact Hrun.
  - exact Hab.
  - rewrite <- Hma. apply (members_nonempty _ _ _ Hnd). left; reflexivity.
  - rewrite <- Hmb. apply (members_nonempty _ _ _ Hnd). right; left; reflexivity.
  - intros Hp. apply (nd_keys _ _ Hnd) in Hp. simpl in Hp.
    destruct Hp as [ <- | [ <- | [] ] ]; auto.
  - intros Hp. apply (nd_keys _ _ Hnd). simpl. destruct Hp as [ -> | -> ]; auto.
  - rewrite <- Hma. apply (nd_members _ _ Hnd).
  - rewrite <- Hma. apply (nd_members _ _ Hnd).
  - rewrite <- Hmb. apply (nd_members _ _ Hnd).
  - rewrite <- Hmb. apply (nd_members _ _ Hnd).
Qed.

Lemma run_gap g ct :
  nx_is_bipartite g = true ->
  Forall parses (nodes g) ->
  distinct (label_prefixes g) = 2 ->
  (exists p, In p (label_prefixes g) /\ ~ consecutive (indices g p)) ->
  graph_to_conn_run g ct =
  Raised (ValueError "nodes must be numbered consecutively from 0..N") false.
Proof.
  intros Hb Hall Hcount (p & Hp & Hgap).
  destruct (two_populations g Hall Hcount)
    as (a & sa & b & sb & Hrun & Hab & Hsa & Hsb & Hpre & Hia & Hib).
  unfold graph_to_conn_run, validate. rewrite Hb, Hrun. simpl.
  destruct (not_consecutive_spec sa Hsa) as (ba & Hra & Hba).
  rewrite Hra. simpl.
  destruct ba; simpl; [ reflexivity | ].
  apply Hpre in Hp. destruct Hp as [ -> | -> ].
  - exfalso. apply Hgap. apply (consecutive_same sa); [ exact Hia | auto ].
  - rewrite (not_consecutive_gap sb Hsb); [ reflexivity | ].
    intros Hc. apply Hgap. apply (consecutive_same sb); [ exact Hib | exact Hc ].
Qed.

Lemma not_consecutive_ok (s : list Z) :
  s <> [] -> consecutive s -> not_consecutive s = inr false.
Proof.
  intros Hs [n Hn]. unfold not_consecutive.
  destruct s as [ | x s ]; [ congruence | ]. simpl.
  unfold ret. f_equal. apply negb_false_iff. apply (set_eqb_spec (K := Z)).
  intros k. rewrite set_of_In, py_range_In.
  set (m := fold_left Z.max s x).
  assert (Hmax : forall l y, In (fold_left Z.max l y) (y :: l)
                              /\ forall z, In z (y :: l) -> (z <= fold_left Z.max l y)%Z).
  { induction l as [ | w l IH ]; intros y; simpl.
    - split; [ auto | intros z [ <- | [] ]; lia ].
    - destruct (IH (Z.max y w)) as [Hin Hle]. split.
      + destruct Hin as [ Hin | Hin ]; [ | auto ].
        rewrite <- Hin. destruct (Z.max_spec y w) as [ [_ ->] | [_ ->] ]; auto.
      + intros z [ Hz | [ Hz | Hz ] ].
        * specialize (Hle (Z.max y w) (or_introl eq_refl)). lia.
        * specialize (Hle (Z.max y w) (or_introl eq_refl)). lia.
        * apply Hle. right; exact Hz. }
  destruct (Hmax s x) as [Hin Hle]. fold m in Hin, Hle.
  apply Hn in Hin. split.
  - intros Hk. apply Hn. lia.
  - intros Hk. pose proof (Hle k Hk). apply Hn in Hk. lia.
Qed.

Lemma run_neuron_type g :
  nx_is_bipartite g = true ->
  Forall parses (nodes g) ->
  distinct (label_prefixes g) = 2 ->
  (forall p, In p (label_prefixes g) -> consecutive (indices g p)) ->
  (exists l p n, In l (nodes g) /\ parse_label l = Some (p, n)
                 /\ has_neuron_type g (label p n) = false) ->
  exists e, graph_to_conn_run g core_Connectivity = Raised e false
            /\ neuron_type_error e.
Proof.
  intros Hb Hall Hcount Hcons (l & p & n & Hl & Hpl & Hty).
  destruct (two_populations g Hall Hcount)
    as (a & sa & b & sb & Hrun & Hab & Hsa & Hsb & Hpre & Hia & Hib).
  assert (Hp : In p (label_prefixes g)).
  { unfold label_prefixes, prefixes_of. apply in_flat_map. exists l.
    split; [ exact Hl | rewrite Hpl; left; reflexivity ]. }
  assert (Hn : In n (indices g p)).
  { unfold indices, indices_of. apply in_flat_map. exists l.
    split; [ exact Hl | rewrite Hpl ].
    destruct (eq_dec p p); [ left; reflexivity | congruence ]. }
  unfold graph_to_conn_run, validate. rewrite Hb, Hrun. simpl.
  rewrite (not_consecutive_ok sa Hsa). 2:{
    apply (consecutive_same (indices g a)); [ intros k; symmetry; apply Hia | ].
    apply Hcons, Hpre; auto. }
  simpl. rewrite (not_consecutive_ok sb Hsb). 2:{
    apply (consecutive_same (indices g b)); [ intros k; symmetry; apply Hib | ].
    apply Hcons, Hpre; auto. }
  simpl. unfold count_types.
  apply Hpre in Hp. destruct Hp as [ -> | -> ].
  - destruct (count_types_raises g a (hash_order sa)) with (acc := (0, 0))
      as (e & He & Hne).
    { exists n. split; [ apply hash_order_In, Hia, Hn | exact Hty ]. }
    rewrite He. simpl. exists e. split; [ reflexivity | exact Hne ].
  - match goal with
    | |- context [ bind (bind ?m _) _ ] => destruct m as [ e | [ga sa'] ] eqn:Hca
    end; simpl.
    + exists e. split; [ reflexivity | ].
      (* the first population raised: its exception is of the same kinds *)
      clear - Hca. revert Hca. generalize (0, 0).
      induction (hash_order sa) as [ | m s IH ];
        intros [gp sp]; simpl; [ discriminate | ].
      destruct (dict_get (label a m) (node g)) as [ x | ]; simpl;
        [ | intros [= <-]; right; eexists; reflexivity ].
      destruct (dict_get "neuron_type" x) as [ t | ]; simpl;
        [ | intros [= <-]; right; eexists; reflexivity ].
      destruct (py_eqb_str t "gpot"); simpl; [ apply IH | ].
      destruct (py_eqb_str t "spike"); simpl; [ apply IH | ].
      intros [= <-]; left; reflexivity.
    + destruct (count_types_raises g b (hash_order sb)) with (acc := (0, 0))
        as (e & He & Hne).
      { exists n. split; [ apply hash_order_In, Hib, Hn | exact Hty ]. }
      rewrite He. simpl. exists e. split; [ reflexivity | exact Hne ].
Qed.

End Validation.

(* ===================================================================== *)
(** ** The writes of [graph_to_conn] *)

Section Population.
Context {F : PyFloatOps}.

Lemma conn_setitem_value c src i dst j conn name v c' :
  conn_setitem c src i dst j conn name v = inr c' ->
  forall k i' j',
    value_at c' k i' j' =
    if eq_dec k (src, dst, conn, name)
    then (if (Z.eqb i' i && Z.eqb j' j)%bool then v else value_at c k i' j')
    else value_at c k i' j'.
Proof.
  unfold conn_setitem. destruct (negb (eqb_of src dst)); [ | discriminate ].
  destruct (conn_N c src) as [ e | ns ]; simpl; [ discriminate | ].
  destruct (conn_N c dst) as [ e | nd ]; simpl; [ discriminate | ].
  destruct (in_range i ns && in_range j nd && (0 <=? conn)%Z)%bool;
    [ | discriminate ].
  intros [= <-] k i' j'. unfold value_at; simpl.
  rewrite dict_get_set.
  destruct (eq_dec k (src, dst, conn, name)) as [ -> | Hne ]; [ | reflexivity ].
  unfold matrix_set, matrix_zero.
  destruct (dict_get (src, dst, conn, name) (_data c)) eqn:Hm; reflexivity.
Qed.

Lemma write_value ct c src i dst j conn name v c' :
  write ct c src i dst j conn name v = inr c' ->
  forall k i' j',
    value_at c' k i' j' =
    if eq_dec k (src, dst, conn, name)
    then (if (Z.eqb i' i && Z.eqb j' j)%bool then v else value_at c k i' j')
    else value_at c k i' j'.
Proof.
  destruct ct; unfold write, conn_setitem_all; apply conn_setitem_value.
Qed.

Lemma write_here ct c src i dst j conn name v c' :
  write ct c src i dst j conn name v = inr c' ->
  value_at c' (src, dst, conn, name) i j = v.
Proof.
  intros Hw. rewrite (write_value _ _ _ _ _ _ _ _ _ _ Hw).
  destruct (eq_dec (src, dst, conn, name) (src, dst, conn, name)); [ | congruence ].
  rewrite !Z.eqb_refl. reflexivity.
Qed.

Lemma write_elsewhere ct c src i dst j conn name v c' k i' j' :
  write ct c src i dst j conn name v = inr c' ->
  (k, i', j') <> ((src, dst, conn, name), i, j) ->
  value_at c' k i' j' = value_at c k i' j'.
Proof.
  intros Hw Hne. rewrite (write_value _ _ _ _ _ _ _ _ _ _ Hw).
  destruct (eq_dec k (src, dst, conn, name)) as [ -> | ]; [ | reflexivity ].
  destruct (Z.eqb_spec i' i) as [ -> | ]; [ | reflexivity ].
  destruct (Z.eqb_spec j' j) as [ -> | ]; [ congruence | reflexivity ].
Qed.

Lemma set_param_written ct a i b j conn (a' : attrs) name c c' :
  set_param ct a i b j conn a' name c = inr c' ->
  exists val x, dict_get name a' = Some val /\ coerced name val x
                /\ write ct c a i b j conn name x = inr c'.
Proof.
  unfold set_param, coerced.
  destruct (dict_get name a') as [ val | ]; simpl; [ | discriminate ].
  destruct (eqb_of name "id").
  - destruct (py_int val) as [ e | n ] eqn:Hn; simpl; [ discriminate | ].
    intros Hw. exists val, (PyInt n). split; [ reflexivity | ].
    split; [ exists n; rewrite Hn; auto | exact Hw ].
  - destruct (py_float val) as [ e | x ] eqn:Hx; simpl; [ discriminate | ].
    intros Hw. exists val, (PyFloat x). split; [ reflexivity | ].
    split; [ exists x; rewrite Hx; auto | exact Hw ].
Qed.

(** What one round of the loop over [g.edges()] went through. *)
Lemma set_edge_parts g ct u v c c' :
  set_edge g ct (u, v) c = inr c' ->
  exists a i b j kd,
    edge_end u = Some (a, i) /\ edge_end v = Some (b, j)
    /\ getitem2 g u v = inr kd
    /\ foreach (enumerate (dict_keys kd)) (fun '(conn, k) c =>
         c <- write ct c a i b j conn "conn" (PyInt 1) ;;
         a' <- of_option (dict_get k kd) (KeyError (py_str k)) ;;
         foreach (dict_keys a') (set_param ct a i b j conn a') c) c = inr c'.
Proof.
  unfold set_edge, edge_end, unpack2. simpl fst; simpl snd.
  destruct (split_on ":" u) as [ | a [ | n [ | ? ? ] ] ]; simpl; try discriminate.
  destruct (py_int_of_string n) as [ i | ]; simpl; [ | discriminate ].
  destruct (split_on ":" v) as [ | b [ | m [ | ? ? ] ] ]; simpl; try discriminate.
  destruct (py_int_of_string m) as [ j | ]; simpl; [ | discriminate ].
  destruct (getitem2 g u v) as [ e | kd ]; simpl; [ discriminate | ].
  intros Hrun. exists a, i, b, j, kd. auto.
Qed.

Section Invariant.
Variables (g : MultiDiGraph) (ct : conn_type) (Q : Connectivity -> Prop).

(** Every write of the loop keeps [Q]. *)
Hypothesis kept : forall c1 c2 a i b j conn name v,
  written g a i b j conn name v ->
  write ct c1 a i b j conn name v = inr c2 -> Q c1 -> Q c2.

Lemma params_keep u v a i b j kd conn k (a' : attrs) c c' :
  In (u, v) (edges g) ->
  edge_end u = Some (a, i) -> edge_end v = Some (b, j) ->
  getitem2 g u v = inr kd ->
  In (conn, k) (enumerate (dict_keys kd)) ->
  dict_get k kd = Some a' ->
  foreach (dict_keys a') (set_param ct a i b j conn a') c = inr c' ->
  Q c -> Q c'.
Proof.
  intros He Hu Hv Hkd Hk Ha Hrun.
  apply (foreach_stable Q _ _ _ _ Hrun).
  intros name c1 c2 _ Hset.
  apply set_param_written in Hset as (val & x & Hval & Hco & Hw).
  apply (kept c1 c2 a i b j conn name x); [ | exact Hw ].
  eapply written_param; eauto.
Qed.

Lemma slot_keeps u v a i b j kd conn k c c' :
  In (u, v) (edges g) ->
  edge_end u = Some (a, i) -> edge_end v = Some (b, j) ->
  getitem2 g u v = inr kd ->
  In (conn, k) (enumerate (dict_keys kd)) ->
  (c1 <- write ct c a i b j conn "conn" (PyInt 1) ;;
   a' <- of_option (dict_get k kd) (KeyError (py_str k)) ;;
   foreach (dict_keys a') (set_param ct a i b j conn a') c1) = inr c' ->
  Q c -> Q c'.
Proof.
  intros He Hu Hv Hkd Hk.
  destruct (write ct c a i b j conn "conn" (PyInt 1)) as [ e | c1 ] eqn:Hw;
    simpl; [ discriminate | ].
  destruct (dict_get k kd) as [ a' | ] eqn:Ha; simpl; [ | discriminate ].
  intros Hrun Hc.
  apply (params_keep u v a i b j kd conn k a' c1 c' He Hu Hv Hkd Hk Ha Hrun).
  apply (kept c c1 a i b j conn "conn" (PyInt 1)); [ | exact Hw | exact Hc ].
  eapply written_conn; eauto.
Qed.

Lemma set_edge_keeps u v c c' :
  In (u, v) (edges g) -> set_edge g ct (u, v) c = inr c' -> Q c -> Q c'.
Proof.
  intros He Hrun.
  apply set_edge_parts in Hrun as (a & i & b & j & kd & Hu & Hv & Hkd & Hrun).
  apply (foreach_stable Q _ _ _ _ Hrun).
  intros [conn k] c1 c2 Hk. apply (slot_keeps u v a i b j kd conn k); assumption.
Qed.

Lemma populate_keeps c0 c : populate g ct c0 = inr c -> Q c0 -> Q c.
Proof.
  unfold populate. intros Hrun.
  apply (foreach_stable Q _ _ _ _ Hrun).
  intros [u v] c1 c2 He. apply set_edge_keeps; exact He.
Qed.

(** The flag of a parallel edge holds [Q] once written, so [Q] holds in
    the end. *)
Lemma populate_flag c0 c u v a i b j kd conn k :
  populate g ct c0 = inr c ->
  In (u, v) (edges g) ->
  edge_end u = Some (a, i) -> edge_end v = Some (b, j) ->
  getitem2 g u v = inr kd ->
  In (conn, k) (enumerate (dict_keys kd)) ->
  (forall c1 c2, write ct c1 a i b j conn "conn" (PyInt 1) = inr c2 -> Q c2) ->
  Q c.
Proof.
  unfold populate. intros Hrun He Hu Hv Hkd Hk Hset.
  apply (foreach_establish Q _ _ _ _ (u, v) Hrun He).
  - intros c1 c2 Hedge.
    apply set_edge_parts in Hedge
      as (a1 & i1 & b1 & j1 & kd1 & Hu1 & Hv1 & Hkd1 & Hloop).
    rewrite Hu in Hu1; injection Hu1 as <- <-.
    rewrite Hv in Hv1; injection Hv1 as <- <-.
    rewrite Hkd in Hkd1; injection Hkd1 as <-.
    apply (foreach_establish Q _ _ _ _ (conn, k) Hloop Hk).
    + intros d1 d2.
      destruct (write ct d1 a i b j conn "conn" (PyInt 1)) as [ e | d ] eqn:Hw;
        simpl; [ discriminate | ].
      destruct (dict_get k kd) as [ a' | ] eqn:Ha; simpl; [ | discriminate ].
      intros Hparams.
      apply (params_keep u v a i b j kd conn k a' d d2 He Hu Hv Hkd Hk Ha Hparams).
      eapply Hset; eauto.
    + intros [conn' k'] d1 d2 Hk'.
      apply (slot_keeps u v a i b j kd conn' k'); assumption.
  - intros [u' v'] c1 c2 He'. apply set_edge_keeps; exact He'.
Qed.

(** The same for an attribute of a parallel edge. *)
Lemma populate_param c0 c u v a i b j kd conn k (a' : attrs) name :
  populate g ct c0 = inr c ->
  In (u, v) (edges g) ->
  edge_end u = Some (a, i) -> edge_end v = Some (b, j) ->
  getitem2 g u v = inr kd ->
  In (conn, k) (enumerate (dict_keys kd)) ->
  dict_get k kd = Some a' ->
  In name (dict_keys a') ->
  (forall c1 c2 val x, dict_get name a' = Some val -> coerced name val x ->
     write ct c1 a i b j conn name x = inr c2 -> Q c2) ->
  Q c.
Proof.
  unfold populate. intros Hrun He Hu Hv Hkd Hk Ha Hname Hset.
  apply (foreach_establish Q _ _ _ _ (u, v) Hrun He).
  - intros c1 c2 Hedge.
    apply set_edge_parts in Hedge
      as (a1 & i1 & b1 & j1 & kd1 & Hu1 & Hv1 & Hkd1 & Hloop).
    rewrite Hu in Hu1; injection Hu1 as <- <-.
    rewrite Hv in Hv1; injection Hv1 as <- <-.
    rewrite Hkd in Hkd1; injection Hkd1 as <-.
    apply (foreach_establish Q _ _ _ _ (conn, k) Hloop Hk).
    + intros d1 d2.
      destruct (write ct d1 a i b j conn "conn" (PyInt 1)) as [ e | d ] eqn:Hw;
        simpl; [ discriminate | ].
      rewrite Ha; simpl. intros Hparams.
      apply (foreach_establish Q _ _ _ _ name Hparams Hname).
      * intros e1 e2 Hsp.
        apply set_param_written in Hsp as (val & x & Hval & Hco & Hwx).
        eapply Hset; eauto.
      * intros name' e1 e2 _ Hsp.
        apply set_param_written in Hsp as (val & x & Hval & Hco & Hwx).
        apply (kept e1 e2 a i b j conn name' x); [ | exact Hwx ].
        eapply written_param; eauto.
    + intros [conn' k'] d1 d2 Hk'.
      apply (slot_keeps u v a i b j kd conn' k'); assumption.
  - intros [u' v'] c1 c2 He'. apply set_edge_keeps; exact He'.
Qed.
End Invariant.

Lemma enumerate_In {A} (xs : list A) (n : Z) (x : A) :
  In (n, x) (enumerate xs)
  <-> exists m, n = Z.of_nat m /\ nth_error xs m = Some x.
Proof.
  unfold enumerate, xrange.
  assert (G : forall start,
    In (n, x) (combine (map Z.of_nat (seq start (length xs))) xs)
    <-> exists m, n = Z.of_nat (start + m) /\ nth_error xs m = Some x).
  { induction xs as [ | y xs IH ]; intros start; simpl.
    - split; [ contradiction | intros ([ | m] & _ & Hm); discriminate ].
    - rewrite IH. split.
      + intros [ [= <- <-] | (m & -> & Hm) ].
        * exists 0. split; [ f_equal; lia | reflexivity ].
        * exists (S m). split; [ f_equal; lia | exact Hm ].
      + intros ([ | m] & -> & Hm); simpl in Hm.
        * injection Hm as <-. left. f_equal. f_equal. lia.
        * right. exists m. split; [ f_equal; lia | exact Hm ]. }
  apply (G 0).
Qed.

Lemma enumerate_functional {A} (xs : list A) n x y :
  In (n, x) (enumerate xs) -> In (n, y) (enumerate xs) -> x = y.
Proof.
  rewrite !enumerate_In. intros (m & -> & Hx) (m' & Hm & Hy).
  apply Nat2Z.inj in Hm as <-. congruence.
Qed.

Lemma enumerate_bound {A} (xs : list A) n :
  (exists x, In (n, x) (enumerate xs)) <-> (0 <= n < Z.of_nat (length xs))%Z.
Proof.
  split.
  - intros (x & Hx). apply enumerate_In in Hx as (m & -> & Hm).
    assert (m < length xs) by (apply nth_error_Some; congruence). lia.
  - intros Hn. destruct (nth_error xs (Z.to_nat n)) as [ x | ] eqn:Hx.
    + exists x. apply enumerate_In. exists (Z.to_nat n). split; [ lia | exact Hx ].
    + apply nth_error_None in Hx. lia.
Qed.

Lemma canonical_label l a i :
  canonical l = true -> edge_end l = Some (a, i) -> l = label a i.
Proof.
  unfold canonical. intros Hc He. rewrite He in Hc.
  apply String.eqb_eq in Hc. congruence.
Qed.

Lemma well_labelled_edge g u v :
  edges_well_labelled g = true -> In (u, v) (edges g) ->
  canonical u = true /\ canonical v = true.
Proof.
  unfold edges_well_labelled. intros Hw He.
  apply andb_true_iff in Hw as [Hw _].
  rewrite forallb_forall in Hw. specialize (Hw (u, v) He). simpl in Hw.
  apply andb_true_iff in Hw. exact Hw.
Qed.

Lemma well_labelled_attr g u v kd k (a' : attrs) name val :
  edges_well_labelled g = true ->
  getitem2 g u v = inr kd -> dict_get k kd = Some a' ->
  dict_get name a' = Some val -> name <> "conn".
Proof.
  unfold edges_well_labelled, no_conn_attr, getitem2.
  intros Hw Hkd Ha Hval.
  apply andb_true_iff in Hw as [_ Hw].
  destruct (dict_get u (adj g)) as [ nbrs | ] eqn:Hu; simpl in Hkd; [ | discriminate ].
  destruct (dict_get v nbrs) as [ kd' | ] eqn:Hv; simpl in Hkd; [ | discriminate ].
  injection Hkd as ->.
  rewrite forallb_forall in Hw.
  specialize (Hw _ (dict_get_Some_In _ _ _ Hu)). simpl in Hw.
  rewrite forallb_forall in Hw.
  specialize (Hw _ (dict_get_Some_In _ _ _ Hv)). simpl in Hw.
  rewrite forallb_forall in Hw.
  specialize (Hw _ (dict_get_Some_In _ _ _ Ha)). simpl in Hw.
  apply negb_true_iff in Hw.
  intros ->. assert (Hin : In "conn" (dict_keys a')).
  { apply dict_get_In. congruence. }
  apply (mem_In (K := string)) in Hin. congruence.
Qed.

(** On a well-labelled graph a write to the cell of an edge comes from that
    edge. *)
Lemma written_same_edge g u v a i b j kd conn name x :
  edges_well_labelled g = true ->
  In (u, v) (edges g) ->
  edge_end u = Some (a, i) -> edge_end v = Some (b, j) ->
  getitem2 g u v = inr kd ->
  written g a i b j conn name x ->
  (name = "conn" /\ x = PyInt 1
   /\ (0 <= conn < Z.of_nat (length kd))%Z)
  \/ (name <> "conn" /\
      exists k a' val, In (conn, k) (enumerate (dict_keys kd))
                       /\ dict_get k kd = Some a'
                       /\ dict_get name a' = Some val /\ coerced name val x).
Proof.
  intros Hw He Hu Hv Hkd Hwr.
  destruct (well_labelled_edge g u v Hw He) as [Hcu Hcv].
  pose proof (canonical_label u a i Hcu Hu) as Eu.
  pose proof (canonical_label v b j Hcv Hv) as Ev.
  subst u v.
  inversion Hwr as [ u' v' ? ? ? ? kd' ? k He' Hu' Hv' Hkd' Hk
                   | u' v' ? ? ? ? kd' ? k a' ? val ? He' Hu' Hv' Hkd' Hk Ha Hval Hco ];
    subst;
    destruct (well_labelled_edge g u' v' Hw He') as [Hcu' Hcv'];
    pose proof (canonical_label u' a i Hcu' Hu') as Eu';
    pose proof (canonical_label v' b j Hcv' Hv') as Ev';
    subst u' v';
    rewrite Hkd in Hkd'; injection Hkd' as <-.
  - left. repeat split; try reflexivity.
    + assert (Hb : exists k0, In (conn, k0) (enumerate (dict_keys kd)))
        by (exists k; exact Hk).
      apply enumerate_bound in Hb. lia.
    + assert (Hb : exists k0, In (conn, k0) (enumerate (dict_keys kd)))
        by (exists k; exact Hk).
      apply enumerate_bound in Hb. unfold dict_keys in Hb.
      rewrite length_map in Hb. lia.
  - right. split.
    + eapply well_labelled_attr; eauto.
    + exists k, a', val. auto.
Qed.

Lemma allocate_empty ct z k i j : value_at (allocate ct z) k i j = PyInt 0.
Proof.
  unfold allocate. destruct ct; [ reflexivity | ].
  destruct (s_gpot_spike z) as [ [ [ [? ?] ?] ?] | ]; reflexivity.
Qed.

Lemma graph_to_conn_returns g ct c :
  graph_to_conn g ct = inr c ->
  exists z, validate g ct = inr z /\ populate g ct (allocate ct z) = inr c.
Proof.
  unfold graph_to_conn, graph_to_conn_run.
  destruct (validate g ct) as [ e | z ]; [ discriminate | ].
  destruct (populate g ct (allocate ct z)) as [ e | c' ] eqn:Hp; [ discriminate | ].
  intros [= <-]. exists z. auto.
Qed.

End Population.

(* ===================================================================== *)
(** ** [graph_to_conn]: what the returned object holds *)

Section ReturnedObject.
Context {F : PyFloatOps}.

(** C10 as it is worded: whatever graph [graph_to_conn] accepts, a node pair
    with [k] parallel edges has the presence flag in exactly the slots
    0, ..., k-1 of its index pair. *)
Definition flags_in_first_slots (g : MultiDiGraph) (ct : conn_type) : Prop :=
  forall c u v a i b j kd,
    graph_to_conn g ct = inr c ->
    In (u, v) (edges g) ->
    edge_end u = Some (a, i) -> edge_end v = Some (b, j) ->
    getitem2 g u v = inr kd ->
    forall s : Z,
      conn_flag c a i b j s = true <-> (0 <= s < Z.of_nat (length kd))%Z.

(** C10, amended. On a well-labelled graph that [graph_to_conn] accepts (the
    ends of its edges are labelled as [conn_to_graph] labels them, and no
    edge has an attribute named 'conn'), a node pair with [k] parallel edges
    gets the presence flag in exactly the slots 0, ..., k-1 of its index
    pair, whatever the keys of the parallel edges are. *)
Theorem slots_renumbered_from_zero g ct c u v a i b j kd :
  edges_well_labelled g = true ->
  graph_to_conn g ct = inr c ->
  In (u, v) (edges g) ->
  edge_end u = Some (a, i) -> edge_end v = Some (b, j) ->
  getitem2 g u v = inr kd ->
  forall s : Z,
    conn_flag c a i b j s = true <-> (0 <= s < Z.of_nat (length kd))%Z.
Proof.
  intros Hw Hret He Hu Hv Hkd s.
  apply graph_to_conn_returns in Hret as (z & _ & Hpop).
  unfold conn_flag. split.
  - intros Hflag.
    assert (Hq : value_at c (a, b, s, "conn") i j = PyInt 0
                 \/ (0 <= s < Z.of_nat (length kd))%Z).
    { apply (populate_keeps g ct
               (fun c => value_at c (a, b, s, "conn") i j = PyInt 0
                         \/ (0 <= s < Z.of_nat (length kd))%Z))
        with (c0 := allocate ct z);
        [ | exact Hpop | left; apply allocate_empty ].
      intros c1 c2 a' i' b' j' conn name x Hwr Hwrite Hq.
      rewrite (write_value _ _ _ _ _ _ _ _ _ _ Hwrite).
      destruct (eq_dec (a, b, s, "conn") (a', b', conn, name)) as [ E | ];
        [ | exact Hq ].
      destruct (Z.eqb_spec i i') as [ <- | ]; [ | exact Hq ].
      destruct (Z.eqb_spec j j') as [ <- | ]; [ | exact Hq ].
      injection E as <- <- <- <-. simpl.
      destruct (written_same_edge g u v a i b j kd s "conn" x Hw He Hu Hv Hkd Hwr)
        as [ (_ & _ & Hb) | (Hne & _) ]; [ right; exact Hb | congruence ]. }
    destruct Hq as [ Hq | Hq ]; [ | exact Hq ].
    rewrite Hq in Hflag. discriminate.
  - intros Hs.
    assert (Hb : (0 <= s < Z.of_nat (length (dict_keys kd)))%Z).
    { unfold dict_keys. rewrite length_map. exact Hs. }
    apply enumerate_bound in Hb as (k & Hk).
    assert (Hq : value_at c (a, b, s, "conn") i j = PyInt 1).
    { apply (populate_flag g ct
               (fun c => value_at c (a, b, s, "conn") i j = PyInt 1))
        with (c0 := allocate ct z) (u := u) (v := v) (a := a) (i := i)
             (b := b) (j := j) (kd := kd) (conn := s) (k := k);
        try assumption.
      2:{ intros c1 c2 Hwrite. apply (write_here _ _ _ _ _ _ _ _ _ _ Hwrite). }
      { intros c1 c2 a' i' b' j' conn name x Hwr Hwrite Hq.
        rewrite (write_value _ _ _ _ _ _ _ _ _ _ Hwrite).
        destruct (eq_dec (a, b, s, "conn") (a', b', conn, name)) as [ E | ];
          [ | exact Hq ].
        destruct (Z.eqb_spec i i') as [ <- | ]; [ | exact Hq ].
        destruct (Z.eqb_spec j j') as [ <- | ]; [ | exact Hq ].
        injection E as <- <- <- <-. simpl.
        destruct (written_same_edge g u v a i b j kd s "conn" x Hw He Hu Hv Hkd Hwr)
          as [ (_ & Hx & _) | (Hne & _) ]; [ exact Hx | congruence ]. } }
    rewrite Hq. reflexivity.
Qed.


End ReturnedObject.

(* ===================================================================== *)
(** ** Text: keys and labels *)

Section Text.

Definition all_chars (p : ascii -> bool) (s : string) : bool :=
  forallb p (list_ascii_of_string s).

Lemma no_char_all c s : no_char c s = all_chars (fun x => negb (Ascii.eqb x c)) s.
Proof. reflexivity. Qed.

Lemma all_chars_cons p x r :
  all_chars p (String x r) = (p x && all_chars p r)%bool.
Proof. reflexivity. Qed.

Lemma all_chars_app p a b :
  all_chars p (a ++ b) = (all_chars p a && all_chars p b)%bool.
Proof.
  induction a as [ | x a IH ]; simpl; [ reflexivity | ].
  rewrite !all_chars_cons, IH, andb_assoc. reflexivity.
Qed.

Lemma all_chars_impl (p q : ascii -> bool) s :
  (forall x, p x = true -> q x = true) ->
  all_chars p s = true -> all_chars q s = true.
Proof.
  intros Hpq. induction s as [ | x s IH ]; [ reflexivity | ].
  rewrite !all_chars_cons, !andb_true_iff. intros [Hx Hs]. auto.
Qed.

Lemma no_char_app c a b :
  no_char c (a ++ b) = (no_char c a && no_char c b)%bool.
Proof. rewrite !no_char_all. apply all_chars_app. Qed.

Lemma split_on_nonempty c s : split_on c s <> [].
Proof.
  destruct s as [ | x r ]; simpl; [ discriminate | ].
  destruct (Ascii.eqb x c); [ discriminate | ].
  destruct (split_on c r); discriminate.
Qed.

Lemma split_on_absent c d : no_char c d = true -> split_on c d = [d].
Proof.
  induction d as [ | x d IH ]; [ reflexivity | ].
  rewrite no_char_all, all_chars_cons, <- no_char_all, andb_true_iff.
  intros [Hx Hd]. simpl. apply negb_true_iff in Hx. rewrite Hx, (IH Hd).
  reflexivity.
Qed.

Lemma split_on_app c a b :
  no_char c a = true -> split_on c (a ++ String c b) = a :: split_on c b.
Proof.
  induction a as [ | x a IH ].
  - intros _. simpl. rewrite Ascii.eqb_refl. reflexivity.
  - rewrite no_char_all, all_chars_cons, <- no_char_all, andb_true_iff.
    intros [Hx Ha]. simpl. apply negb_true_iff in Hx. rewrite Hx, (IH Ha).
    reflexivity.
Qed.

(** The characters of [str(n)]. *)
Definition digit_or_minus (c : ascii) : bool :=
  match c with
  | "0" | "1" | "2" | "3" | "4" | "5" | "6" | "7" | "8" | "9" | "-" => true
  | _ => false
  end%char.

Lemma uint_chars d : all_chars digit_or_minus (NilEmpty.string_of_uint d) = true.
Proof. induction d; simpl; try reflexivity; rewrite all_chars_cons; exact IHd. Qed.

Lemma py_str_chars n : all_chars digit_or_minus (py_str n) = true.
Proof.
  unfold py_str. destruct (Z.to_int n) as [ d | d ]; simpl.
  - destruct d; try reflexivity; apply (uint_chars (_ d)) || apply uint_chars.
  - rewrite all_chars_cons. simpl.
    destruct d; try reflexivity; apply (uint_chars (_ d)) || apply uint_chars.
Qed.

Lemma py_str_no_char c n :
  digit_or_minus c = false -> no_char c (py_str n) = true.
Proof.
  intros Hc. rewrite no_char_all.
  apply (all_chars_impl digit_or_minus); [ | apply py_str_chars ].
  intros x Hx. apply negb_true_iff. apply Ascii.eqb_neq. intros ->. congruence.
Qed.

Lemma lstrip_same s :
  all_chars (fun x => negb (is_space x)) s = true -> lstrip s = s.
Proof.
  destruct s as [ | x s ]; [ reflexivity | ].
  rewrite all_chars_cons, andb_true_iff. intros [Hx _].
  apply negb_true_iff in Hx. simpl. rewrite Hx. reflexivity.
Qed.

Lemma rstrip_same s :
  all_chars (fun x => negb (is_space x)) s = true -> rstrip s = s.
Proof.
  induction s as [ | x s IH ]; [ reflexivity | ].
  rewrite all_chars_cons, andb_true_iff. intros [Hx Hs].
  apply negb_true_iff in Hx. simpl. rewrite (IH Hs), Hx.
  destruct s; reflexivity.
Qed.

Lemma py_str_not_space n :
  all_chars (fun x => negb (is_space x)) (py_str n) = true.
Proof.
  apply (all_chars_impl digit_or_minus); [ | apply py_str_chars ].
  intros x. destruct x as [ [ | ] [ | ] [ | ] [ | ] [ | ] [ | ] [ | ] [ | ] ];
    simpl; intros Hx; try reflexivity; discriminate.
Qed.

(** [int(str(n)) == n] *)
Lemma py_int_of_str n : py_int_of_string (py_str n) = Some n.
Proof.
  unfold py_int_of_string.
  rewrite (lstrip_same _ (py_str_not_space n)),
          (rstrip_same _ (py_str_not_space n)).
  assert (Hplus : forall r, py_str n <> String "+" r).
  { intros r E. pose proof (py_str_chars n) as Hc. rewrite E in Hc.
    rewrite all_chars_cons in Hc. discriminate. }
  assert (Hsame :
    match py_str n with
    | String "+" (String "-" _) => EmptyString
    | String "+" (String "+" _) => EmptyString
    | String "+" r => r
    | _ => py_str n
    end = py_str n).
  { destruct (py_str n) as [ | x r ] eqn:E; [ reflexivity | ].
    destruct (Ascii.eqb_spec x "+") as [ -> | Hx ].
    - exfalso. apply (Hplus r). reflexivity.
    - destruct x as [ [ | ] [ | ] [ | ] [ | ] [ | ] [ | ] [ | ] [ | ] ];
        try reflexivity. congruence. }
  rewrite Hsame. unfold py_str.
  rewrite NilZero.isi.
  - simpl. f_equal. apply DecimalZ.of_to.
  - destruct n; simpl; try discriminate.
    intros [= E]. apply (Unsigned.to_uint_nonnil _ E).
  - destruct n; simpl; try discriminate.
    intros [= E]. apply (Unsigned.to_uint_nonnil _ E).
Qed.

Lemma py_str_inj n m : py_str n = py_str m -> n = m.
Proof.
  intros E. pose proof (py_int_of_str n) as Hn. rewrite E, py_int_of_str in Hn.
  congruence.
Qed.

(** A label is taken apart into the id and the index it was made of. *)
Lemma split_label id i :
  no_char ":" id = true -> split_on ":" (label id i) = [id; py_str i].
Proof.
  intros Hid. unfold label. simpl.
  rewrite (split_on_app ":" id (py_str i) Hid).
  rewrite split_on_absent; [ reflexivity | ].
  apply py_str_no_char. reflexivity.
Qed.

Lemma label_inj id i id' i' :
  no_char ":" id = true -> no_char ":" id' = true ->
  label id i = label id' i' -> id = id' /\ i = i'.
Proof.
  intros Hid Hid' E.
  pose proof (split_label id i Hid) as H1. rewrite E, (split_label id' i' Hid') in H1.
  injection H1 as <- Hs. split; [ reflexivity | ]. symmetry. apply py_str_inj, Hs.
Qed.

Lemma split_on_join c y m :
  split_on c (y ++ String c m) = split_on c y ++ split_on c m.
Proof.
  induction y as [ | x y IH ]; simpl.
  - rewrite Ascii.eqb_refl. reflexivity.
  - destruct (Ascii.eqb x c); [ rewrite IH; reflexivity | ].
    rewrite IH. destruct (split_on c y) as [ | h t ] eqn:E; [ | reflexivity ].
    exfalso. apply (split_on_nonempty c y E).
Qed.

Lemma last_part c y m :
  no_char c m = true -> last (split_on c (y ++ String c m)) EmptyString = m.
Proof.
  intros Hm. rewrite split_on_join, (split_on_absent c m Hm).
  apply last_last.
Qed.

Lemma ends_with_app suffix p : ends_with suffix (p ++ suffix) = true.
Proof.
  induction p as [ | x p IH ]; simpl.
  - destruct suffix; [ reflexivity | ].
    cbn [ends_with]. rewrite String.eqb_refl. reflexivity.
  - rewrite IH. apply orb_true_r.
Qed.

Lemma ends_with_inv suffix t :
  ends_with suffix t = true -> exists p : string, t = (p ++ suffix)%string.
Proof.
  induction t as [ | x t IH ]; cbn [ends_with].
  - rewrite orb_false_r. intros E. apply String.eqb_eq in E. exists EmptyString.
    rewrite <- E. reflexivity.
  - intros E. apply orb_true_iff in E as [ E | E ].
    + apply String.eqb_eq in E. exists EmptyString. rewrite <- E. reflexivity.
    + destruct (IH E) as (p & ->). exists (String x p). reflexivity.
Qed.

Lemma ends_with_conn y n :
  no_char "/" n = true ->
  ends_with "/conn" (y ++ String "/" n) = String.eqb n "conn".
Proof.
  intros Hn. destruct (String.eqb_spec n "conn") as [ -> | Hne ].
  - apply (ends_with_app "/conn" y).
  - destruct (ends_with "/conn" (y ++ String "/" n)) eqn:E; [ | reflexivity ].
    apply ends_with_inv in E as (p & E).
    assert (H1 := last_part "/" y n Hn).
    rewrite E in H1.
    rewrite (last_part "/" p "conn" eq_refl) in H1. congruence.
Qed.

End Text.

Section Keys.
Context {F : PyFloatOps}.

Lemma append_assoc_string (a b c : string) : ((a ++ b) ++ c = a ++ (b ++ c))%string.
Proof. induction a as [ | x a IH ]; simpl; [ reflexivity | rewrite IH; reflexivity ]. Qed.

Lemma parse_make_key k : clean_key k = true -> parse_key (make_key k) = inr k.
Proof.
  destruct k as [ [ [src dst] conn ] name ]. unfold clean_key, parse_key, make_key.
  rewrite !andb_true_iff. intros [ [ [ [ [Hs Hd] Hn ] _ ] _ ] _ ].
  simpl. rewrite (split_on_app "/" src _ Hs), (split_on_app "/" dst _ Hd).
  rewrite (split_on_app "/" (py_str conn) name (py_str_no_char "/" conn eq_refl)).
  rewrite (split_on_absent "/" name Hn). simpl.
  rewrite py_int_of_str. reflexivity.
Qed.

Lemma match_make_key k :
  clean_key k = true ->
  re_match_conn (make_key k) = String.eqb (snd k) "conn".
Proof.
  destruct k as [ [ [src dst] conn ] name ]. unfold clean_key, make_key.
  rewrite !andb_true_iff. intros [ [ [ [ [_ _] Hn ] Hs' ] Hd' ] Hn' ].
  unfold re_match_conn. rewrite split_on_absent.
  - simpl snd.
    replace (src ++ "/" ++ dst ++ "/" ++ py_str conn ++ "/" ++ name)%string
      with ((src ++ "/" ++ dst ++ "/" ++ py_str conn) ++ String "/" name)%string.
    + apply ends_with_conn, Hn.
    + rewrite ?append_assoc_string. simpl. rewrite ?append_assoc_string.
      simpl. rewrite ?append_assoc_string. reflexivity.
  - rewrite !no_char_app. simpl.
    rewrite Hs', Hd', Hn', (py_str_no_char newline conn eq_refl). reflexivity.
Qed.

End Keys.

(* ===================================================================== *)
(** ** Loops that run to their end, and the graph operations *)

Section LoopsTotal.
Context {A S : Type}.

(** An invariant over the rounds made so far: when every round keeps it and
    returns, the loop returns and the invariant holds of all rounds. *)
Lemma foreach_inv (I : list A -> S -> Prop) (body : A -> S -> result S) xs s0 :
  I [] s0 ->
  (forall pre x post s, xs = pre ++ x :: post -> I pre s ->
     exists s', body x s = inr s' /\ I (pre ++ [x]) s') ->
  exists s, foreach xs body s0 = inr s /\ I xs s.
Proof.
  intros H0 Hstep.
  assert (G : forall post pre s, xs = pre ++ post -> I pre s ->
              exists s', foreach post body s = inr s' /\ I xs s').
  { induction post as [ | x post IH ]; intros pre s Hxs Hpre.
    - exists s. rewrite app_nil_r in Hxs. subst pre. split; [ reflexivity | exact Hpre ].
    - destruct (Hstep pre x post s Hxs Hpre) as (s' & Hx & Hs').
      destruct (IH (pre ++ [x]) s') as (s'' & Hrun & Hfin).
      + rewrite <- app_assoc. exact Hxs.
      + exact Hs'.
      + exists s''. split; [ simpl; rewrite Hx; exact Hrun | exact Hfin ]. }
  apply (G xs [] s0); [ reflexivity | exact H0 ].
Qed.

Lemma foreach_map {B} (f : B -> A) (body : A -> S -> result S) ys s :
  foreach (map f ys) body s = foreach ys (fun y => body (f y)) s.
Proof.
  revert s; induction ys as [ | y ys IH ]; intros s; simpl; [ reflexivity | ].
  destruct (body (f y) s); simpl; [ reflexivity | apply IH ].
Qed.

Lemma foreach_ext (body body' : A -> S -> result S) xs s :
  (forall x t, In x xs -> body x t = body' x t) ->
  foreach xs body s = foreach xs body' s.
Proof.
  revert s; induction xs as [ | x xs IH ]; intros s Hext; simpl; [ reflexivity | ].
  rewrite (Hext x s (or_introl eq_refl)).
  destruct (body' x s); simpl; [ reflexivity | ].
  apply IH. intros y t Hy. apply Hext. right; exact Hy.
Qed.
End LoopsTotal.

Section SetFacts.
Context {K : Type} `{EqDec K}.

Lemma mem_app (x : K) (s t : list K) : mem x (s ++ t) = (mem x s || mem x t)%bool.
Proof.
  induction s as [ | y s IH ]; simpl; [ reflexivity | ].
  destruct (eq_dec x y); [ reflexivity | exact IH ].
Qed.

Lemma nodupb_NoDup (xs : list K) : nodupb xs = true -> NoDup xs.
Proof.
  induction xs as [ | x xs IH ]; simpl; [ constructor | ].
  rewrite andb_true_iff, negb_true_iff. intros [Hx Hxs].
  constructor; [ | auto ]. intros Hin. apply mem_In in Hin. congruence.
Qed.

Lemma dict_has_In {V} (k : K) (d : dict K V) :
  dict_has k d = true <-> In k (dict_keys d).
Proof.
  unfold dict_has. rewrite dict_get_In.
  destruct (dict_get k d); split; congruence.
Qed.

Lemma dict_set_absent {V} (k : K) (v : V) (d : dict K V) :
  dict_get k d = None -> dict_set k v d = d ++ [(k, v)].
Proof.
  induction d as [ | [k' v'] d IH ]; simpl; [ reflexivity | ].
  destruct (eq_dec k k'); [ discriminate | ].
  intros Hg. rewrite (IH Hg). reflexivity.
Qed.
End SetFacts.

Section GraphFacts.
Context {F : PyFloatOps}.
Implicit Types (g : MultiDiGraph) (u v l : string).

(** The nodes [ls] are in the graph, each without attribute and without
    edge. *)
Definition bare (g : MultiDiGraph) (ls : list string) : Prop :=
  (forall l, dict_get l (node g) = if mem l ls then Some [] else None)
  /\ (forall l, dict_get l (adj g) = if mem l ls then Some [] else None).

Lemma add_nodes_from_bare ns : forall g ls,
  bare g ls -> bare (add_nodes_from g ns) (ls ++ ns).
Proof.
  induction ns as [ | n ns IH ]; intros g ls Hb.
  - rewrite app_nil_r. exact Hb.
  - simpl. replace (ls ++ n :: ns) with ((ls ++ [n]) ++ ns)
      by (rewrite <- app_assoc; reflexivity).
    apply IH. destruct Hb as [Hn Ha]. unfold add_node, dict_has.
    rewrite (Ha n). destruct (mem n ls) eqn:Hm.
    + split; intros l; rewrite mem_app; simpl;
        [ rewrite (Hn l) | rewrite (Ha l) ];
        destruct (eq_dec l n) as [ -> | ];
        rewrite ?Hm, ?orb_false_r; reflexivity.
    + split; intros l; simpl; rewrite dict_get_set, mem_app; simpl;
        [ rewrite (Hn l) | rewrite (Ha l) ];
        destruct (eq_dec l n) as [ -> | ];
        rewrite ?orb_true_r, ?orb_false_r; reflexivity.
Qed.

(** The parallel edges that [n] calls of [add_edge] make. *)
Definition fresh_edges (n : nat) : option (dict Z attrs) :=
  match n with
  | O => None
  | S _ => Some (map (fun s => (Z.of_nat s, [])) (seq 0 n))
  end.

Lemma fresh_edges_get n (s : Z) :
  dict_get s (map (fun t => (Z.of_nat t, @nil (string * pyval))) (seq 0 n))
  = if (Z.leb 0 s && Z.ltb s (Z.of_nat n))%bool then Some [] else None.
Proof.
  assert (G : forall start,
    dict_get s (map (fun t => (Z.of_nat t, @nil (string * pyval))) (seq start n))
    = if (Z.leb (Z.of_nat start) s && Z.ltb s (Z.of_nat (start + n)))%bool
      then Some [] else None).
  { induction n as [ | n IH ]; intros start; simpl.
    - destruct (Z.leb_spec (Z.of_nat start) s), (Z.ltb_spec s (Z.of_nat (start + 0)));
        simpl; try reflexivity; lia.
    - destruct (eq_dec s (Z.of_nat start)) as [ -> | Hne ].
      + destruct (Z.leb_spec (Z.of_nat start) (Z.of_nat start)),
                 (Z.ltb_spec (Z.of_nat start) (Z.of_nat (start + S n)));
          simpl; try reflexivity; lia.
      + rewrite (IH (S start)).
        destruct (Z.leb_spec (Z.of_nat (S start)) s),
                 (Z.ltb_spec s (Z.of_nat (S start + n))),
                 (Z.leb_spec (Z.of_nat start) s),
                 (Z.ltb_spec s (Z.of_nat (start + S n)));
          simpl; try reflexivity; lia. }
  rewrite (G 0). reflexivity.
Qed.

Lemma fresh_edges_next n :
  match fresh_edges n with
  | Some kd => dict_set (new_key kd) [] kd
  | None => [(0%Z, [])]
  end = map (fun s => (Z.of_nat s, [])) (seq 0 (S n)).
Proof.
  destruct n as [ | n ]; [ reflexivity | ].
  unfold fresh_edges.
  set (kd := map (fun s => (Z.of_nat s, @nil (string * pyval))) (seq 0 (S n))).
  assert (Hlen : length kd = S n)
    by (unfold kd; rewrite length_map, length_seq; reflexivity).
  assert (Hfree : dict_get (Z.of_nat (S n)) kd = None).
  { unfold kd. rewrite fresh_edges_get.
    destruct (Z.ltb_spec (Z.of_nat (S n)) (Z.of_nat (S n))); [ lia | ].
    rewrite andb_false_r. reflexivity. }
  assert (Hkey : new_key kd = Z.of_nat (S n)).
  { unfold new_key. rewrite Hlen. cbn [free_key]. unfold dict_has.
    rewrite Hfree. reflexivity. }
  rewrite Hkey, (dict_set_absent _ _ _ Hfree). unfold kd.
  rewrite (seq_S (S n) 0), map_app. reflexivity.
Qed.

Lemma add_node_present g l : dict_has l (adj g) = true -> add_node g l = g.
Proof. unfold add_node. intros ->. reflexivity. Qed.

(** [add_edge] between two nodes of the graph that so far have the edges
    of [n] calls. *)
Lemma add_edge_spec g u0 v0 n :
  dict_has u0 (adj g) = true -> dict_has v0 (adj g) = true ->
  keydict g u0 v0 = fresh_edges n ->
  node (add_edge g u0 v0) = node g
  /\ (forall l, dict_has l (adj (add_edge g u0 v0)) = dict_has l (adj g))
  /\ (forall u v, keydict (add_edge g u0 v0) u v =
        if eq_dec (u, v) (u0, v0) then fresh_edges (S n) else keydict g u v).
Proof.
  intros Hu Hv Hkd. unfold add_edge.
  rewrite (add_node_present g u0 Hu), (add_node_present g v0 Hv).
  unfold keydict in Hkd. unfold dict_has in Hu.
  destruct (dict_get u0 (adj g)) as [ nbrs | ] eqn:Hn; [ | discriminate ].
  rewrite Hkd, fresh_edges_next. simpl. split; [ reflexivity | ]. split.
  - intros l. unfold dict_has. rewrite dict_get_set.
    destruct (eq_dec l u0) as [ -> | ]; [ rewrite Hn | ]; reflexivity.
  - intros u v. unfold keydict; simpl. rewrite dict_get_set.
    destruct (eq_dec u u0) as [ -> | Hne ].
    + rewrite dict_get_set, Hn.
      destruct (eq_dec v v0) as [ -> | Hne ].
      * destruct (eq_dec (u0, v0) (u0, v0)); [ reflexivity | congruence ].
      * destruct (eq_dec (u0, v) (u0, v0)); [ congruence | reflexivity ].
    + destruct (eq_dec (u, v) (u0, v0)); [ congruence | reflexivity ].
Qed.

(** [g[u][v][key][name] = val] on an edge of the graph. *)
Lemma set_edge_attr_spec g u0 v0 key name val :
  has_edge g u0 v0 key = true ->
  exists g', set_edge_attr g u0 v0 key name val = inr g'
    /\ node g' = node g
    /\ (forall l, dict_has l (adj g') = dict_has l (adj g))
    /\ (forall u v k, has_edge g' u v k = has_edge g u v k)
    /\ (forall u v k nm, edge_attr g' u v k nm =
          if eq_dec (u, v, k, nm) (u0, v0, key, name) then Some val
          else edge_attr g u v k nm).
Proof.
  unfold has_edge, keydict, set_edge_attr, dict_has.
  destruct (dict_get u0 (adj g)) as [ nbrs | ] eqn:Hn; [ | discriminate ].
  destruct (dict_get v0 nbrs) as [ kd | ] eqn:Hkd; [ | discriminate ].
  destruct (dict_get key kd) as [ a | ] eqn:Ha; [ | discriminate ].
  intros _. simpl. rewrite Hkd. simpl. rewrite Ha. simpl.
  eexists. split; [ reflexivity | ]. simpl.
  split; [ reflexivity | ]. split; [ | split ].
  - intros l. rewrite dict_get_set.
    destruct (eq_dec l u0) as [ -> | ]; [ rewrite Hn | ]; reflexivity.
  - intros u v k. unfold has_edge, keydict, dict_has; simpl.
    rewrite dict_get_set. destruct (eq_dec u u0) as [ -> | ]; [ | reflexivity ].
    rewrite Hn, dict_get_set. destruct (eq_dec v v0) as [ -> | ]; [ | reflexivity ].
    rewrite Hkd, dict_get_set.
    destruct (eq_dec k key) as [ -> | ]; [ rewrite Ha | ]; reflexivity.
  - intros u v k nm. unfold edge_attr, keydict; simpl.
    rewrite dict_get_set. destruct (eq_dec u u0) as [ -> | Hne ].
    2:{ destruct (eq_dec (u, v, k, nm) (u0, v0, key, name)); [ congruence | reflexivity ]. }
    rewrite Hn, dict_get_set. destruct (eq_dec v v0) as [ -> | Hne ].
    2:{ destruct (eq_dec (u0, v, k, nm) (u0, v0, key, name)); [ congruence | reflexivity ]. }
    rewrite Hkd, dict_get_set. destruct (eq_dec k key) as [ -> | Hne ].
    2:{ destruct (eq_dec (u0, v0, k, nm) (u0, v0, key, name)); [ congruence | reflexivity ]. }
    rewrite Ha, dict_get_set. destruct (eq_dec nm name) as [ -> | Hne ].
    + destruct (eq_dec (u0, v0, key, name) (u0, v0, key, name)); [ reflexivity | congruence ].
    + destruct (eq_dec (u0, v0, key, nm) (u0, v0, key, name)); [ congruence | reflexivity ].
Qed.

(** [g.node[l][name] = val] on a node of the graph. *)
Lemma set_node_attr_spec g l0 name val :
  dict_get l0 (node g) <> None ->
  exists g', set_node_attr g l0 name val = inr g'
    /\ adj g' = adj g
    /\ (forall l, dict_get l (node g') = None <-> dict_get l (node g) = None)
    /\ (forall l nm, node_attr g' l nm =
          if eq_dec (l, nm) (l0, name) then Some val else node_attr g l nm).
Proof.
  unfold set_node_attr.
  destruct (dict_get l0 (node g)) as [ a | ] eqn:Ha; [ | congruence ].
  intros _. simpl. eexists. split; [ reflexivity | ]. simpl.
  split; [ reflexivity | ]. split.
  - intros l. rewrite dict_get_set.
    destruct (eq_dec l l0) as [ -> | ]; [ rewrite Ha | ]; split; congruence.
  - intros l nm. unfold node_attr; simpl. rewrite dict_get_set.
    destruct (eq_dec l l0) as [ -> | Hne ].
    + rewrite Ha, dict_get_set. destruct (eq_dec nm name) as [ -> | Hne ].
      * destruct (eq_dec (l0, name) (l0, name)); [ reflexivity | congruence ].
      * destruct (eq_dec (l0, nm) (l0, name)); [ congruence | reflexivity ].
    + destruct (eq_dec (l, nm) (l0, name)); [ congruence | reflexivity ].
Qed.

End GraphFacts.

(* ===================================================================== *)
(** ** [conn_to_graph] on a well-formed model *)

Section Encoding.
Context {F : PyFloatOps}.
Variable c : Connectivity.
Hypothesis wf : well_formed c = true.

(** The labels of lines 83 and 84. *)
Definition all_labels : list string :=
  map (label (A_id c)) (xrange (N_A c)) ++ map (label (B_id c)) (xrange (N_B c)).

Lemma wf_ids :
  A_id c <> B_id c /\ no_char ":" (A_id c) = true /\ no_char ":" (B_id c) = true.
Proof.
  unfold well_formed in wf. rewrite !andb_true_iff in wf.
  destruct wf as [ [ [ [ [Hab Ha] Hb ] _ ] _ ] _ ].
  apply negb_true_iff in Hab. apply String.eqb_neq in Hab. auto.
Qed.

Lemma wf_keys_nodup : NoDup (dict_keys (_data c)).
Proof.
  unfold well_formed in wf. rewrite !andb_true_iff in wf.
  destruct wf as [ [ [ _ Hn ] _ ] _ ]. apply nodupb_NoDup, Hn.
Qed.

Lemma wf_key k : In k (dict_keys (_data c)) -> sound_key c k = true.
Proof.
  unfold well_formed in wf. rewrite !andb_true_iff in wf.
  destruct wf as [ [ _ Hk ] _ ]. rewrite forallb_forall in Hk. apply Hk.
Qed.

Lemma wf_types : sound_types c = true.
Proof.
  unfold well_formed in wf. rewrite !andb_true_iff in wf. apply wf.
Qed.

Lemma xrange_In n k : In k (xrange n) <-> (0 <= k < Z.of_nat n)%Z.
Proof.
  unfold xrange. rewrite in_map_iff. split.
  - intros (x & <- & Hx). apply in_seq in Hx. lia.
  - intros Hk. exists (Z.to_nat k). split; [ lia | apply in_seq; lia ].
Qed.

Lemma in_range_spec k n : in_range k n = true <-> (0 <= k < Z.of_nat n)%Z.
Proof.
  unfold in_range. rewrite andb_true_iff, Z.leb_le, Z.ltb_lt. reflexivity.
Qed.

(** A unit of one of the two populations. *)
Definition unit (id : string) (n : Z) : Prop := in_range n (size c id) = true.

Lemma unit_id id n : unit id n -> id = A_id c \/ id = B_id c.
Proof.
  unfold unit, size. destruct (eq_dec id (A_id c)); [ auto | ].
  destruct (eq_dec id (B_id c)); [ auto | ].
  intros Hn. apply in_range_spec in Hn. simpl in Hn. lia.
Qed.

Lemma unit_no_colon id n : unit id n -> no_char ":" id = true.
Proof.
  intros Hu. destruct wf_ids as (_ & Ha & Hb).
  destruct (unit_id id n Hu) as [ -> | -> ]; assumption.
Qed.

Lemma unit_label id n : unit id n -> In (label id n) all_labels.
Proof.
  intros Hu. unfold all_labels. apply in_or_app.
  unfold unit, size in Hu.
  destruct (eq_dec id (A_id c)) as [ -> | ].
  - left. apply in_map, xrange_In, in_range_spec, Hu.
  - destruct (eq_dec id (B_id c)) as [ -> | ].
    + right. apply in_map, xrange_In, in_range_spec, Hu.
    + apply in_range_spec in Hu. simpl in Hu. lia.
Qed.

Lemma label_unit l : In l all_labels -> exists id n, unit id n /\ l = label id n.
Proof.
  destruct wf_ids as (Hab & _). unfold all_labels, unit, size.
  intros Hl. apply in_app_or in Hl as [ Hl | Hl ];
    apply in_map_iff in Hl as (n & <- & Hn); apply xrange_In in Hn.
  - exists (A_id c), n. destruct (eq_dec (A_id c) (A_id c)); [ | congruence ].
    split; [ apply in_range_spec, Hn | reflexivity ].
  - exists (B_id c), n. destruct (eq_dec (B_id c) (A_id c)); [ congruence | ].
    destruct (eq_dec (B_id c) (B_id c)); [ | congruence ].
    split; [ apply in_range_spec, Hn | reflexivity ].
Qed.

Lemma unit_label_inj id n id' n' :
  unit id n -> unit id' n' -> label id n = label id' n' -> id = id' /\ n = n'.
Proof.
  intros Hu Hu'. apply label_inj; eapply unit_no_colon; eauto.
Qed.

Lemma graph_nodes_bare : bare (graph_nodes c) all_labels.
Proof.
  unfold graph_nodes, all_labels.
  apply add_nodes_from_bare.
  apply (add_nodes_from_bare _ empty_graph []).
  split; intros l; reflexivity.
Qed.

(** The nodes stay, whatever is done to their attributes and edges. *)
Definition keeps_nodes (g : MultiDiGraph) : Prop :=
  (forall l, In l all_labels -> dict_get l (node g) <> None)
  /\ (forall l, In l all_labels -> dict_has l (adj g) = true).

Lemma graph_nodes_keeps : keeps_nodes (graph_nodes c).
Proof.
  destruct graph_nodes_bare as [Hn Ha]. split; intros l Hl.
  - rewrite Hn. apply (mem_In (K := string)) in Hl. rewrite Hl. discriminate.
  - unfold dict_has. rewrite Ha. apply (mem_In (K := string)) in Hl.
    rewrite Hl. reflexivity.
Qed.

Lemma graph_nodes_no_edge u v : keydict (graph_nodes c) u v = None.
Proof.
  destruct graph_nodes_bare as [_ Ha]. unfold keydict. rewrite Ha.
  destruct (mem u all_labels); reflexivity.
Qed.

Lemma graph_nodes_no_attr l nm : node_attr (graph_nodes c) l nm = None.
Proof.
  destruct graph_nodes_bare as [Hn _]. unfold node_attr. rewrite Hn.
  destruct (mem l all_labels); reflexivity.
Qed.

(** The nodes that one loop of lines 91-102 tags. *)
Definition tagged (t : TypeInfo) (id ty : string) (count : nat) (l : string)
  : bool :=
  existsb (fun n => String.eqb (label id n) l) (images t id ty count).

Lemma tag_nodes_spec t id ty count g :
  (forall k, In k (xrange count) ->
     exists n, translate t id ty k = Some n
               /\ dict_get (label id n) (node g) <> None) ->
  exists g', tag_nodes t id ty count g = inr g'
    /\ adj g' = adj g
    /\ (forall l, dict_get l (node g') = None <-> dict_get l (node g) = None)
    /\ (forall l, node_attr g' l "neuron_type" =
          if tagged t id ty count l then Some (PyStr ty)
          else node_attr g l "neuron_type").
Proof.
  intros Hdef. unfold tag_nodes, tagged, images.
  set (im := fun ks : list Z =>
         flat_map (fun k => match translate t id ty k with
                            | Some n => [n]
                            | None => []
                            end) ks).
  apply (foreach_inv (fun pre g' =>
    adj g' = adj g
    /\ (forall l, dict_get l (node g') = None <-> dict_get l (node g) = None)
    /\ (forall l, node_attr g' l "neuron_type" =
          if existsb (fun n => String.eqb (label id n) l) (im pre)
          then Some (PyStr ty) else node_attr g l "neuron_type"))).
  - split; [ reflexivity | ]. split; [ reflexivity | ]. reflexivity.
  - intros pre k post g1 Hxs (Hadj & Hpres & Hattr).
    destruct (Hdef k) as (n & Htr & Hnode).
    { rewrite Hxs. apply in_or_app. right; left; reflexivity. }
    pose proof Htr as Htr'. unfold translate in Htr.
    destruct (dict_get id (idx_translate t)) as [ tbl | ]; [ | discriminate ].
    simpl. rewrite Htr. simpl.
    destruct (set_node_attr_spec g1 (label id n) "neuron_type" (PyStr ty))
      as (g2 & Hset & Hadj2 & Hpres2 & Hattr2).
    { rewrite Hpres. exact Hnode. }
    exists g2. split; [ exact Hset | ]. split; [ congruence | ]. split.
    + intros l. rewrite Hpres2. apply Hpres.
    + intros l. rewrite Hattr2, Hattr. unfold im. rewrite flat_map_app, existsb_app.
      simpl. rewrite Htr'. simpl. rewrite orb_false_r.
      destruct (eq_dec (l, "neuron_type") (label id n, "neuron_type")) as [ E | E ].
      * injection E as ->. rewrite String.eqb_refl, orb_true_r. reflexivity.
      * destruct (String.eqb_spec (label id n) l) as [ <- | _ ]; [ congruence | ].
        rewrite orb_false_r. reflexivity.
Qed.

Lemma tagged_spec t id ty count l :
  tagged t id ty count l = true
  <-> exists n, In n (images t id ty count) /\ label id n = l.
Proof.
  unfold tagged. rewrite existsb_exists. split; intros (n & Hn & E); exists n.
  - apply String.eqb_eq in E. auto.
  - split; [ exact Hn | apply String.eqb_eq, E ].
Qed.

Section Table.
Variables (t : TypeInfo) (id : string) (n_gpot n_spike n : nat).
Hypothesis table : sound_table t id n_gpot n_spike n = true.
Hypothesis size_id : size c id = n.

Lemma table_parts :
  n = n_gpot + n_spike
  /\ (forall k, In k (xrange n_gpot) -> translate t id "gpot" k <> None)
  /\ (forall k, In k (xrange n_spike) -> translate t id "spike" k <> None)
  /\ NoDup (images t id "gpot" n_gpot ++ images t id "spike" n_spike)
  /\ (forall z, In z (images t id "gpot" n_gpot ++ images t id "spike" n_spike)
              -> unit id z).
Proof.
  unfold sound_table in table. rewrite !andb_true_iff in table.
  destruct table as [ [ [ [Hn Hg] Hs ] Hnd ] Hr ].
  rewrite forallb_forall in Hg, Hs, Hr. apply Nat.eqb_eq in Hn.
  repeat split.
  - exact Hn.
  - intros k Hk. specialize (Hg k Hk). destruct (translate t id "gpot" k); congruence.
  - intros k Hk. specialize (Hs k Hk). destruct (translate t id "spike" k); congruence.
  - apply nodupb_NoDup, Hnd.
  - intros z Hz. unfold unit. rewrite size_id. apply Hr, Hz.
Qed.

Lemma images_length ty count :
  (forall k, In k (xrange count) -> translate t id ty k <> None) ->
  length (images t id ty count) = count.
Proof.
  unfold images. intros Hdef.
  rewrite <- (length_seq count 0) at 2. rewrite <- (length_map Z.of_nat).
  fold (xrange count). induction (xrange count) as [ | k ks IH ]; [ reflexivity | ].
  simpl. destruct (translate t id ty k) eqn:E.
  - simpl. f_equal. apply IH. intros k' Hk'. apply Hdef. right; exact Hk'.
  - exfalso. apply (Hdef k); [ left; reflexivity | exact E ].
Qed.

Lemma images_defined ty count g :
  (forall k, In k (xrange count) -> translate t id ty k <> None) ->
  (forall z, In z (images t id ty count) -> dict_get (label id z) (node g) <> None) ->
  forall k, In k (xrange count) ->
    exists m, translate t id ty k = Some m
              /\ dict_get (label id m) (node g) <> None.
Proof.
  intros Hdef Hnode k Hk.
  destruct (translate t id ty k) as [ m | ] eqn:E.
  - exists m. split; [ reflexivity | ]. apply Hnode.
    unfold images. apply in_flat_map. exists k. split; [ exact Hk | ].
    rewrite E. left; reflexivity.
  - exfalso. apply (Hdef k Hk E).
Qed.

(** Every unit of the population is the image of a unit of one type. *)
Lemma table_onto z :
  unit id z ->
  In z (images t id "gpot" n_gpot ++ images t id "spike" n_spike).
Proof.
  destruct table_parts as (Hn & Hg & Hs & Hnd & Hr).
  intros Hz.
  assert (Hincl : incl (xrange n)
            (images t id "gpot" n_gpot ++ images t id "spike" n_spike)).
  { apply NoDup_length_incl.
    - exact Hnd.
    - rewrite length_app, (images_length "gpot" n_gpot Hg),
        (images_length "spike" n_spike Hs).
      unfold xrange. rewrite length_map, length_seq. lia.
    - intros x Hx. apply Hr in Hx. unfold unit in Hx. rewrite size_id in Hx.
      apply xrange_In, in_range_spec, Hx. }
  apply Hincl. unfold unit in Hz. rewrite size_id in Hz.
  apply xrange_In, in_range_spec, Hz.
Qed.

Lemma table_apart z :
  In z (images t id "gpot" n_gpot) -> ~ In z (images t id "spike" n_spike).
Proof.
  destruct table_parts as (_ & _ & _ & Hnd & _).
  intros Hg Hs. revert Hnd Hg Hs. clear.
  induction (images t id "gpot" n_gpot) as [ | x xs IH ]; simpl; [ tauto | ].
  intros Hnd [ -> | Hx ] Hs.
  - inversion Hnd as [ | ? ? Hnot _ ]; subst. apply Hnot, in_or_app. right; exact Hs.
  - inversion Hnd; subst. auto.
Qed.
End Table.

Lemma size_A : size c (A_id c) = N_A c.
Proof. unfold size. destruct (eq_dec (A_id c) (A_id c)); congruence. Qed.

Lemma size_B : size c (B_id c) = N_B c.
Proof.
  destruct wf_ids as (Hab & _). unfold size.
  destruct (eq_dec (B_id c) (A_id c)); [ congruence | ].
  destruct (eq_dec (B_id c) (B_id c)); congruence.
Qed.

(** The type that lines 91-102 leave on a node. *)
Definition type_tag (t : TypeInfo) (l : string) : option pyval :=
  if tagged t (B_id c) "spike" (N_B_spike t) l then Some (PyStr "spike")
  else if tagged t (A_id c) "spike" (N_A_spike t) l then Some (PyStr "spike")
  else if tagged t (B_id c) "gpot" (N_B_gpot t) l then Some (PyStr "gpot")
  else if tagged t (A_id c) "gpot" (N_A_gpot t) l then Some (PyStr "gpot")
  else None.

Lemma graph_types_spec :
  exists g, graph_types c (graph_nodes c) = inr g
    /\ adj g = adj (graph_nodes c)
    /\ keeps_nodes g
    /\ (forall t, types c = Some t ->
          forall l, node_attr g l "neuron_type" = type_tag t l).
Proof.
  unfold graph_types. pose proof wf_types as Hty. unfold sound_types in Hty.
  destruct (types c) as [ t | ] eqn:Ht.
  2:{ exists (graph_nodes c). split; [ reflexivity | ]. split; [ reflexivity | ].
      split; [ apply graph_nodes_keeps | discriminate ]. }
  apply andb_true_iff in Hty as [HA HB].
  destruct (table_parts t _ _ _ _ HA size_A) as (_ & HAg & HAs & _ & HAr).
  destruct (table_parts t _ _ _ _ HB size_B) as (_ & HBg & HBs & _ & HBr).
  destruct graph_nodes_keeps as [Hnode0 Hadj0].
  assert (Hstep : forall id ty count g,
            (forall k, In k (xrange count) -> translate t id ty k <> None) ->
            (forall z, In z (images t id ty count) -> unit id z) ->
            (forall l, dict_get l (node g) = None
                       <-> dict_get l (node (graph_nodes c)) = None) ->
            exists g', tag_nodes t id ty count g = inr g'
              /\ adj g' = adj g
              /\ (forall l, dict_get l (node g') = None
                            <-> dict_get l (node (graph_nodes c)) = None)
              /\ (forall l, node_attr g' l "neuron_type" =
                    if tagged t id ty count l then Some (PyStr ty)
                    else node_attr g l "neuron_type")).
  { intros id ty count g Hdef Hunit Hpres.
    destruct (tag_nodes_spec t id ty count g) as (g' & Hrun & Hadj & Hp & Hattr).
    - apply images_defined; [ exact Hdef | ].
      intros z Hz. rewrite Hpres. apply Hnode0, unit_label, Hunit, Hz.
    - exists g'. split; [ exact Hrun | ]. split; [ exact Hadj | ].
      split; [ | exact Hattr ]. intros l. rewrite Hp. apply Hpres. }
  destruct (Hstep (A_id c) "gpot" (N_A_gpot t) (graph_nodes c))
    as (g1 & R1 & A1 & P1 & T1); [ exact HAg | | reflexivity | ].
  { intros z Hz. apply HAr, in_or_app. left; exact Hz. }
  destruct (Hstep (B_id c) "gpot" (N_B_gpot t) g1)
    as (g2 & R2 & A2 & P2 & T2); [ exact HBg | | exact P1 | ].
  { intros z Hz. apply HBr, in_or_app. left; exact Hz. }
  destruct (Hstep (A_id c) "spike" (N_A_spike t) g2)
    as (g3 & R3 & A3 & P3 & T3); [ exact HAs | | exact P2 | ].
  { intros z Hz. apply HAr, in_or_app. right; exact Hz. }
  destruct (Hstep (B_id c) "spike" (N_B_spike t) g3)
    as (g4 & R4 & A4 & P4 & T4); [ exact HBs | | exact P3 | ].
  { intros z Hz. apply HBr, in_or_app. right; exact Hz. }
  exists g4. rewrite R1; simpl. rewrite R2; simpl. rewrite R3; simpl.
  split; [ exact R4 | ]. split; [ congruence | ]. split.
  - split; intros l Hl.
    + rewrite P4. apply Hnode0, Hl.
    + rewrite A4, A3, A2, A1. apply Hadj0, Hl.
  - intros t' [= <-] l. unfold type_tag.
    rewrite T4, T3, T2, T1, graph_nodes_no_attr. reflexivity.
Qed.

Lemma tagged_unit t id ty count id' n :
  (forall z, In z (images t id ty count) -> unit id z) ->
  unit id' n ->
  tagged t id ty count (label id' n) =
  (eqb_of id id' && mem n (images t id ty count))%bool.
Proof.
  intros Hunit Hn. apply eq_true_iff_eq.
  rewrite tagged_spec, andb_true_iff, (mem_In (K := Z)). unfold eqb_of.
  split.
  - intros (m & Hm & E).
    destruct (unit_label_inj id m id' n (Hunit m Hm) Hn E) as [ -> -> ].
    destruct (eq_dec id' id'); [ auto | congruence ].
  - intros [Hid Hm]. destruct (eq_dec id id') as [ -> | ]; [ | discriminate ].
    exists n. auto.
Qed.

(** The type of the node of a unit: 'gpot' when the unit is the image of a
    graded-potential unit, 'spike' otherwise. *)
Lemma type_tag_unit t n :
  types c = Some t ->
  (unit (A_id c) n ->
     type_tag t (label (A_id c) n) =
     Some (PyStr (if mem n (images t (A_id c) "gpot" (N_A_gpot t))
                  then "gpot" else "spike")))
  /\ (unit (B_id c) n ->
       type_tag t (label (B_id c) n) =
       Some (PyStr (if mem n (images t (B_id c) "gpot" (N_B_gpot t))
                    then "gpot" else "spike"))).
Proof.
  intros Ht. pose proof wf_types as Hty. unfold sound_types in Hty.
  rewrite Ht in Hty. apply andb_true_iff in Hty as [HA HB].
  destruct (table_parts t _ _ _ _ HA size_A) as (_ & _ & _ & _ & HAr).
  destruct (table_parts t _ _ _ _ HB size_B) as (_ & _ & _ & _ & HBr).
  destruct wf_ids as (Hab & _).
  assert (HAg : forall z, In z (images t (A_id c) "gpot" (N_A_gpot t)) -> unit (A_id c) z)
    by (intros z Hz; apply HAr, in_or_app; left; exact Hz).
  assert (HAs : forall z, In z (images t (A_id c) "spike" (N_A_spike t)) -> unit (A_id c) z)
    by (intros z Hz; apply HAr, in_or_app; right; exact Hz).
  assert (HBg : forall z, In z (images t (B_id c) "gpot" (N_B_gpot t)) -> unit (B_id c) z)
    by (intros z Hz; apply HBr, in_or_app; left; exact Hz).
  assert (HBs : forall z, In z (images t (B_id c) "spike" (N_B_spike t)) -> unit (B_id c) z)
    by (intros z Hz; apply HBr, in_or_app; right; exact Hz).
  assert (EAB : eqb_of (A_id c) (B_id c) = false)
    by (unfold eqb_of; destruct (eq_dec (A_id c) (B_id c)); congruence).
  assert (EBA : eqb_of (B_id c) (A_id c) = false)
    by (unfold eqb_of; destruct (eq_dec (B_id c) (A_id c)); congruence).
  assert (EAA : eqb_of (A_id c) (A_id c) = true)
    by (unfold eqb_of; destruct (eq_dec (A_id c) (A_id c)); congruence).
  assert (EBB : eqb_of (B_id c) (B_id c) = true)
    by (unfold eqb_of; destruct (eq_dec (B_id c) (B_id c)); congruence).
  split; intros Hn; unfold type_tag.
  - rewrite (tagged_unit t _ _ _ _ n HBs Hn), (tagged_unit t _ _ _ _ n HAs Hn),
      (tagged_unit t _ _ _ _ n HBg Hn), (tagged_unit t _ _ _ _ n HAg Hn).
    rewrite EBA, EAA. simpl.
    destruct (mem n (images t (A_id c) "gpot" (N_A_gpot t))) eqn:Hg.
    + apply (mem_In (K := Z)) in Hg.
      destruct (mem n (images t (A_id c) "spike" (N_A_spike t))) eqn:Hs;
        [ | reflexivity ].
      apply (mem_In (K := Z)) in Hs.
      exfalso. apply (table_apart t _ _ _ _ HA size_A n Hg Hs).
    + pose proof (table_onto t _ _ _ _ HA size_A n Hn) as Hin.
      apply in_app_or in Hin as [ Hin | Hin ].
      * apply (mem_In (K := Z)) in Hin. congruence.
      * apply (mem_In (K := Z)) in Hin. rewrite Hin. reflexivity.
  - rewrite (tagged_unit t _ _ _ _ n HBs Hn), (tagged_unit t _ _ _ _ n HAs Hn),
      (tagged_unit t _ _ _ _ n HBg Hn), (tagged_unit t _ _ _ _ n HAg Hn).
    rewrite EAB, EBB. simpl.
    destruct (mem n (images t (B_id c) "gpot" (N_B_gpot t))) eqn:Hg.
    + apply (mem_In (K := Z)) in Hg.
      destruct (mem n (images t (B_id c) "spike" (N_B_spike t))) eqn:Hs;
        [ | reflexivity ].
      apply (mem_In (K := Z)) in Hs.
      exfalso. apply (table_apart t _ _ _ _ HB size_B n Hg Hs).
    + pose proof (table_onto t _ _ _ _ HB size_B n Hn) as Hin.
      apply in_app_or in Hin as [ Hin | Hin ].
      * apply (mem_In (K := Z)) in Hin. congruence.
      * apply (mem_In (K := Z)) in Hin. rewrite Hin. reflexivity.
Qed.

(** *** The edges *)

Definition is_conn (k : conn_key) : bool := String.eqb (snd k) "conn".

Definition key_cells (k : conn_key) : list (Z * Z) :=
  let '(src, dst, _, _) := k in cells c src dst.

(** The round of the loop of lines 108-114 for the index pair [ij] adds an
    edge from [u] to [v]. *)
Definition hits (k : conn_key) (u v : string) (ij : Z * Z) : bool :=
  let '(src, dst, _, _) := k in
  let '(i, j) := ij in
  (py_eqb_int (value_at c k i j) 1
   && String.eqb (label src i) u && String.eqb (label dst j) v)%bool.

Definition made_cells (k : conn_key) (cs : list (Z * Z)) (u v : string) : nat :=
  length (filter (hits k u v) cs).

(** The number of edges from [u] to [v] that the keys [ks] add. *)
Definition made (ks : list conn_key) (u v : string) : nat :=
  list_sum (map (fun k => made_cells k (key_cells k) u v) ks).

Lemma filter_map_ext {X Y} (f : X -> Y) (p : Y -> bool) (q : X -> bool) xs :
  (forall x, In x xs -> p (f x) = q x) ->
  filter p (map f xs) = map f (filter q xs).
Proof.
  induction xs as [ | x xs IH ]; intros Hpq; simpl; [ reflexivity | ].
  rewrite (Hpq x (or_introl eq_refl)).
  rewrite IH by (intros y Hy; apply Hpq; right; exact Hy).
  destruct (q x); reflexivity.
Qed.

Lemma sound_key_parts src dst conn name :
  In (src, dst, conn, name) (dict_keys (_data c)) ->
  direction c src dst = true
  /\ clean_key (src, dst, conn, name) = true
  /\ (0 <= conn)%Z
  /\ (forall i j, In (i, j) (cells c src dst) ->
        if String.eqb name "conn"
        then conn_flag c src i dst j conn = true -> conn <> 0%Z ->
             conn_flag c src i dst j (conn - 1) = true
        else truthy (value_at c (src, dst, conn, name) i j) = true ->
             conn_flag c src i dst j conn = true).
Proof.
  intros Hk. pose proof (wf_key _ Hk) as Hs. unfold sound_key in Hs.
  rewrite !andb_true_iff in Hs. destruct Hs as [ [ [Hd Hc] Hz ] Hall ].
  split; [ exact Hd | ]. split; [ exact Hc | ]. split; [ apply Z.leb_le, Hz | ].
  intros i j Hij. rewrite forallb_forall in Hall. specialize (Hall (i, j) Hij).
  simpl in Hall. destruct (String.eqb name "conn").
  - intros Hf Hne. rewrite Hf in Hall. simpl in Hall.
    destruct (Z.eqb_spec conn 0); [ contradiction | exact Hall ].
  - intros Ht. rewrite Ht in Hall. exact Hall.
Qed.

Lemma direction_ids src dst :
  direction c src dst = true ->
  (src = A_id c /\ dst = B_id c) \/ (src = B_id c /\ dst = A_id c).
Proof.
  unfold direction, eqb_of. rewrite orb_true_iff, !andb_true_iff.
  destruct (eq_dec src (A_id c)), (eq_dec dst (B_id c)),
           (eq_dec src (B_id c)), (eq_dec dst (A_id c)); intuition discriminate.
Qed.

Lemma conn_N_size id :
  id = A_id c \/ id = B_id c -> conn_N c id = inr (size c id).
Proof.
  unfold conn_N, size. intros Hid.
  destruct (eq_dec id (A_id c)); [ reflexivity | ].
  destruct (eq_dec id (B_id c)); [ reflexivity | ].
  destruct Hid; contradiction.
Qed.

Lemma read_value src i dst j conn name :
  In (src, dst, conn, name) (dict_keys (_data c)) ->
  read c src i dst j conn name = inr (value_at c (src, dst, conn, name) i j).
Proof.
  intros Hk. apply dict_get_In in Hk.
  unfold read, conn_getitem_all, conn_getitem, value_at.
  destruct (dict_get (src, dst, conn, name) (_data c)); [ | congruence ].
  destruct (types c); reflexivity.
Qed.

Lemma cells_units src dst i j :
  In (i, j) (cells c src dst) <-> unit src i /\ unit dst j.
Proof.
  unfold cells, product, unit. rewrite in_flat_map. split.
  - intros (x & Hx & Hj). apply in_map_iff in Hj as (y & [= <- <-] & Hy).
    split; apply in_range_spec, xrange_In; assumption.
  - intros [Hi Hj]. exists i. split; [ apply xrange_In, in_range_spec, Hi | ].
    apply in_map, xrange_In, in_range_spec, Hj.
Qed.

Lemma add_edges_of_key k g :
  In k (dict_keys (_data c)) ->
  add_edges_of c (make_key k) g =
  foreach (key_cells k) (fun '(i, j) g =>
    let '(src, dst, _, _) := k in
    if py_eqb_int (value_at c k i j) 1
    then ret (add_edge g (label src i) (label dst j)) else ret g) g.
Proof.
  destruct k as [ [ [src dst] conn ] name ]. intros Hk.
  destruct (sound_key_parts src dst conn name Hk) as (Hd & Hc & _).
  unfold add_edges_of. rewrite (parse_make_key _ Hc). simpl.
  destruct (direction_ids src dst Hd) as [ [Hs Ht] | [Hs Ht] ];
    rewrite (conn_N_size src), (conn_N_size dst) by auto; simpl;
    apply foreach_ext; intros [i j] g' _;
    rewrite (read_value src i dst j conn name Hk); reflexivity.
Qed.

Lemma conn_keys_listed :
  filter re_match_conn (_data_keys c)
  = map make_key (filter is_conn (dict_keys (_data c))).
Proof.
  unfold _data_keys. apply filter_map_ext.
  intros [ [ [src dst] conn ] name ] Hk.
  destruct (sound_key_parts src dst conn name Hk) as (_ & Hc & _).
  apply (match_make_key _ Hc).
Qed.

Lemma param_keys_listed :
  filter (fun k => negb (re_match_conn k)) (_data_keys c)
  = map make_key (filter (fun k => negb (is_conn k)) (dict_keys (_data c))).
Proof.
  unfold _data_keys. apply filter_map_ext.
  intros [ [ [src dst] conn ] name ] Hk.
  destruct (sound_key_parts src dst conn name Hk) as (_ & Hc & _).
  rewrite (match_make_key _ Hc). reflexivity.
Qed.

Lemma made_app ks ks' u v : made (ks ++ ks') u v = made ks u v + made ks' u v.
Proof.
  unfold made. rewrite map_app, list_sum_app. reflexivity.
Qed.

Lemma made_one k u v : made [k] u v = made_cells k (key_cells k) u v.
Proof. unfold made. simpl. lia. Qed.

Lemma made_cells_app k cs cs' u v :
  made_cells k (cs ++ cs') u v = made_cells k cs u v + made_cells k cs' u v.
Proof.
  unfold made_cells. rewrite filter_app, length_app. reflexivity.
Qed.

Lemma made_cells_one k ij u v :
  made_cells k [ij] u v = if hits k u v ij then 1 else 0.
Proof. unfold made_cells. simpl. destruct (hits k u v ij); reflexivity. Qed.

(** The state of the graph in the loop of lines 105-114. *)
Definition edges_made (g0 g : MultiDiGraph) (n : string -> string -> nat)
  : Prop :=
  node g = node g0
  /\ (forall l, dict_has l (adj g) = dict_has l (adj g0))
  /\ (forall u v, keydict g u v = fresh_edges (n u v)).

Lemma add_edges_key_spec g0 g k n :
  keeps_nodes g0 ->
  In k (dict_keys (_data c)) ->
  edges_made g0 g n ->
  exists g', add_edges_of c (make_key k) g = inr g'
    /\ edges_made g0 g' (fun u v => n u v + made_cells k (key_cells k) u v).
Proof.
  intros [_ Hnodes] Hk Hg. rewrite (add_edges_of_key k g Hk).
  apply (foreach_inv (fun pre g' =>
           edges_made g0 g' (fun u v => n u v + made_cells k pre u v))).
  - destruct Hg as (Hn & Ha & Hkd). repeat split; try assumption.
    intros u v. rewrite Hkd. unfold made_cells. cbn [filter length]. f_equal. lia.
  - intros pre [i j] post g1 Hxs (Hn & Ha & Hkd).
    destruct k as [ [ [src dst] conn ] name ].
    assert (Hij : In (i, j) (cells c src dst)).
    { unfold key_cells in Hxs. rewrite Hxs. apply in_or_app. right; left; reflexivity. }
    apply cells_units in Hij as [Hi Hj].
    destruct (py_eqb_int (value_at c (src, dst, conn, name) i j) 1) eqn:Hflag.
    + destruct (add_edge_spec g1 (label src i) (label dst j)
                  (n (label src i) (label dst j)
                   + made_cells (src, dst, conn, name) pre (label src i) (label dst j)))
        as (Hn' & Ha' & Hkd').
      { rewrite Ha. apply Hnodes, unit_label, Hi. }
      { rewrite Ha. apply Hnodes, unit_label, Hj. }
      { apply Hkd. }
      eexists. split; [ reflexivity | ]. repeat split.
      * congruence.
      * intros l. rewrite Ha'. apply Ha.
      * intros u v. rewrite Hkd', made_cells_app, made_cells_one.
        unfold hits. rewrite Hflag. cbn [andb].
        destruct (eq_dec (u, v) (label src i, label dst j)) as [ [= -> ->] | Hne ].
        { rewrite !String.eqb_refl. cbn [andb]. f_equal. lia. }
        { rewrite Hkd. f_equal.
          destruct (String.eqb_spec (label src i) u) as [ <- | ]; cbn [andb]; [ | lia ].
          destruct (String.eqb_spec (label dst j) v) as [ <- | ]; [ | lia ].
          congruence. }
    + eexists. split; [ reflexivity | ]. repeat split; try assumption.
      intros u v. rewrite Hkd, made_cells_app, made_cells_one.
      unfold hits. rewrite Hflag. cbn [andb]. f_equal. lia.
Qed.

Lemma graph_edges_spec g0 :
  keeps_nodes g0 ->
  (forall u v, keydict g0 u v = None) ->
  exists g, graph_edges c g0 = inr g
    /\ edges_made g0 g (made (filter is_conn (dict_keys (_data c)))).
Proof.
  intros Hkeep Hnone. unfold graph_edges.
  rewrite conn_keys_listed, foreach_map.
  apply (foreach_inv (fun pre g => edges_made g0 g (made pre))).
  - repeat split; try reflexivity. intros u v. rewrite Hnone. reflexivity.
  - intros pre k post g1 Hxs Hg1.
    assert (Hk : In k (dict_keys (_data c))).
    { assert (Hin : In k (filter is_conn (dict_keys (_data c)))).
      { rewrite Hxs. apply in_or_app. right; left; reflexivity. }
      apply filter_In in Hin. apply Hin. }
    destruct (add_edges_key_spec g0 g1 k (made pre) Hkeep Hk Hg1) as (g' & Hrun & Hg').
    exists g'. split; [ exact Hrun | ].
    destruct Hg' as (Hn & Ha & Hkd). repeat split; try assumption.
    intros u v. rewrite Hkd, made_app, made_one. reflexivity.
Qed.

(** *** Counting the edges of a pair of units *)

Lemma NoDup_map_inj_in {X Y} (f : X -> Y) (l : list X) :
  (forall x y, In x l -> In y l -> f x = f y -> x = y) ->
  NoDup l -> NoDup (map f l).
Proof.
  induction l as [ | x l IH ]; intros Hinj Hnd; simpl; [ constructor | ].
  inversion Hnd as [ | ? ? Hnot Hnd' ]; subst. constructor.
  - intros Hin. apply in_map_iff in Hin as (y & Hy & Hyl).
    apply Hnot. rewrite (Hinj x y); auto; [ left; reflexivity | right; exact Hyl ].
  - apply IH; [ | exact Hnd' ]. intros a b Ha Hb. apply Hinj; right; assumption.
Qed.

Lemma xrange_NoDup n : NoDup (xrange n).
Proof.
  unfold xrange. apply NoDup_map_inj_in; [ | apply seq_NoDup ].
  intros x y _ _. apply Nat2Z.inj.
Qed.

Lemma product_NoDup {X Y} (xs : list X) (ys : list Y) :
  NoDup xs -> NoDup ys -> NoDup (product xs ys).
Proof.
  intros Hx Hy. unfold product.
  induction xs as [ | x xs IH ]; simpl; [ constructor | ].
  inversion Hx as [ | ? ? Hnot Hx' ]; subst.
  apply NoDup_app.
  - apply NoDup_map_inj_in; [ | exact Hy ]. intros a b _ _ [= ->]. reflexivity.
  - apply IH, Hx'.
  - intros [a b] Hab Hin. apply in_map_iff in Hab as (y & [= <- <-] & _).
    apply in_flat_map in Hin as (x' & Hx'' & Hin).
    apply in_map_iff in Hin as (y' & [= <- _] & _). contradiction.
Qed.

Lemma cells_NoDup src dst : NoDup (cells c src dst).
Proof. apply product_NoDup; apply xrange_NoDup. Qed.

Lemma filter_nothing {X} (p : X -> bool) l :
  (forall y, In y l -> p y = false) -> filter p l = [].
Proof.
  induction l as [ | y l IH ]; intros Hp; simpl; [ reflexivity | ].
  rewrite (Hp y (or_introl eq_refl)). apply IH. intros z Hz. apply Hp. right; exact Hz.
Qed.

Lemma filter_single {X} (p : X -> bool) l x :
  NoDup l -> In x l -> p x = true ->
  (forall y, In y l -> p y = true -> y = x) ->
  length (filter p l) = 1.
Proof.
  induction l as [ | y l IH ]; intros Hnd Hin Hpx Huniq; [ contradiction | ].
  inversion Hnd as [ | ? ? Hnot Hnd' ]; subst. simpl.
  destruct (p y) eqn:Hpy.
  - assert (y = x) by (apply Huniq; [ left; reflexivity | exact Hpy ]). subst y.
    rewrite filter_nothing; [ reflexivity | ].
    intros z Hz. destruct (p z) eqn:Hpz; [ | reflexivity ].
    assert (z = x) by (apply Huniq; [ right; exact Hz | exact Hpz ]). subst z.
    contradiction.
  - destruct Hin as [ -> | Hin ]; [ congruence | ].
    apply IH; try assumption. intros z Hz. apply Huniq. right; exact Hz.
Qed.

(** The key is of the direction [a] to [b] and has its flag at [(i, j)]. *)
Definition flagged (a : string) (i : Z) (b : string) (j : Z) (k : conn_key)
  : bool :=
  let '(src, dst, _, _) := k in
  (eqb_of src a && eqb_of dst b && py_eqb_int (value_at c k i j) 1)%bool.

Lemma made_cells_unit k a i b j :
  unit a i -> unit b j ->
  made_cells k (key_cells k) (label a i) (label b j)
  = if flagged a i b j k then 1 else 0.
Proof.
  intros Hi Hj. destruct k as [ [ [src dst] conn ] name ].
  unfold made_cells, key_cells, flagged, eqb_of.
  destruct (eq_dec src a) as [ -> | Hsrc ].
  - destruct (eq_dec dst b) as [ -> | Hdst ].
    + cbn [andb].
      destruct (py_eqb_int (value_at c (a, b, conn, name) i j) 1) eqn:Hflag.
      * apply (filter_single _ _ (i, j)).
        -- apply cells_NoDup.
        -- apply cells_units. auto.
        -- unfold hits. rewrite Hflag, !String.eqb_refl. reflexivity.
        -- intros [i' j'] Hin Hhit. apply cells_units in Hin as [Hi' Hj'].
           unfold hits in Hhit. rewrite !andb_true_iff in Hhit.
           destruct Hhit as [ [_ Hu] Hv ].
           apply String.eqb_eq in Hu, Hv.
           destruct (unit_label_inj _ _ _ _ Hi' Hi Hu) as [_ ->].
           destruct (unit_label_inj _ _ _ _ Hj' Hj Hv) as [_ ->]. reflexivity.
      * rewrite filter_nothing; [ reflexivity | ].
        intros [i' j'] Hin. apply cells_units in Hin as [Hi' Hj'].
        unfold hits. destruct (String.eqb_spec (label a i') (label a i)) as [ Hu | ];
          [ | rewrite andb_false_r; reflexivity ].
        destruct (String.eqb_spec (label b j') (label b j)) as [ Hv | ];
          [ | rewrite andb_false_r; reflexivity ].
        destruct (unit_label_inj _ _ _ _ Hi' Hi Hu) as [_ ->].
        destruct (unit_label_inj _ _ _ _ Hj' Hj Hv) as [_ ->].
        rewrite Hflag. reflexivity.
    + cbn [andb]. rewrite filter_nothing; [ reflexivity | ].
      intros [i' j'] Hin. apply cells_units in Hin as [Hi' Hj'].
      unfold hits. destruct (String.eqb_spec (label dst j') (label b j)) as [ Hv | ];
        [ | rewrite andb_false_r; reflexivity ].
      destruct (unit_label_inj _ _ _ _ Hj' Hj Hv) as [E _]. congruence.
  - cbn [andb]. rewrite filter_nothing; [ reflexivity | ].
    intros [i' j'] Hin. apply cells_units in Hin as [Hi' Hj'].
    unfold hits. destruct (String.eqb_spec (label src i') (label a i)) as [ Hu | ];
      [ | rewrite andb_false_r; reflexivity ].
    destruct (unit_label_inj _ _ _ _ Hi' Hi Hu) as [E _]. congruence.
Qed.

Lemma made_unit ks a i b j :
  unit a i -> unit b j ->
  made ks (label a i) (label b j) = length (filter (flagged a i b j) ks).
Proof.
  intros Hi Hj. induction ks as [ | k ks IH ]; [ reflexivity | ].
  change (k :: ks) with ([k] ++ ks). rewrite made_app, made_one, IH.
  rewrite (made_cells_unit k a i b j Hi Hj). simpl.
  destruct (flagged a i b j k); reflexivity.
Qed.

(** Indices from 0 upwards without a gap. *)
Lemma filled_from_zero (s : list Z) :
  NoDup s ->
  (forall x, In x s -> (0 <= x)%Z) ->
  (forall x, In x s -> x <> 0%Z -> In (x - 1)%Z s) ->
  forall x, In x s <-> (0 <= x < Z.of_nat (length s))%Z.
Proof.
  intros Hnd Hpos Hdown.
  assert (Hbelow : forall x, In x s -> forall y, (0 <= y <= x)%Z -> In y s).
  { intros x Hx y Hy.
    assert (G : forall d : nat, In (x - Z.of_nat d)%Z s \/ (x - Z.of_nat d < 0)%Z).
    { induction d as [ | d IH ].
      - left. replace (x - Z.of_nat 0)%Z with x by lia. exact Hx.
      - destruct IH as [ IH | IH ]; [ | right; lia ].
        destruct (Z.eq_dec (x - Z.of_nat d) 0) as [ E | E ]; [ right; lia | ].
        left. replace (x - Z.of_nat (S d))%Z with (x - Z.of_nat d - 1)%Z by lia.
        apply Hdown; assumption. }
    destruct (G (Z.to_nat (x - y))) as [ Hin | Hneg ]; [ | lia ].
    replace (x - Z.of_nat (Z.to_nat (x - y)))%Z with y in Hin by lia. exact Hin. }
  intros x. split.
  - intros Hx. split; [ apply Hpos, Hx | ].
    assert (Hincl : incl (xrange (Z.to_nat (x + 1))) s).
    { intros y Hy. apply xrange_In in Hy. apply (Hbelow x Hx). specialize (Hpos x Hx). lia. }
    apply NoDup_incl_length in Hincl; [ | apply xrange_NoDup ].
    unfold xrange in Hincl. rewrite length_map, length_seq in Hincl.
    specialize (Hpos x Hx). lia.
  - intros Hx. destruct (in_dec Z.eq_dec x s) as [ Hin | Hout ]; [ exact Hin | ].
    exfalso.
    assert (Hincl : incl s (xrange (Z.to_nat x))).
    { intros y Hy. apply xrange_In. specialize (Hpos y Hy).
      destruct (Z_lt_le_dec y x) as [ Hlt | Hge ]; [ lia | ].
      exfalso. apply Hout. apply (Hbelow y Hy). lia. }
    apply NoDup_incl_length in Hincl; [ | exact Hnd ].
    unfold xrange in Hincl. rewrite length_map, length_seq in Hincl. lia.
Qed.

Definition slot_of (k : conn_key) : Z := let '(_, _, conn, _) := k in conn.

(** The slots of the pair of units that hold a connection. *)
Definition slots (a : string) (i : Z) (b : string) (j : Z) : list Z :=
  map slot_of (filter (flagged a i b j) (filter is_conn (dict_keys (_data c)))).

Lemma slots_spec a i b j s : In s (slots a i b j) <-> conn_flag c a i b j s = true.
Proof.
  unfold slots, conn_flag. rewrite in_map_iff. split.
  - intros ([ [ [src dst] conn ] name ] & Hs & Hin). simpl in Hs. subst conn.
    apply filter_In in Hin as [Hin Hf]. apply filter_In in Hin as [_ Hc].
    unfold is_conn in Hc. simpl in Hc. apply String.eqb_eq in Hc. subst name.
    unfold flagged, eqb_of in Hf.
    destruct (eq_dec src a) as [ -> | ]; [ | discriminate ].
    destruct (eq_dec dst b) as [ -> | ]; [ | discriminate ]. exact Hf.
  - intros Hf. exists (a, b, s, "conn"). split; [ reflexivity | ].
    apply filter_In. split.
    + apply filter_In. split; [ | reflexivity ].
      apply dict_get_In. unfold value_at in Hf.
      destruct (dict_get (a, b, s, "conn") (_data c)); [ discriminate | ].
      simpl in Hf. discriminate.
    + unfold flagged, eqb_of.
      destruct (eq_dec a a); [ | congruence ]. destruct (eq_dec b b); [ | congruence ].
      exact Hf.
Qed.

Lemma slots_filled a i b j :
  unit a i -> unit b j ->
  forall s, In s (slots a i b j) <-> (0 <= s < Z.of_nat (length (slots a i b j)))%Z.
Proof.
  intros Hi Hj. apply filled_from_zero.
  - unfold slots. apply NoDup_map_inj_in.
    + intros [ [ [s1 d1] c1 ] n1 ] [ [ [s2 d2] c2 ] n2 ] H1 H2 E. simpl in E. subst c2.
      apply filter_In in H1 as [H1 F1], H2 as [H2 F2].
      apply filter_In in H1 as [_ C1], H2 as [_ C2].
      unfold is_conn in C1, C2. simpl in C1, C2.
      apply String.eqb_eq in C1, C2. subst n1 n2.
      unfold flagged, eqb_of in F1, F2.
      destruct (eq_dec s1 a); [ | discriminate ]. destruct (eq_dec d1 b); [ | discriminate ].
      destruct (eq_dec s2 a); [ | discriminate ]. destruct (eq_dec d2 b); [ | discriminate ].
      congruence.
    + apply NoDup_filter, NoDup_filter, wf_keys_nodup.
  - intros s Hs. apply slots_spec in Hs. unfold conn_flag, value_at in Hs.
    destruct (dict_get (a, b, s, "conn") (_data c)) eqn:E; [ | discriminate ].
    assert (Hk : In (a, b, s, "conn") (dict_keys (_data c)))
      by (apply dict_get_In; congruence).
    apply (sound_key_parts a b s "conn" Hk).
  - intros s Hs Hne. apply slots_spec in Hs. apply slots_spec.
    assert (Hk : In (a, b, s, "conn") (dict_keys (_data c))).
    { apply dict_get_In. unfold conn_flag, value_at in Hs.
      destruct (dict_get (a, b, s, "conn") (_data c)); [ congruence | discriminate ]. }
    destruct (sound_key_parts a b s "conn" Hk) as (_ & _ & _ & Hcells).
    specialize (Hcells i j). simpl in Hcells. apply Hcells; try assumption.
    apply cells_units. auto.
Qed.

(** After the loop of lines 105-114 the edges of a pair of units are keyed
    by the slots that hold a connection. *)
Lemma edges_are_flags g0 g a i b j s :
  edges_made g0 g (made (filter is_conn (dict_keys (_data c)))) ->
  unit a i -> unit b j ->
  has_edge g (label a i) (label b j) s = conn_flag c a i b j s.
Proof.
  intros (_ & _ & Hkd) Hi Hj. unfold has_edge. rewrite Hkd, (made_unit _ a i b j Hi Hj).
  apply eq_true_iff_eq. rewrite <- slots_spec, (slots_filled a i b j Hi Hj).
  unfold slots. rewrite length_map.
  set (n := length (filter (flagged a i b j) (filter is_conn (dict_keys (_data c))))).
  destruct n as [ | n ]; simpl.
  - split; [ discriminate | lia ].
  - unfold dict_has.
    change ((0%Z, []) :: map (fun s0 => (Z.of_nat s0, [])) (seq 1 n))
      with (map (fun t => (Z.of_nat t, @nil (string * pyval))) (seq 0 (S n))).
    rewrite fresh_edges_get.
    destruct (Z.leb_spec 0 s), (Z.ltb_spec s (Z.of_nat (S n))); simpl;
      split; try discriminate; try lia; auto.
Qed.

(** *** The attributes of the edges *)

(** The round of the loop of lines 121-132 for the index pair [ij] sets
    the attribute [nm] of the edge from [u] to [v] with the key [s]. *)
Definition sets (k : conn_key) (u v : string) (s : Z) (nm : string)
  (ij : Z * Z) : bool :=
  let '(src, dst, conn, name) := k in
  let '(i, j) := ij in
  (truthy (value_at c k i j)
   && eqb_of (label src i, label dst j, conn, name) (u, v, s, nm))%bool.

Definition put (k : conn_key) (u v : string) (s : Z) (nm : string)
  (acc : option pyval) (ij : Z * Z) : option pyval :=
  if sets k u v s nm ij then Some (value_at c k (fst ij) (snd ij)) else acc.

(** The attribute that the keys [ks] leave on an edge. *)
Definition attr_keys (ks : list conn_key) (u v : string) (s : Z) (nm : string)
  : option pyval :=
  fold_left (fun acc k => fold_left (put k u v s nm) (key_cells k) acc) ks None.

Lemma set_attrs_of_key k g :
  In k (dict_keys (_data c)) ->
  set_attrs_of c (make_key k) g =
  foreach (key_cells k) (fun '(i, j) g =>
    let '(src, dst, conn, name) := k in
    if truthy (value_at c k i j)
    then set_edge_attr g (label src i) (label dst j) conn name (value_at c k i j)
    else ret g) g.
Proof.
  destruct k as [ [ [src dst] conn ] name ]. intros Hk.
  destruct (sound_key_parts src dst conn name Hk) as (Hd & Hc & _).
  unfold set_attrs_of. rewrite (parse_make_key _ Hc). simpl.
  destruct (direction_ids src dst Hd) as [ [Hs Ht] | [Hs Ht] ];
    rewrite (conn_N_size src), (conn_N_size dst) by auto; simpl;
    apply foreach_ext; intros [i j] g' _;
    rewrite (read_value src i dst j conn name Hk); simpl;
    destruct (truthy (value_at c (src, dst, conn, name) i j)); reflexivity.
Qed.

(** The state of the graph in the loop of lines 118-132. *)
Definition attrs_set (g0 g : MultiDiGraph)
  (f : string -> string -> Z -> string -> option pyval) : Prop :=
  node g = node g0
  /\ (forall u v k, has_edge g u v k = has_edge g0 u v k)
  /\ (forall u v k nm, edge_attr g u v k nm = f u v k nm).

Lemma set_attrs_key_spec g0 g k f :
  (forall a i b j s, unit a i -> unit b j ->
     has_edge g0 (label a i) (label b j) s = conn_flag c a i b j s) ->
  In k (dict_keys (_data c)) ->
  is_conn k = false ->
  attrs_set g0 g f ->
  exists g', set_attrs_of c (make_key k) g = inr g'
    /\ attrs_set g0 g'
         (fun u v s nm => fold_left (put k u v s nm) (key_cells k) (f u v s nm)).
Proof.
  intros Hflags Hk Hparam Hg. rewrite (set_attrs_of_key k g Hk).
  apply (foreach_inv (fun pre g' =>
           attrs_set g0 g' (fun u v s nm => fold_left (put k u v s nm) pre (f u v s nm)))).
  - exact Hg.
  - intros pre [i j] post g1 Hxs (Hn & He & Ha).
    destruct k as [ [ [src dst] conn ] name ].
    assert (Hij : In (i, j) (cells c src dst)).
    { unfold key_cells in Hxs. rewrite Hxs. apply in_or_app. right; left; reflexivity. }
    pose proof Hij as Hcell. apply cells_units in Hij as [Hi Hj].
    destruct (truthy (value_at c (src, dst, conn, name) i j)) eqn:Htruthy.
    + destruct (sound_key_parts src dst conn name Hk) as (_ & _ & _ & Hsound).
      specialize (Hsound i j Hcell). unfold is_conn in Hparam. simpl in Hparam.
      rewrite Hparam in Hsound. specialize (Hsound Htruthy).
      destruct (set_edge_attr_spec g1 (label src i) (label dst j) conn name
                  (value_at c (src, dst, conn, name) i j))
        as (g2 & Hset & Hn2 & _ & He2 & Ha2).
      { rewrite He, (Hflags src i dst j conn Hi Hj). exact Hsound. }
      exists g2. split; [ exact Hset | ]. repeat split.
      * congruence.
      * intros u v k. rewrite He2. apply He.
      * intros u v s nm. rewrite Ha2, Ha, fold_left_app. simpl.
        unfold put at 2, sets. rewrite Htruthy. simpl. unfold eqb_of.
        destruct (eq_dec (u, v, s, nm) (label src i, label dst j, conn, name))
          as [ [= -> -> -> ->] | Hne ].
        { destruct (eq_dec (label src i, label dst j, conn, name)
                           (label src i, label dst j, conn, name));
            [ reflexivity | congruence ]. }
        { destruct (eq_dec (label src i, label dst j, conn, name) (u, v, s, nm));
            [ congruence | reflexivity ]. }
    + exists g1. split; [ reflexivity | ]. repeat split; try assumption.
      intros u v s nm. rewrite Ha, fold_left_app. simpl.
      unfold put at 2, sets. rewrite Htruthy. reflexivity.
Qed.

Lemma graph_attrs_spec g0 :
  (forall a i b j s, unit a i -> unit b j ->
     has_edge g0 (label a i) (label b j) s = conn_flag c a i b j s) ->
  (forall u v k nm, edge_attr g0 u v k nm = None) ->
  exists g, graph_attrs c g0 = inr g
    /\ attrs_set g0 g
         (attr_keys (filter (fun k => negb (is_conn k)) (dict_keys (_data c)))).
Proof.
  intros Hflags Hnone. unfold graph_attrs.
  rewrite param_keys_listed, foreach_map.
  apply (foreach_inv (fun pre g => attrs_set g0 g (attr_keys pre))).
  - repeat split; try reflexivity. intros u v k nm. apply Hnone.
  - intros pre k post g1 Hxs Hg1.
    assert (Hin : In k (filter (fun k => negb (is_conn k)) (dict_keys (_data c)))).
    { rewrite Hxs. apply in_or_app. right; left; reflexivity. }
    apply filter_In in Hin as [Hk Hp]. apply negb_true_iff in Hp.
    destruct (set_attrs_key_spec g0 g1 k (attr_keys pre) Hflags Hk Hp Hg1)
      as (g' & Hrun & Hg').
    exists g'. split; [ exact Hrun | ].
    destruct Hg' as (Hn & He & Ha). repeat split; try assumption.
    intros u v s nm. rewrite Ha. unfold attr_keys. rewrite fold_left_app. reflexivity.
Qed.

Lemma put_cells a i b j s nm k acc :
  unit a i -> unit b j ->
  fold_left (put k (label a i) (label b j) s nm) (key_cells k) acc
  = if (eqb_of k (a, b, s, nm) && truthy (value_at c (a, b, s, nm) i j))%bool
    then Some (value_at c (a, b, s, nm) i j) else acc.
Proof.
  intros Hi Hj. destruct k as [ [ [src dst] conn ] name ].
  assert (Hsets : forall i' j', In (i', j') (cells c src dst) ->
            sets (src, dst, conn, name) (label a i) (label b j) s nm (i', j')
            = (eqb_of (src, dst, conn, name) (a, b, s, nm)
               && truthy (value_at c (a, b, s, nm) i j)
               && eqb_of (i', j') (i, j))%bool).
  { intros i' j' Hin. apply cells_units in Hin as [Hi' Hj'].
    unfold sets, eqb_of.
    destruct (eq_dec (label src i', label dst j', conn, name)
                     (label a i, label b j, s, nm)) as [ E | E ].
    - injection E as Hu Hv -> ->.
      destruct (unit_label_inj _ _ _ _ Hi' Hi Hu) as [-> ->].
      destruct (unit_label_inj _ _ _ _ Hj' Hj Hv) as [-> ->].
      destruct (eq_dec (a, b, s, nm) (a, b, s, nm)); [ | congruence ].
      destruct (eq_dec (i, j) (i, j)); [ | congruence ].
      cbn [andb]. rewrite !andb_true_r. reflexivity.
    - rewrite andb_false_r.
      destruct (eq_dec (src, dst, conn, name) (a, b, s, nm)) as [ [= -> -> -> ->] | ];
        [ | reflexivity ].
      destruct (eq_dec (i', j') (i, j)) as [ [= -> ->] | ];
        [ congruence | rewrite andb_false_r; reflexivity ]. }
  unfold key_cells.
  destruct (eqb_of (src, dst, conn, name) (a, b, s, nm)
            && truthy (value_at c (a, b, s, nm) i j))%bool eqn:Hon.
  - assert (Hin : In (i, j) (cells c src dst)).
    { apply andb_true_iff in Hon as [Hk _]. unfold eqb_of in Hk.
      destruct (eq_dec (src, dst, conn, name) (a, b, s, nm)) as [ [= -> -> _ _] | ];
        [ | discriminate ].
      apply cells_units. auto. }
    assert (Hk : (src, dst, conn, name) = (a, b, s, nm)).
    { apply andb_true_iff in Hon as [Hk _]. unfold eqb_of in Hk.
      destruct (eq_dec (src, dst, conn, name) (a, b, s, nm)); [ assumption | discriminate ]. }
    injection Hk as -> -> -> ->.
    revert acc Hin Hsets. generalize (cells c a b) as cs.
    induction cs as [ | [i' j'] cs IH ]; intros acc Hin Hsets; [ contradiction | ].
    simpl. unfold put at 2. rewrite (Hsets i' j' (or_introl eq_refl)). simpl.
    unfold eqb_of at 1. destruct (eq_dec (i', j') (i, j)) as [ [= -> ->] | Hne ].
    + clear IH Hin.
      assert (G : forall acc', acc' = Some (value_at c (a, b, s, nm) i j) ->
                fold_left (put (a, b, s, nm) (label a i) (label b j) s nm) cs acc'
                = Some (value_at c (a, b, s, nm) i j)).
      { induction cs as [ | [i2 j2] cs IH ]; intros acc' Hacc; [ exact Hacc | ].
        simpl. apply IH.
        - intros i3 j3 H3. apply Hsets.
          destruct H3 as [ H3 | H3 ]; [ left; exact H3 | right; right; exact H3 ].
        - unfold put. rewrite (Hsets i2 j2 (or_intror (or_introl eq_refl))). simpl.
          destruct (eqb_of (i2, j2) (i, j)) eqn:E2; [ | exact Hacc ].
          unfold eqb_of in E2. destruct (eq_dec (i2, j2) (i, j)) as [ [= -> ->] | ];
            [ | discriminate ].
          reflexivity. }
      apply G. reflexivity.
    + apply IH.
      * destruct Hin as [ Hin | Hin ]; [ congruence | exact Hin ].
      * intros i2 j2 H2. apply Hsets. right; exact H2.
  - revert acc Hsets. generalize (cells c src dst) as cs.
    induction cs as [ | [i' j'] cs IH ]; intros acc Hsets; [ reflexivity | ].
    simpl. unfold put at 2. rewrite (Hsets i' j' (or_introl eq_refl)). simpl.
    apply IH. intros i2 j2 H2. apply Hsets. right; exact H2.
Qed.

Lemma attr_keys_unit ks a i b j s nm :
  unit a i -> unit b j ->
  attr_keys ks (label a i) (label b j) s nm
  = if (mem (a, b, s, nm) ks && truthy (value_at c (a, b, s, nm) i j))%bool
    then Some (value_at c (a, b, s, nm) i j) else None.
Proof.
  intros Hi Hj. unfold attr_keys.
  assert (G : forall acc,
    fold_left (fun acc k =>
      fold_left (put k (label a i) (label b j) s nm) (key_cells k) acc) ks acc
    = if (mem (a, b, s, nm) ks && truthy (value_at c (a, b, s, nm) i j))%bool
      then Some (value_at c (a, b, s, nm) i j) else acc).
  { induction ks as [ | k ks IH ]; intros acc; [ reflexivity | ].
    simpl. rewrite IH, (put_cells a i b j s nm k acc Hi Hj). unfold eqb_of.
    destruct (eq_dec (a, b, s, nm) k) as [ <- | Hne ].
    - destruct (eq_dec (a, b, s, nm) (a, b, s, nm)); [ | congruence ]. simpl.
      destruct (truthy (value_at c (a, b, s, nm) i j));
        rewrite ?andb_true_r, ?andb_false_r; [ | reflexivity ].
      destruct (mem (a, b, s, nm) ks); reflexivity.
    - destruct (eq_dec k (a, b, s, nm)); [ congruence | ]. reflexivity. }
  apply G.
Qed.

(** *** The whole of [conn_to_graph] *)

Lemma conn_to_graph_spec :
  exists g, conn_to_graph c = inr g
    /\ (forall t, types c = Some t ->
          forall l, node_attr g l "neuron_type" = type_tag t l)
    /\ (forall a i b j s, unit a i -> unit b j ->
          has_edge g (label a i) (label b j) s = conn_flag c a i b j s)
    /\ (forall a i b j s nm, unit a i -> unit b j -> nm <> "conn" ->
          edge_attr g (label a i) (label b j) s nm
          = if truthy (value_at c (a, b, s, nm) i j)
            then Some (value_at c (a, b, s, nm) i j) else None).
Proof.
  destruct graph_types_spec as (g2 & R2 & Hadj2 & Hkeep2 & Htypes).
  destruct (graph_edges_spec g2 Hkeep2) as (g3 & R3 & Hg3).
  { intros u v. unfold keydict. rewrite Hadj2. apply graph_nodes_no_edge. }
  assert (Hflags : forall a i b j s, unit a i -> unit b j ->
            has_edge g3 (label a i) (label b j) s = conn_flag c a i b j s).
  { intros a i b j s. apply (edges_are_flags g2 g3). exact Hg3. }
  destruct (graph_attrs_spec g3 Hflags) as (g4 & R4 & Hn4 & He4 & Ha4).
  { intros u v k nm. destruct Hg3 as (_ & _ & Hkd). unfold edge_attr. rewrite Hkd.
    destruct (made (filter is_conn (dict_keys (_data c))) u v) as [ | n ];
      [ reflexivity | ].
    unfold fresh_edges. rewrite fresh_edges_get.
    destruct (0 <=? k)%Z, (k <? Z.of_nat (S n))%Z; reflexivity. }
  exists g4. unfold conn_to_graph. rewrite R2; simpl. rewrite R3; simpl.
  split; [ exact R4 | ]. split; [ | split ].
  - intros t Ht l. rewrite <- (Htypes t Ht l). unfold node_attr.
    destruct Hg3 as (Hn3 & _). rewrite Hn4, Hn3. reflexivity.
  - intros a i b j s Hi Hj. rewrite He4. apply Hflags; assumption.
  - intros a i b j s nm Hi Hj Hnm. rewrite Ha4, (attr_keys_unit _ a i b j s nm Hi Hj).
    destruct (truthy (value_at c (a, b, s, nm) i j)) eqn:Ht;
      [ | rewrite andb_false_r; reflexivity ].
    rewrite andb_true_r.
    assert (Hin : In (a, b, s, nm)
              (filter (fun k => negb (is_conn k)) (dict_keys (_data c)))).
    { apply filter_In. split.
      - apply dict_get_In. unfold value_at in Ht.
        destruct (dict_get (a, b, s, nm) (_data c)); [ discriminate | ].
        simpl in Ht. discriminate.
      - unfold is_conn. simpl. apply negb_true_iff, String.eqb_neq, Hnm. }
    apply (mem_In (K := string * string * Z * string)) in Hin. rewrite Hin. reflexivity.
Qed.

End Encoding.

(* ===================================================================== *)
(** ** [conn_to_graph]: the graph of a well-formed model *)

Section EncodedGraph.
Context {F : PyFloatOps}.

(** The statement that an attribute is on an edge exactly when the
    connection of its slot is there, for the edges from population A to
    population B of [c] in the graph [g]. *)
Definition attribute_iff_flag (c : Connectivity) (g : MultiDiGraph) : Prop :=
  forall (i j s : Z) (src dst : string) (conn : Z) (nm : string),
    in_range i (N_A c) = true -> in_range j (N_B c) = true ->
    In (src, dst, conn, nm) (dict_keys (_data c)) -> nm <> "conn" ->
    (edge_attr g (label (A_id c) i) (label (B_id c) j) s nm <> None
     <-> conn_flag c (A_id c) i (B_id c) j s = true).

(** C2, as amended. On a well-formed model [conn_to_graph] returns a graph
    in which two units are joined by an edge with the key [s] exactly when
    the presence flag of slot [s] is set for them, and in which such an edge
    carries the attribute [nm] exactly when the parameter [nm] of that slot
    is non-zero for the two units, the attribute being that value. *)
Theorem edges_follow_flags (c : Connectivity) :
  well_formed c = true ->
  exists g, conn_to_graph c = inr g
    /\ (forall a i b j s,
          in_range i (size c a) = true -> in_range j (size c b) = true ->
          has_edge g (label a i) (label b j) s = conn_flag c a i b j s)
    /\ (forall a i b j s nm,
          in_range i (size c a) = true -> in_range j (size c b) = true ->
          nm <> "conn" ->
          edge_attr g (label a i) (label b j) s nm
          = if truthy (value_at c (a, b, s, nm) i j)
            then Some (value_at c (a, b, s, nm) i j) else None).
Proof.
  intros wf. destruct (conn_to_graph_spec c wf) as (g & Hrun & _ & He & Ha).
  exists g. split; [ exact Hrun | ]. split.
  - intros a i b j s Hi Hj. apply He; assumption.
  - intros a i b j s nm Hi Hj Hnm. apply Ha; assumption.
Qed.

(** C5. On a well-formed typed model [conn_to_graph] returns a graph in
    which the node of a unit has the [neuron_type] 'gpot' when the index of
    the unit is the image, by the translation table, of one of the first
    [N_gpot] graded-potential units of its population, and 'spike'
    otherwise. *)
Theorem neuron_type_follows_translation (c : Connectivity) (t : TypeInfo) :
  well_formed c = true ->
  types c = Some t ->
  exists g, conn_to_graph c = inr g
    /\ (forall n, in_range n (N_A c) = true ->
          node_attr g (label (A_id c) n) "neuron_type" =
          Some (PyStr (if mem n (images t (A_id c) "gpot" (N_A_gpot t))
                       then "gpot" else "spike")))
    /\ (forall n, in_range n (N_B c) = true ->
          node_attr g (label (B_id c) n) "neuron_type" =
          Some (PyStr (if mem n (images t (B_id c) "gpot" (N_B_gpot t))
                       then "gpot" else "spike"))).
Proof.
  intros wf Ht. destruct (conn_to_graph_spec c wf) as (g & Hrun & Hty & _).
  exists g. split; [ exact Hrun | ].
  split; intros n Hn; rewrite (Hty t Ht).
  - apply (type_tag_unit c wf t n Ht). unfold unit. rewrite (size_A c). exact Hn.
  - apply (type_tag_unit c wf t n Ht). unfold unit. rewrite (size_B c wf). exact Hn.
Qed.

End EncodedGraph.

(* ===================================================================== *)
(** ** [graph_to_conn]: the order of the checks *)

Section Checks.
Context {F : PyFloatOps}.

Definition not_bipartite_error : exn := ValueError "incorrectly formatted graph".

Definition non_consecutive_error : exn :=
  ValueError "nodes must be numbered consecutively from 0..N".

(** The first violation is reported, in the order label parsing, number of
    populations, consecutive numbering, neuron types, and before a
    connectivity object is created. *)
Definition checks_in_order (g : MultiDiGraph) (ct : conn_type) : Prop :=
  (forall pre l post,
     nodes g = pre ++ l :: post -> Forall parses pre -> parse_label l = None ->
     graph_to_conn_run g ct = Raised (parse_error l) false)
  /\ (Forall parses (nodes g) -> distinct (label_prefixes g) <> 2 ->
      graph_to_conn_run g ct = Raised not_bipartite_error false)
  /\ (Forall parses (nodes g) -> distinct (label_prefixes g) = 2 ->
      (exists p, In p (label_prefixes g) /\ ~ consecutive (indices g p)) ->
      graph_to_conn_run g ct = Raised non_consecutive_error false)
  /\ (Forall parses (nodes g) -> distinct (label_prefixes g) = 2 ->
      (forall p, In p (label_prefixes g) -> consecutive (indices g p)) ->
      ct = core_Connectivity ->
      (exists l p n, In l (nodes g) /\ parse_label l = Some (p, n)
                     /\ has_neuron_type g (label p n) = false) ->
      exists e, graph_to_conn_run g ct = Raised e false /\ neuron_type_error e).

(** C3, as amended. A graph that passes the bipartiteness test of line 158
    has its first violation reported in the order label parsing, number of
    populations, consecutive numbering, neuron types; each of these
    exceptions leaves before a connectivity object is created. *)
Theorem first_violation_reported (g : MultiDiGraph) (ct : conn_type) :
  nx_is_bipartite g = true -> checks_in_order g ct.
Proof.
  intros Hb. repeat split.
  - intros pre l post. apply run_label_refused; exact Hb.
  - apply run_prefix_count; exact Hb.
  - apply run_gap; exact Hb.
  - intros Hall Hcount Hcons -> Hbad. apply run_neuron_type; assumption.
Qed.

(** C7, as amended. A graph that passes the bipartiteness test of line 158,
    whose labels all parse and whose labels do not show exactly two
    population ids, is refused with the exception of line 179. *)
Theorem prefix_count_decides (g : MultiDiGraph) (ct : conn_type) :
  nx_is_bipartite g = true ->
  Forall parses (nodes g) ->
  distinct (label_prefixes g) <> 2 ->
  graph_to_conn_run g ct = Raised not_bipartite_error false.
Proof. apply run_prefix_count. Qed.

(** C8, as amended. A graph that passes the bipartiteness test of line 158,
    whose labels all parse and show exactly two population ids, and in which
    the indices of a population are not 0, ..., n-1 for any [n], is refused
    with the exception of line 187. *)
Theorem gap_refused (g : MultiDiGraph) (ct : conn_type) :
  nx_is_bipartite g = true ->
  Forall parses (nodes g) ->
  distinct (label_prefixes g) = 2 ->
  (exists p, In p (label_prefixes g) /\ ~ consecutive (indices g p)) ->
  graph_to_conn_run g ct = Raised non_consecutive_error false.
Proof. apply run_gap. Qed.

(** A label as the specification wants it: an id, a colon and an index
    that is a non-negative integer. *)
Definition proper_label (l : string) : Prop :=
  exists id z, parse_label l = Some (id, z) /\ (0 <= z)%Z.

(** C9, as amended. In a graph that passes the bipartiteness test of line
    158, the first label that the pattern of line 170 does not match, the
    labels before it being parsed, is reported with the exception of line
    172, before a connectivity object is created. *)
Theorem unmatched_label_refused (g : MultiDiGraph) (ct : conn_type)
  (pre : list string) (l : string) (post : list string) :
  nx_is_bipartite g = true ->
  nodes g = pre ++ l :: post ->
  Forall parses pre ->
  re_search_label l = None ->
  graph_to_conn_run g ct = Raised (label_error l) false.
Proof.
  intros Hb Hnodes Hpre Hl.
  assert (Hp : parse_label l = None) by (unfold parse_label; rewrite Hl; reflexivity).
  rewrite (run_label_refused g ct pre l post Hb Hnodes Hpre Hp).
  unfold parse_error. rewrite Hl. reflexivity.
Qed.

(** A label without a colon is not matched. *)
Lemma no_colon_unmatched (l : string) :
  no_char ":" l = true -> re_search_label l = None.
Proof.
  unfold re_search_label.
  assert (Hr : forall r, no_char ":" r = true -> rcolon r = None).
  { induction r as [ | x r IH ]; [ reflexivity | ].
    rewrite no_char_all, all_chars_cons, <- no_char_all, andb_true_iff.
    intros [Hx Hr]. simpl. rewrite (IH Hr).
    apply negb_true_iff in Hx. rewrite Hx. reflexivity. }
  assert (Hl : forall s, no_char ":" s = true -> line_groups s = None).
  { intros [ | x r ]; [ reflexivity | ].
    rewrite no_char_all, all_chars_cons, <- no_char_all, andb_true_iff.
    intros [_ Hs]. simpl. rewrite (Hr r Hs). reflexivity. }
  assert (Hs : forall s, no_char ":" s = true ->
                 Forall (fun x => no_char ":" x = true) (split_on newline s)).
  { induction s as [ | x s IH ]; [ repeat constructor | ].
    rewrite no_char_all, all_chars_cons, <- no_char_all, andb_true_iff.
    intros [Hx Hs]. specialize (IH Hs). simpl.
    destruct (Ascii.eqb x newline); [ constructor; [ reflexivity | exact IH ] | ].
    destruct (split_on newline s) as [ | h t ].
    - constructor; [ | constructor ].
      rewrite no_char_all, all_chars_cons, Hx. reflexivity.
    - inversion IH; subst. constructor; [ | assumption ].
      rewrite no_char_all, all_chars_cons, <- no_char_all, Hx. assumption. }
  intros Hc. specialize (Hs l Hc).
  induction (split_on newline l) as [ | x xs IH ]; [ reflexivity | ].
  inversion Hs; subst. simpl. rewrite (Hl x) by assumption. apply IH. assumption.
Qed.

End Checks.

(* ===================================================================== *)
(** ** Labels: written by [conn_to_graph], read by [graph_to_conn] *)

Section Labels.
Context {F : PyFloatOps}.

Lemma rcolon_none r : no_char ":" r = true -> rcolon r = None.
Proof.
  induction r as [ | x r IH ]; [ reflexivity | ].
  rewrite no_char_all, all_chars_cons, <- no_char_all, andb_true_iff.
  intros [Hx Hr]. simpl. rewrite (IH Hr).
  apply negb_true_iff in Hx. rewrite Hx. reflexivity.
Qed.

(** The greedy first group runs to the last colon. *)
Lemma rcolon_last r d :
  no_char ":" d = true -> d <> EmptyString ->
  rcolon (r ++ String ":" d) = Some (r, d).
Proof.
  intros Hd Hne. induction r as [ | x r IH ]; simpl.
  - rewrite (rcolon_none d Hd).
    destruct d as [ | y d ]; [ contradiction | reflexivity ].
  - rewrite IH. reflexivity.
Qed.

Lemma py_str_nonempty n : py_str n <> EmptyString.
Proof.
  intros E. pose proof (py_int_of_str n) as H. rewrite E in H. discriminate.
Qed.

Lemma re_search_label_label id n :
  id <> EmptyString -> no_char newline id = true ->
  re_search_label (label id n) = Some (id, py_str n).
Proof.
  intros Hid Hnl. unfold re_search_label, label.
  rewrite split_on_absent.
  - simpl. destruct id as [ | x r ]; [ contradiction | ]. simpl.
    rewrite rcolon_last; [ reflexivity | | apply py_str_nonempty ].
    apply py_str_no_char. reflexivity.
  - rewrite no_char_app, Hnl. simpl.
    rewrite no_char_all, all_chars_cons, <- no_char_all.
    simpl. apply py_str_no_char. reflexivity.
Qed.

Lemma parse_label_label id n :
  id <> EmptyString -> no_char newline id = true ->
  parse_label (label id n) = Some (id, n).
Proof.
  intros Hid Hnl. unfold parse_label.
  rewrite (re_search_label_label id n Hid Hnl), py_int_of_str. reflexivity.
Qed.

Lemma edge_end_label id n :
  no_char ":" id = true -> edge_end (label id n) = Some (id, n).
Proof.
  intros H. unfold edge_end. rewrite (split_label id n H), py_int_of_str.
  reflexivity.
Qed.

Lemma split_on_one c s : length (split_on c s) = 1 -> no_char c s = true.
Proof.
  induction s as [ | x r IH ]; [ reflexivity | ]. simpl.
  rewrite no_char_all, all_chars_cons, <- no_char_all.
  destruct (Ascii.eqb x c) eqn:E.
  - pose proof (split_on_nonempty c r) as Hne.
    destruct (split_on c r); [ contradiction | discriminate ].
  - simpl. destruct (split_on c r) as [ | h t ] eqn:Hs.
    + exfalso. apply (split_on_nonempty c r). exact Hs.
    + simpl. intros Hl. apply IH. exact Hl.
Qed.

(** X1. A label that [conn_to_graph] writes for a population id that is
    not empty and holds no line break is read back by the pattern of line
    170 and the [int] of line 175, colons in the id included; the
    [split(':')] of lines 223-226 reads it back only when the id holds no
    colon, and is otherwise left with more than two parts. *)
Theorem label_read_back (id : string) (n : Z) :
  id <> EmptyString -> no_char newline id = true ->
  parse_label (label id n) = Some (id, n)
  /\ edge_end (label id n)
     = if no_char ":" id then Some (id, n) else None.
Proof.
  intros Hid Hnl. split; [ apply parse_label_label; assumption | ].
  destruct (no_char ":" id) eqn:Hc; [ apply edge_end_label; exact Hc | ].
  unfold edge_end, label.
  change (id ++ ":" ++ py_str n)%string with (id ++ String ":" (py_str n))%string.
  rewrite split_on_join.
  rewrite (split_on_absent ":" (py_str n)) by (apply py_str_no_char; reflexivity).
  destruct (split_on ":" id) as [ | p [ | q t ] ] eqn:Hs.
  - exfalso. apply (split_on_nonempty ":" id). exact Hs.
  - assert (Hl : length (split_on ":" id) = 1) by (rewrite Hs; reflexivity).
    apply split_on_one in Hl. congruence.
  - simpl. destruct (t ++ [py_str n]) eqn:Ht; [ | reflexivity ].
    destruct t; discriminate.
Qed.

End Labels.

(* ===================================================================== *)
(** ** [graph_to_conn]: the object it returns *)

Section Decoded.
Context {F : PyFloatOps}.

(** X2. With [conn_type = base.BaseConnectivity] the attributes of the
    nodes are never read: two graphs with the same nodes and the same
    edges give the same result, exceptions included. *)
Theorem base_ignores_node_attributes (g g' : MultiDiGraph) :
  nodes g = nodes g' -> adj g = adj g' ->
  graph_to_conn g base_BaseConnectivity = graph_to_conn g' base_BaseConnectivity.
Proof.
  intros Hn Ha.
  assert (Hv : validate g base_BaseConnectivity = validate g' base_BaseConnectivity).
  { unfold validate, nx_is_bipartite, proper, getitem2, edges.
    rewrite Hn, Ha. reflexivity. }
  assert (Hp : forall c, populate g base_BaseConnectivity c
                         = populate g' base_BaseConnectivity c).
  { intros c. unfold populate, set_edge, getitem2, edges. rewrite Ha. reflexivity. }
  unfold graph_to_conn, graph_to_conn_run. rewrite Hv.
  destruct (validate g' base_BaseConnectivity) as [ e | z ]; [ reflexivity | ].
  rewrite Hp. reflexivity.
Qed.

(** What a write that succeeds leaves of the object, and what it asks. *)
Lemma write_fields ct c a i b j conn name v c' :
  write ct c a i b j conn name v = inr c' ->
  A_id c' = A_id c /\ B_id c' = B_id c /\ N_A c' = N_A c /\ N_B c' = N_B c
  /\ types c' = types c
  /\ N_mult c' = Nat.max (N_mult c) (S (Z.to_nat conn))
  /\ a <> b /\ (0 <= conn)%Z
  /\ exists na nb, conn_N c a = inr na /\ conn_N c b = inr nb
                   /\ in_range i na = true /\ in_range j nb = true.
Proof.
  assert (H : conn_setitem c a i b j conn name v = inr c' ->
    A_id c' = A_id c /\ B_id c' = B_id c /\ N_A c' = N_A c /\ N_B c' = N_B c
    /\ types c' = types c
    /\ N_mult c' = Nat.max (N_mult c) (S (Z.to_nat conn))
    /\ a <> b /\ (0 <= conn)%Z
    /\ exists na nb, conn_N c a = inr na /\ conn_N c b = inr nb
                     /\ in_range i na = true /\ in_range j nb = true).
  { unfold conn_setitem, eqb_of.
    destruct (eq_dec a b) as [ Hab | Hab ]; simpl; [ discriminate | ].
    destruct (conn_N c a) as [ e | na ]; simpl; [ discriminate | ].
    destruct (conn_N c b) as [ e | nb ]; simpl; [ discriminate | ].
    destruct (in_range i na) eqn:Hi; simpl; [ | discriminate ].
    destruct (in_range j nb) eqn:Hj; simpl; [ | discriminate ].
    destruct (Z.leb 0 conn) eqn:Hc; simpl; [ | discriminate ].
    intros E. injection E as <-. simpl.
    repeat (split; [ reflexivity || assumption || (apply Z.leb_le; assumption) | ]).
    exists na, nb. auto. }
  destruct ct; exact H.
Qed.

(** Every write of the loop of lines 222-250 belongs to an edge of the
    graph, and to a slot below the number of its parallel edges. *)
Lemma written_edge g a i b j conn name v :
  written g a i b j conn name v ->
  exists u w kd, In (u, w) (edges g)
    /\ edge_end u = Some (a, i) /\ edge_end w = Some (b, j)
    /\ getitem2 g u w = inr kd
    /\ (0 <= conn < Z.of_nat (length kd))%Z.
Proof.
  assert (Hb : forall (kd : dict Z attrs) n k,
            In (n, k) (enumerate (dict_keys kd)) ->
            (0 <= n < Z.of_nat (length kd))%Z).
  { intros kd n k Hin.
    assert (Hx : exists x, In (n, x) (enumerate (dict_keys kd))) by (exists k; exact Hin).
    apply enumerate_bound in Hx. unfold dict_keys in Hx.
    rewrite length_map in Hx. exact Hx. }
  intros Hw. inversion Hw; subst.
  - exists u, v0, kd. repeat split; try assumption; eapply Hb; eauto.
  - exists u, v0, kd. repeat split; try assumption; eapply Hb; eauto.
Qed.

(** An entry of the returned object is 0, or was written by the loop of
    lines 222-250. *)
Lemma zero_or_written g ct c a b conn name i j :
  graph_to_conn g ct = inr c ->
  value_at c (a, b, conn, name) i j = PyInt 0
  \/ exists v, written g a i b j conn name v.
Proof.
  intros Hrun.
  destruct (graph_to_conn_returns g ct c Hrun) as (z & _ & Hpop).
  revert a b conn name i j.
  apply (populate_keeps g ct
           (fun c => forall a b conn name i j,
              value_at c (a, b, conn, name) i j = PyInt 0
              \/ exists v, written g a i b j conn name v)) with (c0 := allocate ct z);
    [ | exact Hpop | ].
  - intros c1 c2 a0 i0 b0 j0 conn0 name0 v0 Hw Hwr IH a1 b1 conn1 name1 i1 j1.
    rewrite (write_value _ _ _ _ _ _ _ _ _ _ Hwr).
    destruct (eq_dec (a1, b1, conn1, name1) (a0, b0, conn0, name0)) as [ E | E ];
      [ | apply IH ].
    destruct (Z.eqb i1 i0 && Z.eqb j1 j0)%bool eqn:Hij;
      [ | rewrite E; rewrite <- E; apply IH ].
    apply andb_true_iff in Hij. destruct Hij as [Hi Hj].
    apply Z.eqb_eq in Hi, Hj. injection E as -> -> -> ->. subst.
    right. exists v0. exact Hw.
  - intros a1 b1 conn1 name1 i1 j1. left. apply allocate_empty.
Qed.

(** X3. Every entry of the returned object that is not 0, a presence flag
    or a parameter, sits at two units that are the ends of an edge of the
    graph, in a slot below the number of parallel edges of that pair. *)
Theorem entries_come_from_edges (g : MultiDiGraph) (ct : conn_type)
  (c : Connectivity) (a b name : string) (conn i j : Z) :
  graph_to_conn g ct = inr c ->
  value_at c (a, b, conn, name) i j <> PyInt 0 ->
  exists u v kd, In (u, v) (edges g)
    /\ edge_end u = Some (a, i) /\ edge_end v = Some (b, j)
    /\ getitem2 g u v = inr kd
    /\ (0 <= conn < Z.of_nat (length kd))%Z.
Proof.
  intros Hrun Hne.
  destruct (zero_or_written g ct c a b conn name i j Hrun) as [ E | (v & Hw) ];
    [ contradiction | ].
  exact (written_edge g a i b j conn name v Hw).
Qed.

(** The flags of the returned object at the two ends of an edge. *)
Lemma decoded_flag g ct c u v a i b j kd :
  edges_well_labelled g = true ->
  graph_to_conn g ct = inr c ->
  In (u, v) (edges g) ->
  edge_end u = Some (a, i) -> edge_end v = Some (b, j) ->
  getitem2 g u v = inr kd ->
  forall s : Z,
    conn_flag c a i b j s = true <-> (0 <= s < Z.of_nat (length kd))%Z.
Proof.
  intros Hw Hret He Hu Hv Hkd s.
  apply graph_to_conn_returns in Hret as (z & _ & Hpop).
  unfold conn_flag. split.
  - intros Hflag.
    assert (Hq : value_at c (a, b, s, "conn") i j = PyInt 0
                 \/ (0 <= s < Z.of_nat (length kd))%Z).
    { apply (populate_keeps g ct
               (fun c => value_at c (a, b, s, "conn") i j = PyInt 0
                         \/ (0 <= s < Z.of_nat (length kd))%Z))
        with (c0 := allocate ct z);
        [ | exact Hpop | left; apply allocate_empty ].
      intros c1 c2 a' i' b' j' conn name x Hwr Hwrite Hq.
      rewrite (write_value _ _ _ _ _ _ _ _ _ _ Hwrite).
      destruct (eq_dec (a, b, s, "conn") (a', b', conn, name)) as [ E | ];
        [ | exact Hq ].
      destruct (Z.eqb_spec i i') as [ <- | ]; [ | exact Hq ].
      destruct (Z.eqb_spec j j') as [ <- | ]; [ | exact Hq ].
      injection E as <- <- <- <-. simpl.
      destruct (written_same_edge g u v a i b j kd s "conn" x Hw He Hu Hv Hkd Hwr)
        as [ (_ & _ & Hb) | (Hne & _) ]; [ right; exact Hb | congruence ]. }
    destruct Hq as [ Hq | Hq ]; [ | exact Hq ].
    rewrite Hq in Hflag. discriminate.
  - intros Hs.
    assert (Hb : (0 <= s < Z.of_nat (length (dict_keys kd)))%Z).
    { unfold dict_keys. rewrite length_map. exact Hs. }
    apply enumerate_bound in Hb as (k & Hk).
    assert (Hq : value_at c (a, b, s, "conn") i j = PyInt 1).
    { apply (populate_flag g ct
               (fun c => value_at c (a, b, s, "conn") i j = PyInt 1))
        with (c0 := allocate ct z) (u := u) (v := v) (a := a) (i := i)
             (b := b) (j := j) (kd := kd) (conn := s) (k := k);
        try assumption.
      2:{ intros c1 c2 Hwrite. apply (write_here _ _ _ _ _ _ _ _ _ _ Hwrite). }
      { intros c1 c2 a' i' b' j' conn name x Hwr Hwrite Hq.
        rewrite (write_value _ _ _ _ _ _ _ _ _ _ Hwrite).
        destruct (eq_dec (a, b, s, "conn") (a', b', conn, name)) as [ E | ];
          [ | exact Hq ].
        destruct (Z.eqb_spec i i') as [ <- | ]; [ | exact Hq ].
        destruct (Z.eqb_spec j j') as [ <- | ]; [ | exact Hq ].
        injection E as <- <- <- <-. simpl.
        destruct (written_same_edge g u v a i b j kd s "conn" x Hw He Hu Hv Hkd Hwr)
          as [ (_ & Hx & _) | (Hne & _) ]; [ exact Hx | congruence ]. } }
    rewrite Hq. reflexivity.
Qed.

(** The parameter that the returned object holds for an attribute of an
    edge. *)
Lemma decoded_param g ct c u v a i b j kd conn k (a' : attrs) name val :
  edges_well_labelled g = true ->
  graph_to_conn g ct = inr c ->
  In (u, v) (edges g) ->
  edge_end u = Some (a, i) -> edge_end v = Some (b, j) ->
  getitem2 g u v = inr kd ->
  In (conn, k) (enumerate (dict_keys kd)) ->
  dict_get k kd = Some a' ->
  dict_get name a' = Some val ->
  coerced name val (value_at c (a, b, conn, name) i j).
Proof.
  intros Hw Hret He Hu Hv Hkd Hk Ha Hval.
  apply graph_to_conn_returns in Hret as (z & _ & Hpop).
  assert (Hname : In name (dict_keys a')) by (apply dict_get_In; congruence).
  apply (populate_param g ct
           (fun c => coerced name val (value_at c (a, b, conn, name) i j)))
    with (c0 := allocate ct z) (u := u) (v := v) (a := a) (i := i)
         (b := b) (j := j) (kd := kd) (conn := conn) (k := k) (a' := a')
         (name := name);
    try assumption.
  2:{ intros c1 c2 val0 x Hval0 Hco Hwrite.
      rewrite (write_here _ _ _ _ _ _ _ _ _ _ Hwrite). congruence. }
  intros c1 c2 a0 i0 b0 j0 conn0 name0 x Hwr Hwrite Hq.
  rewrite (write_value _ _ _ _ _ _ _ _ _ _ Hwrite).
  destruct (eq_dec (a, b, conn, name) (a0, b0, conn0, name0)) as [ E | ];
    [ | exact Hq ].
  destruct (Z.eqb_spec i i0) as [ <- | ]; [ | exact Hq ].
  destruct (Z.eqb_spec j j0) as [ <- | ]; [ | exact Hq ].
  injection E as <- <- <- <-. simpl.
  destruct (written_same_edge g u v a i b j kd conn name x Hw He Hu Hv Hkd Hwr)
    as [ (Hn & _) | (_ & k0 & a0 & val0 & Hk0 & Ha0 & Hval0 & Hco) ].
  - exfalso. eapply well_labelled_attr; eauto.
  - rewrite (enumerate_functional _ _ _ _ Hk0 Hk) in Ha0.
    congruence.
Qed.

Lemma mapM_inr {A B} (f : A -> result B) xs ys :
  mapM f xs = inr ys -> Forall2 (fun x y => f x = inr y) xs ys.
Proof.
  revert ys; induction xs as [ | x xs IH ]; simpl; intros ys H.
  - injection H as <-. constructor.
  - destruct (f x) as [ e | y ] eqn:Hx; simpl in H; [ discriminate | ].
    destruct (mapM f xs) as [ e | ys' ]; simpl in H; [ discriminate | ].
    injection H as <-. constructor; [ exact Hx | apply IH; reflexivity ].
Qed.

Lemma mapM_ext {A B} (f f' : A -> result B) xs :
  (forall x, f x = f' x) -> mapM f xs = mapM f' xs.
Proof.
  intros H. induction xs as [ | x xs IH ]; simpl; [ reflexivity | ].
  rewrite H, IH. reflexivity.
Qed.

Lemma fold_max_spec xs : forall x,
  (In (fold_left Z.max xs x) (x :: xs))
  /\ forall y, In y (x :: xs) -> (y <= fold_left Z.max xs x)%Z.
Proof.
  induction xs as [ | w xs IH ]; intros x; simpl.
  - split; [ left; reflexivity | ]. intros y Hy. destruct Hy as [ Hy | [] ]. lia.
  - destruct (IH (Z.max x w)) as [Hin Hle]. split.
    + destruct Hin as [ Hin | Hin ]; [ | right; right; exact Hin ].
      rewrite <- Hin. destruct (Z.max_spec x w) as [ [_ ->] | [_ ->] ]; auto.
    + intros y Hy. pose proof (Hle (Z.max x w) (or_introl eq_refl)) as H0.
      destruct Hy as [ Hy | [ Hy | Hy ] ]; [ lia | lia | ].
      apply Hle. right. exact Hy.
Qed.

Lemma py_max_inr xs m :
  py_max xs = inr m -> In m xs /\ forall y, In y xs -> (y <= m)%Z.
Proof.
  destruct xs as [ | x xs ]; simpl; [ discriminate | ].
  intros H. injection H as <-. apply fold_max_spec.
Qed.

(** The length of every list of parallel edges, as line 212 collects them. *)
Definition multiplicity (g : MultiDiGraph) (uv : string * string) : result Z :=
  kd <- getitem2 g (fst uv) (snd uv) ;; ret (Z.of_nat (length kd)).

(** What lines 156-212 have found when they do not raise. *)
Lemma validate_inr g ct z :
  validate g ct = inr z ->
  nx_is_bipartite g = true
  /\ exists sa sb lens,
       foreach (nodes g) add_label [] = inr [(s_A_id z, sa); (s_B_id z, sb)]
       /\ not_consecutive sa = inr false /\ not_consecutive sb = inr false
       /\ s_N_A z = length sa /\ s_N_B z = length sb
       /\ match ct with
          | core_Connectivity =>
              exists ag asp bg bsp,
                count_types g (s_A_id z) sa = inr (ag, asp)
                /\ count_types g (s_B_id z) sb = inr (bg, bsp)
                /\ s_gpot_spike z = Some (ag, asp, bg, bsp)
          | base_BaseConnectivity => s_gpot_spike z = None
          end
       /\ mapM (multiplicity g) (set_of (edges g)) = inr lens
       /\ py_max lens = inr (s_N_mult z).
Proof.
  unfold validate.
  destruct (nx_is_bipartite g); simpl; [ | discriminate ].
  destruct (foreach (nodes g) add_label []) as [ e | nd ]; simpl; [ discriminate | ].
  destruct nd as [ | [a sa] [ | [b sb] [ | ? ? ] ] ]; try discriminate.
  destruct (not_consecutive sa) as [ e | [ | ] ] eqn:Ha; simpl; try discriminate.
  destruct (not_consecutive sb) as [ e | [ | ] ] eqn:Hb; simpl; try discriminate.
  assert (Hm : mapM (fun '(u, v) => kd <- getitem2 g u v ;; ret (Z.of_nat (length kd)))
                 (set_of (edges g))
               = mapM (multiplicity g) (set_of (edges g))).
  { apply mapM_ext. intros [u v]. reflexivity. }
  rewrite Hm. clear Hm.
  destruct (mapM (multiplicity g) (set_of (edges g))) as [ e | lens ] eqn:Hl.
  - destruct ct; simpl; [ discriminate | ].
    destruct (count_types g a sa) as [ e' | [ag asp] ]; simpl; [ discriminate | ].
    destruct (count_types g b sb) as [ e' | [bg bsp] ]; simpl; discriminate.
  - destruct ct; simpl.
    + intros H.
      destruct (py_max lens) as [ e | m ] eqn:Hmax; simpl in H; [ discriminate | ].
      injection H as <-. simpl. split; [ reflexivity | ].
      exists sa, sb, lens. repeat split; auto.
    + destruct (count_types g a sa) as [ e | [ag asp] ] eqn:Hca; simpl;
        [ discriminate | ].
      destruct (count_types g b sb) as [ e | [bg bsp] ] eqn:Hcb; simpl;
        [ discriminate | ].
      intros H.
      destruct (py_max lens) as [ e | m ] eqn:Hmax; simpl in H; [ discriminate | ].
      injection H as <-. simpl. split; [ reflexivity | ].
      exists sa, sb, lens. repeat split; auto.
      exists ag, asp, bg, bsp. auto.
Qed.

Lemma allocate_fields ct z :
  A_id (allocate ct z) = s_A_id z /\ B_id (allocate ct z) = s_B_id z
  /\ N_mult (allocate ct z) = Z.to_nat (s_N_mult z)
  /\ match ct, s_gpot_spike z with
     | core_Connectivity, Some (ag, asp, bg, bsp) =>
         N_A (allocate ct z) = ag + asp /\ N_B (allocate ct z) = bg + bsp
     | _, _ => N_A (allocate ct z) = s_N_A z /\ N_B (allocate ct z) = s_N_B z
     end.
Proof.
  unfold allocate.
  destruct ct, (s_gpot_spike z) as [ [ [ [ag asp] bg] bsp] | ]; simpl; auto.
Qed.

(** The loop of lines 222-250 leaves the ids, the sizes and the type data
    of the object as they were created. *)
Lemma populate_fields g ct c0 c :
  populate g ct c0 = inr c ->
  A_id c = A_id c0 /\ B_id c = B_id c0 /\ N_A c = N_A c0 /\ N_B c = N_B c0
  /\ types c = types c0.
Proof.
  intros Hpop.
  apply (populate_keeps g ct
           (fun c => A_id c = A_id c0 /\ B_id c = B_id c0 /\ N_A c = N_A c0
                     /\ N_B c = N_B c0 /\ types c = types c0)) with (c0 := c0);
    [ | exact Hpop | repeat split ].
  intros c1 c2 a i b j conn name v _ Hw (H1 & H2 & H3 & H4 & H5).
  destruct (write_fields _ _ _ _ _ _ _ _ _ _ Hw) as (E1 & E2 & E3 & E4 & E5 & _).
  repeat split; congruence.
Qed.

Lemma Forall2_In_l {A B} (R : A -> B -> Prop) xs ys x :
  Forall2 R xs ys -> In x xs -> exists y, In y ys /\ R x y.
Proof.
  induction 1 as [ | x' y' xs ys Hxy _ IH ]; intros Hin; [ contradiction | ].
  destruct Hin as [ -> | Hin ].
  - exists y'. split; [ left; reflexivity | exact Hxy ].
  - destruct (IH Hin) as (y & Hy & Hr). exists y. split; [ right | ]; assumption.
Qed.

Lemma Forall2_In_r {A B} (R : A -> B -> Prop) xs ys y :
  Forall2 R xs ys -> In y ys -> exists x, In x xs /\ R x y.
Proof.
  induction 1 as [ | x' y' xs ys Hxy _ IH ]; intros Hin; [ contradiction | ].
  destruct Hin as [ -> | Hin ].
  - exists x'. split; [ left; reflexivity | exact Hxy ].
  - destruct (IH Hin) as (x & Hx & Hr). exists x. split; [ right | ]; assumption.
Qed.

Lemma multiplicity_inr g u v m :
  multiplicity g (u, v) = inr m <->
  exists kd, getitem2 g u v = inr kd /\ m = Z.of_nat (length kd).
Proof.
  unfold multiplicity. simpl. split.
  - destruct (getitem2 g u v) as [ e | kd ]; simpl; [ discriminate | ].
    intros H. injection H as <-. exists kd. auto.
  - intros (kd & -> & ->). reflexivity.
Qed.

(** X4. The [N_mult] of the returned object is the largest number of
    parallel edges that the graph has between two nodes: no pair of nodes
    has more, and one pair has exactly as many. *)
Theorem N_mult_is_largest_multiplicity (g : MultiDiGraph) (ct : conn_type)
  (c : Connectivity) :
  graph_to_conn g ct = inr c ->
  (forall u v kd, In (u, v) (edges g) -> getitem2 g u v = inr kd ->
     length kd <= N_mult c)
  /\ exists u v kd, In (u, v) (edges g) /\ getitem2 g u v = inr kd
                    /\ length kd = N_mult c.
Proof.
  intros Hrun.
  destruct (graph_to_conn_returns g ct c Hrun) as (z & Hval & Hpop).
  destruct (validate_inr g ct z Hval)
    as (_ & sa & sb & lens & _ & _ & _ & _ & _ & _ & Hl & Hmax).
  apply mapM_inr in Hl. apply py_max_inr in Hmax. destruct Hmax as [Hin Hle].
  assert (Hbound : forall u v kd, In (u, v) (edges g) -> getitem2 g u v = inr kd ->
            length kd <= Z.to_nat (s_N_mult z)).
  { intros u v kd Huv Hkd.
    destruct (Forall2_In_l _ _ _ (u, v) Hl) as (y & Hy & Hm).
    { apply set_of_In. exact Huv. }
    apply multiplicity_inr in Hm. destruct Hm as (kd' & Hkd' & ->).
    rewrite Hkd in Hkd'. injection Hkd' as <-.
    specialize (Hle _ Hy). lia. }
  assert (HN : N_mult c = Z.to_nat (s_N_mult z)).
  { apply (populate_keeps g ct (fun c => N_mult c = Z.to_nat (s_N_mult z)))
      with (c0 := allocate ct z); [ | exact Hpop | apply allocate_fields ].
    intros c1 c2 a i b j conn name v Hw Hwr IH.
    destruct (write_fields _ _ _ _ _ _ _ _ _ _ Hwr) as (_ & _ & _ & _ & _ & E & _).
    destruct (written_edge g a i b j conn name v Hw)
      as (u & w & kd & Huw & _ & _ & Hkd & Hc).
    specialize (Hbound u w kd Huw Hkd). rewrite E, IH. lia. }
  rewrite HN. split; [ exact Hbound | ].
  destruct (Forall2_In_r _ _ _ _ Hl Hin) as ([u v] & Huv & Hm).
  apply multiplicity_inr in Hm. destruct Hm as (kd & Hkd & E).
  exists u, v, kd. split; [ apply set_of_In; exact Huv | ].
  split; [ exact Hkd | ]. rewrite E. lia.
Qed.

Lemma add_label_inr l nd nd' : add_label l nd = inr nd' -> parses l.
Proof.
  intros H Hp. rewrite (add_label_refuses l nd Hp) in H. discriminate.
Qed.

Lemma labels_parse ls : forall nd0 nd,
  foreach ls add_label nd0 = inr nd -> Forall parses ls.
Proof.
  induction ls as [ | l ls IH ]; intros nd0 nd H; [ constructor | ].
  simpl in H. destruct (add_label l nd0) as [ e | nd1 ] eqn:Hl; simpl in H;
    [ discriminate | ].
  constructor; [ eapply add_label_inr; eauto | eapply IH; eauto ].
Qed.

Lemma set_add_NoDup (x : Z) (s : list Z) : NoDup s -> NoDup (set_add x s).
Proof.
  intros Hs. unfold set_add. destruct (mem x s) eqn:E; [ exact Hs | ].
  assert (Hx : ~ In x s).
  { intros Hin. apply mem_In in Hin. congruence. }
  clear E. induction s as [ | y s IH ]; simpl.
  - constructor; [ intros [] | constructor ].
  - inversion Hs; subst. constructor.
    + rewrite in_app_iff. intros [ H | [ H | [] ] ]; [ contradiction | ].
      apply Hx. left. symmetry. exact H.
    + apply IH; [ assumption | ]. intros H. apply Hx. right. exact H.
Qed.

(** The sets of line 174 hold every index once. *)
Lemma node_dict_sets ls nd0 nd :
  foreach ls add_label nd0 = inr nd ->
  (forall p s, dict_get p nd0 = Some s -> NoDup s) ->
  forall p s, dict_get p nd = Some s -> NoDup s.
Proof.
  intros Hrun H0.
  apply (foreach_stable (fun nd => forall p s, dict_get p nd = Some s -> NoDup s)
           ls add_label nd0 nd Hrun); [ | exact H0 ].
  intros l nd1 nd2 _ Hl IH p s.
  pose proof (add_label_inr l nd1 nd2 Hl) as Hp. unfold parses in Hp.
  destruct (parse_label l) as [ [id z] | ] eqn:Hpl; [ | contradiction ].
  rewrite (add_label_parses l id z nd1 Hpl) in Hl. injection Hl as <-.
  rewrite dict_get_set. destruct (eq_dec p id) as [ -> | Hne ]; [ | apply IH ].
  intros E. injection E as <-. apply set_add_NoDup.
  unfold members. destruct (dict_get id nd1) as [ s | ] eqn:Hs;
    [ eapply IH; eauto | constructor ].
Qed.

Lemma count_types_sum g id s ag asp :
  count_types g id s = inr (ag, asp) -> ag + asp = length s.
Proof.
  unfold count_types. rewrite <- (hash_order_length s).
  generalize (hash_order s). clear s. intros s.
  assert (H : forall acc r,
    foreach s (fun n '(n_gpot, n_spike) =>
      a <- of_option (dict_get (label id n) (node g)) (KeyError (label id n)) ;;
      t <- of_option (dict_get "neuron_type" a) (KeyError "neuron_type") ;;
      if py_eqb_str t "gpot" then ret (S n_gpot, n_spike)
      else if py_eqb_str t "spike" then ret (n_gpot, S n_spike)
      else raise (ValueError "invalid neuron type")) acc = inr r ->
    fst r + snd r = fst acc + snd acc + length s).
  { induction s as [ | n s IH ]; intros [g0 s0] r; simpl.
    - intros E. injection E as <-. simpl. lia.
    - destruct (dict_get (label id n) (node g)) as [ a | ]; simpl; [ | discriminate ].
      destruct (dict_get "neuron_type" a) as [ t | ]; simpl; [ | discriminate ].
      destruct (py_eqb_str t "gpot"); simpl.
      + intros E. apply IH in E. simpl in E. lia.
      + destruct (py_eqb_str t "spike"); simpl; [ | discriminate ].
        intros E. apply IH in E. simpl in E. lia. }
  intros E. apply H in E. simpl in E. exact E.
Qed.

Lemma consecutive_length (s : list Z) :
  NoDup s -> not_consecutive s = inr false ->
  forall k, In k s <-> (0 <= k < Z.of_nat (length s))%Z.
Proof.
  intros Hnd Hc.
  assert (Hne : s <> []).
  { intros ->. discriminate. }
  destruct (not_consecutive_spec s Hne) as (b & Hb & Hcons).
  rewrite Hc in Hb. injection Hb as <-.
  destruct (Hcons eq_refl) as (n & Hn).
  apply filled_from_zero; [ exact Hnd | | ].
  - intros x Hx. apply Hn in Hx. lia.
  - intros x Hx Hx0. apply Hn. apply Hn in Hx. lia.
Qed.

(** The ids and the sizes of the returned object. *)
Lemma decoded_sizes (g : MultiDiGraph) (ct : conn_type) (c : Connectivity) :
  graph_to_conn g ct = inr c ->
  A_id c <> B_id c
  /\ (forall p, In p (label_prefixes g) <-> p = A_id c \/ p = B_id c)
  /\ (forall k, In k (indices g (A_id c)) <-> (0 <= k < Z.of_nat (N_A c))%Z)
  /\ (forall k, In k (indices g (B_id c)) <-> (0 <= k < Z.of_nat (N_B c))%Z).
Proof.
  intros Hrun.
  destruct (graph_to_conn_returns g ct c Hrun) as (z & Hval & Hpop).
  destruct (validate_inr g ct z Hval)
    as (_ & sa & sb & lens & Hnd & Hca & Hcb & HNA & HNB & Hct & _ & _).
  destruct (populate_fields g ct _ c Hpop) as (EA & EB & ENA & ENB & _).
  destruct (allocate_fields ct z) as (FA & FB & _ & FN).
  rewrite EA, EB, ENA, ENB, FA, FB.
  set (a := s_A_id z) in *. set (b := s_B_id z) in *.
  pose proof (labels_parse _ _ _ Hnd) as Hparse.
  destruct (node_dict_built (nodes g) Hparse) as (nd & Hnd' & Hof).
  rewrite Hnd in Hnd'. injection Hnd' as <-.
  destruct Hof as [Hnodup Hkeys Hmem].
  assert (Hab : a <> b).
  { simpl in Hnodup. inversion Hnodup as [ | ? ? Hnin _ ]; subst.
    intros E. apply Hnin. left. symmetry. exact E. }
  assert (Hsa : forall k, In k sa <-> In k (indices g a)).
  { intros k. rewrite <- (Hmem a k). unfold members. simpl.
    destruct (eq_dec a a); [ reflexivity | contradiction ]. }
  assert (Hsb : forall k, In k sb <-> In k (indices g b)).
  { intros k. rewrite <- (Hmem b k). unfold members. simpl.
    destruct (eq_dec b a) as [ E | _ ]; [ symmetry in E; contradiction | ].
    destruct (eq_dec b b); [ reflexivity | contradiction ]. }
  assert (Hsets : forall p s, dict_get p [(a, sa); (b, sb)] = Some s -> NoDup s).
  { apply (node_dict_sets (nodes g) [] _ Hnd). intros p s H. discriminate. }
  assert (Hna : NoDup sa).
  { apply (Hsets a). simpl. destruct (eq_dec a a); [ reflexivity | contradiction ]. }
  assert (Hnb : NoDup sb).
  { apply (Hsets b). simpl.
    destruct (eq_dec b a) as [ E | _ ]; [ symmetry in E; contradiction | ].
    destruct (eq_dec b b); [ reflexivity | contradiction ]. }
  assert (HA : N_A (allocate ct z) = length sa /\ N_B (allocate ct z) = length sb).
  { clear FN. unfold allocate. destruct ct.
    - simpl. split; congruence.
    - destruct Hct as (ag & asp & bg & bsp & H1 & H2 & H3). rewrite H3.
      apply count_types_sum in H1, H2. simpl. split; congruence. }
  destruct HA as [-> ->].
  split; [ exact Hab | ]. split; [ | split ].
  - intros p. unfold label_prefixes. rewrite <- Hkeys. simpl.
    split; [ intros [ <- | [ <- | [] ] ]; auto | intros [ -> | -> ]; auto ].
  - intros k. rewrite <- Hsa. apply consecutive_length; assumption.
  - intros k. rewrite <- Hsb. apply consecutive_length; assumption.
Qed.

Lemma xrange_length n : length (xrange n) = n.
Proof. unfold xrange. rewrite length_map, length_seq. reflexivity. Qed.

(** Indices that are 0, ..., n-1, each written once or more often, are [n]
    different indices. *)
Lemma distinct_in_range (l : list Z) (n : nat) :
  (forall k, In k l <-> (0 <= k < Z.of_nat n)%Z) ->
  n = length (nodup Z.eq_dec l).
Proof.
  intros H. rewrite <- (xrange_length n) at 1. symmetry.
  apply Permutation_length, NoDup_Permutation;
    [ apply NoDup_nodup | apply xrange_NoDup | ].
  intros k. rewrite nodup_In, H, xrange_In. reflexivity.
Qed.

(** X5. The returned object has the two population ids that the node
    labels show. The size of each population is the number of different
    indices [int(n)] that the labels of this population show (line 181 takes
    the size of the set of line 175: two labels of one index, as A:0 and
    A:00, count once), and these indices are 0, ..., size-1. *)
Theorem sizes_count_the_indices (g : MultiDiGraph) (ct : conn_type)
  (c : Connectivity) :
  graph_to_conn g ct = inr c ->
  A_id c <> B_id c
  /\ (forall p, In p (label_prefixes g) <-> p = A_id c \/ p = B_id c)
  /\ (forall k, In k (indices g (A_id c)) <-> (0 <= k < Z.of_nat (N_A c))%Z)
  /\ (forall k, In k (indices g (B_id c)) <-> (0 <= k < Z.of_nat (N_B c))%Z)
  /\ N_A c = length (nodup Z.eq_dec (indices g (A_id c)))
  /\ N_B c = length (nodup Z.eq_dec (indices g (B_id c))).
Proof.
  intros Hrun.
  destruct (decoded_sizes g ct c Hrun) as (Hab & Hp & HA & HB).
  split; [ exact Hab | ]. split; [ exact Hp | ].
  split; [ exact HA | ]. split; [ exact HB | ].
  split; apply distinct_in_range; assumption.
Qed.

(** The node that lines 197-199 look up for the index [n] of the population
    [id], the one labelled [id + ':' + str(n)], carries the [neuron_type]
    [ty]. *)
Definition typed_as (g : MultiDiGraph) (id ty : string) (n : Z) : bool :=
  match node_attr g (label id n) "neuron_type" with
  | Some t => py_eqb_str t ty
  | None => false
  end.

Lemma filter_length_perm {A} (p : A -> bool) (l l' : list A) :
  Permutation l l' -> length (filter p l) = length (filter p l').
Proof.
  induction 1 as [ | x l l' _ IH | x y l | l l' l'' _ IH1 _ IH2 ]; simpl.
  - reflexivity.
  - destruct (p x); simpl; congruence.
  - destruct (p x), (p y); reflexivity.
  - congruence.
Qed.

Lemma count_types_counts g id s ag asp :
  count_types g id s = inr (ag, asp) ->
  ag = length (filter (typed_as g id "gpot") s)
  /\ asp = length (filter (typed_as g id "spike") s).
Proof.
  unfold count_types.
  rewrite <- (filter_length_perm (typed_as g id "gpot") _ _ (hash_order_perm s)).
  rewrite <- (filter_length_perm (typed_as g id "spike") _ _ (hash_order_perm s)).
  generalize (hash_order s). clear s. intros s.
  assert (H : forall acc r,
    foreach s (fun n '(n_gpot, n_spike) =>
      a <- of_option (dict_get (label id n) (node g)) (KeyError (label id n)) ;;
      t <- of_option (dict_get "neuron_type" a) (KeyError "neuron_type") ;;
      if py_eqb_str t "gpot" then ret (S n_gpot, n_spike)
      else if py_eqb_str t "spike" then ret (n_gpot, S n_spike)
      else raise (ValueError "invalid neuron type")) acc = inr r ->
    fst r = fst acc + length (filter (typed_as g id "gpot") s)
    /\ snd r = snd acc + length (filter (typed_as g id "spike") s)).
  { induction s as [ | n s IH ]; intros [g0 s0] r; simpl.
    - intros E. injection E as <-. simpl. lia.
    - assert (T : forall ty, typed_as g id ty n =
                match dict_get (label id n) (node g) with
                | Some a => match dict_get "neuron_type" a with
                            | Some t => py_eqb_str t ty
                            | None => false
                            end
                | None => false
                end).
      { intros ty. unfold typed_as, node_attr.
        destruct (dict_get (label id n) (node g)); reflexivity. }
      rewrite !T. clear T.
      destruct (dict_get (label id n) (node g)) as [ a | ]; simpl; [ | discriminate ].
      destruct (dict_get "neuron_type" a) as [ t | ]; simpl; [ | discriminate ].
      destruct (py_eqb_str t "gpot") eqn:Hg; simpl.
      + assert (Hs : py_eqb_str t "spike" = false).
        { destruct t as [ | | t ]; try reflexivity. simpl in *.
          apply String.eqb_eq in Hg. subst t. reflexivity. }
        rewrite Hs. intros E. apply IH in E. simpl in E. simpl. lia.
      + destruct (py_eqb_str t "spike"); simpl; [ | discriminate ].
        intros E. apply IH in E. simpl in E. lia. }
  intros E. apply H in E. simpl in E. exact E.
Qed.

Lemma count_over_range (p : Z -> bool) (s : list Z) :
  NoDup s -> (forall k, In k s <-> (0 <= k < Z.of_nat (length s))%Z) ->
  length (filter p s) = length (filter p (xrange (length s))).
Proof.
  intros Hnd Hs. apply filter_length_perm.
  apply NoDup_Permutation; [ exact Hnd | apply xrange_NoDup | ].
  intros k. rewrite Hs, xrange_In. reflexivity.
Qed.

(** X6. With [conn_type = core.Connectivity] the returned object counts,
    for each population [id] of size [N], as many graded-potential units as
    there are indices [n] below [N] for which the node labelled
    [id + ':' + str(n)] has the [neuron_type] 'gpot', and as many spiking
    units as there are indices for which that node has the [neuron_type]
    'spike'; the two counts add up to [N]. The attributes are read at the
    label that lines 197-206 build from the index: a node whose label is
    written otherwise, as A:00, is not read. *)
Theorem typed_counts (g : MultiDiGraph) (c : Connectivity) :
  graph_to_conn g core_Connectivity = inr c ->
  exists t, types c = Some t
    /\ N_A_gpot t = length (filter (typed_as g (A_id c) "gpot") (xrange (N_A c)))
    /\ N_A_spike t = length (filter (typed_as g (A_id c) "spike") (xrange (N_A c)))
    /\ N_B_gpot t = length (filter (typed_as g (B_id c) "gpot") (xrange (N_B c)))
    /\ N_B_spike t = length (filter (typed_as g (B_id c) "spike") (xrange (N_B c)))
    /\ N_A c = N_A_gpot t + N_A_spike t
    /\ N_B c = N_B_gpot t + N_B_spike t.
Proof.
  intros Hrun.
  destruct (graph_to_conn_returns g _ c Hrun) as (z & Hval & Hpop).
  destruct (validate_inr g _ z Hval)
    as (_ & sa & sb & lens & Hnd & Hca & Hcb & _ & _ & Hct & _ & _).
  destruct Hct as (ag & asp & bg & bsp & H1 & H2 & H3).
  destruct (populate_fields g _ _ c Hpop) as (EA & EB & ENA & ENB & ET).
  assert (Hsets : forall p s, dict_get p [(s_A_id z, sa); (s_B_id z, sb)] = Some s
                              -> NoDup s).
  { apply (node_dict_sets (nodes g) [] _ Hnd). intros p s H. discriminate. }
  assert (Hna : NoDup sa).
  { apply (Hsets (s_A_id z)). simpl.
    destruct (eq_dec (s_A_id z) (s_A_id z)); [ reflexivity | contradiction ]. }
  assert (Hnb : NoDup sb).
  { pose proof (labels_parse _ _ _ Hnd) as Hparse.
    destruct (node_dict_built (nodes g) Hparse) as (nd & Hnd' & Hof).
    rewrite Hnd in Hnd'. injection Hnd' as <-. destruct Hof as [Hnodup _ _].
    apply (Hsets (s_B_id z)). simpl.
    destruct (eq_dec (s_B_id z) (s_A_id z)) as [ E | _ ].
    - simpl in Hnodup. inversion Hnodup as [ | ? ? Hnin _ ]; subst.
      exfalso. apply Hnin. left. exact E.
    - destruct (eq_dec (s_B_id z) (s_B_id z)); [ reflexivity | contradiction ]. }
  pose proof (count_types_sum _ _ _ _ _ H1) as S1.
  pose proof (count_types_sum _ _ _ _ _ H2) as S2.
  apply count_types_counts in H1, H2. destruct H1 as [G1 G2], H2 as [G3 G4].
  rewrite (count_over_range _ sa Hna (consecutive_length sa Hna Hca)) in G1.
  rewrite (count_over_range _ sa Hna (consecutive_length sa Hna Hca)) in G2.
  rewrite (count_over_range _ sb Hnb (consecutive_length sb Hnb Hcb)) in G3.
  rewrite (count_over_range _ sb Hnb (consecutive_length sb Hnb Hcb)) in G4.
  unfold allocate in *. rewrite H3 in *. simpl in *.
  eexists. split; [ exact ET | ]. simpl.
  rewrite EA, EB, ENA, ENB, S1, S2. auto 10.
Qed.

End Decoded.

(* ===================================================================== *)
(** ** Graphs whose dictionaries hold every key once *)

Section Tidy.
Context {F : PyFloatOps}.
Implicit Types (g : MultiDiGraph) (u v : string).

(** Every node has one entry in [g.adj], every successor of a node one
    entry in the dictionary of that node, and every parallel edge one entry
    under its key, as in Python dictionaries. *)
Definition tidy g : Prop :=
  NoDup (dict_keys (adj g))
  /\ forall u (nbrs : dict string (dict Z attrs)),
       In (u, nbrs) (adj g) ->
       NoDup (dict_keys nbrs)
       /\ forall v (kd : dict Z attrs), In (v, kd) nbrs -> NoDup (dict_keys kd).

Definition tidyb g : bool :=
  (nodupb (dict_keys (adj g))
   && forallb (fun '(_, nbrs) =>
        nodupb (dict_keys (nbrs : dict string (dict Z attrs)))
        && forallb (fun '(_, kd) => nodupb (dict_keys (kd : dict Z attrs))) nbrs)
        (adj g))%bool.

Lemma tidyb_tidy g : tidyb g = true -> tidy g.
Proof.
  unfold tidyb, tidy. rewrite andb_true_iff, forallb_forall. intros [H1 H2].
  split; [ apply nodupb_NoDup; exact H1 | ].
  intros u nbrs Hin. specialize (H2 _ Hin). simpl in H2.
  apply andb_true_iff in H2. destruct H2 as [H2 H3].
  split; [ apply nodupb_NoDup; exact H2 | ].
  intros v kd Hv. rewrite forallb_forall in H3. apply nodupb_NoDup.
  exact (H3 _ Hv).
Qed.

Lemma dict_set_In {K V} `{EqDec K} (k k' : K) (v v' : V) (d : dict K V) :
  In (k', v') (dict_set k v d) -> (k', v') = (k, v) \/ In (k', v') d.
Proof.
  induction d as [ | [k0 v0] d IH ]; simpl.
  - intros [ E | [] ]. left. symmetry. exact E.
  - destruct (eq_dec k k0) as [ -> | Hne ]; simpl.
    + intros [ E | Hin ]; [ left; symmetry; exact E | right; right; exact Hin ].
    + intros [ E | Hin ]; [ right; left; exact E | ].
      destruct (IH Hin) as [ E | Hin' ]; [ left; exact E | right; right; exact Hin' ].
Qed.

Lemma dict_get_NoDup {K V} `{EqDec K} (k : K) (v : V) (d : dict K V) :
  NoDup (dict_keys d) -> In (k, v) d -> dict_get k d = Some v.
Proof.
  induction d as [ | [k0 v0] d IH ]; simpl; [ intros _ [] | ].
  intros Hnd Hin. inversion Hnd as [ | ? ? Hnin Hnd' ]; subst.
  destruct Hin as [ E | Hin ].
  - injection E as -> ->. destruct (eq_dec k k); [ reflexivity | contradiction ].
  - destruct (eq_dec k k0) as [ -> | Hne ]; [ | apply IH; assumption ].
    exfalso. apply Hnin. unfold dict_keys.
    change k0 with (fst (k0, v)). apply in_map. exact Hin.
Qed.

Lemma empty_graph_tidy : tidy empty_graph.
Proof. split; [ constructor | intros u nbrs [] ]. Qed.

Lemma add_node_tidy g n : tidy g -> tidy (add_node g n).
Proof.
  intros [H1 H2]. unfold add_node. destruct (dict_has n (adj g)); [ split; assumption | ].
  split; simpl.
  - apply dict_keys_set_NoDup. exact H1.
  - intros u nbrs Hin. apply dict_set_In in Hin. destruct Hin as [ E | Hin ].
    + injection E as _ ->. split; [ constructor | intros v kd [] ].
    + eapply H2; eauto.
Qed.

Lemma add_nodes_from_tidy ns : forall g, tidy g -> tidy (add_nodes_from g ns).
Proof.
  unfold add_nodes_from. induction ns as [ | n ns IH ]; intros g Hg; simpl;
    [ exact Hg | ].
  apply IH. apply add_node_tidy. exact Hg.
Qed.

Lemma tidy_get g u (nbrs : dict string (dict Z attrs)) :
  tidy g -> dict_get u (adj g) = Some nbrs ->
  NoDup (dict_keys nbrs)
  /\ forall v (kd : dict Z attrs), dict_get v nbrs = Some kd -> NoDup (dict_keys kd).
Proof.
  intros [_ H2] Hget. apply dict_get_Some_In in Hget.
  destruct (H2 u nbrs Hget) as [H3 H4]. split; [ exact H3 | ].
  intros v kd Hv. apply (H4 v). apply dict_get_Some_In. exact Hv.
Qed.

Lemma tidy_keydict g u v (kd : dict Z attrs) :
  tidy g -> keydict g u v = Some kd -> NoDup (dict_keys kd).
Proof.
  intros Hg. unfold keydict.
  destruct (dict_get u (adj g)) as [ nbrs | ] eqn:Hu; [ | discriminate ].
  intros Hv. destruct (tidy_get g u nbrs Hg Hu) as [_ H]. exact (H v kd Hv).
Qed.

Lemma tidy_put g u v (kd : dict Z attrs) :
  tidy g -> NoDup (dict_keys kd) ->
  tidy {| node := node g;
          adj := dict_set u
                   (dict_set v kd
                      match dict_get u (adj g) with Some n => n | None => [] end)
                   (adj g) |}.
Proof.
  intros [H1 H2] Hkd. split; simpl.
  - apply dict_keys_set_NoDup. exact H1.
  - intros w nbrs Hin. apply dict_set_In in Hin. destruct Hin as [ E | Hin ];
      [ | eapply H2; eauto ].
    injection E as _ ->.
    assert (Hn : NoDup (dict_keys
                   match dict_get u (adj g) with Some n => n | None => [] end)
                 /\ forall v' (kd' : dict Z attrs),
                      In (v', kd')
                        match dict_get u (adj g) with Some n => n | None => [] end ->
                      NoDup (dict_keys kd')).
    { destruct (dict_get u (adj g)) as [ n | ] eqn:Hu.
      - apply (H2 u). apply dict_get_Some_In. exact Hu.
      - split; [ constructor | intros v' kd' [] ]. }
    destruct Hn as [Hn1 Hn2]. split; [ apply dict_keys_set_NoDup; exact Hn1 | ].
    intros v' kd' Hv'. apply dict_set_In in Hv'. destruct Hv' as [ E | Hv' ].
    + injection E as _ ->. exact Hkd.
    + eapply Hn2; eauto.
Qed.

Lemma add_edge_tidy g u v : tidy g -> tidy (add_edge g u v).
Proof.
  intros Hg. unfold add_edge.
  pose proof (add_node_tidy _ v (add_node_tidy _ u Hg)) as Hg'.
  set (g' := add_node (add_node g u) v) in *.
  apply (tidy_put g' u v _ Hg').
  destruct (dict_get u (adj g')) as [ n | ] eqn:Hu; simpl.
  - destruct (dict_get v n) as [ kd | ] eqn:Hv.
    + apply dict_keys_set_NoDup.
      destruct (tidy_get g' u n Hg' Hu) as [_ H]. exact (H v kd Hv).
    + repeat constructor. intros [].
  - repeat constructor. intros [].
Qed.

Lemma set_edge_attr_tidy g u v key name val g' :
  set_edge_attr g u v key name val = inr g' -> tidy g -> tidy g'.
Proof.
  unfold set_edge_attr. intros H Hg.
  destruct (dict_get u (adj g)) as [ nbrs | ] eqn:Hu; simpl in H; [ | discriminate ].
  destruct (dict_get v nbrs) as [ kd | ] eqn:Hv; simpl in H; [ | discriminate ].
  destruct (dict_get key kd) as [ a | ]; simpl in H; [ | discriminate ].
  injection H as <-.
  pose proof (tidy_put g u v (dict_set key (dict_set name val a) kd) Hg) as T.
  rewrite Hu in T. apply T. apply dict_keys_set_NoDup.
  destruct (tidy_get g u nbrs Hg Hu) as [_ H]. exact (H v kd Hv).
Qed.

Lemma set_node_attr_adj g n name val g' :
  set_node_attr g n name val = inr g' ->
  adj g' = adj g /\ nodes g' = nodes g.
Proof.
  unfold set_node_attr.
  destruct (dict_get n (node g)) as [ a | ] eqn:Hn; simpl; [ | discriminate ].
  intros H. injection H as <-. simpl. split; [ reflexivity | ].
  unfold nodes. simpl. rewrite dict_keys_set. unfold dict_has. rewrite Hn.
  reflexivity.
Qed.

Lemma tag_nodes_adj t id ty count g g' :
  tag_nodes t id ty count g = inr g' -> adj g' = adj g /\ nodes g' = nodes g.
Proof.
  unfold tag_nodes. intros H.
  apply (foreach_stable (fun g' => adj g' = adj g /\ nodes g' = nodes g) _ _ _ _ H);
    [ | split; reflexivity ].
  intros i g1 g2 _ Hstep [IH1 IH2].
  destruct (dict_get id (idx_translate t)) as [ tbl | ]; simpl in Hstep;
    [ | discriminate ].
  destruct (dict_get (ty, i) tbl) as [ n | ]; simpl in Hstep; [ | discriminate ].
  apply set_node_attr_adj in Hstep. destruct Hstep. split; congruence.
Qed.

(** Lines 88-102 touch neither the nodes nor the edges. *)
Lemma graph_types_adj c g g' :
  graph_types c g = inr g' -> adj g' = adj g /\ nodes g' = nodes g.
Proof.
  unfold graph_types. destruct (types c) as [ t | ].
  - intros H.
    destruct (tag_nodes t (A_id c) "gpot" (N_A_gpot t) g) as [ e | g1 ] eqn:H1;
      simpl in H; [ discriminate | ].
    destruct (tag_nodes t (B_id c) "gpot" (N_B_gpot t) g1) as [ e | g2 ] eqn:H2;
      simpl in H; [ discriminate | ].
    destruct (tag_nodes t (A_id c) "spike" (N_A_spike t) g2) as [ e | g3 ] eqn:H3;
      simpl in H; [ discriminate | ].
    apply tag_nodes_adj in H1, H2, H3, H.
    destruct H1, H2, H3, H. split; congruence.
  - intros H. injection H as <-. split; reflexivity.
Qed.

Lemma tidy_adj g g' : adj g' = adj g -> tidy g -> tidy g'.
Proof. unfold tidy. intros ->. auto. Qed.

Lemma add_edges_of_tidy c key g g' :
  add_edges_of c key g = inr g' -> tidy g -> tidy g'.
Proof.
  unfold add_edges_of. intros H.
  destruct (parse_key key) as [ e | [ [ [a b] conn] name] ]; simpl in H;
    [ discriminate | ].
  destruct (conn_N c a) as [ e | na ]; simpl in H; [ discriminate | ].
  destruct (conn_N c b) as [ e | nb ]; simpl in H; [ discriminate | ].
  apply (foreach_stable tidy _ _ _ _ H).
  intros [i j] g1 g2 _ Hstep Hg1.
  destruct (read c a i b j conn name) as [ e | w ]; simpl in Hstep; [ discriminate | ].
  destruct (py_eqb_int w 1); unfold ret in Hstep; injection Hstep as <-;
    [ apply add_edge_tidy | ]; exact Hg1.
Qed.

Lemma set_attrs_of_tidy c key g g' :
  set_attrs_of c key g = inr g' -> tidy g -> tidy g'.
Proof.
  unfold set_attrs_of. intros H.
  destruct (parse_key key) as [ e | [ [ [a b] conn] name] ]; simpl in H;
    [ discriminate | ].
  destruct (conn_N c a) as [ e | na ]; simpl in H; [ discriminate | ].
  destruct (conn_N c b) as [ e | nb ]; simpl in H; [ discriminate | ].
  apply (foreach_stable tidy _ _ _ _ H).
  intros [i j] g1 g2 _ Hstep Hg1.
  destruct (read c a i b j conn name) as [ e | w ]; simpl in Hstep; [ discriminate | ].
  destruct (truthy w); [ | unfold ret in Hstep; injection Hstep as <-; exact Hg1 ].
  eapply set_edge_attr_tidy; eauto.
Qed.

(** The graph that [conn_to_graph] returns holds every key once. *)
Lemma conn_to_graph_tidy c g : conn_to_graph c = inr g -> tidy g.
Proof.
  unfold conn_to_graph. intros H.
  destruct (graph_types c (graph_nodes c)) as [ e | g1 ] eqn:H1; simpl in H;
    [ discriminate | ].
  destruct (graph_edges c g1) as [ e | g2 ] eqn:H2; simpl in H; [ discriminate | ].
  assert (T1 : tidy g1).
  { apply graph_types_adj in H1. destruct H1 as [H1 _].
    apply (tidy_adj _ _ H1). unfold graph_nodes.
    apply add_nodes_from_tidy, add_nodes_from_tidy, empty_graph_tidy. }
  assert (T2 : tidy g2).
  { apply (foreach_stable tidy _ _ _ _ H2); [ | exact T1 ].
    intros k ga gb _. apply add_edges_of_tidy. }
  apply (foreach_stable tidy _ _ _ _ H); [ | exact T2 ].
  intros k ga gb _. apply set_attrs_of_tidy.
Qed.

(** In a tidy graph [g.edges()] lists the pairs that [g[u][v]] knows, each
    as often as it has parallel edges. *)
Lemma edges_In g u v :
  tidy g ->
  (In (u, v) (edges g) <-> exists kd, keydict g u v = Some kd /\ kd <> []).
Proof.
  intros [H1 H2]. unfold edges, keydict. rewrite in_flat_map. split.
  - intros ([u' nbrs] & Hin & Huv). rewrite in_flat_map in Huv.
    destruct Huv as ([v' kd] & Hin' & Hkd). rewrite in_map_iff in Hkd.
    destruct Hkd as (x & E & Hx). injection E as -> ->.
    rewrite (dict_get_NoDup u nbrs (adj g) H1 Hin).
    rewrite (dict_get_NoDup v kd nbrs (proj1 (H2 u nbrs Hin)) Hin').
    exists kd. split; [ reflexivity | ]. intros ->. contradiction.
  - intros (kd & Hget & Hne).
    destruct (dict_get u (adj g)) as [ nbrs | ] eqn:Hu; [ | discriminate ].
    exists (u, nbrs). split; [ apply dict_get_Some_In; exact Hu | ].
    rewrite in_flat_map. exists (v, kd).
    split; [ apply dict_get_Some_In; exact Hget | ].
    destruct kd as [ | x kd ]; [ contradiction | ]. left. reflexivity.
Qed.

Lemma edges_getitem2 g u v :
  tidy g -> In (u, v) (edges g) ->
  exists kd, getitem2 g u v = inr kd /\ keydict g u v = Some kd /\ kd <> [].
Proof.
  intros Hg Hin. apply (edges_In g u v Hg) in Hin. destruct Hin as (kd & Hk & Hne).
  exists kd. split; [ | split; assumption ].
  unfold keydict in Hk. unfold getitem2.
  destruct (dict_get u (adj g)) as [ nbrs | ]; [ | discriminate ].
  simpl. rewrite Hk. reflexivity.
Qed.

End Tidy.

(* ===================================================================== *)
(** ** [conn_to_graph]: the whole graph of a well-formed model *)

Section WholeGraph.
Context {F : PyFloatOps}.
Variable c : Connectivity.
Hypothesis wf : well_formed c = true.

Lemma labels_NoDup id n :
  no_char ":" id = true -> NoDup (map (label id) (xrange n)).
Proof.
  intros Hid. apply NoDup_map_inj_in; [ | apply xrange_NoDup ].
  intros x y _ _ E. apply (label_inj id x id y Hid Hid E).
Qed.

Lemma all_labels_NoDup : NoDup (all_labels c).
Proof.
  destruct (wf_ids c wf) as (Hab & HA & HB). unfold all_labels.
  apply NoDup_app; try (apply labels_NoDup; assumption).
  intros l Hl Hl'. apply in_map_iff in Hl, Hl'.
  destruct Hl as (i & <- & _), Hl' as (j & E & _).
  apply (label_inj _ _ _ _ HB HA) in E. destruct E as [E _]. congruence.
Qed.

Lemma add_nodes_from_nodes ns : forall g,
  dict_keys (node g) = dict_keys (adj g) ->
  NoDup (nodes g ++ ns) ->
  nodes (add_nodes_from g ns) = nodes g ++ ns.
Proof.
  unfold add_nodes_from. induction ns as [ | n ns IH ]; intros g Hk Hnd; simpl.
  - rewrite app_nil_r. reflexivity.
  - assert (Hn : ~ In n (nodes g)).
    { apply NoDup_remove_2 in Hnd. intros H. apply Hnd. apply in_or_app. left. exact H. }
    assert (Ha : dict_has n (adj g) = false).
    { destruct (dict_has n (adj g)) eqn:E; [ | reflexivity ].
      apply dict_has_In in E. rewrite <- Hk in E. contradiction. }
    assert (Hb : dict_has n (node g) = false).
    { destruct (dict_has n (node g)) eqn:E; [ | reflexivity ].
      apply dict_has_In in E. contradiction. }
    assert (E : nodes (add_node g n) = nodes g ++ [n]
                /\ dict_keys (node (add_node g n)) = dict_keys (adj (add_node g n))).
    { unfold add_node, nodes. rewrite Ha. simpl.
      rewrite !dict_keys_set, Ha, Hb, Hk. split; reflexivity. }
    destruct E as [E1 E2]. rewrite (IH _ E2); rewrite E1, <- app_assoc; [ reflexivity | ].
    exact Hnd.
Qed.

Lemma add_nodes_from_keys ns : forall g,
  dict_keys (node g) = dict_keys (adj g) ->
  NoDup (nodes g ++ ns) ->
  dict_keys (node (add_nodes_from g ns)) = dict_keys (adj (add_nodes_from g ns)).
Proof.
  unfold add_nodes_from. induction ns as [ | n ns IH ]; intros g Hk Hnd; simpl;
    [ exact Hk | ].
  assert (Hn : ~ In n (nodes g)).
  { apply NoDup_remove_2 in Hnd. intros H. apply Hnd. apply in_or_app. left. exact H. }
  assert (Ha : dict_has n (adj g) = false).
  { destruct (dict_has n (adj g)) eqn:E; [ | reflexivity ].
    apply dict_has_In in E. rewrite <- Hk in E. contradiction. }
  assert (Hb : dict_has n (node g) = false).
  { destruct (dict_has n (node g)) eqn:E; [ | reflexivity ].
    apply dict_has_In in E. contradiction. }
  apply IH.
  - unfold add_node. rewrite Ha. simpl. rewrite !dict_keys_set, Ha, Hb, Hk. reflexivity.
  - unfold add_node, nodes. rewrite Ha. simpl. rewrite dict_keys_set, Hb.
    rewrite <- app_assoc. exact Hnd.
Qed.

(** Lines 82-86 make the nodes [A:0 .. A:N_A-1] and then [B:0 .. B:N_B-1]. *)
Lemma graph_nodes_nodes : nodes (graph_nodes c) = all_labels c.
Proof.
  pose proof all_labels_NoDup as Hnd. unfold all_labels in *. unfold graph_nodes.
  rewrite add_nodes_from_nodes.
  - rewrite add_nodes_from_nodes; [ reflexivity | reflexivity | ].
    simpl. apply NoDup_app_remove_r in Hnd. exact Hnd.
  - apply add_nodes_from_keys; [ reflexivity | ].
    simpl. apply NoDup_app_remove_r in Hnd. exact Hnd.
  - rewrite add_nodes_from_nodes; [ exact Hnd | reflexivity | ].
    simpl. apply NoDup_app_remove_r in Hnd. exact Hnd.
Qed.

(** The three passes of [conn_to_graph] over a well-formed model. *)
Lemma conn_to_graph_passes :
  exists g2 g3 g4,
    graph_types c (graph_nodes c) = inr g2
    /\ graph_edges c g2 = inr g3
    /\ graph_attrs c g3 = inr g4
    /\ conn_to_graph c = inr g4
    /\ adj g2 = adj (graph_nodes c)
    /\ nodes g2 = all_labels c
    /\ node g3 = node g2 /\ node g4 = node g3
    /\ edges_made g2 g3 (made c (filter is_conn (dict_keys (_data c))))
    /\ (forall u v k, has_edge g4 u v k = has_edge g3 u v k)
    /\ (forall u v k nm, edge_attr g4 u v k nm =
          attr_keys c (filter (fun k => negb (is_conn k)) (dict_keys (_data c)))
            u v k nm)
    /\ tidy g4.
Proof.
  destruct (graph_types_spec c wf) as (g2 & R2 & Hadj2 & Hkeep2 & Htypes).
  destruct (graph_edges_spec c wf g2 Hkeep2) as (g3 & R3 & Hg3).
  { intros u v. unfold keydict. rewrite Hadj2. apply graph_nodes_no_edge. }
  assert (Hflags : forall a i b j s, unit c a i -> unit c b j ->
            has_edge g3 (label a i) (label b j) s = conn_flag c a i b j s).
  { intros a i b j s. apply (edges_are_flags c wf g2 g3). exact Hg3. }
  destruct (graph_attrs_spec c wf g3 Hflags) as (g4 & R4 & Hn4 & He4 & Ha4).
  { intros u v k nm. destruct Hg3 as (_ & _ & Hkd). unfold edge_attr. rewrite Hkd.
    destruct (made c (filter is_conn (dict_keys (_data c))) u v) as [ | n ];
      [ reflexivity | ].
    unfold fresh_edges. rewrite fresh_edges_get.
    destruct (0 <=? k)%Z, (k <? Z.of_nat (S n))%Z; reflexivity. }
  assert (R : conn_to_graph c = inr g4).
  { unfold conn_to_graph. rewrite R2; simpl. rewrite R3; simpl. exact R4. }
  exists g2, g3, g4. repeat (split; [ assumption | ]).
  split; [ | split; [ | split; [ | split; [ exact Hg3 | ] ] ] ].
  - destruct (graph_types_adj _ _ _ R2) as [_ ->]. apply graph_nodes_nodes.
  - destruct Hg3 as (H & _). exact H.
  - exact Hn4.
  - split; [ exact He4 | ]. split; [ exact Ha4 | ].
    apply (conn_to_graph_tidy c). exact R.
Qed.

Lemma list_sum_map_pos {A} (f : A -> nat) (xs : list A) :
  list_sum (map f xs) <> 0 -> exists x, In x xs /\ f x <> 0.
Proof.
  induction xs as [ | x xs IH ]; simpl; [ congruence | ].
  intros H. destruct (Nat.eq_dec (f x) 0) as [ E | E ].
  - destruct IH as (y & Hy & Hf); [ lia | ].
    exists y. split; [ right | ]; assumption.
  - exists x. split; [ left; reflexivity | exact E ].
Qed.

(** An edge of the returned graph was added for a presence flag that is
    set, between the labels of two units, one of each population. *)
Lemma encoded_edge g u v :
  conn_to_graph c = inr g -> In (u, v) (edges g) ->
  exists a i b j s,
    u = label a i /\ v = label b j
    /\ direction c a b = true /\ unit c a i /\ unit c b j
    /\ conn_flag c a i b j s = true.
Proof.
  intros Hrun Hin.
  destruct conn_to_graph_passes
    as (g2 & g3 & g4 & _ & _ & _ & R & _ & _ & _ & _ & Hmade & He & _ & Ht).
  rewrite Hrun in R. injection R as <-.
  apply (edges_In g u v Ht) in Hin. destruct Hin as (kd & Hkd & Hne).
  destruct kd as [ | [k0 a0] kd ]; [ contradiction | ].
  assert (H3 : has_edge g3 u v k0 = true).
  { rewrite <- He. unfold has_edge. rewrite Hkd. unfold dict_has. simpl.
    destruct (eq_dec k0 k0); [ reflexivity | contradiction ]. }
  destruct Hmade as (_ & _ & Hk3). unfold has_edge in H3. rewrite Hk3 in H3.
  set (ks := filter is_conn (dict_keys (_data c))) in *.
  assert (Hpos : made c ks u v <> 0).
  { intros E. rewrite E in H3. discriminate. }
  unfold made in Hpos. apply list_sum_map_pos in Hpos.
  destruct Hpos as (k & Hk & Hcells). unfold made_cells in Hcells.
  destruct (filter (hits c k u v) (key_cells c k)) as [ | ij rest ] eqn:Hf;
    [ contradiction | ].
  assert (Hij : In ij (filter (hits c k u v) (key_cells c k)))
    by (rewrite Hf; left; reflexivity).
  apply filter_In in Hij. destruct Hij as [Hcell Hhit].
  apply filter_In in Hk. destruct Hk as [Hkey Hconn].
  destruct k as [ [ [src dst] conn] name ], ij as [i j].
  unfold is_conn in Hconn. simpl in Hconn. apply String.eqb_eq in Hconn. subst name.
  simpl in Hcell, Hhit. apply andb_true_iff in Hhit. destruct Hhit as [Hhit Hv].
  apply andb_true_iff in Hhit. destruct Hhit as [Hval Hu].
  apply String.eqb_eq in Hu, Hv.
  apply cells_units in Hcell. destruct Hcell as [Hi Hj].
  destruct (sound_key_parts c wf _ _ _ _ Hkey) as (Hdir & _).
  exists src, i, dst, j, conn. repeat split; auto.
Qed.

End WholeGraph.

Section EncodedWhole.
Context {F : PyFloatOps}.

Lemma nodes_of_encoded (c : Connectivity) :
  well_formed c = true ->
  exists g, conn_to_graph c = inr g /\ nodes g = all_labels c.
Proof.
  intros wf.
  destruct (conn_to_graph_passes c wf)
    as (g2 & g3 & g4 & _ & _ & _ & R & _ & Hn2 & Hn3 & Hn4 & _).
  exists g4. split; [ exact R | ].
  unfold nodes in *. rewrite Hn4, Hn3. exact Hn2.
Qed.


(** X8. On a well-formed model every edge of the returned graph runs from
    the label of a unit of one population to the label of a unit of the
    other population, and the two units are connected in some slot: there
    is no edge inside a population and none to a node that is not a unit. *)
Theorem edges_join_the_populations (c : Connectivity) (g : MultiDiGraph)
  (u v : string) :
  well_formed c = true ->
  conn_to_graph c = inr g ->
  In (u, v) (edges g) ->
  exists a i b j s,
    u = label a i /\ v = label b j
    /\ ((a = A_id c /\ b = B_id c) \/ (a = B_id c /\ b = A_id c))
    /\ in_range i (size c a) = true /\ in_range j (size c b) = true
    /\ conn_flag c a i b j s = true.
Proof.
  intros wf Hrun Hin.
  destruct (encoded_edge c wf g u v Hrun Hin)
    as (a & i & b & j & s & Hu & Hv & Hdir & Hi & Hj & Hflag).
  exists a, i, b, j, s. repeat (split; [ assumption | ]).
  split; [ apply direction_ids; exact Hdir | ]. auto.
Qed.

Lemma colourings_nil (ns : list string) : In [] (colourings ns).
Proof.
  induction ns as [ | n ns IH ]; simpl; [ left; reflexivity | ].
  apply in_or_app. left. exact IH.
Qed.

Lemma colourings_prefix (xs ys : list string) : In xs (colourings (xs ++ ys)).
Proof.
  induction xs as [ | x xs IH ]; simpl; [ apply colourings_nil | ].
  apply in_or_app. right. apply in_map. exact IH.
Qed.

Lemma encoded_bipartite (c : Connectivity) (g : MultiDiGraph) :
  well_formed c = true -> conn_to_graph c = inr g -> nx_is_bipartite g = true.
Proof.
  intros wf R.
  destruct (nodes_of_encoded c wf) as (g' & R' & Hn).
  rewrite R in R'. injection R' as <-.
  unfold nx_is_bipartite. apply existsb_exists.
  exists (map (label (A_id c)) (xrange (N_A c))).
  split; [ rewrite Hn; apply colourings_prefix | ].
  destruct (wf_ids c wf) as (Hab & HA & HB).
  assert (Hin : forall i, unit c (A_id c) i ->
            mem (label (A_id c) i) (map (label (A_id c)) (xrange (N_A c))) = true).
  { intros i Hi. apply mem_In. apply in_map. apply xrange_In.
    unfold unit in Hi. rewrite size_A in Hi. apply in_range_spec. exact Hi. }
  assert (Hout : forall j,
            mem (label (B_id c) j) (map (label (A_id c)) (xrange (N_A c))) = false).
  { intros j. destruct (mem _ _) eqn:E; [ | reflexivity ].
    apply mem_In in E. apply in_map_iff in E. destruct E as (i & E & _).
    apply (label_inj _ _ _ _ HA HB) in E. destruct E. contradiction. }
  unfold proper. apply forallb_forall. intros [u v] Huv.
  destruct (encoded_edge c wf g u v R Huv)
    as (a & i & b & j & s & -> & -> & Hdir & Hi & Hj & _).
  apply direction_ids in Hdir. destruct Hdir as [ [-> ->] | [-> ->] ].
  - rewrite (Hin i Hi), Hout. reflexivity.
  - rewrite (Hin j Hj), Hout. reflexivity.
Qed.

(** X9. The graph that [conn_to_graph] returns for a well-formed model
    passes the test [nx.is_bipartite] of line 158 of [graph_to_conn]. *)
Theorem encoded_graph_is_bipartite (c : Connectivity) :
  well_formed c = true ->
  exists g, conn_to_graph c = inr g /\ nx_is_bipartite g = true.
Proof.
  intros wf. destruct (nodes_of_encoded c wf) as (g & R & _).
  exists g. split; [ exact R | ]. exact (encoded_bipartite c g wf R).
Qed.

End EncodedWhole.

(* ===================================================================== *)
(** ** [graph_to_conn]: the graphs it accepts *)

Section Accepted.
Context {F : PyFloatOps}.

(** The conversion of lines 237 and 239 does not raise on [val]. *)
Definition convertible (name : string) (val : pyval) : Prop :=
  if eqb_of name "id" then exists n, py_int val = inr n
  else exists x, py_float val = inr x.

(** Unit [i] of population [id] lies in the object [c]. *)
Definition fits (c : Connectivity) (id : string) (i : Z) : Prop :=
  exists n, conn_N c id = inr n /\ in_range i n = true.

Definition same_shape (c0 c : Connectivity) : Prop :=
  A_id c = A_id c0 /\ B_id c = B_id c0 /\ N_A c = N_A c0 /\ N_B c = N_B c0.

Lemma foreach_total {A S} (Q : S -> Prop) (xs : list A)
  (body : A -> S -> result S) (s0 : S) :
  (forall x s, In x xs -> Q s -> exists s', body x s = inr s' /\ Q s') ->
  Q s0 -> exists s, foreach xs body s0 = inr s /\ Q s.
Proof.
  revert s0. induction xs as [ | x xs IH ]; intros s0 Hstep H0; simpl.
  - exists s0. split; [ reflexivity | exact H0 ].
  - destruct (Hstep x s0 (or_introl eq_refl) H0) as (s1 & E & H1). rewrite E. simpl.
    apply IH; [ | exact H1 ]. intros y s Hy. apply Hstep. right. exact Hy.
Qed.

Lemma mapM_total {A B} (f : A -> result B) (xs : list A) :
  (forall x, In x xs -> exists y, f x = inr y) ->
  exists ys, mapM f xs = inr ys /\ length ys = length xs.
Proof.
  induction xs as [ | x xs IH ]; intros H; simpl.
  - exists []. split; reflexivity.
  - destruct (H x (or_introl eq_refl)) as (y & ->). simpl.
    destruct IH as (ys & -> & Hl); [ intros z Hz; apply H; right; exact Hz | ].
    simpl. exists (y :: ys). split; [ reflexivity | simpl; congruence ].
Qed.

Lemma count_types_total g id s :
  (forall n, In n s -> has_neuron_type g (label id n) = true) ->
  exists ag asp, count_types g id s = inr (ag, asp).
Proof.
  intros H. unfold count_types.
  destruct (foreach_total (fun _ : nat * nat => True) (hash_order s)
    (fun n '(n_gpot, n_spike) =>
      a <- of_option (dict_get (label id n) (node g)) (KeyError (label id n)) ;;
      t <- of_option (dict_get "neuron_type" a) (KeyError "neuron_type") ;;
      if py_eqb_str t "gpot" then ret (S n_gpot, n_spike)
      else if py_eqb_str t "spike" then ret (n_gpot, S n_spike)
      else raise (ValueError "invalid neuron type")) (0, 0)) as ([ag asp] & E & _);
    [ | exact I | exists ag, asp; exact E ].
  intros n [g0 s0] Hn _. apply -> (hash_order_In s n) in Hn.
  specialize (H n Hn). unfold has_neuron_type in H.
  destruct (dict_get (label id n) (node g)) as [ a | ]; [ | discriminate ]. simpl.
  destruct (dict_get "neuron_type" a) as [ t | ]; [ | discriminate ]. simpl.
  destruct (py_eqb_str t "gpot"); [ eexists; split; [ reflexivity | exact I ] | ].
  simpl in H. rewrite H. eexists; split; [ reflexivity | exact I ].
Qed.

(** Lines 156-212 when no test fails. *)
Lemma validate_intro g ct a sa b sb lens m cnt :
  nx_is_bipartite g = true ->
  foreach (nodes g) add_label [] = inr [(a, sa); (b, sb)] ->
  not_consecutive sa = inr false -> not_consecutive sb = inr false ->
  match ct with
  | core_Connectivity =>
      exists ag asp bg bsp,
        count_types g a sa = inr (ag, asp) /\ count_types g b sb = inr (bg, bsp)
        /\ cnt = Some (ag, asp, bg, bsp)
  | base_BaseConnectivity => cnt = None
  end ->
  mapM (multiplicity g) (set_of (edges g)) = inr lens ->
  py_max lens = inr m ->
  validate g ct = inr {| s_A_id := a; s_B_id := b;
                         s_N_A := length sa; s_N_B := length sb;
                         s_gpot_spike := cnt; s_N_mult := m |}.
Proof.
  intros Hb Hnd Ha Hsb Hct Hl Hm. unfold validate.
  rewrite Hb, Hnd. simpl. rewrite Ha. simpl. rewrite Hsb. simpl.
  assert (E : mapM (fun '(u, v) => kd <- getitem2 g u v ;; ret (Z.of_nat (length kd)))
                (set_of (edges g))
              = mapM (multiplicity g) (set_of (edges g))).
  { apply mapM_ext. intros [u v]. reflexivity. }
  rewrite E, Hl. clear E.
  destruct ct.
  - subst cnt. simpl. rewrite Hm. reflexivity.
  - destruct Hct as (ag & asp & bg & bsp & -> & -> & ->). simpl.
    rewrite Hm. reflexivity.
Qed.

Lemma indices_of_In ls p k :
  In k (indices_of ls p) <-> exists l, In l ls /\ parse_label l = Some (p, k).
Proof.
  unfold indices_of. rewrite in_flat_map. split.
  - intros (l & Hl & Hk). exists l. split; [ exact Hl | ].
    destruct (parse_label l) as [ [id z] | ]; [ | contradiction ].
    destruct (eq_dec id p) as [ -> | ]; [ | contradiction ].
    destruct Hk as [ -> | [] ]. reflexivity.
  - intros (l & Hl & Hp). exists l. split; [ exact Hl | ]. rewrite Hp.
    destruct (eq_dec p p); [ left; reflexivity | contradiction ].
Qed.

Lemma prefixes_of_In ls p :
  In p (prefixes_of ls) <-> exists l k, In l ls /\ parse_label l = Some (p, k).
Proof.
  unfold prefixes_of. rewrite in_flat_map. split.
  - intros (l & Hl & Hk). exists l.
    destruct (parse_label l) as [ [id z] | ]; [ | contradiction ].
    destruct Hk as [ -> | [] ]. exists z. split; [ exact Hl | reflexivity ].
  - intros (l & k & Hl & Hp). exists l. split; [ exact Hl | ]. rewrite Hp.
    left. reflexivity.
Qed.

(** What the checks have established about an accepted graph. *)
Record checked (g : MultiDiGraph) (ct : conn_type) (z : Sizes)
  (sa sb : list Z) : Prop := {
  ck_validate : validate g ct = inr z;
  ck_ids : s_A_id z <> s_B_id z;
  ck_prefixes : forall p, In p (label_prefixes g) <-> p = s_A_id z \/ p = s_B_id z;
  ck_A : forall k, In k (indices g (s_A_id z)) <-> (0 <= k < Z.of_nat (length sa))%Z;
  ck_B : forall k, In k (indices g (s_B_id z)) <-> (0 <= k < Z.of_nat (length sb))%Z;
  ck_N_A : N_A (allocate ct z) = length sa;
  ck_N_B : N_B (allocate ct z) = length sb;
  ck_label_A : A_id (allocate ct z) = s_A_id z;
  ck_label_B : B_id (allocate ct z) = s_B_id z
}.

Lemma validate_total g ct :
  tidy g ->
  nx_is_bipartite g = true ->
  Forall parses (nodes g) ->
  distinct (label_prefixes g) = 2 ->
  (forall p, In p (label_prefixes g) -> consecutive (indices g p)) ->
  (ct = core_Connectivity ->
   forall l p n, In l (nodes g) -> parse_label l = Some (p, n) ->
     has_neuron_type g (label p n) = true) ->
  edges g <> [] ->
  exists z sa sb, checked g ct z sa sb.
Proof.
  intros Ht Hb Hparse Hdist Hcons Htypes Hedges.
  destruct (two_populations g Hparse Hdist)
    as (a & sa & b & sb & Hnd & Hab & Hsa0 & Hsb0 & Hpre & Hsa & Hsb).
  assert (Hca : consecutive sa).
  { apply (consecutive_same (indices g a)); [ intros k; symmetry; apply Hsa | ].
    apply Hcons. apply Hpre. left. reflexivity. }
  assert (Hcb : consecutive sb).
  { apply (consecutive_same (indices g b)); [ intros k; symmetry; apply Hsb | ].
    apply Hcons. apply Hpre. right. reflexivity. }
  pose proof (not_consecutive_ok sa Hsa0 Hca) as Hna.
  pose proof (not_consecutive_ok sb Hsb0 Hcb) as Hnb.
  assert (Hsets : forall p s, dict_get p [(a, sa); (b, sb)] = Some s -> NoDup s).
  { apply (node_dict_sets (nodes g) [] _ Hnd). intros p s H. discriminate. }
  assert (Hda : NoDup sa).
  { apply (Hsets a). simpl. destruct (eq_dec a a); [ reflexivity | contradiction ]. }
  assert (Hdb : NoDup sb).
  { apply (Hsets b). simpl.
    destruct (eq_dec b a) as [ E | _ ]; [ symmetry in E; contradiction | ].
    destruct (eq_dec b b); [ reflexivity | contradiction ]. }
  destruct (mapM_total (multiplicity g) (set_of (edges g))) as (lens & Hl & Hlen).
  { intros [u v] Huv. apply -> (set_of_In (u, v) (edges g)) in Huv.
    destruct (edges_getitem2 g u v Ht Huv) as (kd & Hkd & _).
    exists (Z.of_nat (length kd)). apply multiplicity_inr. exists kd. auto. }
  assert (Hmax : exists m, py_max lens = inr m).
  { destruct lens as [ | x lens ]; [ | eexists; reflexivity ].
    exfalso.
    assert (Hin : exists e, In e (set_of (edges g))).
    { destruct (edges g) as [ | e es ]; [ contradiction | ].
      exists e. apply set_of_In. left. reflexivity. }
    destruct Hin as (e & Hin).
    destruct (set_of (edges g)); [ contradiction | simpl in Hlen; discriminate Hlen ]. }
  destruct Hmax as (m & Hm).
  assert (Hcnt : exists cnt,
    match ct with
    | core_Connectivity =>
        exists ag asp bg bsp,
          count_types g a sa = inr (ag, asp) /\ count_types g b sb = inr (bg, bsp)
          /\ cnt = Some (ag, asp, bg, bsp)
    | base_BaseConnectivity => cnt = None
    end).
  { destruct ct; [ exists None; reflexivity | ].
    destruct (count_types_total g a sa) as (ag & asp & Ea).
    { intros n Hn. apply Hsa in Hn. apply indices_of_In in Hn.
      destruct Hn as (l & Hl' & Hp). exact (Htypes eq_refl l a n Hl' Hp). }
    destruct (count_types_total g b sb) as (bg & bsp & Eb).
    { intros n Hn. apply Hsb in Hn. apply indices_of_In in Hn.
      destruct Hn as (l & Hl' & Hp). exact (Htypes eq_refl l b n Hl' Hp). }
    exists (Some (ag, asp, bg, bsp)), ag, asp, bg, bsp. auto. }
  destruct Hcnt as (cnt & Hcnt).
  pose proof (validate_intro g ct a sa b sb lens m cnt Hb Hnd Hna Hnb Hcnt Hl Hm) as Hv.
  eexists _, sa, sb. split; try exact Hv; simpl; try assumption.
  - intros k. rewrite <- Hsa. apply consecutive_length; assumption.
  - intros k. rewrite <- Hsb. apply consecutive_length; assumption.
  - unfold allocate. simpl. destruct ct; [ reflexivity | ].
    destruct Hcnt as (ag & asp & bg & bsp & Ea & _ & ->). simpl.
    apply (count_types_sum _ _ _ _ _ Ea).
  - unfold allocate. simpl. destruct ct; [ reflexivity | ].
    destruct Hcnt as (ag & asp & bg & bsp & _ & Eb & ->). simpl.
    apply (count_types_sum _ _ _ _ _ Eb).
  - unfold allocate. simpl. destruct ct; [ reflexivity | ].
    destruct Hcnt as (ag & asp & bg & bsp & _ & _ & ->). reflexivity.
  - unfold allocate. simpl. destruct ct; [ reflexivity | ].
    destruct Hcnt as (ag & asp & bg & bsp & _ & _ & ->). reflexivity.
Qed.

Lemma same_shape_fits c0 c id i : same_shape c0 c -> fits c0 id i -> fits c id i.
Proof.
  intros (E1 & E2 & E3 & E4) (n & Hn & Hi). exists n. split; [ | exact Hi ].
  unfold conn_N in *. rewrite E1, E2, E3, E4. exact Hn.
Qed.

Lemma write_total ct c0 c src i dst j conn name v :
  same_shape c0 c ->
  src <> dst -> fits c0 src i -> fits c0 dst j -> (0 <= conn)%Z ->
  exists c', write ct c src i dst j conn name v = inr c' /\ same_shape c0 c'.
Proof.
  intros Hs Hne Hi Hj Hc.
  apply (same_shape_fits c0 c _ _ Hs) in Hi, Hj.
  destruct Hi as (ns & Hns & Hi), Hj as (nd & Hnd & Hj).
  assert (E : exists c', conn_setitem c src i dst j conn name v = inr c'
                         /\ same_shape c0 c').
  { unfold conn_setitem, eqb_of.
    destruct (eq_dec src dst) as [ | _ ]; [ contradiction | ]. simpl.
    rewrite Hns, Hnd. simpl. rewrite Hi, Hj. simpl.
    apply Z.leb_le in Hc. rewrite Hc. eexists. split; [ reflexivity | ].
    exact Hs. }
  destruct ct; exact E.
Qed.

Lemma edge_end_inv l id z :
  edge_end l = Some (id, z) ->
  exists n, split_on ":" l = [id; n] /\ py_int_of_string n = Some z.
Proof.
  unfold edge_end.
  destruct (split_on ":" l) as [ | x [ | n [ | ? ? ] ] ]; try discriminate.
  destruct (py_int_of_string n) as [ w | ] eqn:E; [ | discriminate ].
  intros H. injection H as -> ->. exists n. auto.
Qed.

Lemma set_edge_run g ct u v a i b j kd c :
  edge_end u = Some (a, i) -> edge_end v = Some (b, j) ->
  getitem2 g u v = inr kd ->
  set_edge g ct (u, v) c =
  foreach (enumerate (dict_keys kd)) (fun '(conn, k) c =>
    c <- write ct c a i b j conn "conn" (PyInt 1) ;;
    a' <- of_option (dict_get k kd) (KeyError (py_str k)) ;;
    foreach (dict_keys a') (set_param ct a i b j conn a') c) c.
Proof.
  intros Hu Hv Hkd. unfold set_edge. simpl.
  destruct (edge_end_inv u a i Hu) as (n & Hs & Hn).
  destruct (edge_end_inv v b j Hv) as (n' & Hs' & Hn').
  rewrite Hs. simpl. rewrite Hn. simpl. rewrite Hs'. simpl. rewrite Hn'. simpl.
  rewrite Hkd. reflexivity.
Qed.

(** The loop of lines 222-250 does not raise when every edge joins two
    units of the object, one of each population, and every attribute can
    be converted. *)
Lemma populate_total g ct c0 :
  tidy g ->
  (forall u v, In (u, v) (edges g) ->
     exists a i b j, edge_end u = Some (a, i) /\ edge_end v = Some (b, j)
                     /\ a <> b /\ fits c0 a i /\ fits c0 b j) ->
  (forall u v kd k (a' : attrs) name val,
     In (u, v) (edges g) -> keydict g u v = Some kd ->
     dict_get k kd = Some a' -> dict_get name a' = Some val ->
     convertible name val) ->
  exists c, populate g ct c0 = inr c /\ same_shape c0 c.
Proof.
  intros Ht Hends Hconv. unfold populate.
  apply (foreach_total (same_shape c0)); [ | repeat split ].
  intros [u v] c Huv Hc.
  destruct (Hends u v Huv) as (a & i & b & j & Hu & Hv & Hab & Hi & Hj).
  destruct (edges_getitem2 g u v Ht Huv) as (kd & Hkd & Hk & _).
  rewrite (set_edge_run g ct u v a i b j kd c Hu Hv Hkd).
  apply (foreach_total (same_shape c0)); [ | exact Hc ].
  intros [conn k] c1 Hin Hc1.
  assert (Hconn : (0 <= conn)%Z).
  { assert (Hx : exists x, In (conn, x) (enumerate (dict_keys kd)))
      by (exists k; exact Hin).
    apply enumerate_bound in Hx. lia. }
  assert (Hkin : In k (dict_keys kd)).
  { apply enumerate_In in Hin. destruct Hin as (m & _ & Hn).
    apply nth_error_In in Hn. exact Hn. }
  destruct (write_total ct c0 c1 a i b j conn "conn" (PyInt 1) Hc1 Hab Hi Hj Hconn)
    as (c2 & -> & Hc2). simpl.
  apply dict_get_In in Hkin.
  destruct (dict_get k kd) as [ a' | ] eqn:Ha'; [ | contradiction ]. simpl.
  apply (foreach_total (same_shape c0)); [ | exact Hc2 ].
  intros name c3 Hname Hc3. apply dict_get_In in Hname.
  destruct (dict_get name a') as [ val | ] eqn:Hval; [ | contradiction ].
  pose proof (Hconv u v kd k a' name val Huv Hk Ha' Hval) as Hcv.
  unfold set_param. rewrite Hval. simpl. unfold convertible in Hcv.
  destruct (eqb_of name "id").
  - destruct Hcv as (n & ->). simpl. apply write_total; assumption.
  - destruct Hcv as (x & ->). simpl. apply write_total; assumption.
Qed.

Lemma checked_fits g ct z sa sb id i :
  checked g ct z sa sb -> In i (indices g id) -> fits (allocate ct z) id i.
Proof.
  intros Hck Hi.
  assert (Hp : In id (label_prefixes g)).
  { apply indices_of_In in Hi. destruct Hi as (l & Hl & Hp).
    apply prefixes_of_In. exists l, i. auto. }
  apply (ck_prefixes _ _ _ _ _ Hck) in Hp. unfold fits, conn_N.
  rewrite (ck_label_A _ _ _ _ _ Hck), (ck_label_B _ _ _ _ _ Hck).
  rewrite (ck_N_A _ _ _ _ _ Hck), (ck_N_B _ _ _ _ _ Hck).
  destruct Hp as [ -> | -> ].
  - destruct (eq_dec (s_A_id z) (s_A_id z)); [ | contradiction ].
    eexists. split; [ reflexivity | ]. apply in_range_spec.
    apply (ck_A _ _ _ _ _ Hck). exact Hi.
  - destruct (eq_dec (s_B_id z) (s_A_id z)) as [ E | _ ].
    + exfalso. apply (ck_ids _ _ _ _ _ Hck). symmetry. exact E.
    + destruct (eq_dec (s_B_id z) (s_B_id z)); [ | contradiction ].
      eexists. split; [ reflexivity | ]. apply in_range_spec.
      apply (ck_B _ _ _ _ _ Hck). exact Hi.
Qed.

(** A graph that passes every check is turned into an object. *)
Lemma graph_to_conn_total g ct :
  tidy g ->
  nx_is_bipartite g = true ->
  Forall parses (nodes g) ->
  distinct (label_prefixes g) = 2 ->
  (forall p, In p (label_prefixes g) -> consecutive (indices g p)) ->
  (ct = core_Connectivity ->
   forall l p n, In l (nodes g) -> parse_label l = Some (p, n) ->
     has_neuron_type g (label p n) = true) ->
  edges g <> [] ->
  (forall u v, In (u, v) (edges g) ->
     exists a i b j, edge_end u = Some (a, i) /\ edge_end v = Some (b, j)
                     /\ a <> b /\ In i (indices g a) /\ In j (indices g b)) ->
  (forall u v kd k (a' : attrs) name val,
     In (u, v) (edges g) -> keydict g u v = Some kd ->
     dict_get k kd = Some a' -> dict_get name a' = Some val ->
     convertible name val) ->
  exists c z sa sb, graph_to_conn g ct = inr c /\ checked g ct z sa sb
                    /\ same_shape (allocate ct z) c.
Proof.
  intros Ht Hb Hparse Hdist Hcons Htypes Hedges Hends Hconv.
  destruct (validate_total g ct Ht Hb Hparse Hdist Hcons Htypes Hedges)
    as (z & sa & sb & Hck).
  destruct (populate_total g ct (allocate ct z) Ht) as (c & Hpop & Hshape).
  - intros u v Huv. destruct (Hends u v Huv) as (a & i & b & j & Hu & Hv & Hab & Hi & Hj).
    exists a, i, b, j. repeat (split; [ assumption | ]).
    split; eapply checked_fits; eauto.
  - exact Hconv.
  - exists c, z, sa, sb. split; [ | split; assumption ].
    unfold graph_to_conn, graph_to_conn_run.
    rewrite (ck_validate _ _ _ _ _ Hck), Hpop. reflexivity.
Qed.

(** X10. [graph_to_conn] returns an object, and raises nothing, for every
    graph that is bipartite, whose node labels all parse and show two
    population ids with indices numbered from 0 without gap, whose nodes
    carry a neuron type when a core.Connectivity is asked for, that has at
    least one edge, whose edges each join the label [id:index] of a node of
    one population to that of a node of the other, and whose edge
    attributes can all be converted ([int] for 'id', [float] otherwise). *)
Theorem well_formed_graph_is_accepted (g : MultiDiGraph) (ct : conn_type) :
  tidy g ->
  nx_is_bipartite g = true ->
  Forall parses (nodes g) ->
  distinct (label_prefixes g) = 2 ->
  (forall p, In p (label_prefixes g) -> consecutive (indices g p)) ->
  (ct = core_Connectivity ->
   forall l p n, In l (nodes g) -> parse_label l = Some (p, n) ->
     has_neuron_type g (label p n) = true) ->
  edges g <> [] ->
  (forall u v, In (u, v) (edges g) ->
     exists a i b j, edge_end u = Some (a, i) /\ edge_end v = Some (b, j)
                     /\ a <> b /\ In i (indices g a) /\ In j (indices g b)) ->
  (forall u v kd k (a' : attrs) name val,
     In (u, v) (edges g) -> keydict g u v = Some kd ->
     dict_get k kd = Some a' -> dict_get name a' = Some val ->
     convertible name val) ->
  exists c, graph_to_conn g ct = inr c.
Proof.
  intros Ht Hb Hparse Hdist Hcons Htypes Hedges Hends Hconv.
  destruct (graph_to_conn_total g ct Ht Hb Hparse Hdist Hcons Htypes Hedges
              Hends Hconv) as (c & _ & _ & _ & Hrun & _).
  exists c. exact Hrun.
Qed.

(** A value that is not 0 is stored under a key of the object. *)
Lemma truthy_key (c : Connectivity) k i j :
  truthy (value_at c k i j) = true -> In k (dict_keys (_data c)).
Proof.
  unfold value_at. intros H. apply dict_get_In.
  destruct (dict_get k (_data c)); [ discriminate | ].
  simpl in H. discriminate.
Qed.

End Accepted.

(* ===================================================================== *)
(** ** From a model to its graph and back *)

Section KeyOrder.
Context {F : PyFloatOps}.

(** Setting an attribute leaves the keys of the parallel edges in place. *)
Lemma set_edge_attr_keys g u0 v0 key name val g' :
  set_edge_attr g u0 v0 key name val = inr g' ->
  forall u v, option_map dict_keys (keydict g' u v)
              = option_map dict_keys (keydict g u v).
Proof.
  unfold set_edge_attr. intros H u v.
  destruct (dict_get u0 (adj g)) as [ nbrs | ] eqn:Hu; simpl in H; [ | discriminate ].
  destruct (dict_get v0 nbrs) as [ kd | ] eqn:Hv; simpl in H; [ | discriminate ].
  destruct (dict_get key kd) as [ a | ] eqn:Hk; simpl in H; [ | discriminate ].
  injection H as <-. unfold keydict. simpl.
  rewrite dict_get_set. destruct (eq_dec u u0) as [ -> | Hne ]; [ | reflexivity ].
  rewrite Hu. rewrite dict_get_set. destruct (eq_dec v v0) as [ -> | ]; [ | reflexivity ].
  rewrite Hv. simpl. rewrite dict_keys_set. unfold dict_has. rewrite Hk. reflexivity.
Qed.

Lemma set_attrs_of_keys c key g g' :
  set_attrs_of c key g = inr g' ->
  forall u v, option_map dict_keys (keydict g' u v)
              = option_map dict_keys (keydict g u v).
Proof.
  unfold set_attrs_of. intros H.
  destruct (parse_key key) as [ e | [ [ [a b] conn] name] ]; simpl in H;
    [ discriminate | ].
  destruct (conn_N c a) as [ e | na ]; simpl in H; [ discriminate | ].
  destruct (conn_N c b) as [ e | nb ]; simpl in H; [ discriminate | ].
  apply (foreach_stable
           (fun g1 => forall u v, option_map dict_keys (keydict g1 u v)
                                  = option_map dict_keys (keydict g u v)) _ _ _ _ H);
    [ | reflexivity ].
  intros [i j] g1 g2 _ Hstep IH u v.
  destruct (read c a i b j conn name) as [ e | w ]; simpl in Hstep; [ discriminate | ].
  destruct (truthy w);
    [ | unfold ret in Hstep; injection Hstep as <-; apply IH ].
  rewrite (set_edge_attr_keys _ _ _ _ _ _ _ Hstep). apply IH.
Qed.

Lemma graph_attrs_keys c g g' :
  graph_attrs c g = inr g' ->
  forall u v, option_map dict_keys (keydict g' u v)
              = option_map dict_keys (keydict g u v).
Proof.
  unfold graph_attrs. intros H.
  apply (foreach_stable
           (fun g1 => forall u v, option_map dict_keys (keydict g1 u v)
                                  = option_map dict_keys (keydict g u v)) _ _ _ _ H);
    [ | reflexivity ].
  intros k g1 g2 _ Hstep IH u v.
  rewrite (set_attrs_of_keys _ _ _ _ Hstep). apply IH.
Qed.

End KeyOrder.

Section Back.
Context {F : PyFloatOps}.
Variable c : Connectivity.
Hypothesis wf : well_formed c = true.

(** The keys of the parallel edges between two units are the slots
    0, 1, ... in this order, as many as presence flags are set. *)
Lemma encoded_keys g a i b j :
  conn_to_graph c = inr g -> unit c a i -> unit c b j ->
  option_map dict_keys (keydict g (label a i) (label b j))
  = match slots c a i b j with
    | [] => None
    | _ => Some (xrange (length (slots c a i b j)))
    end.
Proof.
  intros Hrun Hi Hj.
  destruct (conn_to_graph_passes c wf)
    as (g2 & g3 & g4 & _ & _ & R4 & R & _ & _ & _ & _ & Hmade & _).
  rewrite Hrun in R. injection R as <-.
  rewrite (graph_attrs_keys c g3 g R4).
  destruct Hmade as (_ & _ & Hk). rewrite Hk, (made_unit c wf _ a i b j Hi Hj).
  unfold slots. rewrite length_map.
  destruct (filter (flagged c a i b j) (filter is_conn (dict_keys (_data c))))
    as [ | k ks ]; [ reflexivity | ].
  simpl. unfold dict_keys, xrange. rewrite map_map. simpl. reflexivity.
Qed.

Lemma encoded_flag g a i b j s :
  conn_to_graph c = inr g -> unit c a i -> unit c b j ->
  has_edge g (label a i) (label b j) s = conn_flag c a i b j s.
Proof.
  intros Hrun Hi Hj.
  destruct (conn_to_graph_spec c wf) as (g' & R & _ & H & _).
  rewrite Hrun in R. injection R as <-. apply H; assumption.
Qed.

Lemma encoded_attr g a i b j s nm :
  conn_to_graph c = inr g -> unit c a i -> unit c b j ->
  edge_attr g (label a i) (label b j) s nm
  = if (negb (String.eqb nm "conn")
        && truthy (value_at c (a, b, s, nm) i j))%bool
    then Some (value_at c (a, b, s, nm) i j) else None.
Proof.
  intros Hrun Hi Hj.
  destruct (conn_to_graph_passes c wf)
    as (g2 & g3 & g4 & _ & _ & _ & R & _ & _ & _ & _ & _ & _ & Ha & _).
  rewrite Hrun in R. injection R as <-.
  rewrite Ha, (attr_keys_unit c wf _ a i b j s nm Hi Hj).
  destruct (String.eqb_spec nm "conn") as [ -> | Hnm ]; simpl.
  - destruct (mem _ _) eqn:E; [ | reflexivity ].
    apply (mem_In (K := string * string * Z * string)) in E.
    apply filter_In in E. destruct E as [_ E]. discriminate.
  - destruct (truthy (value_at c (a, b, s, nm) i j)) eqn:Ht;
      [ | rewrite andb_false_r; reflexivity ].
    rewrite andb_true_r.
    assert (Hin : In (a, b, s, nm)
              (filter (fun k => negb (is_conn k)) (dict_keys (_data c)))).
    { apply filter_In. split.
      - apply dict_get_In. unfold value_at in Ht.
        destruct (dict_get (a, b, s, nm) (_data c)); [ discriminate | ].
        simpl in Ht. discriminate.
      - unfold is_conn. simpl. apply negb_true_iff, String.eqb_neq, Hnm. }
    apply (mem_In (K := string * string * Z * string)) in Hin. rewrite Hin.
    reflexivity.
Qed.

End Back.

(** A population id that [conn_to_graph] can write into a label and
    [graph_to_conn] can read back: not empty, on one line. *)
Definition printable (id : string) : Prop :=
  id <> EmptyString /\ no_char newline id = true.

Section RoundTrip.
Context {F : PyFloatOps}.
Variable c : Connectivity.
Hypothesis wf : well_formed c = true.
Hypothesis idA : printable (A_id c).
Hypothesis idB : printable (B_id c).

Lemma unit_reads id n :
  unit c id n ->
  parse_label (label id n) = Some (id, n)
  /\ edge_end (label id n) = Some (id, n)
  /\ canonical (label id n) = true.
Proof.
  intros Hu.
  assert (Hp : printable id).
  { destruct (unit_id c id n Hu) as [ -> | -> ]; assumption. }
  pose proof (unit_no_colon c wf id n Hu) as Hc. destruct Hp as [H1 H2].
  split; [ apply parse_label_label; assumption | ].
  split; [ apply edge_end_label; exact Hc | ].
  unfold canonical. rewrite (edge_end_label id n Hc). apply String.eqb_refl.
Qed.

Lemma encoded_indices g id k :
  conn_to_graph c = inr g -> (In k (indices g id) <-> unit c id k).
Proof.
  intros Hrun. destruct (nodes_of_encoded c wf) as (g' & R & Hn).
  rewrite Hrun in R. injection R as <-.
  unfold indices. rewrite indices_of_In, Hn. split.
  - intros (l & Hl & Hp). apply (label_unit c wf) in Hl.
    destruct Hl as (id' & n' & Hu & ->).
    destruct (unit_reads id' n' Hu) as (Hp' & _). rewrite Hp' in Hp.
    injection Hp as <- <-. exact Hu.
  - intros Hu. exists (label id k). split; [ apply unit_label; exact Hu | ].
    apply (unit_reads id k Hu).
Qed.

Lemma encoded_prefixes g p :
  conn_to_graph c = inr g ->
  (In p (label_prefixes g) <-> exists k, unit c p k).
Proof.
  intros Hrun. unfold label_prefixes. rewrite prefixes_of_In. split.
  - intros (l & k & Hl & Hp). exists k. apply (encoded_indices g p k Hrun).
    apply indices_of_In. exists l. auto.
  - intros (k & Hu). apply (encoded_indices g p k Hrun) in Hu.
    apply indices_of_In in Hu. destruct Hu as (l & Hl & Hp). exists l, k. auto.
Qed.

Lemma encoded_parses g : conn_to_graph c = inr g -> Forall parses (nodes g).
Proof.
  intros Hrun. destruct (nodes_of_encoded c wf) as (g' & R & Hn).
  rewrite Hrun in R. injection R as <-. rewrite Hn. apply Forall_forall.
  intros l Hl. apply (label_unit c wf) in Hl. destruct Hl as (id & n & Hu & ->).
  unfold parses. destruct (unit_reads id n Hu) as (-> & _). discriminate.
Qed.

Lemma encoded_consecutive g p :
  conn_to_graph c = inr g -> consecutive (indices g p).
Proof.
  intros Hrun. exists (Z.of_nat (size c p)). intros k.
  rewrite (encoded_indices g p k Hrun). unfold unit. apply in_range_spec.
Qed.

Lemma encoded_well_labelled g :
  conn_to_graph c = inr g -> edges_well_labelled g = true.
Proof.
  intros Hrun. pose proof (conn_to_graph_tidy c g Hrun) as Ht.
  unfold edges_well_labelled. apply andb_true_iff. split.
  - apply forallb_forall. intros [u v] Huv.
    destruct (encoded_edge c wf g u v Hrun Huv)
      as (a & i & b & j & s & -> & -> & _ & Hi & Hj & _).
    destruct (unit_reads a i Hi) as (_ & _ & ->).
    destruct (unit_reads b j Hj) as (_ & _ & ->). reflexivity.
  - unfold no_conn_attr. apply forallb_forall. intros [u nbrs] Hu.
    apply forallb_forall. intros [v kd] Hv.
    apply forallb_forall. intros [k a'] Hk.
    destruct (mem "conn" (dict_keys a')) eqn:E; [ | reflexivity ]. exfalso.
    apply mem_In in E. apply dict_get_In in E.
    destruct (dict_get "conn" a') as [ val | ] eqn:Hval; [ | contradiction ].
    destruct Ht as [T1 T2]. destruct (T2 u nbrs Hu) as [T3 T4].
    pose proof (dict_get_NoDup u nbrs (adj g) T1 Hu) as Gu.
    pose proof (dict_get_NoDup v kd nbrs T3 Hv) as Gv.
    pose proof (dict_get_NoDup k a' kd (T4 v kd Hv) Hk) as Gk.
    assert (Hkd : keydict g u v = Some kd) by (unfold keydict; rewrite Gu; exact Gv).
    assert (Huv : In (u, v) (edges g)).
    { apply (edges_In g u v (conj T1 T2)). exists kd. split; [ exact Hkd | ].
      intros ->. contradiction. }
    destruct (encoded_edge c wf g u v Hrun Huv)
      as (a & i & b & j & s & -> & -> & _ & Hi & Hj & _).
    pose proof (encoded_attr c wf g a i b j k "conn" Hrun Hi Hj) as Ha.
    unfold edge_attr in Ha. rewrite Hkd, Gk, Hval in Ha. simpl in Ha. discriminate.
Qed.

Lemma has_neuron_type_attr g l :
  has_neuron_type g l =
  match node_attr g l "neuron_type" with
  | Some t => (py_eqb_str t "gpot" || py_eqb_str t "spike")%bool
  | None => false
  end.
Proof.
  unfold has_neuron_type, node_attr. destruct (dict_get l (node g)); reflexivity.
Qed.

Lemma encoded_typed g id n :
  conn_to_graph c = inr g -> types c <> None -> unit c id n ->
  has_neuron_type g (label id n) = true.
Proof.
  intros Hrun Ht Hu. destruct (types c) as [ t | ] eqn:Et; [ | contradiction ].
  destruct (conn_to_graph_spec c wf) as (g' & R & Hty & _).
  rewrite Hrun in R. injection R as <-.
  rewrite has_neuron_type_attr, (Hty t Et).
  destruct (type_tag_unit c wf t n Et) as [HA HB].
  destruct (unit_id c id n Hu) as [ -> | -> ].
  - rewrite (HA Hu).
    destruct (mem n (images t (A_id c) "gpot" (N_A_gpot t))); reflexivity.
  - rewrite (HB Hu).
    destruct (mem n (images t (B_id c) "gpot" (N_B_gpot t))); reflexivity.
Qed.

Lemma distinct_two (xs : list string) a b :
  a <> b -> (forall x, In x xs <-> x = a \/ x = b) -> distinct xs = 2.
Proof.
  intros Hab H. unfold distinct.
  assert (P : Permutation (nodup string_dec xs) [a; b]).
  { apply NoDup_Permutation.
    - apply NoDup_nodup.
    - constructor; [ intros [ E | [] ]; congruence | ].
      constructor; [ intros [] | constructor ].
    - intros x. rewrite nodup_In, H. simpl. split.
      + intros [ -> | -> ]; auto.
      + intros [ <- | [ <- | [] ] ]; auto. }
  apply Permutation_length in P. exact P.
Qed.

Lemma flag_key a i b j s :
  conn_flag c a i b j s = true -> In (a, b, s, "conn") (dict_keys (_data c)).
Proof.
  unfold conn_flag, value_at. intros H. apply dict_get_In.
  destruct (dict_get (a, b, s, "conn") (_data c)); [ discriminate | ].
  simpl in H. discriminate.
Qed.

Lemma flag_direction a i b j s :
  conn_flag c a i b j s = true ->
  (a = A_id c /\ b = B_id c) \/ (a = B_id c /\ b = A_id c).
Proof.
  intros H. apply flag_key in H.
  destruct (sound_key_parts c wf _ _ _ _ H) as (Hdir & _).
  apply direction_ids. exact Hdir.
Qed.

Variable ct : conn_type.
Hypothesis typed : ct = core_Connectivity -> types c <> None.
Hypothesis connected :
  exists a i b j s, unit c a i /\ unit c b j /\ conn_flag c a i b j s = true.
Hypothesis params_convert :
  forall a b s nm i j,
    nm <> "conn" -> unit c a i -> unit c b j ->
    truthy (value_at c (a, b, s, nm) i j) = true ->
    convertible nm (value_at c (a, b, s, nm) i j).

Lemma both_populated :
  (exists k, unit c (A_id c) k) /\ (exists k, unit c (B_id c) k).
Proof.
  destruct connected as (a & i & b & j & s & Hi & Hj & Hf).
  destruct (flag_direction a i b j s Hf) as [ [-> ->] | [-> ->] ];
    split; eexists; eassumption.
Qed.

Lemma encoded_two_prefixes g p :
  conn_to_graph c = inr g ->
  (In p (label_prefixes g) <-> p = A_id c \/ p = B_id c).
Proof.
  intros Hrun. rewrite (encoded_prefixes g p Hrun). split.
  - intros (k & Hu). exact (unit_id c p k Hu).
  - destruct both_populated as [HA HB]. intros [ -> | -> ]; assumption.
Qed.

Lemma encoded_has_edge g u v :
  conn_to_graph c = inr g ->
  (In (u, v) (edges g) <->
   exists a i b j s, u = label a i /\ v = label b j /\ unit c a i /\ unit c b j
                     /\ conn_flag c a i b j s = true).
Proof.
  intros Hrun. pose proof (conn_to_graph_tidy c g Hrun) as Ht. split.
  - intros Huv.
    destruct (encoded_edge c wf g u v Hrun Huv)
      as (a & i & b & j & s & Hu & Hv & _ & Hi & Hj & Hf).
    exists a, i, b, j, s. auto.
  - intros (a & i & b & j & s & -> & -> & Hi & Hj & Hf).
    rewrite <- (encoded_flag c wf g a i b j s Hrun Hi Hj) in Hf.
    unfold has_edge in Hf. apply (edges_In g _ _ Ht).
    destruct (keydict g (label a i) (label b j)) as [ kd | ]; [ | discriminate ].
    exists kd. split; [ reflexivity | ]. intros ->. discriminate.
Qed.

(** The graph of the model passes every check of [graph_to_conn]. *)
Lemma encoded_accepted g :
  conn_to_graph c = inr g ->
  exists c' z sa sb, graph_to_conn g ct = inr c' /\ checked g ct z sa sb
                     /\ same_shape (allocate ct z) c'.
Proof.
  intros Hrun. pose proof (conn_to_graph_tidy c g Hrun) as Ht.
  destruct (wf_ids c wf) as (Hab & _).
  apply graph_to_conn_total.
  - exact Ht.
  - exact (encoded_bipartite c g wf Hrun).
  - exact (encoded_parses g Hrun).
  - apply (distinct_two _ (A_id c) (B_id c) Hab).
    intros p. apply encoded_two_prefixes. exact Hrun.
  - intros p _. exact (encoded_consecutive g p Hrun).
  - intros Hc l p n Hl Hp.
    assert (Hu : unit c p n).
    { apply (encoded_indices g p n Hrun). apply indices_of_In. exists l. auto. }
    exact (encoded_typed g p n Hrun (typed Hc) Hu).
  - destruct connected as (a & i & b & j & s & Hi & Hj & Hf).
    assert (Hin : In (label a i, label b j) (edges g)).
    { apply (encoded_has_edge g _ _ Hrun). exists a, i, b, j, s. auto. }
    intros E. rewrite E in Hin. contradiction.
  - intros u v Huv. apply (encoded_has_edge g u v Hrun) in Huv.
    destruct Huv as (a & i & b & j & s & -> & -> & Hi & Hj & Hf).
    exists a, i, b, j.
    destruct (unit_reads a i Hi) as (_ & -> & _).
    destruct (unit_reads b j Hj) as (_ & -> & _).
    split; [ reflexivity | ]. split; [ reflexivity | ]. split.
    + destruct (flag_direction a i b j s Hf) as [ [-> ->] | [-> ->] ]; congruence.
    + split; apply (encoded_indices g _ _ Hrun); assumption.
  - intros u v kd k a' name val Huv Hkd Hk Hval.
    apply (encoded_has_edge g u v Hrun) in Huv.
    destruct Huv as (a & i & b & j & s & -> & -> & Hi & Hj & _).
    pose proof (encoded_attr c wf g a i b j k name Hrun Hi Hj) as Ha.
    unfold edge_attr in Ha. rewrite Hkd, Hk, Hval in Ha.
    destruct (String.eqb_spec name "conn") as [ | Hne ]; simpl in Ha;
      [ discriminate | ].
    destruct (truthy (value_at c (a, b, k, name) i j)) eqn:Htr; [ | discriminate ].
    injection Ha as ->. apply params_convert; assumption.
Qed.

Lemma range_eq (x y : nat) :
  (forall k, (0 <= k < Z.of_nat x)%Z <-> (0 <= k < Z.of_nat y)%Z) -> x = y.
Proof.
  intros H. destruct (Nat.lt_trichotomy x y) as [ L | [ E | L ] ]; [ | exact E | ].
  - destruct (H (Z.of_nat x)) as [_ H2]. lia.
  - destruct (H (Z.of_nat y)) as [H1 _]. lia.
Qed.

(** The object that comes back has the ids and the sizes of the model. *)
Lemma sizes_back g c' z sa sb :
  conn_to_graph c = inr g -> checked g ct z sa sb ->
  same_shape (allocate ct z) c' ->
  forall id, conn_N c' id = conn_N c id.
Proof.
  intros Hrun Hck (E1 & E2 & E3 & E4) id.
  destruct (wf_ids c wf) as (Hab & _).
  assert (Hsize : forall p n, (forall k, In k (indices g p) <-> (0 <= k < Z.of_nat n)%Z)
                              -> n = size c p).
  { intros p n H. apply range_eq. intros k. rewrite <- H.
    rewrite (encoded_indices g p k Hrun). unfold unit. rewrite in_range_spec.
    reflexivity. }
  pose proof (Hsize _ _ (ck_A _ _ _ _ _ Hck)) as SA.
  pose proof (Hsize _ _ (ck_B _ _ _ _ _ Hck)) as SB.
  assert (Hpre : forall p, p = s_A_id z \/ p = s_B_id z <-> p = A_id c \/ p = B_id c).
  { intros p. rewrite <- (ck_prefixes _ _ _ _ _ Hck). apply encoded_two_prefixes.
    exact Hrun. }
  pose proof (ck_ids _ _ _ _ _ Hck) as Hne.
  unfold conn_N. rewrite E1, E2, E3, E4.
  rewrite (ck_label_A _ _ _ _ _ Hck), (ck_label_B _ _ _ _ _ Hck).
  rewrite (ck_N_A _ _ _ _ _ Hck), (ck_N_B _ _ _ _ _ Hck), SA, SB.
  destruct (proj1 (Hpre (s_A_id z)) (or_introl eq_refl)) as [ EA | EA ];
    destruct (proj1 (Hpre (s_B_id z)) (or_intror eq_refl)) as [ EB | EB ];
    try congruence; rewrite EA, EB.
  - rewrite size_A, (size_B c wf). reflexivity.
  - rewrite size_A, (size_B c wf).
    destruct (eq_dec id (B_id c)) as [ E1' | ], (eq_dec id (A_id c)) as [ E2' | ];
      try reflexivity.
    exfalso. apply Hab. congruence.
Qed.

Lemma getitem2_keydict g u v (kd : dict Z attrs) :
  getitem2 g u v = inr kd <-> keydict g u v = Some kd.
Proof.
  unfold getitem2, keydict, of_option, ret, raise.
  destruct (dict_get u (adj g)) as [ nbrs | ]; simpl; [ | split; discriminate ].
  destruct (dict_get v nbrs) as [ kd' | ]; simpl; split; intros H;
    try discriminate; congruence.
Qed.

Lemma nth_error_seq_lt start n m :
  nth_error (seq start n) m = if Nat.ltb m n then Some (start + m) else None.
Proof.
  revert start m. induction n as [ | n IH ]; intros start m; simpl.
  - destruct m; reflexivity.
  - destruct m as [ | m ]; simpl; [ f_equal; lia | ].
    rewrite IH. change (Nat.ltb (S m) (S n)) with (Nat.ltb m n).
    destruct (Nat.ltb m n); [ f_equal; lia | reflexivity ].
Qed.

Lemma enumerate_xrange n s k :
  In (s, k) (enumerate (xrange n)) <-> k = s /\ (0 <= s < Z.of_nat n)%Z.
Proof.
  rewrite enumerate_In. unfold xrange. split.
  - intros (m & -> & Hn). rewrite nth_error_map, nth_error_seq_lt in Hn.
    destruct (Nat.ltb m n) eqn:E; [ | discriminate ].
    apply Nat.ltb_lt in E. simpl in Hn. injection Hn as <-. split; [ reflexivity | lia ].
  - intros (-> & Hs). exists (Z.to_nat s). split; [ lia | ].
    rewrite nth_error_map, nth_error_seq_lt.
    assert (E : Nat.ltb (Z.to_nat s) n = true) by (apply Nat.ltb_lt; lia).
    rewrite E. simpl. f_equal. lia.
Qed.

(** The parallel edges of the graph between two units of the model. *)
Lemma encoded_pair g a i b j :
  conn_to_graph c = inr g -> unit c a i -> unit c b j ->
  (slots c a i b j = [] /\ keydict g (label a i) (label b j) = None)
  \/ (exists kd, keydict g (label a i) (label b j) = Some kd
                 /\ dict_keys kd = xrange (length (slots c a i b j))
                 /\ length kd = length (slots c a i b j)
                 /\ In (label a i, label b j) (edges g)
                 /\ getitem2 g (label a i) (label b j) = inr kd).
Proof.
  intros Hrun Hi Hj. pose proof (encoded_keys c wf g a i b j Hrun Hi Hj) as K.
  pose proof (conn_to_graph_tidy c g Hrun) as Ht.
  destruct (slots c a i b j) as [ | s0 sl ] eqn:Hsl.
  - left. split; [ reflexivity | ].
    destruct (keydict g (label a i) (label b j)); [ discriminate | reflexivity ].
  - right. destruct (keydict g (label a i) (label b j)) as [ kd | ] eqn:Hkd;
      [ | discriminate ].
    cbn [option_map] in K. injection K as K. exists kd. split; [ reflexivity | ].
    split; [ exact K | ].
    assert (Hlen : length kd = length (s0 :: sl)).
    { transitivity (length (dict_keys kd)).
      - unfold dict_keys. rewrite length_map. reflexivity.
      - rewrite K. apply xrange_length. }
    split; [ exact Hlen | ]. split.
    + apply (edges_In g _ _ Ht). exists kd. split; [ exact Hkd | ].
      intros ->. discriminate.
    + apply getitem2_keydict. exact Hkd.
Qed.

Lemma written_between g a i b j s nm x :
  conn_to_graph c = inr g -> unit c a i -> unit c b j ->
  written g a i b j s nm x ->
  exists kd, In (label a i, label b j) (edges g)
             /\ getitem2 g (label a i) (label b j) = inr kd.
Proof.
  intros Hrun Hi Hj Hw.
  destruct (written_edge g a i b j s nm x Hw) as (u & w & kd & Huw & Hu & Hv & Hkd & _).
  pose proof Huw as Huw'. apply (encoded_has_edge g u w Hrun) in Huw'.
  destruct Huw' as (a' & i' & b' & j' & s' & -> & -> & Hi' & Hj' & _).
  destruct (unit_reads a' i' Hi') as (_ & Ea & _).
  destruct (unit_reads b' j' Hj') as (_ & Eb & _).
  rewrite Ea in Hu. rewrite Eb in Hv. injection Hu as -> ->. injection Hv as -> ->.
  exists kd. auto.
Qed.

(** The presence flags come back as they were. *)
Lemma flags_back g c' a i b j s :
  conn_to_graph c = inr g -> graph_to_conn g ct = inr c' ->
  unit c a i -> unit c b j ->
  conn_flag c' a i b j s = conn_flag c a i b j s.
Proof.
  intros Hrun Hdec Hi Hj.
  pose proof (encoded_well_labelled g Hrun) as Hwl.
  destruct (unit_reads a i Hi) as (_ & Ea & _).
  destruct (unit_reads b j Hj) as (_ & Eb & _).
  pose proof (slots_spec c a i b j s) as Hspec.
  destruct (encoded_pair g a i b j Hrun Hi Hj)
    as [ (Hsl & Hnone) | (kd & Hkd & Hkeys & Hlen & Hin & Hget) ].
  - rewrite Hsl in Hspec.
    assert (E : conn_flag c a i b j s = false).
    { destruct (conn_flag c a i b j s); [ | reflexivity ].
      exfalso. apply Hspec. reflexivity. }
    rewrite E. destruct (conn_flag c' a i b j s) eqn:E'; [ | reflexivity ].
    exfalso. unfold conn_flag in E'.
    destruct (zero_or_written g ct c' a b s "conn" i j Hdec) as [ Z0 | (x & Hw) ].
    + rewrite Z0 in E'. discriminate.
    + destruct (written_between g a i b j s "conn" x Hrun Hi Hj Hw) as (kd & _ & Hget).
      apply getitem2_keydict in Hget. congruence.
  - pose proof (decoded_flag g ct c' _ _ a i b j kd Hwl Hdec Hin Ea Eb Hget s) as D.
    pose proof (slots_filled c wf a i b j Hi Hj s) as Hfill.
    rewrite Hlen in D.
    destruct (conn_flag c' a i b j s) eqn:E', (conn_flag c a i b j s) eqn:E;
      try reflexivity; exfalso.
    + assert (H : false = true); [ | discriminate ].
      apply Hspec, Hfill, D. reflexivity.
    + assert (H : false = true); [ | discriminate ].
      apply D, Hfill, Hspec. reflexivity.
Qed.

(** The parameters come back converted, and as 0 where they were 0. *)
Lemma params_back g c' a i b j s nm :
  conn_to_graph c = inr g -> graph_to_conn g ct = inr c' ->
  unit c a i -> unit c b j -> nm <> "conn" ->
  if truthy (value_at c (a, b, s, nm) i j)
  then coerced nm (value_at c (a, b, s, nm) i j) (value_at c' (a, b, s, nm) i j)
  else value_at c' (a, b, s, nm) i j = PyInt 0.
Proof.
  intros Hrun Hdec Hi Hj Hnm.
  pose proof (encoded_well_labelled g Hrun) as Hwl.
  destruct (unit_reads a i Hi) as (_ & Ea & _).
  destruct (unit_reads b j Hj) as (_ & Eb & _).
  pose proof (encoded_attr c wf g a i b j s nm Hrun Hi Hj) as Hattr.
  apply String.eqb_neq in Hnm. rewrite Hnm in Hattr. simpl in Hattr.
  apply String.eqb_neq in Hnm.
  destruct (truthy (value_at c (a, b, s, nm) i j)) eqn:Htr.
  - assert (Hkey : In (a, b, s, nm) (dict_keys (_data c))).
    { apply dict_get_In. unfold value_at in Htr.
      destruct (dict_get (a, b, s, nm) (_data c)); [ discriminate | ].
      simpl in Htr. discriminate. }
    destruct (sound_key_parts c wf _ _ _ _ Hkey) as (_ & _ & _ & Hcells).
    specialize (Hcells i j (proj2 (cells_units c a b i j) (conj Hi Hj))).
    apply String.eqb_neq in Hnm. rewrite Hnm in Hcells.
    specialize (Hcells Htr). apply slots_spec in Hcells.
    destruct (encoded_pair g a i b j Hrun Hi Hj)
      as [ (Hsl & _) | (kd & Hkd & Hkeys & Hlen & Hin & Hget) ].
    { rewrite Hsl in Hcells. contradiction. }
    apply (slots_filled c wf a i b j Hi Hj) in Hcells.
    assert (Hen : In (s, s) (enumerate (dict_keys kd))).
    { rewrite Hkeys. apply enumerate_xrange. split; [ reflexivity | exact Hcells ]. }
    assert (Hs : In s (dict_keys kd)).
    { rewrite Hkeys. apply xrange_In. exact Hcells. }
    apply dict_get_In in Hs.
    destruct (dict_get s kd) as [ a' | ] eqn:Ha'; [ | contradiction ].
    unfold edge_attr in Hattr. rewrite Hkd, Ha' in Hattr.
    exact (decoded_param g ct c' _ _ a i b j kd s s a' nm _ Hwl Hdec Hin Ea Eb Hget
             Hen Ha' Hattr).
  - destruct (zero_or_written g ct c' a b s nm i j Hdec) as [ Z0 | (x & Hw) ];
      [ exact Z0 | exfalso ].
    destruct (written_between g a i b j s nm x Hrun Hi Hj Hw) as (kd & Hin & Hget).
    destruct (written_same_edge g _ _ a i b j kd s nm x Hwl Hin Ea Eb Hget Hw)
      as [ (E & _) | (_ & k & a' & val & Hen & Ha' & Hval & _) ];
      [ contradiction | ].
    destruct (encoded_pair g a i b j Hrun Hi Hj)
      as [ (_ & Hnone) | (kd' & Hkd & Hkeys & _) ].
    { apply getitem2_keydict in Hget. congruence. }
    apply getitem2_keydict in Hget. rewrite Hget in Hkd. injection Hkd as <-.
    rewrite Hkeys in Hen. apply enumerate_xrange in Hen. destruct Hen as [-> _].
    unfold edge_attr in Hattr. rewrite Hget, Ha', Hval in Hattr. discriminate.
Qed.

End RoundTrip.

Section RoundTripTheorems.
Context {F : PyFloatOps}.

(** X11. A well-formed model with printable ids and at least one
    connection, whose parameters can be converted, survives the round trip:
    [conn_to_graph] returns a graph, [graph_to_conn] turns that graph into
    an object with the same population ids and sizes and the same presence
    flags, and with every parameter that is not 0 converted by [int] (for
    'id') or by [float]; a parameter that is 0 comes back as 0. An
    object of the kind base.BaseConnectivity can be asked for from every
    such model, one of the kind core.Connectivity from a typed model. *)
Theorem round_trip (c : Connectivity) (ct : conn_type) :
  well_formed c = true ->
  printable (A_id c) -> printable (B_id c) ->
  (ct = core_Connectivity -> types c <> None) ->
  (exists a i b j s,
     in_range i (size c a) = true /\ in_range j (size c b) = true
     /\ conn_flag c a i b j s = true) ->
  (forall a b s nm i j,
     nm <> "conn" ->
     in_range i (size c a) = true -> in_range j (size c b) = true ->
     truthy (value_at c (a, b, s, nm) i j) = true ->
     convertible nm (value_at c (a, b, s, nm) i j)) ->
  exists g c',
    conn_to_graph c = inr g /\ graph_to_conn g ct = inr c'
    /\ (forall id, conn_N c' id = conn_N c id)
    /\ (forall a i b j s,
          in_range i (size c a) = true -> in_range j (size c b) = true ->
          conn_flag c' a i b j s = conn_flag c a i b j s)
    /\ (forall a i b j s nm,
          in_range i (size c a) = true -> in_range j (size c b) = true ->
          nm <> "conn" ->
          if truthy (value_at c (a, b, s, nm) i j)
          then coerced nm (value_at c (a, b, s, nm) i j)
                 (value_at c' (a, b, s, nm) i j)
          else value_at c' (a, b, s, nm) i j = PyInt 0).
Proof.
  intros wf idA idB Hct Hconn Hconv.
  destruct (nodes_of_encoded c wf) as (g & Hrun & _).
  destruct (encoded_accepted c wf idA idB ct Hct Hconn Hconv g Hrun)
    as (c' & z & sa & sb & Hdec & Hck & Hshape).
  exists g, c'. split; [ exact Hrun | ]. split; [ exact Hdec | ]. split; [ | split ].
  - exact (sizes_back c wf idA idB ct Hconn g c' z sa sb Hrun Hck Hshape).
  - intros a i b j s Hi Hj.
    exact (flags_back c wf idA idB ct g c' a i b j s Hrun Hdec Hi Hj).
  - intros a i b j s nm Hi Hj Hnm.
    exact (params_back c wf idA idB ct g c' a i b j s nm Hrun Hdec Hi Hj Hnm).
Qed.

End RoundTripTheorems.

Section DefaultKind.
Context {F : PyFloatOps}.
Variable c : Connectivity.
Hypothesis wf : well_formed c = true.
Hypothesis idA : printable (A_id c).
Hypothesis idB : printable (B_id c).
Hypothesis untyped : types c = None.

(** The nodes of the graph of a base.BaseConnectivity carry no attribute. *)
Lemma untyped_nodes g l :
  conn_to_graph c = inr g -> In l (all_labels c) -> dict_get l (node g) = Some [].
Proof.
  intros Hrun Hl.
  destruct (conn_to_graph_passes c wf)
    as (g2 & g3 & g4 & R2 & _ & _ & R & _ & _ & Hn3 & Hn4 & _).
  rewrite Hrun in R. injection R as <-.
  unfold graph_types in R2. rewrite untyped in R2. injection R2 as <-.
  rewrite Hn4, Hn3. destruct (graph_nodes_bare c) as [Hb _]. rewrite Hb.
  apply mem_In in Hl. rewrite Hl. reflexivity.
Qed.

Lemma untyped_refused g :
  0 < N_A c -> 0 < N_B c ->
  conn_to_graph c = inr g ->
  graph_to_conn_run g core_Connectivity = Raised (KeyError "neuron_type") false.
Proof.
  intros HA HB Hrun.
  destruct (wf_ids c wf) as (Hab & _).
  assert (UA : unit c (A_id c) 0).
  { unfold unit. rewrite size_A. apply in_range_spec. lia. }
  assert (UB : unit c (B_id c) 0).
  { unfold unit. rewrite (size_B c wf). apply in_range_spec. lia. }
  pose proof (encoded_parses c wf idA idB g Hrun) as Hparse.
  assert (Hdist : distinct (label_prefixes g) = 2).
  { apply (distinct_two _ (A_id c) (B_id c) Hab). intros p.
    rewrite (encoded_prefixes c wf idA idB g p Hrun). split.
    - intros (k & Hu). exact (unit_id c p k Hu).
    - intros [ -> | -> ]; eexists; eassumption. }
  destruct (two_populations g Hparse Hdist)
    as (a & sa & b & sb & Hnd & _ & Hsa0 & Hsb0 & _ & Hsa & Hsb).
  assert (Hna : not_consecutive sa = inr false).
  { apply (not_consecutive_ok sa Hsa0).
    apply (consecutive_same (indices g a)); [ intros k; symmetry; apply Hsa | ].
    exact (encoded_consecutive c wf idA idB g a Hrun). }
  assert (Hnb : not_consecutive sb = inr false).
  { apply (not_consecutive_ok sb Hsb0).
    apply (consecutive_same (indices g b)); [ intros k; symmetry; apply Hsb | ].
    exact (encoded_consecutive c wf idA idB g b Hrun). }
  unfold graph_to_conn_run, validate.
  rewrite (encoded_bipartite c g wf Hrun). simpl. rewrite Hnd. simpl.
  rewrite Hna. simpl. rewrite Hnb. simpl.
  unfold count_types.
  destruct (hash_order sa) as [ | n0 rest ] eqn:Hh.
  { exfalso. apply Hsa0. apply length_zero_iff_nil.
    rewrite <- (hash_order_length sa), Hh. reflexivity. }
  assert (Hin : In n0 sa).
  { apply hash_order_In. rewrite Hh. left. reflexivity. }
  assert (Hn0 : dict_get (label a n0) (node g) = Some []).
  { apply (untyped_nodes g _ Hrun). apply unit_label.
    apply (encoded_indices c wf idA idB g a n0 Hrun). apply Hsa. exact Hin. }
  simpl. rewrite Hn0. reflexivity.
Qed.

End DefaultKind.

Section DefaultKindTheorem.
Context {F : PyFloatOps}.

(** X12. The graph of a base.BaseConnectivity cannot be read back with the
    default [conn_type] of [graph_to_conn], core.Connectivity: for a
    well-formed untyped model with printable ids and two populations that
    are not empty, [graph_to_conn] raises [KeyError: 'neuron_type'] at line
    197, before an object is created. *)
Theorem untyped_graph_needs_base_kind (c : Connectivity) :
  well_formed c = true ->
  printable (A_id c) -> printable (B_id c) ->
  types c = None ->
  0 < N_A c -> 0 < N_B c ->
  exists g, conn_to_graph c = inr g
    /\ graph_to_conn_run g core_Connectivity
       = Raised (KeyError "neuron_type") false.
Proof.
  intros wf idA idB Hty HA HB.
  destruct (nodes_of_encoded c wf) as (g & Hrun & _).
  exists g. split; [ exact Hrun | ].
  exact (untyped_refused c wf idA idB Hty g HA HB Hrun).
Qed.

End DefaultKindTheorem.

(* ===================================================================== *)
(** ** From a graph to its model and back *)

(** The number of parallel edges from [u] to [v]. *)
Definition parallel {F : PyFloatOps} (g : MultiDiGraph) (u v : string) : Z :=
  match keydict g u v with
  | Some kd => Z.of_nat (length kd)
  | None => 0%Z
  end.

Section GraphBack.
Context {F : PyFloatOps}.

(** Every node is labelled [id:index], with an id that is printable and
    holds neither a colon nor the separator of the keys of the store. *)
Definition plain_nodes (g : MultiDiGraph) : Prop :=
  forall l, In l (nodes g) ->
    exists id n, l = label id n /\ printable id
                 /\ no_char ":" id = true /\ no_char "/" id = true.

(** No attribute name holds the separator of the keys or a line break. *)
Definition plain_names (g : MultiDiGraph) : Prop :=
  forall u v (kd : dict Z attrs) k (a' : attrs) nm val,
    keydict g u v = Some kd -> dict_get k kd = Some a' ->
    dict_get nm a' = Some val ->
    no_char "/" nm = true /\ no_char newline nm = true.

Lemma write_data ct c a i b j conn name v c' :
  write ct c a i b j conn name v = inr c' ->
  exists m, _data c' = dict_set (a, b, conn, name) m (_data c).
Proof.
  assert (H : conn_setitem c a i b j conn name v = inr c' ->
              exists m, _data c' = dict_set (a, b, conn, name) m (_data c)).
  { unfold conn_setitem.
    destruct (negb (eqb_of a b)); [ | discriminate ].
    destruct (conn_N c a) as [ e | na ]; simpl; [ discriminate | ].
    destruct (conn_N c b) as [ e | nb ]; simpl; [ discriminate | ].
    destruct (in_range i na && in_range j nb && Z.leb 0 conn)%bool;
      [ | discriminate ].
    intros E. injection E as <-. simpl. eexists. reflexivity. }
  destruct ct; exact H.
Qed.

Lemma same_shape_conn_N c0 c id : same_shape c0 c -> conn_N c id = conn_N c0 id.
Proof.
  intros (E1 & E2 & E3 & E4). unfold conn_N. rewrite E1, E2, E3, E4. reflexivity.
Qed.

Lemma NoDup_nodupb {K} `{EqDec K} (xs : list K) : NoDup xs -> nodupb xs = true.
Proof.
  induction 1 as [ | x l Hx _ IH ]; simpl; [ reflexivity | ].
  rewrite IH, andb_true_r. apply negb_true_iff.
  destruct (mem x l) eqn:E; [ | reflexivity ].
  apply mem_In in E. contradiction.
Qed.

Lemma allocate_data ct z : _data (allocate ct z) = [].
Proof.
  unfold allocate.
  destruct ct, (s_gpot_spike z) as [ [ [ [ag asp] bg] bsp] | ]; reflexivity.
Qed.

(** What is known of a key of the returned object. *)
Definition key_ok (g : MultiDiGraph) (c : Connectivity)
  (k : string * string * Z * string) : Prop :=
  let '(a, b, s, nm) := k in
  a <> b /\ (0 <= s)%Z
  /\ (exists na, conn_N c a = inr na) /\ (exists nb, conn_N c b = inr nb)
  /\ exists i j v, written g a i b j s nm v.

Lemma decoded_keys g ct c :
  graph_to_conn g ct = inr c ->
  NoDup (dict_keys (_data c))
  /\ forall k, In k (dict_keys (_data c)) -> key_ok g c k.
Proof.
  intros Hrun.
  destruct (graph_to_conn_returns g ct c Hrun) as (z & _ & Hpop).
  set (c0 := allocate ct z) in *.
  assert (Q : same_shape c0 c /\ NoDup (dict_keys (_data c))
              /\ forall k, In k (dict_keys (_data c)) -> key_ok g c0 k).
  { apply (populate_keeps g ct
             (fun c => same_shape c0 c /\ NoDup (dict_keys (_data c))
                       /\ forall k, In k (dict_keys (_data c)) -> key_ok g c0 k))
      with (c0 := c0); [ | exact Hpop | ].
    - intros c1 c2 a i b j conn name v Hw Hwr (S & N & K).
      destruct (write_fields _ _ _ _ _ _ _ _ _ _ Hwr)
        as (E1 & E2 & E3 & E4 & _ & _ & Hab & Hconn & na & nb & Hna & Hnb & _).
      destruct (write_data _ _ _ _ _ _ _ _ _ _ Hwr) as (m & Hd).
      assert (S2 : same_shape c0 c2).
      { destruct S as (S1 & S2 & S3 & S4). repeat split; congruence. }
      split; [ exact S2 | ]. rewrite Hd.
      split; [ apply dict_keys_set_NoDup; exact N | ].
      intros k Hk. rewrite dict_keys_set in Hk.
      assert (Hnew : key_ok g c0 (a, b, conn, name)).
      { simpl. rewrite <- !(same_shape_conn_N c0 c1 _ S).
        repeat split; try assumption; eauto. }
      destruct (dict_has (a, b, conn, name) (_data c1)); [ apply K; exact Hk | ].
      apply in_app_or in Hk. destruct Hk as [ Hk | [ <- | [] ] ];
        [ apply K; exact Hk | exact Hnew ].
    - split; [ repeat split | ]. unfold c0. rewrite allocate_data.
      split; [ constructor | intros k [] ]. }
  destruct Q as (S & N & K). split; [ exact N | ].
  intros [ [ [a b] s] nm] Hk. specialize (K _ Hk). simpl in *.
  rewrite !(same_shape_conn_N c0 c _ S). exact K.
Qed.

(** The entries of the returned object at two units, against the parallel
    edges between their two nodes. *)
Lemma decoded_pair g ct c a i b j :
  tidy g -> edges_well_labelled g = true -> graph_to_conn g ct = inr c ->
  no_char ":" a = true -> no_char ":" b = true ->
  (forall s, conn_flag c a i b j s = true
             <-> (0 <= s < parallel g (label a i) (label b j))%Z)
  /\ (forall s nm x, written g a i b j s nm x ->
        (0 <= s < parallel g (label a i) (label b j))%Z).
Proof.
  intros Ht Hwl Hrun Ha Hb.
  assert (W : forall s nm x, written g a i b j s nm x ->
                (0 <= s < parallel g (label a i) (label b j))%Z).
  { intros s nm x Hw.
    destruct (written_edge g a i b j s nm x Hw) as (u & w & kd & Huw & Hu & Hv & Hkd & Hs).
    destruct (well_labelled_edge g u w Hwl Huw) as [Cu Cw].
    rewrite (canonical_label u a i Cu Hu), (canonical_label w b j Cw Hv) in Hkd.
    apply getitem2_keydict in Hkd. unfold parallel. rewrite Hkd. exact Hs. }
  split; [ | exact W ].
  intros s. split.
  - intros Hf. unfold conn_flag in Hf.
    destruct (zero_or_written g ct c a b s "conn" i j Hrun) as [ Z0 | (x & Hw) ].
    + rewrite Z0 in Hf. discriminate.
    + exact (W s "conn" x Hw).
  - intros Hs. unfold parallel in Hs.
    destruct (keydict g (label a i) (label b j)) as [ kd | ] eqn:Hkd; [ | lia ].
    assert (Hin : In (label a i, label b j) (edges g)).
    { apply (edges_In g _ _ Ht). exists kd. split; [ exact Hkd | ].
      intros ->. simpl in Hs. lia. }
    apply (decoded_flag g ct c _ _ a i b j kd Hwl Hrun Hin
             (edge_end_label a i Ha) (edge_end_label b j Hb)).
    + apply getitem2_keydict. exact Hkd.
    + exact Hs.
Qed.

Lemma prefix_plain g p :
  plain_nodes g -> In p (label_prefixes g) ->
  printable p /\ no_char ":" p = true /\ no_char "/" p = true.
Proof.
  intros Hn Hp. apply prefixes_of_In in Hp. destruct Hp as (l & k & Hl & Hp).
  destruct (Hn l Hl) as (id & n & -> & Hpr & Hc & Hs).
  destruct Hpr as [P1 P2]. rewrite (parse_label_label id n P1 P2) in Hp.
  injection Hp as <- <-. repeat split; assumption.
Qed.

Lemma eqb_of_refl {K} `{EqDec K} (x : K) : eqb_of x x = true.
Proof. unfold eqb_of. destruct (eq_dec x x); [ reflexivity | contradiction ]. Qed.

Lemma conn_N_id c id n : conn_N c id = inr n -> id = A_id c \/ id = B_id c.
Proof.
  unfold conn_N. destruct (eq_dec id (A_id c)); [ auto | ].
  destruct (eq_dec id (B_id c)); [ auto | discriminate ].
Qed.

(** The object that [graph_to_conn] makes of a plain graph is a
    well-formed model. *)
Lemma decoded_well_formed g c :
  tidy g -> edges_well_labelled g = true -> plain_nodes g -> plain_names g ->
  graph_to_conn g base_BaseConnectivity = inr c ->
  well_formed c = true.
Proof.
  intros Ht Hwl Hnodes Hnames Hrun.
  destruct (decoded_sizes g _ c Hrun) as (Hab & Hpre & _).
  destruct (prefix_plain g (A_id c) Hnodes (proj2 (Hpre _) (or_introl eq_refl)))
    as ((_ & NA) & CA & SA).
  destruct (prefix_plain g (B_id c) Hnodes (proj2 (Hpre _) (or_intror eq_refl)))
    as ((_ & NB) & CB & SB).
  destruct (decoded_keys g _ c Hrun) as (Hnd & Hkeys).
  assert (Htypes : types c = None).
  { destruct (graph_to_conn_returns g _ c Hrun) as (z & _ & Hpop).
    destruct (populate_fields g _ _ c Hpop) as (_ & _ & _ & _ & ->). reflexivity. }
  unfold well_formed. repeat (apply andb_true_iff; split).
  - apply negb_true_iff, String.eqb_neq. exact Hab.
  - exact CA.
  - exact CB.
  - apply NoDup_nodupb. exact Hnd.
  - apply forallb_forall. intros [ [ [a b] s] nm] Hk.
    destruct (Hkeys _ Hk) as (Hne & Hs & (na & Hna) & (nb & Hnb) & i0 & j0 & v0 & Hw0).
    apply conn_N_id in Hna, Hnb.
    assert (Hplain : forall p, p = A_id c \/ p = B_id c ->
              no_char ":" p = true /\ no_char "/" p = true
              /\ no_char newline p = true).
    { intros p [ -> | -> ]; auto. }
    destruct (Hplain a Hna) as (Ca & Sa & Na).
    destruct (Hplain b Hnb) as (Cb & Sb & Nb).
    assert (Hnm : no_char "/" nm = true /\ no_char newline nm = true).
    { inversion Hw0; subst; [ split; reflexivity | ].
      match goal with
      | H1 : getitem2 g ?u ?w = inr ?kd, H2 : dict_get ?k ?kd = Some ?a',
        H3 : dict_get nm ?a' = Some _ |- _ =>
          apply getitem2_keydict in H1; exact (Hnames _ _ _ _ _ _ _ H1 H2 H3)
      end. }
    destruct Hnm as [Snm Nnm].
    assert (Hdir : direction c a b = true).
    { unfold direction.
      destruct Hna as [ -> | -> ], Hnb as [ -> | -> ];
        try contradiction; rewrite !eqb_of_refl; simpl;
        [ reflexivity | apply orb_true_r ]. }
    assert (Hclean : clean_key (a, b, s, nm) = true).
    { unfold clean_key. rewrite Sa, Sb, Snm, Na, Nb, Nnm. reflexivity. }
    assert (Hleb : Z.leb 0 s = true) by (apply Z.leb_le; exact Hs).
    unfold sound_key. rewrite Hdir, Hclean, Hleb. simpl.
    apply forallb_forall. intros [i j] _.
    destruct (decoded_pair g _ c a i b j Ht Hwl Hrun Ca Cb) as [Hflag Hwr].
    destruct (String.eqb nm "conn") eqn:Enm.
    + destruct (conn_flag c a i b j s) eqn:Ef; [ | reflexivity ].
      destruct (Z.eqb_spec s 0) as [ | Hs0 ]; [ reflexivity | ]. simpl.
      apply Hflag. apply Hflag in Ef. lia.
    + destruct (truthy (value_at c (a, b, s, nm) i j)) eqn:Etr; [ | reflexivity ].
      simpl. apply Hflag.
      destruct (zero_or_written g _ c a b s nm i j Hrun) as [ Z0 | (x & Hw) ].
      * rewrite Z0 in Etr. discriminate.
      * exact (Hwr s nm x Hw).
  - unfold sound_types. rewrite Htypes. reflexivity.
Qed.

End GraphBack.

Section GraphRoundTrip.
Context {F : PyFloatOps}.
Variables (g : MultiDiGraph) (c : Connectivity).
Hypothesis Ht : tidy g.
Hypothesis Hwl : edges_well_labelled g = true.
Hypothesis Hnodes : plain_nodes g.
Hypothesis Hnames : plain_names g.
Hypothesis Hrun : graph_to_conn g base_BaseConnectivity = inr c.

Lemma decoded_wf : well_formed c = true.
Proof. exact (decoded_well_formed g c Ht Hwl Hnodes Hnames Hrun). Qed.

(** The nodes of the graph are the labels of the units of the object. *)
Lemma decoded_units l :
  In l (nodes g) <-> exists id n, unit c id n /\ l = label id n.
Proof.
  destruct (decoded_sizes g _ c Hrun) as (Hab & Hpre & HA & HB).
  assert (Hunit : forall id n, In n (indices g id) -> unit c id n).
  { intros id n Hn.
    assert (Hp : In id (label_prefixes g)).
    { apply indices_of_In in Hn. destruct Hn as (l' & Hl' & Hp).
      apply prefixes_of_In. exists l', n. auto. }
    apply Hpre in Hp. unfold unit. apply in_range_spec.
    destruct Hp as [ -> | -> ].
    - rewrite size_A. apply HA. exact Hn.
    - rewrite (size_B c decoded_wf). apply HB. exact Hn. }
  split.
  - intros Hl. destruct (Hnodes l Hl) as (id & n & -> & (P1 & P2) & _).
    exists id, n. split; [ | reflexivity ]. apply Hunit.
    apply indices_of_In. exists (label id n).
    split; [ exact Hl | apply parse_label_label; assumption ].
  - intros (id & n & Hu & ->).
    assert (Hn : In n (indices g id)).
    { pose proof (unit_id c id n Hu) as Hid.
      unfold unit in Hu. apply in_range_spec in Hu.
      destruct Hid as [ -> | -> ].
      - apply HA. rewrite size_A in Hu. exact Hu.
      - apply HB. rewrite (size_B c decoded_wf) in Hu. exact Hu. }
    apply indices_of_In in Hn. destruct Hn as (l & Hl & Hp).
    destruct (Hnodes l Hl) as (id' & n' & -> & (P1 & P2) & _).
    rewrite (parse_label_label id' n' P1 P2) in Hp. injection Hp as -> ->.
    exact Hl.
Qed.

Lemma decoded_unit_ids id n :
  unit c id n -> no_char ":" id = true.
Proof. apply (unit_no_colon c decoded_wf). Qed.

Lemma graph_back :
  exists g', conn_to_graph c = inr g'
    /\ (forall l, In l (nodes g') <-> In l (nodes g))
    /\ (forall u v s, In u (nodes g) -> In v (nodes g) ->
          (has_edge g' u v s = true <-> (0 <= s < parallel g u v)%Z))
    /\ (forall u v (kd : dict Z attrs) s k (a' : attrs) nm val,
          In u (nodes g) -> In v (nodes g) ->
          keydict g u v = Some kd ->
          In (s, k) (enumerate (dict_keys kd)) ->
          dict_get k kd = Some a' -> dict_get nm a' = Some val ->
          exists x, coerced nm val x
                    /\ edge_attr g' u v s nm = if truthy x then Some x else None).
Proof.
  pose proof decoded_wf as wf.
  destruct (conn_to_graph_spec c wf) as (g' & R & _ & Hedges & Hattrs).
  destruct (nodes_of_encoded c wf) as (g'' & R' & Hn).
  rewrite R in R'. injection R' as <-.
  exists g'. split; [ exact R | ]. split; [ | split ].
  - intros l. rewrite Hn, decoded_units. split.
    + intros Hl. apply (label_unit c wf) in Hl.
      destruct Hl as (id & n & Hu & ->). exists id, n. auto.
    + intros (id & n & Hu & ->). apply unit_label. exact Hu.
  - intros u v s Hu Hv.
    apply decoded_units in Hu, Hv.
    destruct Hu as (a & i & Hi & ->), Hv as (b & j & Hj & ->).
    rewrite (Hedges a i b j s Hi Hj).
    apply (decoded_pair g _ c a i b j Ht Hwl Hrun
             (decoded_unit_ids a i Hi) (decoded_unit_ids b j Hj)).
  - intros u v kd s k a' nm val Hu Hv Hkd Hen Ha' Hval.
    apply decoded_units in Hu, Hv.
    destruct Hu as (a & i & Hi & ->), Hv as (b & j & Hj & ->).
    assert (Hget : getitem2 g (label a i) (label b j) = inr kd)
      by (apply getitem2_keydict; exact Hkd).
    assert (Hin : In (label a i, label b j) (edges g)).
    { apply (edges_In g _ _ Ht). exists kd. split; [ exact Hkd | ].
      intros ->. contradiction. }
    assert (Hnm : nm <> "conn").
    { exact (well_labelled_attr g _ _ kd k a' nm val Hwl Hget Ha' Hval). }
    exists (value_at c (a, b, s, nm) i j). split.
    + exact (decoded_param g _ c _ _ a i b j kd s k a' nm val Hwl Hrun Hin
               (edge_end_label a i (decoded_unit_ids a i Hi))
               (edge_end_label b j (decoded_unit_ids b j Hj)) Hget Hen Ha' Hval).
    + exact (Hattrs a i b j s nm Hi Hj Hnm).
Qed.

End GraphRoundTrip.

Section GraphRoundTripTheorem.
Context {F : PyFloatOps}.

(** X13. Round trip graph -> model -> graph. Let [g] be a graph whose
    dictionaries hold every key once, whose nodes are labelled [id:index]
    with printable ids without colon and without '/', whose edge ends are
    such labels, and whose attributes are named without '/' and line break
    and not 'conn'. When [graph_to_conn] returns a base.BaseConnectivity for
    [g], [conn_to_graph] turns that object into a graph with the same
    nodes, in which two nodes are joined by an edge with the key [s]
    exactly for the [s] below the number of parallel edges they have in
    [g] (the keys are renumbered from 0), and in which the edge in slot [s]
    carries each attribute of the [s]-th parallel edge of [g] converted by
    [int] (for 'id') or [float], unless the converted value is 0. *)
Theorem graph_round_trip (g : MultiDiGraph) (c : Connectivity) :
  tidy g -> edges_well_labelled g = true -> plain_nodes g -> plain_names g ->
  graph_to_conn g base_BaseConnectivity = inr c ->
  exists g', conn_to_graph c = inr g'
    /\ (forall l, In l (nodes g') <-> In l (nodes g))
    /\ (forall u v s, In u (nodes g) -> In v (nodes g) ->
          (has_edge g' u v s = true <-> (0 <= s < parallel g u v)%Z))
    /\ (forall u v (kd : dict Z attrs) s k (a' : attrs) nm val,
          In u (nodes g) -> In v (nodes g) ->
          keydict g u v = Some kd ->
          In (s, k) (enumerate (dict_keys kd)) ->
          dict_get k kd = Some a' -> dict_get nm a' = Some val ->
          exists x, coerced nm val x
                    /\ edge_attr g' u v s nm = if truthy x then Some x else None).
Proof. exact (graph_back g c). Qed.

End GraphRoundTripTheorem.

Section LateError.
Context {F : PyFloatOps}.

(** X14. A graph can pass every check and still make [graph_to_conn]
    raise after the connectivity object was created: when the first edge
    leaves a node whose label does not split at ':' into exactly two
    parts (a population id with a colon gives three or more), the
    unpacking of line 223 raises its [ValueError] ('too many values to
    unpack' for more than two parts). *)
Theorem colon_in_id_raises_late (g : MultiDiGraph) (ct : conn_type)
  (u v : string) (rest : list (string * string)) :
  tidy g ->
  nx_is_bipartite g = true ->
  Forall parses (nodes g) ->
  distinct (label_prefixes g) = 2 ->
  (forall p, In p (label_prefixes g) -> consecutive (indices g p)) ->
  (ct = core_Connectivity ->
   forall l p n, In l (nodes g) -> parse_label l = Some (p, n) ->
     has_neuron_type g (label p n) = true) ->
  edges g = (u, v) :: rest ->
  length (split_on ":" u) <> 2 ->
  graph_to_conn_run g ct
  = Raised (unpack_error 2 (length (split_on ":" u))) true.
Proof.
  intros Ht Hb Hparse Hdist Hcons Htypes Hedges Hlen.
  destruct (validate_total g ct Ht Hb Hparse Hdist Hcons Htypes) as (z & sa & sb & Hck).
  { rewrite Hedges. discriminate. }
  unfold graph_to_conn_run. rewrite (ck_validate _ _ _ _ _ Hck).
  unfold populate. rewrite Hedges. simpl. unfold set_edge. simpl.
  destruct (split_on ":" u) as [ | x [ | y [ | w t ] ] ]; try reflexivity.
  contradiction Hlen. reflexivity.
Qed.

End LateError.

(* ===================================================================== *)
(** ** Inputs that are refused *)

Section Refused.
Context {F : PyFloatOps}.

Definition is_KeyError (e : exn) : Prop := exists k, e = KeyError k.

(** A loop whose rounds raise nothing but exceptions of one kind, and one
    of whose rounds always raises, leaves with an exception of that kind. *)
Lemma foreach_fails {A S} (P : exn -> Prop) (xs : list A)
  (body : A -> S -> result S) :
  (forall x s e, body x s = inl e -> P e) ->
  (exists x, In x xs /\ forall s, exists e, body x s = inl e) ->
  forall s0, exists e, foreach xs body s0 = inl e /\ P e.
Proof.
  intros Hkind (x & Hx & Hfail).
  induction xs as [ | y xs IH ]; [ contradiction | ].
  intros s0. simpl. destruct (body y s0) as [ e | s1 ] eqn:Hy.
  - exists e. split; [ reflexivity | eapply Hkind; eauto ].
  - simpl. destruct Hx as [ -> | Hx ]; [ | apply IH; exact Hx ].
    destruct (Hfail s0) as (e & He). congruence.
Qed.

(** The translation table has no entry for a unit that is counted. *)
Definition table_gap (t : TypeInfo) (id ty : string) (count : nat) : Prop :=
  exists k, In k (xrange count) /\ translate t id ty k = None.

Lemma tag_nodes_kind t id ty count g e :
  tag_nodes t id ty count g = inl e -> is_KeyError e.
Proof.
  unfold tag_nodes. revert g.
  induction (xrange count) as [ | i rest IH ]; intros g; simpl; [ discriminate | ].
  destruct (dict_get id (idx_translate t)) as [ tbl | ]; simpl;
    [ | intros E; injection E as <-; eexists; reflexivity ].
  destruct (dict_get (ty, i) tbl) as [ n | ]; simpl;
    [ | intros E; injection E as <-; eexists; reflexivity ].
  unfold set_node_attr.
  destruct (dict_get (label id n) (node g)) as [ a | ]; simpl;
    [ apply IH | intros E; injection E as <-; eexists; reflexivity ].
Qed.

Lemma tag_nodes_gap t id ty count :
  table_gap t id ty count ->
  forall g, exists e, tag_nodes t id ty count g = inl e /\ is_KeyError e.
Proof.
  intros (k & Hk & Hnone) g.
  destruct (tag_nodes t id ty count g) as [ e | g' ] eqn:E.
  - exists e. split; [ reflexivity | ]. exact (tag_nodes_kind _ _ _ _ _ _ E).
  - exfalso. unfold tag_nodes in E.
    destruct (foreach_fails (fun _ => True) (xrange count)
      (fun i g =>
         tbl <- of_option (dict_get id (idx_translate t)) (KeyError id) ;;
         n <- of_option (dict_get (ty, i) tbl)
                (KeyError ("('" ++ ty ++ "', " ++ py_str i ++ ")")) ;;
         set_node_attr g (label id n) "neuron_type" (PyStr ty))) with (s0 := g)
      as (e & He & _); [ auto | | congruence ].
    exists k. split; [ exact Hk | ]. intros s. unfold translate in Hnone.
    destruct (dict_get id (idx_translate t)) as [ tbl | ]; simpl;
      [ | eexists; reflexivity ].
    rewrite Hnone. simpl. eexists; reflexivity.
Qed.

(** X15. [conn_to_graph] raises a [KeyError], and returns no graph, for
    every core.Connectivity whose index translation table lacks the entry
    of a unit that the per-type counts include, whatever else the object
    holds. *)
Theorem incomplete_table_raises (c : Connectivity) (t : TypeInfo) :
  types c = Some t ->
  table_gap t (A_id c) "gpot" (N_A_gpot t)
  \/ table_gap t (B_id c) "gpot" (N_B_gpot t)
  \/ table_gap t (A_id c) "spike" (N_A_spike t)
  \/ table_gap t (B_id c) "spike" (N_B_spike t) ->
  exists k, conn_to_graph c = inl (KeyError k).
Proof.
  intros Ht Hgap.
  assert (H : exists e, graph_types c (graph_nodes c) = inl e /\ is_KeyError e).
  { unfold graph_types. rewrite Ht.
    generalize (graph_nodes c). intros g0.
    destruct (tag_nodes t (A_id c) "gpot" (N_A_gpot t) g0) as [ e | g1 ] eqn:E1;
      [ exists e; split; [ reflexivity | eapply tag_nodes_kind; eauto ] | ].
    simpl.
    destruct (tag_nodes t (B_id c) "gpot" (N_B_gpot t) g1) as [ e | g2 ] eqn:E2;
      [ exists e; split; [ reflexivity | eapply tag_nodes_kind; eauto ] | ].
    simpl.
    destruct (tag_nodes t (A_id c) "spike" (N_A_spike t) g2) as [ e | g3 ] eqn:E3;
      [ exists e; split; [ reflexivity | eapply tag_nodes_kind; eauto ] | ].
    simpl.
    destruct (tag_nodes t (B_id c) "spike" (N_B_spike t) g3) as [ e | g4 ] eqn:E4;
      [ exists e; split; [ reflexivity | eapply tag_nodes_kind; eauto ] | ].
    exfalso.
    destruct Hgap as [ G | [ G | [ G | G ] ] ].
    - destruct (tag_nodes_gap _ _ _ _ G g0) as (e & He & _). congruence.
    - destruct (tag_nodes_gap _ _ _ _ G g1) as (e & He & _). congruence.
    - destruct (tag_nodes_gap _ _ _ _ G g2) as (e & He & _). congruence.
    - destruct (tag_nodes_gap _ _ _ _ G g3) as (e & He & _). congruence. }
  destruct H as (e & He & (k & ->)). exists k.
  unfold conn_to_graph. rewrite He. reflexivity.
Qed.

Lemma distinct_single (xs : list string) b :
  (forall x, In x xs -> x = b) -> distinct xs <= 1.
Proof.
  intros H. unfold distinct.
  pose proof (NoDup_nodup string_dec xs) as Hnd.
  assert (Hall : forall x, In x (nodup string_dec xs) -> x = b).
  { intros x Hx. apply H. apply (nodup_In string_dec). exact Hx. }
  destruct (nodup string_dec xs) as [ | x [ | y l ] ]; simpl; try lia.
  exfalso. inversion Hnd as [ | ? ? Hnin _ ]; subst. apply Hnin. left.
  rewrite (Hall x), (Hall y); simpl; auto.
Qed.

(** X16. A model with an empty population does not survive the round
    trip: for a well-formed model with printable ids and [N_A = 0] or
    [N_B = 0], [conn_to_graph] returns a graph and [graph_to_conn] refuses
    it with 'incorrectly formatted graph', for either kind of object. *)
Theorem empty_population_is_refused (c : Connectivity) (ct : conn_type) :
  well_formed c = true ->
  printable (A_id c) -> printable (B_id c) ->
  N_A c = 0 \/ N_B c = 0 ->
  exists g, conn_to_graph c = inr g
    /\ graph_to_conn_run g ct
       = Raised (ValueError "incorrectly formatted graph") false.
Proof.
  intros wf idA idB Hempty.
  destruct (nodes_of_encoded c wf) as (g & Hrun & _).
  exists g. split; [ exact Hrun | ].
  apply run_prefix_count.
  - exact (encoded_bipartite c g wf Hrun).
  - exact (encoded_parses c wf idA idB g Hrun).
  - assert (Hone : exists b, forall p, In p (label_prefixes g) -> p = b).
    { destruct Hempty as [ H0 | H0 ].
      - exists (B_id c). intros p Hp.
        apply (encoded_prefixes c wf idA idB g p Hrun) in Hp. destruct Hp as (k & Hu).
        destruct (unit_id c p k Hu) as [ -> | -> ]; [ | reflexivity ].
        unfold unit in Hu. rewrite size_A, H0 in Hu.
        apply in_range_spec in Hu. lia.
      - exists (A_id c). intros p Hp.
        apply (encoded_prefixes c wf idA idB g p Hrun) in Hp. destruct Hp as (k & Hu).
        destruct (unit_id c p k Hu) as [ -> | -> ]; [ reflexivity | ].
        unfold unit in Hu. rewrite (size_B c wf), H0 in Hu.
        apply in_range_spec in Hu. lia. }
    destruct Hone as (b & Hb). pose proof (distinct_single _ b Hb). lia.
Qed.

(** Lines 156-212 on a graph without edges that passes the other checks. *)
Lemma validate_edgeless g ct :
  nx_is_bipartite g = true ->
  Forall parses (nodes g) ->
  distinct (label_prefixes g) = 2 ->
  (forall p, In p (label_prefixes g) -> consecutive (indices g p)) ->
  (ct = core_Connectivity ->
   forall l p n, In l (nodes g) -> parse_label l = Some (p, n) ->
     has_neuron_type g (label p n) = true) ->
  edges g = [] ->
  validate g ct = inl (ValueError "max() arg is an empty sequence").
Proof.
  intros Hb Hparse Hdist Hcons Htypes Hedges.
  destruct (two_populations g Hparse Hdist)
    as (a & sa & b & sb & Hnd & Hab & Hsa0 & Hsb0 & Hpre & Hsa & Hsb).
  assert (Hna : not_consecutive sa = inr false).
  { apply (not_consecutive_ok sa Hsa0).
    apply (consecutive_same (indices g a)); [ intros k; symmetry; apply Hsa | ].
    apply Hcons. apply Hpre. left. reflexivity. }
  assert (Hnb : not_consecutive sb = inr false).
  { apply (not_consecutive_ok sb Hsb0).
    apply (consecutive_same (indices g b)); [ intros k; symmetry; apply Hsb | ].
    apply Hcons. apply Hpre. right. reflexivity. }
  unfold validate. rewrite Hb, Hnd. simpl. rewrite Hna. simpl. rewrite Hnb. simpl.
  rewrite Hedges. simpl.
  destruct ct; [ reflexivity | ].
  destruct (count_types_total g a sa) as (ag & asp & ->).
  { intros n Hn. apply Hsa in Hn. apply indices_of_In in Hn.
    destruct Hn as (l & Hl' & Hp). exact (Htypes eq_refl l a n Hl' Hp). }
  destruct (count_types_total g b sb) as (bg & bsp & ->).
  { intros n Hn. apply Hsb in Hn. apply indices_of_In in Hn.
    destruct Hn as (l & Hl' & Hp). exact (Htypes eq_refl l b n Hl' Hp). }
  reflexivity.
Qed.

Lemma edgeless_graph_refused_aux g ct :
  nx_is_bipartite g = true ->
  Forall parses (nodes g) ->
  distinct (label_prefixes g) = 2 ->
  (forall p, In p (label_prefixes g) -> consecutive (indices g p)) ->
  (ct = core_Connectivity ->
   forall l p n, In l (nodes g) -> parse_label l = Some (p, n) ->
     has_neuron_type g (label p n) = true) ->
  edges g = [] ->
  graph_to_conn_run g ct
  = Raised (ValueError "max() arg is an empty sequence") false.
Proof.
  intros Hb Hparse Hdist Hcons Htypes Hedges. unfold graph_to_conn_run.
  rewrite (validate_edgeless g ct Hb Hparse Hdist Hcons Htypes Hedges).
  reflexivity.
Qed.

(** X17. [graph_to_conn] returns no object for a graph without edges:
    when such a graph passes the checks of lines 158-209 (bipartite, labels
    that parse, two population ids, consecutive indices, neuron types when
    a core.Connectivity is asked for), line 212 raises the [ValueError] of
    [max] on an empty list, before an object is created. *)
Theorem edgeless_graph_is_refused (g : MultiDiGraph) (ct : conn_type) :
  nx_is_bipartite g = true ->
  Forall parses (nodes g) ->
  distinct (label_prefixes g) = 2 ->
  (forall p, In p (label_prefixes g) -> consecutive (indices g p)) ->
  (ct = core_Connectivity ->
   forall l p n, In l (nodes g) -> parse_label l = Some (p, n) ->
     has_neuron_type g (label p n) = true) ->
  edges g = [] ->
  graph_to_conn_run g ct
  = Raised (ValueError "max() arg is an empty sequence") false.
Proof.
  exact (edgeless_graph_refused_aux g ct).
Qed.

(** X18. A model without any connection does not survive the round trip:
    for a well-formed model with printable ids, two populations that are
    not empty and no presence flag set, [conn_to_graph] returns a graph
    without edges, and [graph_to_conn] raises the [ValueError] of [max] on
    it instead of returning a model with the same sizes. *)
Theorem unconnected_model_is_refused (c : Connectivity) (ct : conn_type) :
  well_formed c = true ->
  printable (A_id c) -> printable (B_id c) ->
  0 < N_A c -> 0 < N_B c ->
  (ct = core_Connectivity -> types c <> None) ->
  (forall a i b j s,
     in_range i (size c a) = true -> in_range j (size c b) = true ->
     conn_flag c a i b j s = false) ->
  exists g, conn_to_graph c = inr g /\ edges g = []
    /\ graph_to_conn_run g ct
       = Raised (ValueError "max() arg is an empty sequence") false.
Proof.
  intros wf idA idB HA HB Hct Hnone.
  destruct (nodes_of_encoded c wf) as (g & Hrun & _).
  destruct (wf_ids c wf) as (Hab & _).
  assert (Hedges : edges g = []).
  { destruct (edges g) as [ | [u v] es ] eqn:E; [ reflexivity | exfalso ].
    assert (Hin : In (u, v) (edges g)) by (rewrite E; left; reflexivity).
    destruct (encoded_edge c wf g u v Hrun Hin)
      as (a & i & b & j & s & _ & _ & _ & Hi & Hj & Hf).
    rewrite (Hnone a i b j s Hi Hj) in Hf. discriminate. }
  exists g. split; [ exact Hrun | ]. split; [ exact Hedges | ].
  assert (UA : unit c (A_id c) 0).
  { unfold unit. rewrite size_A. apply in_range_spec. lia. }
  assert (UB : unit c (B_id c) 0).
  { unfold unit. rewrite (size_B c wf). apply in_range_spec. lia. }
  apply edgeless_graph_refused_aux; try assumption.
  - exact (encoded_bipartite c g wf Hrun).
  - exact (encoded_parses c wf idA idB g Hrun).
  - apply (distinct_two _ (A_id c) (B_id c) Hab). intros p.
    rewrite (encoded_prefixes c wf idA idB g p Hrun). split.
    + intros (k & Hu). exact (unit_id c p k Hu).
    + intros [ -> | -> ]; eexists; eassumption.
  - intros p _. exact (encoded_consecutive c wf idA idB g p Hrun).
  - intros Hc l p n Hl Hp.
    assert (Hu : unit c p n).
    { apply (encoded_indices c wf idA idB g p n Hrun). apply indices_of_In.
      exists l. auto. }
    exact (encoded_typed c wf g p n Hrun (Hct Hc) Hu).
Qed.

End Refused.

(* ===================================================================== *)
(** ** examples/timing/timing_demo.py: [gen_sels] *)

(** The exception of a failed [assert]. *)
Inductive assert_exn : Type := AssertionError.

(** [sep.join(xs)] *)
Definition join (sep : string) (xs : list string) : string :=
  match xs with
  | [] => EmptyString
  | x :: r => fold_left (fun acc y => acc ++ sep ++ y)%string r x
  end.

(** ['lpu%s' % i] *)
Definition lpu_id (i : Z) : string := "lpu" ++ py_str i.

(** The indices [j] of [xrange(n_lpu)] with [j != i]. *)
Definition others (n_lpu i : Z) : list Z :=
  filter (fun j => negb (Z.eqb j i)) (py_range n_lpu).

(** ['['+','.join(['lpu%s' % j for j in xrange(n_lpu) if j != i])+']'] *)
Definition other_lpu_ids (n_lpu i : Z) : string :=
  "[" ++ join "," (map lpu_id (others n_lpu i)) ++ "]".

(** ['/%s/in/gpot/%s/[0:%i]' % (lpu_id, other_lpu_ids, n)] and its three
    variants. *)
Definition port_sel (lpu io ty other : string) (n : Z) : string :=
  "/" ++ lpu ++ "/" ++ io ++ "/" ++ ty ++ "/" ++ other ++ "/[0:" ++ py_str n ++ "]".

(** The value stored for LPU [i]: the selectors of its input graded
    potential, input spiking, output graded potential and output spiking
    ports. *)
Definition sels_of (n_lpu n_spike n_gpot i : Z)
  : string * string * string * string :=
  let lpu := lpu_id i in
  let other := other_lpu_ids n_lpu i in
  (port_sel lpu "in" "gpot" other n_gpot,
   port_sel lpu "in" "spike" other n_spike,
   port_sel lpu "out" "gpot" other n_gpot,
   port_sel lpu "out" "spike" other n_spike).

(** [gen_sels(n_lpu, n_spike, n_gpot)] *)
Definition gen_sels (n_lpu n_spike n_gpot : Z)
  : assert_exn + dict string (string * string * string * string) :=
  if negb (Z.leb 2 n_lpu) then inl AssertionError
  else if negb (Z.leb 0 n_spike) then inl AssertionError
  else if negb (Z.leb 0 n_gpot) then inl AssertionError
  else
    inr (fold_left
           (fun results i =>
              dict_set (lpu_id i) (sels_of n_lpu n_spike n_gpot i) results)
           (py_range n_lpu) []).

Section GenSels.

Lemma lpu_id_inj i j : lpu_id i = lpu_id j -> i = j.
Proof.
  unfold lpu_id. intros E. simpl in E. injection E as E. apply py_str_inj. exact E.
Qed.

(** A dictionary filled in a loop under keys that differ from round to
    round holds one entry for every round, in the order of the rounds. *)
Lemma dict_filled {A V} (key : A -> string) (val : A -> V) (xs : list A) :
  NoDup (map key xs) ->
  forall d0 : dict string V,
    (forall x, In x xs -> dict_get (key x) d0 = None) ->
    let d := fold_left (fun d x => dict_set (key x) (val x) d) xs d0 in
    dict_keys d = dict_keys d0 ++ map key xs
    /\ (forall x, In x xs -> dict_get (key x) d = Some (val x)).
Proof.
  induction xs as [ | x xs IH ]; intros Hnd d0 Hfresh; simpl.
  - rewrite app_nil_r. split; [ reflexivity | intros x [] ].
  - simpl in Hnd. inversion Hnd as [ | ? ? Hnin Hnd' ]; subst.
    destruct (IH Hnd' (dict_set (key x) (val x) d0)) as [Hk Hv].
    { intros y Hy. rewrite dict_get_set_other; [ apply Hfresh; right; exact Hy | ].
      intros E. apply Hnin. rewrite <- E. apply in_map. exact Hy. }
    split.
    + rewrite Hk, dict_keys_set. unfold dict_has.
      rewrite (Hfresh x (or_introl eq_refl)), <- app_assoc. reflexivity.
    + intros y [ <- | Hy ]; [ | apply Hv; exact Hy ].
      assert (Hkeep : forall ys (d : dict string V),
                ~ In (key x) (map key ys) ->
                dict_get (key x) (fold_left (fun d x => dict_set (key x) (val x) d) ys d)
                = dict_get (key x) d).
      { induction ys as [ | z ys IHy ]; intros d Hn; simpl; [ reflexivity | ].
        rewrite IHy; [ | intros H; apply Hn; right; exact H ].
        apply dict_get_set_other. intros E. apply Hn. left. symmetry. exact E. }
      rewrite (Hkeep xs _ Hnin). apply dict_get_set_same.
Qed.

Lemma others_spec n i j :
  In j (others n i) <-> (0 <= j < n)%Z /\ j <> i.
Proof.
  unfold others. rewrite filter_In, py_range_In, negb_true_iff, Z.eqb_neq.
  reflexivity.
Qed.

(** X19. [gen_sels] fails its assertions exactly when [n_lpu < 2] or a
    port count is negative. Otherwise it returns a dictionary with one
    entry for each of the [n_lpu] LPUs, under the keys [lpu0], ...,
    [lpu(n_lpu-1)], none of which overwrites another; the entry of
    [lpu i] holds the four selectors built from its own id and from the
    list of the other LPUs, which names every LPU but [i] itself. *)
Theorem gen_sels_spec (n_lpu n_spike n_gpot : Z) :
  if (Z.leb 2 n_lpu && Z.leb 0 n_spike && Z.leb 0 n_gpot)%bool
  then exists results,
         gen_sels n_lpu n_spike n_gpot = inr results
         /\ dict_keys results = map lpu_id (py_range n_lpu)
         /\ NoDup (dict_keys results)
         /\ length results = Z.to_nat n_lpu
         /\ (forall i, (0 <= i < n_lpu)%Z ->
               dict_get (lpu_id i) results = Some (sels_of n_lpu n_spike n_gpot i)
               /\ forall j, In j (others n_lpu i) <-> (0 <= j < n_lpu)%Z /\ j <> i)
  else gen_sels n_lpu n_spike n_gpot = inl AssertionError.
Proof.
  unfold gen_sels.
  destruct (Z.leb 2 n_lpu); simpl; [ | reflexivity ].
  destruct (Z.leb 0 n_spike); simpl; [ | reflexivity ].
  destruct (Z.leb 0 n_gpot); simpl; [ | reflexivity ].
  eexists. split; [ reflexivity | ].
  assert (Hnd : NoDup (map lpu_id (py_range n_lpu))).
  { apply NoDup_map_inj_in; [ | apply xrange_NoDup ].
    intros x y _ _. apply lpu_id_inj. }
  destruct (dict_filled lpu_id (sels_of n_lpu n_spike n_gpot) (py_range n_lpu)
              Hnd []) as [Hk Hv]; [ reflexivity | ].
  simpl in Hk. split; [ exact Hk | ]. split; [ rewrite Hk; exact Hnd | ].
  split.
  - transitivity (length (map lpu_id (py_range n_lpu))).
    + rewrite <- Hk. unfold dict_keys. rewrite length_map. reflexivity.
    + rewrite length_map. unfold py_range, xrange.
      rewrite length_map, length_seq. reflexivity.
  - intros i Hi. split; [ | intros j; apply others_spec ].
    apply Hv. apply py_range_In. exact Hi.
Qed.

End GenSels.

(* ===================================================================== *)
(** ** Concrete graphs and models *)

#[local] Existing Instance binary64.
#[local] Open Scope Z_scope.

(** A graph of the nodes [ns] and, in this order, the edges [es]. *)
Definition graph_of (ns : list string) (es : list (string * string))
  : MultiDiGraph :=
  fold_left (fun g '(u, v) => add_edge g u v) es (add_nodes_from empty_graph ns).

Definition model_of (r : result Connectivity) : Connectivity :=
  match r with
  | inr c => c
  | inl _ => new_BaseConnectivity 0 0 0 "" ""
  end.

(** One node whose label has no colon, with an edge to itself. *)
Definition g_self_loop : MultiDiGraph := graph_of ["X"] [("X", "X")].

(** The three nodes A:0, B:0, C:0 without edges. *)
Definition g_three : MultiDiGraph := graph_of ["A:0"; "B:0"; "C:0"] [].

(** The three nodes A:0, B:0, C:0 on a cycle. *)
Definition g_triangle : MultiDiGraph :=
  graph_of ["A:0"; "B:0"; "C:0"] [("A:0", "B:0"); ("B:0", "C:0"); ("C:0", "A:0")].

(** The two nodes A:0 and A:2 alone. *)
Definition g_gap_alone : MultiDiGraph := graph_of ["A:0"; "A:2"] [].

(** The nodes A:0 and A:2 beside one node of a second population. *)
Definition g_gap : MultiDiGraph := graph_of ["A:0"; "A:2"; "B:0"] [].

(** A node with a negative index. *)
Definition g_negative : MultiDiGraph := graph_of ["A:-1"; "B:0"] [].

(** A label without colon between two proper labels. *)
Definition g_unmatched : MultiDiGraph := graph_of ["A:0"; "X"; "B:0"] [].

(** Two populations of one node each and no edge. *)
Definition g_edgeless : MultiDiGraph := graph_of ["A:0"; "B:0"] [].

Definition g_edgeless_typed : MultiDiGraph :=
  {| node := [("A:0", [("neuron_type", PyStr "gpot")]);
              ("B:0", [("neuron_type", PyStr "spike")])];
     adj := [("A:0", []); ("B:0", [])] |}.

(** Two parallel edges from A:0 to B:0 with the keys 5 and 9, attributes
    given as text. *)
Definition g_parallel : MultiDiGraph :=
  {| node := [("A:0", []); ("B:0", [])];
     adj := [("A:0", [("B:0", [(5, [("id", PyStr "5"); ("weight", PyStr "0.3")]);
                               (9, [])])]);
             ("B:0", [])] |}.

Definition c_parallel : Connectivity :=
  model_of (graph_to_conn (F := binary64) g_parallel base_BaseConnectivity).

(** One edge from A:0 to B:0, with an attribute that is named 'conn'. *)
Definition g_conn_attr : MultiDiGraph :=
  {| node := [("A:0", []); ("B:0", [])];
     adj := [("A:0", [("B:0", [(0, [("conn", PyInt 0)])])]);
             ("B:0", [])] |}.

Definition c_conn_attr : Connectivity :=
  model_of (graph_to_conn (F := binary64) g_conn_attr base_BaseConnectivity).

(** Two labels of the unit 0 of A: one edge from A:0 and two parallel edges
    from A:00, all to B:0. *)
Definition g_two_labels : MultiDiGraph :=
  {| node := [("A:0", []); ("A:00", []); ("B:0", [])];
     adj := [("A:0", [("B:0", [(0, [])])]);
             ("A:00", [("B:0", [(0, []); (1, [])])]);
             ("B:0", [])] |}.

Definition c_two_labels : Connectivity :=
  model_of (graph_to_conn (F := binary64) g_two_labels base_BaseConnectivity).

Definition one_half : pyval := PyFloat (SpecFloat.S754_finite false 1 (-1)).

(** A model of 1 and 2 units: both pairs connected in slot 0, a weight on
    the second pair only. *)
Definition m_two : Connectivity :=
  model_of (
    c <- conn_setitem (new_BaseConnectivity 1 2 1 "A" "B")
           "A" 0 "B" 0 0 "conn" (PyInt 1) ;;
    c <- conn_setitem c "A" 0 "B" 1 0 "conn" (PyInt 1) ;;
    conn_setitem c "A" 0 "B" 1 0 "weight" one_half).

(** A model of 1 and 1 units with room for two connections: only slot 1 is
    used, and carries a weight. *)
Definition m_skipped_slot : Connectivity :=
  model_of (
    c <- conn_setitem (new_BaseConnectivity 1 1 2 "A" "B")
           "A" 0 "B" 0 1 "conn" (PyInt 1) ;;
    conn_setitem c "A" 0 "B" 0 1 "weight" one_half).

(** A model that was created and not written to. *)
Definition m_fresh : Connectivity := new_BaseConnectivity 1 1 1 "A" "B".

Definition t_example : TypeInfo :=
  {| N_A_gpot := 2; N_A_spike := 1; N_B_gpot := 1; N_B_spike := 0;
     idx_translate :=
       [("A", [(("gpot", 0), 0); (("gpot", 1), 2); (("spike", 0), 1)]);
        ("B", [(("gpot", 0), 0)])] |}.

(** A typed model: population A has two graded-potential units, at the
    indices 0 and 2, and one spiking unit, at the index 1. *)
Definition m_typed : Connectivity :=
  {| A_id := "A"; B_id := "B"; N_A := 3; N_B := 1; N_mult := 1;
     types := Some t_example; _data := [] |}.

(* ===================================================================== *)

(** The graph that [conn_to_graph] makes of [m_two]. *)
Definition g_two : MultiDiGraph :=
  {| node := [("A:0", []); ("B:0", []); ("B:1", [])];
     adj := [("A:0", [("B:0", [(0, [])]);
                      ("B:1", [(0, [("weight", one_half)])])]);
             ("B:0", []); ("B:1", [])] |}.

(* ===================================================================== *)
(** ** The claims on concrete inputs *)

(** C1. The round trip breaks on a model that uses slot 1 and not slot 0:
    line 111 adds the edge without its slot, so that it gets the key 0, and
    line 131 then looks for the key 1. It breaks as well on a model without
    connection: line 212 takes the maximum of an empty list. *)
Theorem round_trip_breaks :
  conn_to_graph (F := binary64) m_skipped_slot = inl (KeyError "1")
  /\ (g <- conn_to_graph (F := binary64) m_fresh ;;
      graph_to_conn g base_BaseConnectivity)
     = inl (ValueError "max() arg is an empty sequence").
Proof. split; reflexivity. Qed.

Lemma m_two_well_formed : well_formed m_two = true.
Proof. vm_compute. reflexivity. Qed.

Lemma m_two_graph : conn_to_graph (F := binary64) m_two = inr g_two.
Proof. reflexivity. Qed.

(** C2 on the spot: [m_two] is well-formed and has a parameter 'weight',
    its first pair of units is connected in slot 0, and the edge of that
    pair has no attribute 'weight'. *)
Lemma zero_parameter_not_copied :
  well_formed m_two = true
  /\ exists g, conn_to_graph (F := binary64) m_two = inr g
               /\ ~ attribute_iff_flag m_two g.
Proof.
  split; [ exact m_two_well_formed | ].
  exists g_two. split; [ exact m_two_graph | ].
  intros H.
  specialize (H 0 0 0 "A" "B" 0 "weight"%string eq_refl eq_refl).
  destruct H as [_ H].
  - vm_compute. auto.
  - discriminate.
  - apply H; reflexivity.
Qed.

Lemma edges_follow_flags_witness :
  exists g, conn_to_graph (F := binary64) m_two = inr g
    /\ (forall a i b j s,
          in_range i (size m_two a) = true -> in_range j (size m_two b) = true ->
          has_edge g (label a i) (label b j) s = conn_flag m_two a i b j s)
    /\ (forall a i b j s nm,
          in_range i (size m_two a) = true -> in_range j (size m_two b) = true ->
          nm <> "conn"%string ->
          edge_attr g (label a i) (label b j) s nm
          = if truthy (value_at m_two (a, b, s, nm) i j)
            then Some (value_at m_two (a, b, s, nm) i j) else None).
Proof. apply (edges_follow_flags m_two). vm_compute. reflexivity. Defined.

Lemma g_self_loop_run :
  graph_to_conn_run (F := binary64) g_self_loop base_BaseConnectivity
  = Raised (ValueError "graph must be bipartite") false.
Proof. reflexivity. Qed.

(** C3 on the spot: the label X is not parsed and the edge from X to X
    makes the graph fail the test of line 158, whose exception comes
    first. *)
Lemma bipartite_test_comes_first :
  ~ checks_in_order g_self_loop base_BaseConnectivity.
Proof.
  intros (H & _).
  specialize (H [] "X"%string [] eq_refl (Forall_nil _) eq_refl).
  rewrite g_self_loop_run in H. discriminate.
Qed.

Lemma first_violation_reported_witness :
  checks_in_order g_three base_BaseConnectivity.
Proof. apply (first_violation_reported g_three). vm_compute. reflexivity. Defined.

(** C4. The graph of two nodes without edge is not given [N_mult = 1]: line
    212 raises on the empty list, for either kind of connectivity object. *)
Theorem edgeless_graph_raises :
  graph_to_conn_run (F := binary64) g_edgeless base_BaseConnectivity
  = Raised (ValueError "max() arg is an empty sequence") false
  /\ graph_to_conn_run (F := binary64) g_edgeless_typed core_Connectivity
     = Raised (ValueError "max() arg is an empty sequence") false.
Proof. split; reflexivity. Qed.

Lemma m_typed_well_formed : well_formed m_typed = true.
Proof. vm_compute. reflexivity. Qed.

Lemma neuron_type_follows_translation_witness :
  exists g, conn_to_graph (F := binary64) m_typed = inr g
    /\ node_attr g "A:0" "neuron_type" = Some (PyStr "gpot")
    /\ node_attr g "A:2" "neuron_type" = Some (PyStr "gpot")
    /\ node_attr g "A:1" "neuron_type" = Some (PyStr "spike").
Proof.
  destruct (neuron_type_follows_translation m_typed t_example
              m_typed_well_formed eq_refl) as (g & Hrun & HA & _).
  exists g. split; [ exact Hrun | ].
  split; [ exact (HA 0 eq_refl) | ].
  split; [ exact (HA 2 eq_refl) | exact (HA 1 eq_refl) ].
Defined.

Lemma c_parallel_returned :
  graph_to_conn (F := binary64) g_parallel base_BaseConnectivity = inr c_parallel.
Proof. reflexivity. Qed.

Lemma g_parallel_well_labelled : edges_well_labelled g_parallel = true.
Proof. vm_compute. reflexivity. Qed.


(** The two values of C6: the integer 5 and the float nearest to 0.3. *)
Example id_and_weight_decoded :
  value_at c_parallel ("A", "B", 0, "id")%string 0 0 = PyInt 5
  /\ value_at c_parallel ("A", "B", 0, "weight")%string 0 0
     = PyFloat (SpecFloat.S754_finite false 5404319552844595 (-54)).
Proof. split; reflexivity. Qed.

Lemma g_triangle_run :
  graph_to_conn_run (F := binary64) g_triangle base_BaseConnectivity
  = Raised (ValueError "graph must be bipartite") false.
Proof. reflexivity. Qed.

(** C7 on the spot: the labels of the triangle parse and show three ids,
    and the graph is refused by the test of line 158, not by the count of
    line 178. *)
Lemma triangle_refused_by_search :
  ~ (Forall parses (nodes g_triangle) ->
     distinct (label_prefixes g_triangle) <> 2%nat ->
     graph_to_conn_run (F := binary64) g_triangle base_BaseConnectivity
     = Raised not_bipartite_error false).
Proof.
  intros H. rewrite g_triangle_run in H.
  assert (E : Raised (ValueError "graph must be bipartite") false
              = Raised not_bipartite_error false).
  { apply H.
    - repeat constructor; unfold parses; vm_compute; discriminate.
    - vm_compute. lia. }
  discriminate.
Qed.

Lemma prefix_count_decides_witness :
  graph_to_conn_run (F := binary64) g_three base_BaseConnectivity
  = Raised not_bipartite_error false.
Proof.
  apply (prefix_count_decides g_three base_BaseConnectivity).
  - vm_compute. reflexivity.
  - repeat constructor; unfold parses; vm_compute; discriminate.
  - vm_compute. lia.
Defined.

Lemma zero_two_not_consecutive : ~ consecutive [0; 2].
Proof.
  intros [n Hn].
  assert (H2 : 0 <= 2 < n) by (apply Hn; simpl; auto).
  assert (H1 : In 1 [0; 2]) by (apply Hn; lia).
  simpl in H1. lia.
Qed.

Lemma g_gap_alone_run :
  graph_to_conn_run (F := binary64) g_gap_alone base_BaseConnectivity
  = Raised not_bipartite_error false.
Proof. reflexivity. Qed.

(** C8 on the spot: with the nodes A:0 and A:2 alone the count of line 178
    comes first. *)
Lemma gap_alone_refused_by_count :
  ~ ((exists p, In p (label_prefixes g_gap_alone)
                /\ ~ consecutive (indices g_gap_alone p)) ->
     graph_to_conn_run (F := binary64) g_gap_alone base_BaseConnectivity
     = Raised non_consecutive_error false).
Proof.
  intros H. rewrite g_gap_alone_run in H.
  assert (E : Raised not_bipartite_error false
              = Raised non_consecutive_error false).
  { apply H. exists "A"%string. split; [ left; reflexivity | ].
    exact zero_two_not_consecutive. }
  discriminate.
Qed.

Lemma gap_refused_witness :
  graph_to_conn_run (F := binary64) g_gap base_BaseConnectivity
  = Raised non_consecutive_error false.
Proof.
  apply (gap_refused g_gap base_BaseConnectivity).
  - vm_compute. reflexivity.
  - repeat constructor; unfold parses; vm_compute; discriminate.
  - vm_compute. reflexivity.
  - exists "A"%string. split; [ left; reflexivity | exact zero_two_not_consecutive ].
Defined.

Lemma g_negative_run :
  graph_to_conn_run (F := binary64) g_negative base_BaseConnectivity
  = Raised non_consecutive_error false.
Proof. reflexivity. Qed.

(** C9 on the spot: the index of A:-1 is not a non-negative integer, and
    the exception is the one of line 187. *)
Lemma negative_index_not_a_label_error :
  ~ (forall l, In l (nodes g_negative) -> ~ proper_label l ->
       graph_to_conn_run (F := binary64) g_negative base_BaseConnectivity
       = Raised (label_error l) false).
Proof.
  intros H.
  assert (E : graph_to_conn_run (F := binary64) g_negative base_BaseConnectivity
              = Raised (label_error "A:-1") false).
  { apply H; [ left; reflexivity | ].
    intros (id & z & Hp & Hz). vm_compute in Hp. injection Hp as _ <-. lia. }
  rewrite g_negative_run in E. discriminate.
Qed.

Lemma unmatched_label_refused_witness :
  graph_to_conn_run (F := binary64) g_unmatched base_BaseConnectivity
  = Raised (label_error "X") false.
Proof.
  apply (unmatched_label_refused g_unmatched base_BaseConnectivity
           ["A:0"%string] "X" ["B:0"%string]).
  - vm_compute. reflexivity.
  - reflexivity.
  - repeat constructor; unfold parses; vm_compute; discriminate.
  - reflexivity.
Defined.

Lemma c_conn_attr_returned :
  graph_to_conn (F := binary64) g_conn_attr base_BaseConnectivity
  = inr c_conn_attr.
Proof. reflexivity. Qed.

Lemma c_two_labels_returned :
  graph_to_conn (F := binary64) g_two_labels base_BaseConnectivity
  = inr c_two_labels.
Proof. reflexivity. Qed.

(** C10 on the spot. Both graphs are accepted. In the first the one edge
    from A:0 to B:0 has the attribute 'conn' with the value 0: line 239
    writes it where line 230 has written the flag, and slot 0 of the pair
    is left without flag. In the second A:0 and A:00 are two labels of one
    unit: the pair (A:0, B:0) has one edge, and the flag is set in slot 1 as
    well, by the second edge from A:00. *)
Lemma flag_lost_or_shared :
  ~ flags_in_first_slots g_conn_attr base_BaseConnectivity
  /\ ~ flags_in_first_slots g_two_labels base_BaseConnectivity.
Proof.
  split; intros H.
  - assert (Hs := H c_conn_attr "A:0"%string "B:0"%string "A"%string 0
                    "B"%string 0 [(0, [("conn"%string, PyInt 0)])]
                    c_conn_attr_returned (or_introl eq_refl)
                    eq_refl eq_refl eq_refl 0).
    assert (Hf : conn_flag c_conn_attr "A" 0 "B" 0 0 = false)
      by (vm_compute; reflexivity).
    rewrite Hf in Hs. destruct Hs as [ _ Hs ].
    assert (Hk : false = true) by (apply Hs; simpl; lia).
    discriminate Hk.
  - assert (Hs := H c_two_labels "A:0"%string "B:0"%string "A"%string 0
                    "B"%string 0 [(0, [])]
                    c_two_labels_returned (or_introl eq_refl)
                    eq_refl eq_refl eq_refl 1).
    assert (Hf : conn_flag c_two_labels "A" 0 "B" 0 1 = true)
      by (vm_compute; reflexivity).
    rewrite Hf in Hs. destruct Hs as [ Hs _ ].
    specialize (Hs eq_refl). simpl in Hs. lia.
Qed.

Lemma slots_renumbered_from_zero_witness :
  (conn_flag c_parallel "A" 0 "B" 0 0 = true <-> 0 <= 0 < 2)
  /\ (conn_flag c_parallel "A" 0 "B" 0 1 = true <-> 0 <= 1 < 2)
  /\ (conn_flag c_parallel "A" 0 "B" 0 2 = true <-> 0 <= 2 < 2).
Proof.
  assert (H : forall s : Z,
            conn_flag c_parallel "A" 0 "B" 0 s = true <-> 0 <= s < 2).
  { apply (slots_renumbered_from_zero g_parallel base_BaseConnectivity c_parallel
             "A:0" "B:0" "A" 0 "B" 0
             [(5, [("id", PyStr "5"); ("weight", PyStr "0.3")]); (9, [])]
             g_parallel_well_labelled c_parallel_returned);
      try reflexivity; left; reflexivity. }
  exact (conj (H 0) (conj (H 1) (H 2))).
Defined.

(* ===================================================================== *)
(** ** Further properties on concrete inputs *)

(** The graph [g_parallel] with a neuron type on both nodes. *)
Definition g_parallel_typed : MultiDiGraph :=
  {| node := [("A:0", [("neuron_type", PyStr "gpot")]);
              ("B:0", [("neuron_type", PyStr "spike")])];
     adj := adj g_parallel |}.

Definition c_parallel_typed : Connectivity :=
  model_of (graph_to_conn (F := binary64) g_parallel_typed core_Connectivity).

(** One edge from A:0 to B:0 with a weight given as text. *)
Definition g_weighted : MultiDiGraph :=
  {| node := [("A:0", []); ("B:0", [])];
     adj := [("A:0", [("B:0", [(0, [("weight", PyStr "0.5")])])]);
             ("B:0", [])] |}.

Lemma label_read_back_witness :
  parse_label (label "a:b" 7) = Some ("a:b"%string, 7)
  /\ edge_end (label "a:b" 7) = None
  /\ parse_label (label "A" 7) = Some ("A"%string, 7)
  /\ edge_end (label "A" 7) = Some ("A"%string, 7).
Proof.
  destruct (label_read_back "a:b" 7) as [H1 H2];
    [ discriminate | reflexivity | ].
  destruct (label_read_back "A" 7) as [H3 H4];
    [ discriminate | reflexivity | ].
  exact (conj H1 (conj H2 (conj H3 H4))).
Defined.

Lemma base_ignores_node_attributes_witness :
  graph_to_conn (F := binary64) g_parallel_typed base_BaseConnectivity
  = graph_to_conn g_parallel base_BaseConnectivity.
Proof.
  apply (base_ignores_node_attributes g_parallel_typed g_parallel); reflexivity.
Defined.

Lemma entries_come_from_edges_witness :
  exists u v kd, In (u, v) (edges g_parallel)
    /\ edge_end u = Some ("A"%string, 0) /\ edge_end v = Some ("B"%string, 0)
    /\ getitem2 g_parallel u v = inr kd
    /\ 0 <= 1 < Z.of_nat (length kd).
Proof.
  apply (entries_come_from_edges g_parallel base_BaseConnectivity c_parallel
           "A" "B" "conn" 1 0 0 c_parallel_returned).
  assert (V : value_at c_parallel ("A", "B", 1, "conn")%string 0 0 = PyInt 1)
    by reflexivity.
  rewrite V. discriminate.
Defined.

Lemma N_mult_is_largest_multiplicity_witness :
  (forall u v kd, In (u, v) (edges g_parallel) -> getitem2 g_parallel u v = inr kd ->
     (length kd <= N_mult c_parallel)%nat)
  /\ exists u v kd, In (u, v) (edges g_parallel) /\ getitem2 g_parallel u v = inr kd
                    /\ length kd = N_mult c_parallel.
Proof.
  exact (N_mult_is_largest_multiplicity g_parallel base_BaseConnectivity c_parallel
           c_parallel_returned).
Defined.

Lemma sizes_count_the_indices_witness :
  A_id c_parallel <> B_id c_parallel
  /\ (forall p, In p (label_prefixes g_parallel)
                <-> p = A_id c_parallel \/ p = B_id c_parallel)
  /\ (forall k, In k (indices g_parallel (A_id c_parallel))
                <-> 0 <= k < Z.of_nat (N_A c_parallel))
  /\ (forall k, In k (indices g_parallel (B_id c_parallel))
                <-> 0 <= k < Z.of_nat (N_B c_parallel))
  /\ N_A c_parallel
     = length (nodup Z.eq_dec (indices g_parallel (A_id c_parallel)))
  /\ N_B c_parallel
     = length (nodup Z.eq_dec (indices g_parallel (B_id c_parallel))).
Proof.
  exact (sizes_count_the_indices g_parallel base_BaseConnectivity c_parallel
           c_parallel_returned).
Defined.

Lemma c_parallel_typed_returned :
  graph_to_conn (F := binary64) g_parallel_typed core_Connectivity
  = inr c_parallel_typed.
Proof. reflexivity. Qed.

Lemma typed_counts_witness :
  exists t, types c_parallel_typed = Some t
    /\ N_A_gpot t = 1%nat /\ N_A_spike t = 0%nat
    /\ N_B_gpot t = 0%nat /\ N_B_spike t = 1%nat
    /\ N_A c_parallel_typed = (N_A_gpot t + N_A_spike t)%nat
    /\ N_B c_parallel_typed = (N_B_gpot t + N_B_spike t)%nat.
Proof.
  exact (typed_counts g_parallel_typed c_parallel_typed c_parallel_typed_returned).
Defined.


Lemma edges_join_the_populations_witness :
  exists a i b j s,
    "A:0"%string = label a i /\ "B:1"%string = label b j
    /\ ((a = A_id m_two /\ b = B_id m_two) \/ (a = B_id m_two /\ b = A_id m_two))
    /\ in_range i (size m_two a) = true /\ in_range j (size m_two b) = true
    /\ conn_flag m_two a i b j s = true.
Proof.
  apply (edges_join_the_populations m_two g_two "A:0" "B:1"
           m_two_well_formed m_two_graph).
  simpl. auto.
Defined.

Lemma encoded_graph_is_bipartite_witness :
  exists g, conn_to_graph (F := binary64) m_two = inr g /\ nx_is_bipartite g = true.
Proof. exact (encoded_graph_is_bipartite m_two m_two_well_formed). Defined.

Lemma well_formed_graph_is_accepted_witness :
  exists c, graph_to_conn (F := binary64) g_weighted base_BaseConnectivity = inr c.
Proof.
  apply (well_formed_graph_is_accepted g_weighted base_BaseConnectivity).
  - apply tidyb_tidy. reflexivity.
  - reflexivity.
  - repeat constructor; unfold parses; simpl; discriminate.
  - reflexivity.
  - intros p Hp. exists 1. intros k.
    assert (E : indices g_weighted p = [0]).
    { simpl in Hp. destruct Hp as [ <- | [ <- | [] ] ]; reflexivity. }
    rewrite E. simpl. lia.
  - intros E. discriminate E.
  - discriminate.
  - intros u v Huv. simpl in Huv. destruct Huv as [ E | [] ].
    injection E as <- <-. exists "A"%string, 0, "B"%string, 0.
    repeat split; try discriminate; simpl; auto.
  - intros u v kd k a' name val Huv Hkd Hk Hval.
    simpl in Huv. destruct Huv as [ E | [] ]. injection E as <- <-.
    assert (E : keydict g_weighted "A:0" "B:0"
                = Some [(0, [("weight"%string, PyStr "0.5")])]) by reflexivity.
    rewrite E in Hkd. injection Hkd as <-.
    simpl in Hk. destruct (eq_dec k 0); [ | discriminate ]. injection Hk as <-.
    simpl in Hval.
    destruct (eq_dec name "weight"%string) as [ -> | ]; [ | discriminate ].
    injection Hval as <-. unfold convertible. simpl.
    eexists. reflexivity.
Defined.

Lemma round_trip_witness :
  exists g c',
    conn_to_graph (F := binary64) m_two = inr g
    /\ graph_to_conn g base_BaseConnectivity = inr c'
    /\ (forall id, conn_N c' id = conn_N m_two id)
    /\ (forall a i b j s,
          in_range i (size m_two a) = true -> in_range j (size m_two b) = true ->
          conn_flag c' a i b j s = conn_flag m_two a i b j s)
    /\ (forall a i b j s nm,
          in_range i (size m_two a) = true -> in_range j (size m_two b) = true ->
          nm <> "conn"%string ->
          if truthy (value_at m_two (a, b, s, nm) i j)
          then coerced nm (value_at m_two (a, b, s, nm) i j)
                 (value_at c' (a, b, s, nm) i j)
          else value_at c' (a, b, s, nm) i j = PyInt 0).
Proof.
  apply (round_trip m_two base_BaseConnectivity m_two_well_formed).
  - split; [ discriminate | reflexivity ].
  - split; [ discriminate | reflexivity ].
  - discriminate.
  - exists "A"%string, 0, "B"%string, 0, 0. repeat split.
  - intros a b s nm i j Hnm _ _ Htr.
    pose proof (truthy_key m_two _ _ _ Htr) as Hk.
    assert (E : dict_keys (_data m_two)
                = [("A", "B", 0, "conn"); ("A", "B", 0, "weight")]%string)
      by reflexivity.
    rewrite E in Hk. destruct Hk as [ Hk | [ Hk | [] ] ]; injection Hk as <- <- <- <-.
    + contradiction Hnm. reflexivity.
    + assert (V : value_at m_two ("A", "B", 0, "weight")%string i j
                  = if (Z.eqb i 0 && Z.eqb j 1)%bool then one_half else PyInt 0)
        by reflexivity.
      rewrite V in *. destruct (Z.eqb i 0 && Z.eqb j 1)%bool; [ | discriminate ].
      unfold convertible. simpl. eexists. reflexivity.
Defined.

Lemma untyped_graph_needs_base_kind_witness :
  exists g, conn_to_graph (F := binary64) m_two = inr g
    /\ graph_to_conn_run g core_Connectivity
       = Raised (KeyError "neuron_type") false.
Proof.
  apply (untyped_graph_needs_base_kind m_two m_two_well_formed).
  - split; [ discriminate | reflexivity ].
  - split; [ discriminate | reflexivity ].
  - reflexivity.
  - simpl. lia.
  - simpl. lia.
Defined.

Definition c_weighted : Connectivity :=
  model_of (graph_to_conn (F := binary64) g_weighted base_BaseConnectivity).

Lemma c_weighted_returned :
  graph_to_conn (F := binary64) g_weighted base_BaseConnectivity = inr c_weighted.
Proof. reflexivity. Qed.

Lemma graph_round_trip_witness :
  exists g', conn_to_graph c_weighted = inr g'
    /\ (forall l, In l (nodes g') <-> In l (nodes g_weighted))
    /\ (forall u v s, In u (nodes g_weighted) -> In v (nodes g_weighted) ->
          (has_edge g' u v s = true <-> 0 <= s < parallel g_weighted u v))
    /\ (forall u v kd s k a' nm val,
          In u (nodes g_weighted) -> In v (nodes g_weighted) ->
          keydict g_weighted u v = Some kd ->
          In (s, k) (enumerate (dict_keys kd)) ->
          dict_get k kd = Some a' -> dict_get nm a' = Some val ->
          exists x, coerced nm val x
                    /\ edge_attr g' u v s nm = if truthy x then Some x else None).
Proof.
  apply (graph_round_trip g_weighted c_weighted).
  - apply tidyb_tidy. reflexivity.
  - reflexivity.
  - intros l Hl. simpl in Hl. destruct Hl as [ <- | [ <- | [] ] ].
    + exists "A"%string, 0. repeat split. discriminate.
    + exists "B"%string, 0. repeat split. discriminate.
  - intros u v kd k a' nm val Hkd Hk Hval.
    unfold keydict in Hkd. simpl in Hkd.
    destruct (eq_dec u "A:0"%string) as [ -> | ].
    + simpl in Hkd. destruct (eq_dec v "B:0"%string); [ | discriminate ].
      injection Hkd as <-. simpl in Hk.
      destruct (eq_dec k 0); [ | discriminate ]. injection Hk as <-.
      simpl in Hval.
      destruct (eq_dec nm "weight"%string) as [ -> | ]; [ | discriminate ].
      split; reflexivity.
    + destruct (eq_dec u "B:0"%string); discriminate.
  - exact c_weighted_returned.
Defined.

(** A population id with a colon: the node a:b:0 with an edge to c:0. *)
Definition g_colon : MultiDiGraph :=
  {| node := [("a:b:0", []); ("c:0", [])];
     adj := [("a:b:0", [("c:0", [(0, [])])]); ("c:0", [])] |}.

Lemma colon_in_id_raises_late_witness :
  graph_to_conn_run (F := binary64) g_colon base_BaseConnectivity
  = Raised (ValueError "too many values to unpack") true.
Proof.
  apply (colon_in_id_raises_late g_colon base_BaseConnectivity
           "a:b:0" "c:0" []).
  - apply tidyb_tidy. reflexivity.
  - reflexivity.
  - repeat constructor; unfold parses; simpl; discriminate.
  - reflexivity.
  - intros p Hp. exists 1. intros k.
    assert (E : indices g_colon p = [0]).
    { simpl in Hp. destruct Hp as [ <- | [ <- | [] ] ]; reflexivity. }
    rewrite E. simpl. lia.
  - intros E. discriminate E.
  - reflexivity.
  - simpl. discriminate.
Defined.

(** A typed model whose table has no entry for the second
    graded-potential unit of population A. *)
Definition m_table_gap : Connectivity :=
  {| A_id := "A"; B_id := "B"; N_A := 2; N_B := 1; N_mult := 1;
     types := Some {| N_A_gpot := 2; N_A_spike := 0;
                      N_B_gpot := 1; N_B_spike := 0;
                      idx_translate := [("A", [(("gpot", 0), 0)]);
                                        ("B", [(("gpot", 0), 0)])] |};
     _data := [] |}.

Lemma incomplete_table_raises_witness :
  exists k, conn_to_graph (F := binary64) m_table_gap = inl (KeyError k).
Proof.
  eapply (incomplete_table_raises m_table_gap); [ reflexivity | ].
  left. exists 1. split; [ simpl; auto | reflexivity ].
Defined.

(** A model whose first population is empty. *)
Definition m_empty_A : Connectivity := new_BaseConnectivity 0 1 1 "A" "B".

Lemma empty_population_is_refused_witness :
  exists g, conn_to_graph (F := binary64) m_empty_A = inr g
    /\ graph_to_conn_run g base_BaseConnectivity
       = Raised (ValueError "incorrectly formatted graph") false.
Proof.
  apply (empty_population_is_refused m_empty_A base_BaseConnectivity).
  - reflexivity.
  - split; [ discriminate | reflexivity ].
  - split; [ discriminate | reflexivity ].
  - left. reflexivity.
Defined.

Lemma edgeless_graph_is_refused_witness :
  graph_to_conn_run (F := binary64) g_edgeless_typed core_Connectivity
  = Raised (ValueError "max() arg is an empty sequence") false.
Proof.
  apply (edgeless_graph_is_refused g_edgeless_typed core_Connectivity).
  - reflexivity.
  - repeat constructor; unfold parses; simpl; discriminate.
  - reflexivity.
  - intros p Hp. exists 1. intros k.
    assert (E : indices g_edgeless_typed p = [0]).
    { simpl in Hp. destruct Hp as [ <- | [ <- | [] ] ]; reflexivity. }
    rewrite E. simpl. lia.
  - intros _ l p n Hl Hp. simpl in Hl.
    destruct Hl as [ <- | [ <- | [] ] ]; injection Hp as <- <-; reflexivity.
  - reflexivity.
Defined.

Lemma unconnected_model_is_refused_witness :
  exists g, conn_to_graph (F := binary64) m_fresh = inr g /\ edges g = []
    /\ graph_to_conn_run g base_BaseConnectivity
       = Raised (ValueError "max() arg is an empty sequence") false.
Proof.
  apply (unconnected_model_is_refused m_fresh base_BaseConnectivity).
  - reflexivity.
  - split; [ discriminate | reflexivity ].
  - split; [ discriminate | reflexivity ].
  - simpl. lia.
  - simpl. lia.
  - discriminate.
  - reflexivity.
Defined.
